(* ===== verification/_CoqProject ===== *)
-Q . S2P
Prelude.v
External.v
Codec.v
Instances.v
Merkle.v
Effects.v
NetworkRetry.v
Chain.v
ChainInstances.v
Checkpoint.v
SolHeader.v
Claims.v
ProofJob.v
ProofQueue.v
Prover.v
Files.v
Daemon.v
LocalBackend.v
Services.v
Backend.v
ElectrsClient.v
Journal.v
Transition.v
Evidence.v
Commit.v
Recover.v
Pipeline.v
Progress.v
CatchUp.v
Archive.v
PipelineInstances.v
ProgressInstances.v
TestsQueue.v
TestsPipeline.v
Cli.v
KvqBase.v
KvqStore.v
KvqArc.v
KvqCache.v
KvqAdapter.v
KvqAsync.v
KvqAdapterTraits.v
JobId.v
ProofStore.v
ProofStoreAsync.v
ProofStoreTraits.v
TreePlanner.v
CoreUtils.v
QueueTraits.v
Text.v
WorkerTraits.v
Timers.v
