(* ===== verification/Prelude.v ===== *)
(** * Doge-Solana IBC services: the verification library

    The repository owns the [doge_block_pipeline] service: it follows finalized
    Dogecoin blocks, builds the deposit witness of each, has an SP1 prover prove
    the bridge transition, uploads the mint and TXO buffers, submits one block
    update per block to the Solana bridge program through a sender, completes
    the mints, and keeps a checkpoint in Redis and proof evidence on disk.  Its
    crates are [qed_dsol_ibc_node_common] (the pipeline), [qed_dsol_bridge_core]
    (job identifiers, queues, codecs) and [kvq] (key-value stores).

    ** How the code is modelled

    A fallible function returns an [outcome] (this file): a value, an error, a
    panic, or out of fuel.  An effectful one is a [prog] over an abstract world
    ([Effects]): it also returns every world it passes through, so that "a crash
    at any point" is a quantifier over [crash_points], and [triple] is a program
    logic with a condition on each of them.  Machine integers are [N] with the
    range of their type in the well-formedness predicates, and every checked,
    saturating or wrapping operation written out ([checked_add], [saturating_add],
    [wrapping_add]); arithmetic the code leaves unchecked wraps, as in a release
    build.  Bytes are [list byte]; strings are [string], or lists of scalar
    values where the code looks at characters; a BTreeMap is a [gmap].  Names
    are those of the source.

    Code that is not in the repository is a class of operations ([External],
    [Services], [Files], [Chain], [Claims], [Transition], [Evidence]), and what is
    documented of it and relied upon is a class of laws, so that a theorem names
    what it needs.  [Instances], [ChainInstances], [PipelineInstances] and [ProgressInstances] give
    executable instances that satisfy the laws; the witnesses run the code there.

    Components of the repository meet through classes too.  The pipeline is
    written against [Checkpoint.Electrs] and [Services.ProofService]:
    [ElectrsClient.client_electrs] and [Backend.backend_service] are their
    implementations, and are shown to be quiet, that is, to keep away from the
    pipeline's keys.  That rests on [Services.PlainKey]: the keys of the
    checkpoint and its journal hold no colon, every key of the proof queue does.
    The typed adapters are written against the store traits, and proved against
    the stores' laws ([KvqStore.StoreView], [KvqAsync.SharedStore]).

    ** The parts

    The pipeline, [qed_dsol_ibc_node_common/src/block_pipeline.rs] unless said:
    - [Merkle]: the Bitcoin transaction tree, the sparse history trees, frontiers;
    - [NetworkRetry]: [network_retry.rs], and the response handling of
      [sol_submitter.rs] and [doge_link_rpc_async.rs];
    - [ElectrsClient]: every request of [doge_link_rpc_async.rs], and the
      conversion of its blocks to the light client's;
    - [Chain]: profiles, configuration and its validation, light-client types;
    - [Checkpoint]: the checkpoint, its validation and its initialisation;
    - [SolHeader]: the 320-byte header of the bridge program;
    - [Claims]: deposit scanning, claim witnesses, finalized buffers and payloads;
    - [ProofJob], [ProofQueue]: [proof_queue.rs], the job, its identity, the Redis
      lease state machine, submission and waiting, the local job runner;
    - [Prover], [Daemon], [LocalBackend]: the gen-proof daemon's line protocol and
      response checks, the daemon as a process, and the local backend's task;
    - [Backend]: [ProofBackend], the choice between the local task and the queue;
    - [Files], [Evidence]: text artifacts, the bundle hash, the atomic manifest;
    - [Journal], [Transition], [Commit], [Recover]: the recovery decision,
      [prepare_height], [commit_prepared] with its three journals, and
      [reconcile_checkpoint_journal];
    - [Pipeline]: [initialize], [poll_once], [run], which compose all of these;
      [Progress], [CatchUp]: what they do when the services answer;
    - [Archive]: the recover command, and [read_fixed] of the binary;
    - [Cli]: [bin/doge_block_pipeline.rs], from the arguments to either command;
    - [TestsQueue], [TestsPipeline]: the unit tests of [network_retry.rs],
      [proof_queue.rs] and [block_pipeline.rs], run on the model.

    The stores, [kvq/src]: [KvqBase] (key order, fuzzy bounds, codecs), [KvqStore]
    (the traits as classes, the BTreeMap store, the lock wrapper), [KvqArc] (its
    shared version, with a heap of cells), [KvqCache] (the write-back cache),
    [KvqAdapter] (the typed adapter over any store that keeps the laws),
    [KvqAsync] (the async traits and adapter, on a store other tasks also use),
    [KvqAdapterTraits] (the traits of adapters, and what an adapter promises).

    The core, [qed_dsol_bridge_core/src]: [JobId] ([job/id.rs], [job/mode.rs]),
    [ProofStore] ([job/proof_store.rs]), [ProofStoreAsync] (the asynchronous provided
    methods of [job/traits.rs]), [ProofStoreTraits] (its traits, its writers and its
    dummy store), [TreePlanner] ([utils/tree_planner.rs]), [CoreUtils]
    ([data/varuint.rs], [data/scrypt_proof.rs], the hashes, the queue metadata,
    [utils]), [QueueTraits] (the traits of [job/drain_queue.rs] and
    [job/history_queue.rs], the channels of [config/network_constants.rs]), [Text]
    (hex text, byte wrappers and their serde), [WorkerTraits] ([job/worker_queue.rs],
    [job/g16_scrypt_traits.rs], the stores of [data/state.rs], the circuit provers of
    [job/traits.rs]), [Timers] ([utils/debug_timer.rs], [utils/trace_timer.rs]).
    [job/proof_store.rs], [job/traits.rs] and [tree_planner.rs] are commented out of
    their [mod.rs]: the tree keeps them, the crate does not compile them.

    ** What is shown

    - Crash safety: a commit moves through the states of an abstract
      specification ([Commit.recoverable]: the checkpoint on chain and the mints
      done are determined by what is stored), recovery from any of them ends
      with the checkpoint that is on chain and its mints done, polling commits
      blocks in order, and a start-up after any crash resumes ([Commit],
      [Recover], [Pipeline]); the recover command changes one key ([Archive]);
      when the services answer and the blocks can be prepared, the polls reach the
      finalized tip, and a start-up after any crash returns; the pipeline it
      returns catches up too, if its checkpoint is one the blocks follow from
      ([Progress], [CatchUp]).  Of the bridge program this asks that the buffer of
      a block with no claimed mint is processed in full and counted, and, after a
      crash, that the buffer of a journal whose block is on chain is completed,
      whatever is counted then;
      over any sequence of runs and recoveries of the binary, each stopped
      anywhere, what is stored stays recoverable ([Cli]).
    - What a transition is: the block of its height on the checkpoint's state,
      agreeing with the guest, its job bound to its parent ([Transition],
      [ProofJob]); the header's fields ([SolHeader]); the paths and frontiers
      authenticate what they should ([Merkle], [Checkpoint], [Claims]).
    - The lease protocol: one holder at a time, ends are final, submission is
      idempotent, results are durable ([ProofQueue]); the daemon is the configured
      program, its proofs are accepted by the job's client just when they name the
      job's ELF file and spell its key, a failed start leaves no process ([Prover], [Daemon]); tickets are served in order and none waits
      forever ([LocalBackend]); either backend answers a job with a proof of that
      job and leaves the checkpoints alone ([Backend]).
    - The Electrs client returns the blocks the node serves, decoded, at the
      heights asked for ([ElectrsClient]).
    - Retries: what is repeated, how often, for how long ([NetworkRetry]).
    - Evidence: the hash binds the files, the pointer is replaced atomically.
    - Stores: every store implements its abstract map, the cache refines its
      writes, the adapter is well typed and its queries are numeric; the async
      adapter is the synchronous one when alone, and well typed when not; any
      adapter writes many pairs alike in a batch and one by one; a crash leaves a
      prefix of a job tree's levels, which every kind of store writes alike; codecs
      round-trip ([Kvq*], [JobId], [ProofStoreAsync], [ProofStoreTraits],
      [CoreUtils], [Text]).
    - Timers: laps do not count time twice ([Timers]).
    - The repository's own tests pass on the model ([queue_tests_pass],
      [pipeline_tests_pass]): a check that it is the program they describe.

    Some theorems show where the code does not do what it says: the start height
    of 1,000,000 ([Checkpoint]), an [0x] prefix of the verifying key ([Prover]),
    the race of [wait_result] ([ProofQueue]), zero confirmations ([Transition]),
    resumed mints ([Commit]), stale cache reads ([KvqCache]), [with_ps_prefix]
    and a dummy aggregate that is its own parent ([JobId]), the panic of
    [from_hex_string] on a wrong length ([Text]).

    ** Fuel

    Loops that are not structural take fuel, and a theorem says how much is
    enough: the level loops of [Merkle] as many as levels fit a list, shown
    total for every input; [retry_fuel] the attempt cap of the default policy
    ([run_policy_spec]); for a deadline a bound from the clock's progress
    ([run_deadline_terminates]); [prepare_ahead] the free window slots
    ([prepare_ahead_fuel]); [wait_result] the polls until the result is readable;
    [TreePlanner.plan_loop] the number of leaves ([planner_covers]).

    ** Not modelled

    The cryptography, the light client, the SP1 guest, the Solana programs, Redis
    and HTTP are third-party: classes with laws.  The Redis scripts of
    [proof_queue.rs] are modelled, their atomicity is Redis's.  Tokio's tasks and
    channels appear where their order matters ([Pipeline.RunEvent], the watchdog,
    [ProofQueue]'s and [LocalBackend]'s interleaved steps) and not otherwise.
    Processes and pipes are an interface ([Daemon.Processes]).  While a client
    of the local backend waits, [Backend] runs the task it waits for; other
    schedules of the two are the steps of [LocalBackend].  The construction of
    clients, pools and the runtime, clap's parsing and serde's derived visitors
    are glue, as are random values, derived serde and [Display] texts.  The traits
    of [WorkerTraits] and [QueueTraits] are interfaces that nothing in the
    repository implements, or only a dummy does: there is no behaviour to verify
    beyond the dummy's.  [secp256k1.rs] repeats the helpers of [binary_helpers.rs],
    and [proof_store.rs] the writers of [job/traits.rs]: they are modelled once.
    The type aliases of [network_constants.rs] name light-client types.  Of the
    tests, those on values of the real SHA-256 or on a live network are left out. *)

From stdpp Require Export base tactics decidable countable list gmap strings option numbers.
From stdpp Require Export fin_maps.
From Stdlib Require Export NArith ZArith Lia.
From Stdlib Require Export Strings.Byte.


(** ** Errors and outcomes

    [anyhow::Error] is the error type of nearly every fallible function.  A
    [bail!]/[anyhow!] site is represented by its format string (the holes are
    not instantiated); an error of a library call propagated with [?] by the
    name of the library.  [ProverRequestError] is the one concrete type the
    code downcasts to.  [Panic] is what a failed [expect], an out-of-range
    index or a length-mismatched [copy_from_slice] does.  [OutOfFuel] is the
    result of a loop whose fuel ran out: no run of the code corresponds to it,
    so a theorem that a computation [returns] says both that it does not panic
    and that its loops terminate within the fuel given. *)
Inductive error :=
| Anyhow (site : string)
| ProverRequestErr (site : string)
| External (library : string).

#[export] Instance error_eq_dec : EqDecision error.
Proof. solve_decision. Defined.

Inductive outcome (A : Type) :=
| Ok (a : A)
| Err (e : error)
| Panic (site : string)
| OutOfFuel.
Arguments Ok {_} _.
Arguments Err {_} _.
Arguments Panic {_} _.
Arguments OutOfFuel {_}.

#[export] Instance outcome_eq_dec `{EqDecision A} : EqDecision (outcome A).
Proof. solve_decision. Defined.

#[export] Instance outcome_ret : MRet outcome := fun A a => Ok a.
#[export] Instance outcome_bind : MBind outcome := fun A B f m =>
  match m with
  | Ok a => f a
  | Err e => Err e
  | Panic s => Panic s
  | OutOfFuel => OutOfFuel
  end.
#[export] Instance outcome_fmap : FMap outcome := fun A B f m =>
  match m with
  | Ok a => Ok (f a)
  | Err e => Err e
  | Panic s => Panic s
  | OutOfFuel => OutOfFuel
  end.

Definition is_ok {A} (m : outcome A) : bool :=
  match m with Ok _ => true | _ => false end.
Definition returns {A} (m : outcome A) : bool :=
  match m with Ok _ | Err _ => true | Panic _ | OutOfFuel => false end.

(** [if c { bail!(site) }] *)
Definition bail_when (c : bool) (site : string) : outcome () :=
  if c then Err (Anyhow site) else Ok ().

(** [o.ok_or_else(|| anyhow!(site))?] *)
Definition ok_or {A} (o : option A) (e : error) : outcome A :=
  match o with Some a => Ok a | None => Err e end.

(** An [expect], an index or a slice operation that must succeed. *)
Definition expect {A} (o : option A) (site : string) : outcome A :=
  match o with Some a => Ok a | None => Panic site end.

Section outcome_lemmas.
Context {A B : Type}.
Implicit Types (m : outcome A) (f : A -> outcome B).

Lemma bind_Ok m f b : (m ≫= f = Ok b) <-> exists a, m = Ok a /\ f a = Ok b.
Proof. destruct m; simpl; split; naive_solver. Qed.

Lemma fmap_Ok m (g : A -> B) b : (g <$> m = Ok b) <-> exists a, m = Ok a /\ g a = b.
Proof. destruct m; unfold fmap, outcome_fmap; split; naive_solver. Qed.

Lemma bind_returns m f :
  returns m = true -> (forall a, m = Ok a -> returns (f a) = true) ->
  returns (m ≫= f) = true.
Proof. destruct m; simpl; eauto. Qed.

Lemma fmap_returns m (g : A -> B) : returns m = true -> returns (g <$> m) = true.
Proof. by destruct m. Qed.

Lemma bail_when_Ok c s u : bail_when c s = Ok u <-> c = false.
Proof. destruct c, u; unfold bail_when; naive_solver. Qed.

Lemma bail_when_returns c s : returns (bail_when c s) = true.
Proof. by destruct c. Qed.

Lemma ok_or_Ok (o : option A) e a : ok_or o e = Ok a <-> o = Some a.
Proof. destruct o; unfold ok_or; naive_solver. Qed.

Lemma ok_or_returns (o : option A) e : returns (ok_or o e) = true.
Proof. by destruct o. Qed.

Lemma expect_Ok (o : option A) s a : expect o s = Ok a <-> o = Some a.
Proof. destruct o; unfold expect; naive_solver. Qed.

Lemma Ok_inj (x y : A) : Ok x = Ok y -> x = y.
Proof. by intros [= ->]. Qed.

Lemma is_ok_true m : is_ok m = true <-> exists a, m = Ok a.
Proof. destruct m; naive_solver. Qed.
End outcome_lemmas.

(** [iter().map(f).collect::<Result<Vec<_>>>()]: stdpp's [mapM] at [outcome]. *)
Lemma mapM_Ok {A B} (f : A -> outcome B) (l : list A) (k : list B) :
  mapM f l = Ok k <-> Forall2 (fun x y => f x = Ok y) l k.
Proof.
  revert k. induction l as [|x l IH]; intros k; simpl.
  - split; [intros [= <-]; constructor | by inversion 1].
  - rewrite bind_Ok. split.
    + intros (y & Hy & Hk). rewrite bind_Ok in Hk. destruct Hk as (ys & Hys & [= <-]).
      constructor; [done|]. by apply IH.
    + inversion 1 as [|? y ? ys Hy Hys]; subst. exists y. split; [done|].
      apply bind_Ok. exists ys. split; [by apply IH|done].
Qed.

Lemma mapM_outcome_ext {A B} (f g : A -> outcome B) (l : list A) :
  (forall x, x ∈ l -> f x = g x) -> mapM f l = mapM g l.
Proof.
  induction l as [|x l IH]; intros H; [done|]. cbn [mapM]. rewrite (H x) by apply list_elem_of_here.
  by rewrite IH by (intros; apply H; by apply list_elem_of_further).
Qed.

Lemma mapM_Ok_length {A B} (f : A -> outcome B) l k : mapM f l = Ok k -> length k = length l.
Proof. rewrite mapM_Ok. intros ?. symmetry. by eapply Forall2_length. Qed.

Lemma mapM_returns {A B} (f : A -> outcome B) l :
  (forall x, returns (f x) = true) -> returns (mapM f l) = true.
Proof.
  intros Hf. induction l as [|x l IH]; simpl; [done|].
  apply bind_returns; [done|]. intros y _. apply bind_returns; [done|]. done.
Qed.

Lemma mapM_returns_elem {A B} (f : A -> outcome B) l :
  (forall x, x ∈ l -> returns (f x) = true) -> returns (mapM f l) = true.
Proof.
  induction l as [|x l IH]; intros Hf; simpl; [done|].
  apply bind_returns; [apply Hf, list_elem_of_here|]. intros y _. apply bind_returns; [|done].
  apply IH. intros z Hz. by apply Hf, list_elem_of_further.
Qed.

(** ** Automation

    [inv_ok] turns every hypothesis that a composed computation returned [Ok]
    into the facts that each of its steps did. *)
Ltac inv_ok_step :=
  match goal with
  | H : Ok _ = Ok _ |- _ => apply Ok_inj in H
  | H : Err _ = Ok _ |- _ => discriminate H
  | H : Panic _ = Ok _ |- _ => discriminate H
  | H : OutOfFuel = Ok _ |- _ => discriminate H
  | H : mret _ = Ok _ |- _ => apply Ok_inj in H
  | H : mbind _ _ = Ok _ |- _ =>
      let a := fresh "v" in let H1 := fresh "Hok" in
      apply bind_Ok in H; destruct H as (a & H1 & H)
  | H : fmap _ _ = Ok _ |- _ =>
      let a := fresh "v" in let H1 := fresh "Hok" in
      apply fmap_Ok in H; destruct H as (a & H1 & H)
  | H : bail_when _ _ = Ok ?u |- _ => apply bail_when_Ok in H; try clear u
  | H : ok_or _ _ = Ok _ |- _ => apply ok_or_Ok in H
  | H : expect _ _ = Ok _ |- _ => apply expect_Ok in H
  end.
Ltac inv_ok := repeat inv_ok_step; simplify_eq.

(** Boolean guards as propositions. *)
Ltac bool_hyps :=
  repeat match goal with
  | H : negb _ = true |- _ => apply negb_true_iff in H
  | H : negb _ = false |- _ => apply negb_false_iff in H
  | H : _ && _ = true |- _ => apply andb_true_iff in H; destruct H
  | H : _ || _ = false |- _ => apply orb_false_iff in H; destruct H
  | H : bool_decide _ = true |- _ => apply bool_decide_eq_true in H
  | H : bool_decide _ = false |- _ => apply bool_decide_eq_false in H
  | H : (_ =? _)%N = true |- _ => apply N.eqb_eq in H
  | H : (_ =? _)%N = false |- _ => apply N.eqb_neq in H
  | H : (_ <? _)%N = true |- _ => apply N.ltb_lt in H
  | H : (_ <? _)%N = false |- _ => apply N.ltb_ge in H
  | H : (_ <=? _)%N = true |- _ => apply N.leb_le in H
  | H : (_ <=? _)%N = false |- _ => apply N.leb_gt in H
  | H : (_ =? _)%nat = true |- _ => apply Nat.eqb_eq in H
  | H : (_ =? _)%nat = false |- _ => apply Nat.eqb_neq in H
  | H : (_ <? _)%nat = true |- _ => apply Nat.ltb_lt in H
  | H : (_ <? _)%nat = false |- _ => apply Nat.ltb_ge in H
  | H : String.eqb _ _ = true |- _ => apply String.eqb_eq in H
  | H : String.eqb _ _ = false |- _ => apply String.eqb_neq in H
  end.

(** A composed computation returns when each of its steps does. *)
Create HintDb returns.
#[export] Hint Resolve bail_when_returns ok_or_returns : returns.
Ltac solve_returns :=
  repeat lazymatch goal with
  | |- returns (mbind _ _) = true => apply bind_returns; [|intros ? ?]
  | |- returns (fmap _ _) = true => apply fmap_returns
  | |- returns (mapM _ _) = true => apply mapM_returns; intros ?
  | |- returns (mret _) = true => exact eq_refl
  | |- returns (Ok _) = true => exact eq_refl
  | |- returns (Err _) = true => exact eq_refl
  | |- returns (match _ with _ => _ end) = true => case_match
  | |- returns _ = true => solve [auto 2 with returns nocore]
  end.

(** [lia] with division and remainder by constants. *)
Ltac div_lia := zify; Z.to_euclidean_division_equations; lia.

Lemma N_div_succ n p : p <> 0%N -> ((n + 1) / p = n / p \/ (n + 1) / p = n / p + 1)%N.
Proof.
  intros Hp. pose proof (N.div_mod n p Hp) as E. pose proof (N.mod_lt n p Hp).
  destruct (decide (n mod p + 1 < p)%N).
  - left. symmetry. apply (N.div_unique _ _ _ (n mod p + 1)); lia.
  - right. symmetry. apply (N.div_unique _ _ _ 0); nia.
Qed.

(** ** Bytes *)
Abbreviation bytes := (list byte).

#[export] Instance byte_eq_dec : EqDecision byte := Byte.byte_eq_dec.

#[export] Program Instance byte_countable : Countable byte :=
  inj_countable Byte.to_N Byte.of_N _.
Next Obligation. intros b. apply Byte.of_to_N. Qed.

Definition byte_of_N (n : N) : byte := default x00 (Byte.of_N (n mod 256)).

Lemma byte_to_N_lt (b : byte) : (Byte.to_N b < 256)%N.
Proof. pose proof (Byte.to_N_bounded b). lia. Qed.

Lemma byte_to_of_N (n : N) : Byte.to_N (byte_of_N n) = (n mod 256)%N.
Proof.
  unfold byte_of_N. destruct (Byte.of_N (n mod 256)) as [b|] eqn:E; simpl.
  - by apply Byte.to_of_N.
  - apply Byte.of_N_None_iff in E. pose proof (N.mod_lt n 256). lia.
Qed.

Lemma byte_of_to_N (b : byte) : byte_of_N (Byte.to_N b) = b.
Proof.
  unfold byte_of_N. rewrite N.mod_small by apply byte_to_N_lt. by rewrite Byte.of_to_N.
Qed.

(** ** Machine integers

    A [u32]/[u64] is an [N]; a [usize] used as an index or a length is a
    [nat].  The operations write out what Rust does at the width. *)
Definition u8_max : N := 255.
Definition u32_max : N := 4294967295.
Definition u64_max : N := 18446744073709551615.

Definition checked_add (max a b : N) : option N :=
  if (a + b <=? max)%N then Some (a + b)%N else None.
Definition checked_sub (a b : N) : option N :=
  if (b <=? a)%N then Some (a - b)%N else None.
Definition saturating_add (max a b : N) : N := N.min (a + b) max.
Definition saturating_sub (a b : N) : N := (a - b)%N.
Definition wrapping_add (max a b : N) : N := ((a + b) mod (max + 1))%N.
(** [u32::try_from] on a length. *)
Definition u32_try_from (n : nat) : option N :=
  if (N.of_nat n <=? u32_max)%N then Some (N.of_nat n) else None.
(** [as u32]. *)
Definition as_u32 (n : N) : N := (n mod (u32_max + 1))%N.

Lemma checked_add_Some max a b c : checked_add max a b = Some c <-> (c = a + b /\ c <= max)%N.
Proof. unfold checked_add. destruct (N.leb_spec (a + b) max); split; intros E; simplify_eq; try lia; f_equal; lia. Qed.
Lemma checked_add_None max a b : checked_add max a b = None <-> (max < a + b)%N.
Proof. unfold checked_add. destruct (N.leb_spec (a + b) max); split; intros E; simplify_eq; lia || done. Qed.
Lemma checked_sub_Some a b c : checked_sub a b = Some c <-> (a = b + c)%N.
Proof. unfold checked_sub. destruct (N.leb_spec b a); split; intros E; simplify_eq; try lia; f_equal; lia. Qed.

(** ** Endian codecs: [to_le_bytes]/[from_le_bytes] and the big-endian pair *)
Fixpoint le_bytes (w : nat) (n : N) : bytes :=
  match w with
  | O => []
  | S w => byte_of_N n :: le_bytes w (n / 256)
  end.
Fixpoint le_value (bs : bytes) : N :=
  match bs with
  | [] => 0
  | b :: bs => Byte.to_N b + 256 * le_value bs
  end.
Definition be_bytes (w : nat) (n : N) : bytes := reverse (le_bytes w n).
Definition be_value (bs : bytes) : N := le_value (reverse bs).

Lemma le_bytes_length w n : length (le_bytes w n) = w.
Proof. revert n. induction w; intros; simpl; auto. Qed.
Lemma be_bytes_length w n : length (be_bytes w n) = w.
Proof. unfold be_bytes. by rewrite length_reverse, le_bytes_length. Qed.

Lemma le_value_bound bs : (le_value bs < 256 ^ N.of_nat (length bs))%N.
Proof.
  induction bs as [|b bs IH]; [done|].
  change (length (b :: bs)) with (S (length bs)).
  rewrite Nat2N.inj_succ, N.pow_succ_r'. simpl. pose proof (byte_to_N_lt b). lia.
Qed.

Lemma le_value_bytes w n : (n < 256 ^ N.of_nat w)%N -> le_value (le_bytes w n) = n.
Proof.
  revert n. induction w as [|w IH]; intros n Hn.
  - simpl in *. lia.
  - rewrite Nat2N.inj_succ, N.pow_succ_r' in Hn. simpl. rewrite byte_to_of_N, IH.
    + pose proof (N.div_mod n 256). lia.
    + apply N.Div0.div_lt_upper_bound. lia.
Qed.

Lemma le_bytes_value bs : le_bytes (length bs) (le_value bs) = bs.
Proof.
  induction bs as [|b bs IH]; [done|]. simpl. pose proof (byte_to_N_lt b).
  replace (byte_of_N (Byte.to_N b + 256 * le_value bs)) with b.
  - f_equal. rewrite N.mul_comm, N.div_add, N.div_small by lia. simpl. done.
  - unfold byte_of_N. rewrite N.mul_comm, N.Div0.mod_add, N.mod_small by lia.
    by rewrite Byte.of_to_N.
Qed.

Lemma be_value_bytes w n : (n < 256 ^ N.of_nat w)%N -> be_value (be_bytes w n) = n.
Proof. intros. unfold be_value, be_bytes. rewrite reverse_involutive. by apply le_value_bytes. Qed.
Lemma be_bytes_value bs : be_bytes (length bs) (be_value bs) = bs.
Proof.
  unfold be_bytes, be_value. rewrite <- (length_reverse bs), le_bytes_value.
  apply reverse_involutive.
Qed.
Lemma be_value_bound bs : (be_value bs < 256 ^ N.of_nat (length bs))%N.
Proof. unfold be_value. rewrite <- length_reverse. apply le_value_bound. Qed.

Lemma le_bytes_inj w a b :
  (a < 256 ^ N.of_nat w)%N -> (b < 256 ^ N.of_nat w)%N -> le_bytes w a = le_bytes w b -> a = b.
Proof. intros Ha Hb E. rewrite <- (le_value_bytes w a), <- (le_value_bytes w b), E; done. Qed.
Lemma be_bytes_inj w a b :
  (a < 256 ^ N.of_nat w)%N -> (b < 256 ^ N.of_nat w)%N -> be_bytes w a = be_bytes w b -> a = b.
Proof. intros Ha Hb E. apply (le_bytes_inj w); [done..|]. by apply (inj reverse). Qed.

Create HintDb codec.
#[export] Hint Rewrite le_bytes_length be_bytes_length @length_app @length_reverse @length_take
  @length_drop @length_cons : codec.

(** ** Slices *)

(** [bytes[lo..hi]], defined when [lo <= hi <= len] (Rust panics otherwise). *)
Definition slice {A} (l : list A) (lo hi : nat) : list A := take (hi - lo) (drop lo l).

(** [bytes[lo..hi].copy_from_slice(src)] when [hi - lo = src.len()] and
    [hi <= len]. *)
Definition splice {A} (l : list A) (lo hi : nat) (src : list A) : list A :=
  take lo l ++ src ++ drop hi l.

Lemma slice_length {A} (l : list A) lo hi : hi <= length l -> length (slice l lo hi) = hi - lo.
Proof. intros. unfold slice. rewrite length_take, length_drop. lia. Qed.

Lemma splice_length {A} (l : list A) lo hi src :
  lo <= hi -> hi <= length l -> length src = hi - lo -> length (splice l lo hi src) = length l.
Proof.
  intros. unfold splice. rewrite !length_app, length_take, length_drop. lia.
Qed.

Lemma slice_splice_eq {A} (l : list A) lo hi src :
  lo <= hi -> hi <= length l -> length src = hi - lo -> slice (splice l lo hi src) lo hi = src.
Proof.
  intros. unfold slice, splice. rewrite drop_app_length' by (rewrite length_take; lia).
  by rewrite take_app_length'.
Qed.

Lemma slice_splice_ne {A} (l : list A) lo hi src a b :
  lo <= hi -> hi <= length l -> length src = hi - lo -> b <= lo \/ hi <= a -> a <= b ->
  slice (splice l lo hi src) a b = slice l a b.
Proof.
  intros Hlo Hhi Hs Hd Hab. apply list_eq. intros i. unfold slice, splice.
  destruct (decide (i < b - a)) as [Hi|Hi].
  - rewrite !lookup_take_lt, !lookup_drop by lia.
    destruct Hd as [Hd|Hd].
    + rewrite lookup_app_l by (rewrite length_take; lia). by rewrite lookup_take_lt by lia.
    + rewrite lookup_app_r by (rewrite length_take; lia).
      rewrite length_take, lookup_app_r by lia. rewrite lookup_drop. f_equal. lia.
  - rewrite !lookup_take_ge by lia. done.
Qed.

(** Induction on a list two elements at a time. *)
Lemma list_pair_ind {A} (P : list A -> Prop) :
  P [] -> (forall a, P [a]) -> (forall a b l, P l -> P (a :: b :: l)) -> forall l, P l.
Proof.
  intros H0 H1 H2 l. enough (P l /\ forall a, P (a :: l)) by naive_solver.
  induction l as [|b l [IH1 IH2]]; split; auto.
Qed.

(** ** Strings *)
Lemma string_app_assoc (a b c : string) : (a +:+ b) +:+ c = a +:+ (b +:+ c).
Proof. induction a as [|x a IH]; [done|]. exact (f_equal (String x) IH). Qed.

(** [s.repeat(n)] *)
Fixpoint repeat_text (n : nat) (s : string) : string :=
  match n with O => "" | S n => s +:+ repeat_text n s end.

Lemma string_length_app (a b : string) : String.length (a +:+ b) = String.length a + String.length b.
Proof. induction a as [|x a IH]; [done|]. exact (f_equal S IH). Qed.

Lemma string_app_inj_r (a b c : string) : a +:+ c = b +:+ c -> a = b.
Proof.
  revert b. induction a as [|x a IH]; intros [|y b] E; [done| | |].
  1, 2: apply (f_equal String.length) in E; rewrite !string_length_app in E; cbn in E; lia.
  cbn in E. injection E as -> E. by rewrite (IH b).
Qed.
