(* ===== verification/External.v ===== *)
(** * Interfaces of the code that is not in the repository

    Every third-party operation the services call is an operation of one of
    these classes; what the code relies on is a law of a separate class, so a
    theorem says exactly which documented behaviour it needs.  The files
    [Instances], [ChainInstances] and [PipelineInstances] give instances that
    satisfy the laws. *)
From S2P Require Import Prelude.

(** The [hex] crate. *)
Class Hex := {
  hex_encode : bytes -> string;
  hex_decode : string -> option bytes;
}.

(** [value.bytes().any(|byte| byte.is_ascii_uppercase())], negated. *)
Definition is_ascii_uppercase (c : Ascii.ascii) : bool :=
  let n := Ascii.N_of_ascii c in ((65 <=? n) && (n <=? 90))%N.
Definition no_uppercase (s : string) : bool :=
  forallb (fun c => negb (is_ascii_uppercase c)) (String.list_ascii_of_string s).

Class HexLaws `{!Hex} := {
  hex_decode_encode b : hex_decode (hex_encode b) = Some b;
  (** encoding is lowercase, and the only lowercase text that decodes to [b] *)
  hex_encode_lower b : no_uppercase (hex_encode b) = true;
  hex_encode_decode s b : no_uppercase s = true -> hex_decode s = Some b -> hex_encode b = s;
  hex_encode_length b : String.length (hex_encode b) = 2 * length b;
}.

(** [hex::decode(..)?] *)
Definition hex_decode_ok `{!Hex} (s : string) : outcome bytes :=
  ok_or (hex_decode s) (External "hex").

Lemma hex_decode_ok_encode `{HexLaws} b : hex_decode_ok (hex_encode b) = Ok b.
Proof. unfold hex_decode_ok. by rewrite hex_decode_encode. Qed.

Lemma hex_encode_inj `{HexLaws} a b : hex_encode a = hex_encode b -> a = b.
Proof. intros E. apply (f_equal hex_decode) in E. rewrite !hex_decode_encode in E. congruence. Qed.

(** [serde_json] on a type with derived [Serialize]/[Deserialize]. *)
Class Json (A : Type) := {
  to_json : A -> option string;
  from_json : string -> option A;
}.
Class JsonLaws (A : Type) `{!Json A} := {
  json_round_trip (a : A) s : to_json a = Some s -> from_json s = Some a;
}.

Lemma to_json_inj `{JsonLaws A} (a b : A) s : to_json a = Some s -> to_json b = Some s -> a = b.
Proof. intros Ha Hb. apply json_round_trip in Ha, Hb. congruence. Qed.

(** [serde_json::to_string(..)?] and [serde_json::from_str(..)?] *)
Definition json_string `{Json A} (a : A) : outcome string := ok_or (to_json a) (External "serde_json").
Definition json_parse `{Json A} (s : string) : outcome A := ok_or (from_json s) (External "serde_json").

(** The bytes of a string. *)
Definition string_bytes (s : string) : bytes :=
  (fun c => byte_of_N (Ascii.N_of_ascii c)) <$> String.list_ascii_of_string s.

Lemma string_bytes_inj a b : string_bytes a = string_bytes b -> a = b.
Proof.
  intros E. rewrite <- (String.string_of_list_ascii_of_string a), <- (String.string_of_list_ascii_of_string b).
  f_equal. unfold string_bytes in E. revert E. apply list_fmap_eq_inj. intros x y E.
  apply (f_equal Byte.to_N) in E.
  rewrite !byte_to_of_N, !N.mod_small in E by apply Ascii.N_ascii_bounded.
  rewrite <- (Ascii.ascii_N_embedding x), <- (Ascii.ascii_N_embedding y). by f_equal.
Qed.

(** [doge_light_client::hash::sha256_impl] and
    [psy_doge_bridge_helper::utils::sha256_zero_hashes]. *)
Class Sha := {
  hash_impl_sha256_bytes : bytes -> bytes;
  hash_impl_sha256_two_to_one_bytes : bytes -> bytes -> bytes;
  hash_impl_btc_hash256_two_to_one_bytes : bytes -> bytes -> bytes;
  SHA256_ZERO_HASHES : list bytes;
}.
Class ShaLaws `{!Sha} := {
  sha256_length b : length (hash_impl_sha256_bytes b) = 32;
  sha256_two_to_one_length a b : length (hash_impl_sha256_two_to_one_bytes a b) = 32;
  zero_hashes_length z : z ∈ SHA256_ZERO_HASHES -> length z = 32;
  (** entry [k + 1] of the table is the hash of two copies of entry [k] *)
  zero_hashes_step k z z' :
    SHA256_ZERO_HASHES !! k = Some z -> SHA256_ZERO_HASHES !! S k = Some z' ->
    z' = hash_impl_sha256_two_to_one_bytes z z;
}.

(** [SHA256_ZERO_HASHES[k]]: a Rust array index. *)
Definition zero_hash `{!Sha} (k : nat) : outcome bytes :=
  expect (SHA256_ZERO_HASHES !! k) "SHA256_ZERO_HASHES index".
