(* ===== verification/Codec.v ===== *)
(** * A self-delimiting codec

    Byte encodings of the data types, built from combinators, from which the
    witnesses take concrete [serde_json], [speedy] and path-text functions that
    satisfy the round-trip laws.  No theorem depends on them. *)
From S2P Require Import Prelude External.

Class Codec (A : Type) := {
  put : A -> bytes -> bytes;
  get : bytes -> option (A * bytes);
  get_put a b : get (put a b) = Some (a, b);
}.

#[export] Instance codec_byte : Codec byte.
Proof.
  refine {| put x b := x :: b; get b := match b with x :: b => Some (x, b) | [] => None end |}.
  done.
Defined.

#[export] Instance codec_unit : Codec ().
Proof. refine {| put _ b := b; get b := Some ((), b) |}. by intros []. Defined.

Fixpoint put_pos (p : positive) (b : bytes) : bytes :=
  match p with
  | xH => x00 :: b
  | xO p => x01 :: put_pos p b
  | xI p => x02 :: put_pos p b
  end.
Fixpoint get_pos (b : bytes) : option (positive * bytes) :=
  match b with
  | x00 :: b => Some (xH, b)
  | x01 :: b => '(p, b) ← get_pos b; Some (xO p, b)
  | x02 :: b => '(p, b) ← get_pos b; Some (xI p, b)
  | _ => None
  end.
Lemma get_put_pos p b : get_pos (put_pos p b) = Some (p, b).
Proof. induction p as [p IH|p IH|]; cbn [put_pos get_pos]; [by rewrite IH..|done]. Qed.

#[export] Instance codec_N : Codec N.
Proof.
  refine {|
    put n b := match n with N0 => x03 :: b | Npos p => put_pos p b end;
    get b := match b with x03 :: b => Some (N0, b) | _ => '(p, b) ← get_pos b; Some (Npos p, b) end;
  |}.
  intros [|p] b; [done|]. pose proof (get_put_pos p b) as E.
  destruct p; cbn [put_pos get_pos] in *; try (by rewrite E); done.
Defined.

(** A codec through an injection. *)
Definition codec_via {A B} `{!Codec B} (f : A -> B) (g : B -> A) (Hfg : forall a, g (f a) = a) : Codec A.
Proof.
  refine {| put a b := put (f a) b; get b := '(x, b) ← get b; Some (g x, b) |}.
  intros a b. rewrite get_put. cbn. by rewrite Hfg.
Defined.

#[export] Instance codec_nat : Codec nat := codec_via N.of_nat N.to_nat Nat2N.id.

#[export] Instance codec_prod {A B} `{!Codec A, !Codec B} : Codec (A * B).
Proof.
  refine {|
    put x b := put x.1 (put x.2 b);
    get b := '(x, b) ← get b; '(y, b) ← get b; Some ((x, y), b);
  |}.
  intros [x y] b. rewrite get_put. cbn. by rewrite get_put.
Defined.

#[export] Instance codec_option {A} `{!Codec A} : Codec (option A).
Proof.
  refine {|
    put x b := match x with None => x00 :: b | Some x => x01 :: put x b end;
    get b := match b with
             | x00 :: b => Some (None, b)
             | x01 :: b => '(x, b) ← get b; Some (Some x, b)
             | _ => None
             end;
  |}.
  intros [x|] b; [by rewrite get_put|done].
Defined.

Fixpoint get_n {A} `{!Codec A} (n : nat) (b : bytes) : option (list A * bytes) :=
  match n with
  | O => Some ([], b)
  | S n => '(x, b) ← get b; '(xs, b) ← get_n n b; Some (x :: xs, b)
  end.

#[export] Instance codec_list {A} `{!Codec A} : Codec (list A).
Proof.
  refine {|
    put xs b := put (length xs) (foldr put b xs);
    get b := '(n, b) ← get b; get_n n b;
  |}.
  intros xs b. rewrite get_put. cbn. induction xs as [|x xs IH]; [done|]. cbn [length foldr get_n].
  rewrite get_put. cbn. by rewrite IH.
Defined.

#[export] Instance codec_string : Codec string :=
  codec_via String.list_byte_of_string String.string_of_list_byte
    String.string_of_list_byte_of_string.

#[export] Instance codec_gmap {K A} `{Countable K, !Codec K, !Codec A} : Codec (gmap K A) :=
  codec_via map_to_list list_to_map (fun m => list_to_map_to_list m).

(** The text of a value, read back only when nothing is left over. *)
Definition encode_bytes {A} `{!Codec A} (a : A) : bytes := put a [].
Definition decode_bytes {A} `{!Codec A} (b : bytes) : option A :=
  match get b with Some (a, []) => Some a | _ => None end.

Lemma decode_encode_bytes {A} `{!Codec A} (a : A) : decode_bytes (encode_bytes a) = Some a.
Proof. unfold decode_bytes, encode_bytes. by rewrite get_put. Qed.

Definition text_of {A} `{!Codec A} (a : A) : string := String.string_of_list_byte (encode_bytes a).
Definition of_text {A} `{!Codec A} (s : string) : option A := decode_bytes (String.list_byte_of_string s).

Lemma of_text_of {A} `{!Codec A} (a : A) : of_text (text_of a) = Some a.
Proof.
  unfold of_text, text_of. rewrite String.list_byte_of_string_of_list_byte. apply decode_encode_bytes.
Qed.

Definition json_of_codec {A} `{!Codec A} : Json A :=
  {| to_json a := Some (text_of a); from_json := of_text |}.
Lemma json_of_codec_laws {A} `{!Codec A} : @JsonLaws A json_of_codec.
Proof. constructor. intros a s [= <-]. apply of_text_of. Qed.
