(* ===== verification/Instances.v ===== *)
(** * Concrete instances of the external interfaces

    Executable instances that satisfy the laws of [External].  No theorem
    depends on them: they show that the laws can hold, and let the witnesses
    evaluate the definitions on concrete inputs. *)
From Stdlib Require Import Ascii.
From S2P Require Import Prelude External.

(** ** A hexadecimal codec *)
Module HexInstance.

Definition hex_digit (n : N) : ascii :=
  if (n <? 10)%N then ascii_of_N (48 + n) else ascii_of_N (87 + n).

Definition hex_value (c : ascii) : option N :=
  let n := N_of_ascii c in
  if (48 <=? n)%N && (n <=? 57)%N then Some (n - 48)%N
  else if (97 <=? n)%N && (n <=? 102)%N then Some (n - 87)%N
  else if (65 <=? n)%N && (n <=? 70)%N then Some (n - 55)%N
  else None.

Fixpoint encode (b : bytes) : string :=
  match b with
  | [] => EmptyString
  | x :: b =>
      String (hex_digit (Byte.to_N x / 16)) (String (hex_digit (Byte.to_N x mod 16)) (encode b))
  end.

Fixpoint decode (s : string) : option bytes :=
  match s with
  | EmptyString => Some []
  | String _ EmptyString => None
  | String hi (String lo s) =>
      h ← hex_value hi; l ← hex_value lo; rest ← decode s;
      Some (byte_of_N (16 * h + l) :: rest)
  end.

Lemma decode_encode_byte x :
  hex_value (hex_digit (Byte.to_N x / 16)) = Some (Byte.to_N x / 16)%N /\
  hex_value (hex_digit (Byte.to_N x mod 16)) = Some (Byte.to_N x mod 16)%N /\
  byte_of_N (16 * (Byte.to_N x / 16) + Byte.to_N x mod 16) = x.
Proof. by destruct x. Qed.

Lemma decode_encode b : decode (encode b) = Some b.
Proof.
  induction b as [|x b IH]; [done|]. cbn [encode decode].
  destruct (decode_encode_byte x) as (-> & -> & E). cbn [mbind option_bind].
  by rewrite IH, E.
Qed.

Definition all_ascii : list ascii := ascii_of_nat <$> seq 0 256.

Lemma all_ascii_elem c : c ∈ all_ascii.
Proof.
  apply list_elem_of_fmap. exists (nat_of_ascii c). split; [by rewrite ascii_nat_embedding|].
  apply elem_of_seq. pose proof (nat_ascii_bounded c). lia.
Qed.

(** Checked on the whole alphabet. *)
Lemma lowercase_digits :
  forallb (fun c => match hex_value c with
                    | Some v => negb (negb (is_ascii_uppercase c)) || ((v <? 16)%N && Ascii.eqb (hex_digit v) c)
                    | None => true
                    end) all_ascii = true.
Proof. vm_compute. reflexivity. Qed.

Lemma encode_decode_byte hi lo h l :
  hex_value hi = Some h -> hex_value lo = Some l ->
  negb (is_ascii_uppercase hi) = true -> negb (is_ascii_uppercase lo) = true ->
  hex_digit (Byte.to_N (byte_of_N (16 * h + l)) / 16) = hi /\
  hex_digit (Byte.to_N (byte_of_N (16 * h + l)) mod 16) = lo.
Proof.
  assert (forall c v, hex_value c = Some v -> negb (is_ascii_uppercase c) = true ->
    (v < 16)%N /\ hex_digit v = c) as Hv.
  { intros c v Hc Hu. pose proof (proj1 (forallb_forall _ _) lowercase_digits c) as E.
    cbv beta in E. rewrite Hc, Hu in E. cbn [negb orb] in E.
    destruct (andb_prop _ _ (E (proj1 (list_elem_of_In _ _) (all_ascii_elem c)))) as [E1 E2].
    by apply N.ltb_lt in E1; apply Ascii.eqb_eq in E2. }
  intros Hh Hl Uh Ul. destruct (Hv _ _ Hh Uh) as [Bh Eh], (Hv _ _ Hl Ul) as [Bl El].
  rewrite byte_to_of_N, (N.mod_small (16 * h + l)) by lia.
  rewrite (N.mul_comm 16), N.div_add_l, (N.div_small l), N.add_0_r by lia.
  by rewrite N.add_comm, N.Div0.mod_add, N.mod_small by lia.
Qed.

Lemma encode_decode s b : no_uppercase s = true -> decode s = Some b -> encode b = s.
Proof.
  revert s. induction b as [|x b IH]; intros s Hs Hd.
  - destruct s as [|hi [|lo s]]; [done|done|]. cbn [decode] in Hd.
    destruct (hex_value hi), (hex_value lo), (decode s); done.
  - destruct s as [|hi [|lo s]]; [done|done|]. cbn [decode] in Hd.
    unfold no_uppercase in Hs. cbn [String.list_ascii_of_string forallb] in Hs. bool_hyps.
    destruct (hex_value hi) as [h|] eqn:Hh; [|done]. destruct (hex_value lo) as [l|] eqn:Hl; [|done].
    destruct (decode s) as [rest|] eqn:Hr; [|done]. apply (inj Some) in Hd as [= <- <-].
    cbn [encode]. destruct (encode_decode_byte hi lo h l) as [-> ->]; [done..| | |].
    + by apply negb_true_iff.
    + by apply negb_true_iff.
    + do 2 f_equal. by apply IH.
Qed.

Lemma encode_lower b : no_uppercase (encode b) = true.
Proof.
  induction b as [|x b IH]; [done|]. unfold no_uppercase in *.
  cbn [encode String.list_ascii_of_string forallb]. rewrite IH. by destruct x.
Qed.

Lemma encode_length b : String.length (encode b) = 2 * length b.
Proof. induction b as [|x b IH]; [done|]. cbn [encode String.length length]. lia. Qed.

#[export] Instance hex : Hex := {| hex_encode := encode; hex_decode := decode |}.
#[export] Instance hex_laws : HexLaws.
Proof.
  constructor; [apply decode_encode|apply encode_lower|apply encode_decode|apply encode_length].
Qed.
End HexInstance.

(** ** A toy 32-byte hash *)
Module ShaInstance.

Definition hash (b : bytes) : bytes :=
  le_bytes 32 (fold_left (fun acc x => N.land (N.shiftl acc 8 + acc + Byte.to_N x + 1) 4294967295)%N b 1%N).

Definition two_to_one (a b : bytes) : bytes := hash (a ++ b).

Fixpoint doublings (n : nat) (z : bytes) : list bytes :=
  match n with
  | O => []
  | S n => z :: doublings n (two_to_one z z)
  end.

Definition zero_table : list bytes := doublings 64 (replicate 32 x00).

#[export] Instance sha : Sha := {|
  hash_impl_sha256_bytes := hash;
  hash_impl_sha256_two_to_one_bytes := two_to_one;
  hash_impl_btc_hash256_two_to_one_bytes := fun a b => hash (two_to_one a b);
  SHA256_ZERO_HASHES := zero_table;
|}.

Lemma doublings_length n z : length (doublings n z) = n.
Proof. revert z. induction n; intros; simpl; auto. Qed.

Lemma zero_table_length : length zero_table = 64.
Proof. apply doublings_length. Qed.

Lemma doublings_lookup n z k y :
  doublings n z !! k = Some y -> y = Nat.iter k (fun z => two_to_one z z) z.
Proof.
  revert z k. induction n as [|n IH]; intros z [|k]; cbn [doublings]; intros E; try done.
  - injection E as <-. done.
  - rewrite (IH _ _ E). exact (Nat.iter_swap k _ (fun z => two_to_one z z) z).
Qed.

Lemma zero_table_lookup k z :
  zero_table !! k = Some z -> z = Nat.iter k (fun z => two_to_one z z) (replicate 32 x00).
Proof. apply doublings_lookup. Qed.

#[export] Instance sha_laws : ShaLaws.
Proof.
  constructor; cbn [hash_impl_sha256_bytes hash_impl_sha256_two_to_one_bytes SHA256_ZERO_HASHES sha].
  - intros b. apply le_bytes_length.
  - intros a b. apply le_bytes_length.
  - intros z Hz. apply list_elem_of_lookup in Hz as [k Hk]. apply zero_table_lookup in Hk as ->.
    destruct k; [reflexivity|]. apply le_bytes_length.
  - intros k z z' Hz Hz'. apply zero_table_lookup in Hz as ->, Hz' as ->. reflexivity.
Qed.
End ShaInstance.
