(* ===== verification/Merkle.v ===== *)
(** * The Merkle trees of the block pipeline

    [block_pipeline.rs] computes Merkle roots and authentication paths of
    three trees: the transaction tree of a Dogecoin block
    ([bitcoin_merkle_root], [bitcoin_merkle_siblings]), and the two sparse
    SHA-256 trees of the bridge state (auto-claimed deposits, TXO blocks),
    whose paths are computed from a full leaf history
    ([sparse_sha256_merkle_siblings]) or incrementally from the last leaf's
    path ([sequential_next_leaf_siblings]). *)
From S2P Require Import Prelude External Instances.

(** ** Generic tree lemmas *)
Section tree.
Context {A : Type} (H : A -> A -> A).

(** [for pair in level.chunks_exact(2) { next.push(H(pair[0], pair[1])) }] *)
Fixpoint pair_up (level : list A) : list A :=
  match level with
  | a :: b :: rest => H a b :: pair_up rest
  | _ => []
  end.

Lemma pair_up_length l : length (pair_up l) = Nat.div2 (length l).
Proof. induction l using list_pair_ind; simpl; auto. Qed.

Lemma pair_up_lookup l i :
  pair_up l !! i =
  match l !! (2 * i), l !! (2 * i + 1) with
  | Some a, Some b => Some (H a b)
  | _, _ => None
  end.
Proof.
  revert i. induction l as [|a|a b l IH] using list_pair_ind; intros i.
  - by rewrite !lookup_nil.
  - simpl. destruct (2 * i) as [|k] eqn:E; destruct i; simpl in *; try lia; try done.
  - destruct i as [|i]; [done|]. simpl. rewrite IH.
    replace (i + S (i + 0)) with (S (2 * i)) by lia.
    replace (S (2 * i) + 1) with (S (2 * i + 1)) by lia. done.
Qed.

(** Folding an authentication path from a leaf: [cur] is combined with each
    sibling on the side the index bit says. *)
Fixpoint fold_path (index : N) (cur : A) (siblings : list A) : N * A :=
  match siblings with
  | [] => (index, cur)
  | s :: rest =>
      fold_path (N.shiftr index 1)
        (if (N.land index 1 =? 0)%N then H cur s else H s cur) rest
  end.

(** A perfect tree given by its nodes: [node d i] is the node at height [d]
    and position [i], an inner node the hash of its two children. *)
Definition is_tree (node : nat -> N -> A) (top : nat) : Prop :=
  forall d i, d < top -> node (S d) i = H (node d (2 * i)%N) (node d (2 * i + 1)%N).

(** The authentication path of position [i]: the sibling at each height. *)
Definition auth_path (node : nat -> N -> A) (i : N) (lo n : nat) : list A :=
  (fun d => node d (N.lxor (N.shiftr i (N.of_nat d)) 1)) <$> seq lo n.

Lemma land_1_even i : (N.land i 1 =? 0)%N = N.even i.
Proof.
  change 1%N with (N.ones 1). rewrite N.land_ones. change (2 ^ 1)%N with 2%N.
  pose proof (N.mod_lt i 2). destruct (N.even i) eqn:E.
  - apply N.even_spec in E as [q ->]. rewrite N.mul_comm, N.Div0.mod_mul. done.
  - apply N.eqb_neq. intros E'. apply N.Div0.mod_divides in E' as [q ->].
    rewrite N.even_mul in E. done.
Qed.

Lemma lxor_1 i : N.lxor i 1 = if N.even i then (i + 1)%N else (i - 1)%N.
Proof. destruct i as [|[p|p|]]; simpl; done || lia. Qed.

Lemma even_div2 i : i = (if N.even i then 2 * N.shiftr i 1 else 2 * N.shiftr i 1 + 1)%N.
Proof.
  rewrite N.shiftr_div_pow2. change (2 ^ 1)%N with 2%N.
  destruct (N.even i) eqn:E.
  - apply N.even_spec in E as [q ->]. div_lia.
  - assert (N.odd i = true) as E' by (by rewrite <- N.negb_even, E).
    apply N.odd_spec in E' as [q ->]. div_lia.
Qed.

Lemma is_tree_step node top d i :
  is_tree node top -> d < top ->
  node (S d) (N.shiftr i 1) =
  (if (N.land i 1 =? 0)%N then H (node d i) (node d (N.lxor i 1))
   else H (node d (N.lxor i 1)) (node d i)).
Proof.
  intros Ht Hd. rewrite Ht by done. rewrite land_1_even, lxor_1.
  pose proof (even_div2 i) as E. destruct (N.even i).
  - rewrite <- E. done.
  - rewrite <- E. by replace (2 * N.shiftr i 1)%N with (i - 1)%N by lia.
Qed.

(** Folding the authentication path of a node climbs to its ancestor. *)
Lemma fold_path_auth node top i n lo :
  is_tree node top -> lo + n <= top ->
  fold_path (N.shiftr i (N.of_nat lo)) (node lo (N.shiftr i (N.of_nat lo)))
    (auth_path node i lo n)
  = (N.shiftr i (N.of_nat (lo + n)), node (lo + n) (N.shiftr i (N.of_nat (lo + n)))).
Proof.
  intros Ht. revert lo. induction n as [|n IH]; intros lo Hn.
  - simpl. by rewrite Nat.add_0_r.
  - unfold auth_path. simpl. rewrite <- (is_tree_step node top) by (done || lia).
    rewrite N.shiftr_shiftr. replace (N.of_nat lo + 1)%N with (N.of_nat (S lo)) by lia.
    replace (lo + S n) with (S lo + n) by lia. apply IH. lia.
Qed.
End tree.

(** ** The transaction tree of a Dogecoin block *)
Section bitcoin.
Context `{!Sha}.
Local Abbreviation btc2 := hash_impl_btc_hash256_two_to_one_bytes.

(** [if level.len() % 2 == 1 { level.push(level.last().expect(..).clone()) }] *)
Definition btc_pad (level : list bytes) : outcome (list bytes) :=
  if Nat.odd (length level) then
    l ← expect (last level) "non-empty Merkle level"; mret (level ++ [l])
  else mret level.

Fixpoint bitcoin_merkle_root_loop (fuel : nat) (level : list bytes) : outcome (list bytes) :=
  match fuel with
  | O => OutOfFuel
  | S fuel =>
      if (1 <? length level)%nat then
        level ← btc_pad level;
        bitcoin_merkle_root_loop fuel (pair_up btc2 level)
      else mret level
  end.

Definition bitcoin_merkle_root (transaction_hashes : list bytes) : outcome (option bytes) :=
  if bool_decide (transaction_hashes = []) then mret None
  else
    level ← bitcoin_merkle_root_loop (length transaction_hashes) transaction_hashes;
    mret (head level).

Fixpoint bitcoin_merkle_siblings_loop (fuel : nat) (level : list bytes) (index : N)
    (siblings : list bytes) : outcome (list bytes) :=
  match fuel with
  | O => OutOfFuel
  | S fuel =>
      if (1 <? length level)%nat then
        level ← btc_pad level;
        s ← expect (level !! N.to_nat (N.lxor index 1)) "index out of bounds";
        bitcoin_merkle_siblings_loop fuel (pair_up btc2 level) (N.shiftr index 1)
          (siblings ++ [s])
      else mret siblings
  end.

Definition bitcoin_merkle_siblings (transaction_hashes : list bytes) (transaction_index : N)
    : outcome (list bytes) :=
  _ ← bail_when (bool_decide (transaction_hashes = [])
                 || (N.of_nat (length transaction_hashes) <=? transaction_index)%N)
        "transaction Merkle proof index is out of bounds";
  bitcoin_merkle_siblings_loop (length transaction_hashes) transaction_hashes
    transaction_index [].

(** *** Specification

    Bitcoin's block tree, by position: level [d] of a tree over [n] leaves
    has [ceil (n / 2^d)] nodes; a node without a right sibling child is the
    hash of its left child with itself. *)
Definition btc_width (n : N) (d : nat) : N := N.shiftr (n + N.ones (N.of_nat d)) (N.of_nat d).

Fixpoint btc_node (leaves : list bytes) (d : nat) (i : N) : bytes :=
  match d with
  | O => default [] (leaves !! N.to_nat i)
  | S d =>
      let r := (2 * i + 1)%N in
      let w := btc_width (N.of_nat (length leaves)) d in
      btc2 (btc_node leaves d (2 * i)%N) (btc_node leaves d (if (r <? w)%N then r else 2 * i)%N)
  end.

(** A level of the loop holds exactly the nodes of the specification. *)
Definition btc_level (leaves : list bytes) (d : nat) (level : list bytes) : Prop :=
  N.of_nat (length level) = btc_width (N.of_nat (length leaves)) d /\
  forall i, i < length level -> level !! i = Some (btc_node leaves d (N.of_nat i)).

Lemma btc_width_S n d : btc_width n (S d) = ((btc_width n d + 1) / 2)%N.
Proof.
  unfold btc_width. rewrite !N.shiftr_div_pow2, !N.ones_equiv, Nat2N.inj_succ, N.pow_succ_r'.
  assert (2 ^ N.of_nat d <> 0)%N by (apply N.pow_nonzero; lia).
  set (p := (2 ^ N.of_nat d)%N) in *.
  replace (n + N.pred (2 * p))%N with ((n + N.pred p) + 1 * p)%N by lia.
  rewrite (N.mul_comm 2 p), <- N.Div0.div_div, N.div_add by lia. done.
Qed.

Lemma btc_width_0 n : btc_width n 0 = n.
Proof.
  unfold btc_width. change (N.ones (N.of_nat 0)) with 0%N.
  rewrite N.add_0_r. apply N.shiftr_0_r.
Qed.

Lemma btc_level_0 leaves : btc_level leaves 0 leaves.
Proof.
  split; [by rewrite btc_width_0|]. intros i Hi. simpl. rewrite Nat2N.id.
  by destruct (lookup_lt_is_Some_2 leaves i Hi) as [x ->].
Qed.

Lemma btc_pad_spec level :
  level <> [] -> exists padded, btc_pad level = Ok padded /\
    length padded = 2 * Nat.div2 (S (length level)) /\
    (forall i, i < length level -> padded !! i = level !! i) /\
    (Nat.odd (length level) = true -> padded !! length level = last level).
Proof.
  intros Hne. unfold btc_pad. destruct (Nat.odd (length level)) eqn:Ho.
  - apply last_is_Some in Hne as [x Hx]. rewrite Hx. eexists. split; [reflexivity|].
    rewrite length_app. cbn [length]. split; [|split].
    + pose proof (Nat.odd_spec (length level)) as [E _]. destruct (E Ho) as [m Hm].
      rewrite Hm. replace (S (2 * m + 1)) with (2 * (m + 1)) by lia.
      rewrite Nat.div2_double. lia.
    + intros i Hi. by rewrite lookup_app_l.
    + intros _. rewrite lookup_app_r by done. by rewrite Nat.sub_diag.
  - eexists. split; [done|]. split; [|split; [done|by intros]].
    rewrite <- Nat.negb_even in Ho. apply negb_false_iff, Nat.even_spec in Ho as [m Hm].
    rewrite Hm. rewrite Nat.div2_succ_double. done.
Qed.

Lemma btc_pair_up_level leaves d level padded :
  level <> [] -> btc_level leaves d level -> btc_pad level = Ok padded ->
  btc_level leaves (S d) (pair_up btc2 padded) /\ length (pair_up btc2 padded) = Nat.div2 (S (length level)).
Proof.
  intros Hne [Hw Hl] Hp. destruct (btc_pad_spec level Hne) as (p & Hp' & Hlen & Hsame & Hlast).
  rewrite Hp in Hp'. injection Hp' as <-.
  assert (length (pair_up btc2 padded) = Nat.div2 (S (length level))) as Hlen'.
  { by rewrite pair_up_length, Hlen, Nat.div2_double. }
  split; [|done]. split.
  - rewrite Hlen', btc_width_S, <- Hw, Nat2N.inj_div2, N.div2_div. f_equal. lia.
  - intros i Hi. rewrite Hlen' in Hi. rewrite pair_up_lookup.
    assert (2 * i < length level) as Hi2.
    { pose proof (Nat.div2_odd (S (length level))). lia. }
    rewrite Hsame, Hl by done. simpl.
    replace (2 * N.of_nat i)%N with (N.of_nat (2 * i)) by lia.
    replace (N.of_nat (2 * i) + 1)%N with (N.of_nat (2 * i + 1)) by lia.
    rewrite <- Hw. destruct (N.ltb_spec (N.of_nat (2 * i + 1)) (N.of_nat (length level))) as [Hr|Hr].
    + by rewrite Hsame, Hl by lia.
    + assert (length level = 2 * i + 1) as E by lia.
      replace (padded !! (2 * i + 1)) with (level !! (2 * i)); [by rewrite Hl|].
      rewrite <- E, Hlast, last_lookup, E by (rewrite E; by rewrite Nat.odd_odd).
      f_equal. lia.
Qed.

Definition btc_height (leaves : list bytes) : nat :=
  N.to_nat (N.log2_up (N.of_nat (length leaves))).

Lemma btc_width_le_1 n d : (0 < n)%N -> (btc_width n d <= 1 <-> N.log2_up n <= N.of_nat d)%N.
Proof.
  intros Hn. rewrite <- N.log2_up_le_pow2 by done.
  unfold btc_width. rewrite N.shiftr_div_pow2, N.ones_equiv.
  assert (2 ^ N.of_nat d <> 0)%N by (apply N.pow_nonzero; lia).
  set (p := (2 ^ N.of_nat d)%N) in *. split; intros Hx.
  - assert ((n + N.pred p) / p < 2)%N as Hlt by lia.

    pose proof (N.div_mod (n + N.pred p) p). pose proof (N.mod_lt (n + N.pred p) p).
    assert ((n + N.pred p) / p = 0 \/ (n + N.pred p) / p = 1)%N as [E|E] by lia; rewrite E in *; lia.
  - assert ((n + N.pred p) / p < 2)%N; [|lia]. apply N.Div0.div_lt_upper_bound. lia.
Qed.

Lemma btc_width_pos n d : (0 < n)%N -> (0 < btc_width n d)%N.
Proof.
  intros Hn. induction d as [|d IH]; [by rewrite btc_width_0|].
  rewrite btc_width_S. div_lia.
Qed.

(** The sibling of position [i] on level [d]: a missing right sibling is the
    node itself. *)
Definition btc_sibling (leaves : list bytes) (i : N) (d : nat) : bytes :=
  let p := N.shiftr i (N.of_nat d) in
  let s := N.lxor p 1 in
  btc_node leaves d (if (s <? btc_width (N.of_nat (length leaves)) d)%N then s else p).

Lemma btc_node_step leaves d p :
  (p < btc_width (N.of_nat (length leaves)) d)%N ->
  btc_node leaves (S d) (N.shiftr p 1) =
  let s := N.lxor p 1 in
  let sib := btc_node leaves d (if (s <? btc_width (N.of_nat (length leaves)) d)%N then s else p) in
  if (N.land p 1 =? 0)%N then btc2 (btc_node leaves d p) sib else btc2 sib (btc_node leaves d p).
Proof.
  intros Hp. simpl. rewrite land_1_even, lxor_1. pose proof (even_div2 p) as E.
  destruct (N.even p).
  - by rewrite <- E.
  - rewrite <- E. rewrite (proj2 (N.ltb_lt _ _) Hp).
    rewrite (proj2 (N.ltb_lt (p - 1) _)) by lia.
    by replace (2 * N.shiftr p 1)%N with (p - 1)%N by lia.
Qed.

Lemma btc_width_shiftr n i d :
  (i < n)%N -> (N.shiftr i (N.of_nat d) < btc_width n d)%N.
Proof.
  intros Hi. induction d as [|d IH]; [simpl; rewrite N.shiftr_0_r, btc_width_0; done|].
  rewrite btc_width_S. replace (N.of_nat (S d)) with (N.of_nat d + 1)%N by lia.
  rewrite <- N.shiftr_shiftr, (N.shiftr_div_pow2 _ 1). change (2 ^ 1)%N with 2%N. div_lia.
Qed.
(** *** The loops compute the specification *)

(** The loop entered on level [d] with enough fuel runs to the top. *)
Lemma btc_level_shrinks level padded :
  level <> [] -> 1 < length level -> btc_pad level = Ok padded ->
  0 < length (pair_up btc2 padded) < length level.
Proof.
  intros Hne Hl Hp. destruct (btc_pad_spec level Hne) as (p & Hp' & Hlen & _).
  rewrite Hp in Hp'. injection Hp' as <-. rewrite pair_up_length, Hlen, Nat.div2_double.
  pose proof (Nat.div2_odd (S (length level))). destruct (Nat.odd _); simpl in *; lia.
Qed.

Lemma btc_level_top leaves d level :
  leaves <> [] -> btc_level leaves d level -> d <= btc_height leaves ->
  length level <= 1 -> d = btc_height leaves /\ level = [btc_node leaves (btc_height leaves) 0].
Proof.
  intros Hne [Hw Hl] Hd H1. assert (0 < N.of_nat (length leaves))%N as Hn.
  { destruct leaves; [done|]. simpl. lia. }
  pose proof (btc_width_pos _ d Hn). assert (d = btc_height leaves) as ->.
  { pose proof (proj1 (btc_width_le_1 _ d Hn)). unfold btc_height in *. lia. }
  split; [done|]. destruct level as [|x [|]]; [simpl in *; lia| |simpl in *; lia].
  specialize (Hl 0 ltac:(simpl; lia)). injection Hl as ->. done.
Qed.

Lemma btc_level_inner leaves d level :
  leaves <> [] -> btc_level leaves d level -> 1 < length level -> d < btc_height leaves.
Proof.
  intros Hne [Hw Hl] H1. assert (0 < N.of_nat (length leaves))%N as Hn.
  { destruct leaves; [done|]. simpl. lia. }
  destruct (decide (btc_height leaves <= d)); [|lia].
  pose proof (proj2 (btc_width_le_1 _ d Hn)). unfold btc_height in *. lia.
Qed.

Lemma bitcoin_merkle_root_loop_spec leaves fuel d level :
  leaves <> [] -> level <> [] -> btc_level leaves d level -> d <= btc_height leaves ->
  length level <= fuel ->
  bitcoin_merkle_root_loop fuel level = Ok [btc_node leaves (btc_height leaves) 0].
Proof.
  intros Hls. revert d level. induction fuel as [|fuel IH]; intros d level Hne Hlv Hd Hf.
  { destruct level; simpl in *; [done|lia]. }
  simpl. destruct (Nat.ltb_spec 1 (length level)) as [H1|H1].
  - destruct (btc_pad_spec level Hne) as (padded & Hp & _). rewrite Hp. simpl.
    pose proof (btc_level_shrinks _ _ Hne H1 Hp).
    apply (IH (S d)); [|by eapply btc_pair_up_level|by eapply btc_level_inner|lia].
    intros E. rewrite E in *. simpl in *. lia.
  - by destruct (btc_level_top leaves d level) as [_ ->].
Qed.

Lemma bitcoin_merkle_siblings_loop_spec leaves index fuel d level acc :
  leaves <> [] -> (index < N.of_nat (length leaves))%N ->
  level <> [] -> btc_level leaves d level -> d <= btc_height leaves -> length level <= fuel ->
  bitcoin_merkle_siblings_loop fuel level (N.shiftr index (N.of_nat d)) acc =
  Ok (acc ++ (btc_sibling leaves index <$> seq d (btc_height leaves - d))).
Proof.
  intros Hls Hidx. revert d level acc. induction fuel as [|fuel IH]; intros d level acc Hne Hlv Hd Hf.
  { destruct level; simpl in *; [done|lia]. }
  simpl. destruct (Nat.ltb_spec 1 (length level)) as [H1|H1].
  - destruct (btc_pad_spec level Hne) as (padded & Hp & Hplen & Hsame & Hlast). rewrite Hp. simpl.
    pose proof (btc_level_shrinks _ _ Hne H1 Hp). pose proof (btc_level_inner _ _ _ Hls Hlv H1).
    pose proof (btc_width_shiftr _ _ d Hidx) as Hi.
    assert (padded !! N.to_nat (N.lxor (N.shiftr index (N.of_nat d)) 1)
            = Some (btc_sibling leaves index d)) as ->.
    { unfold btc_sibling. destruct Hlv as [Hw Hl]. rewrite <- Hw in *.
      set (p := N.shiftr index (N.of_nat d)) in *.
      destruct (N.ltb_spec (N.lxor p 1) (N.of_nat (length level))) as [Hs|Hs].
      - rewrite Hsame, Hl by lia. by rewrite N2Nat.id.
      - rewrite lxor_1 in *. destruct (N.even p) eqn:Ep; [|lia].
        assert (N.to_nat (p + 1) = length level) as E by lia. rewrite E.
        rewrite Hlast, last_lookup, Hl by
          (first [lia | rewrite <- E; apply N.even_spec in Ep as [q ->]; apply Nat.odd_spec; exists (N.to_nat q); lia]).
        repeat f_equal. lia. }
    simpl. rewrite N.shiftr_shiftr. replace (N.of_nat d + 1)%N with (N.of_nat (S d)) by lia.
    rewrite IH; [|intros E; rewrite E in *; simpl in *; lia|by eapply btc_pair_up_level|lia|lia].
    rewrite <- app_assoc. replace (btc_height leaves - d) with (S (btc_height leaves - S d)) by lia.
    done.
  - destruct (btc_level_top leaves d level) as [-> _]; [done..|]. by rewrite Nat.sub_diag, app_nil_r.
Qed.

Lemma bitcoin_merkle_root_eq leaves :
  leaves <> [] -> bitcoin_merkle_root leaves = Ok (Some (btc_node leaves (btc_height leaves) 0)).
Proof.
  intros Hne. unfold bitcoin_merkle_root. rewrite bool_decide_eq_false_2 by done.
  by rewrite (bitcoin_merkle_root_loop_spec leaves _ 0 leaves Hne Hne (btc_level_0 _)) by lia.
Qed.

Lemma bitcoin_merkle_siblings_eq leaves index :
  (index < N.of_nat (length leaves))%N ->
  bitcoin_merkle_siblings leaves index = Ok (btc_sibling leaves index <$> seq 0 (btc_height leaves)).
Proof.
  intros Hi. assert (leaves <> []) as Hne by (intros ->; simpl in *; lia).
  unfold bitcoin_merkle_siblings. rewrite bool_decide_eq_false_2 by done.
  rewrite (proj2 (N.leb_gt _ _)) by done. simpl.
  replace index with (N.shiftr index (N.of_nat 0)) at 1 by apply N.shiftr_0_r.
  rewrite (bitcoin_merkle_siblings_loop_spec leaves index _ 0 leaves []) by
    (done || lia || apply btc_level_0). by rewrite Nat.sub_0_r.
Qed.

Lemma fold_btc_siblings leaves index n d :
  (index < N.of_nat (length leaves))%N ->
  fold_path btc2 (N.shiftr index (N.of_nat d)) (btc_node leaves d (N.shiftr index (N.of_nat d)))
    (btc_sibling leaves index <$> seq d n)
  = (N.shiftr index (N.of_nat (d + n)), btc_node leaves (d + n) (N.shiftr index (N.of_nat (d + n)))).
Proof.
  intros Hi. revert d. induction n as [|n IH]; intros d.
  - simpl. by rewrite Nat.add_0_r.
  - cbn [seq fmap list_fmap fold_path]. unfold btc_sibling at 1 2.
    rewrite <- (btc_node_step leaves d) by by apply btc_width_shiftr.
    rewrite N.shiftr_shiftr. replace (N.of_nat d + 1)%N with (N.of_nat (S d)) by lia.
    replace (d + S n) with (S d + n) by lia. apply IH.
Qed.

Lemma btc_shiftr_height leaves index :
  (index < N.of_nat (length leaves))%N -> N.shiftr index (N.of_nat (btc_height leaves)) = 0%N.
Proof.
  intros Hi. pose proof (btc_width_shiftr _ _ (btc_height leaves) Hi).
  assert (btc_width (N.of_nat (length leaves)) (btc_height leaves) <= 1)%N; [|lia].
  apply btc_width_le_1; [lia|]. unfold btc_height. lia.
Qed.

Lemma bitcoin_siblings_fold hashes i leaf siblings :
  hashes !! N.to_nat i = Some leaf -> bitcoin_merkle_siblings hashes i = Ok siblings ->
  fold_path btc2 i leaf siblings = (0%N, btc_node hashes (btc_height hashes) 0).
Proof.
  intros Hl Hs. pose proof (lookup_lt_Some _ _ _ Hl) as Hi.
  assert (i < N.of_nat (length hashes))%N as Hi' by lia.
  rewrite bitcoin_merkle_siblings_eq in Hs by done. injection Hs as <-.
  pose proof (fold_btc_siblings hashes i (btc_height hashes) 0 Hi') as E.
  cbn [Nat.add] in E. rewrite btc_shiftr_height, N.shiftr_0_r in E by done.
  unfold btc_node at 1 in E. by rewrite Hl in E.
Qed.
End bitcoin.

(** ** Sparse SHA-256 trees: definitions *)
Section sparse_defs.
Context `{!Sha}.
Local Abbreviation sha2 := hash_impl_sha256_two_to_one_bytes.

(** The [for depth in 0..height] loop; [n] iterations are left. *)
Fixpoint sparse_sha256_merkle_loop (n depth leaf_height : nat) (level : list bytes)
    (index : N) (siblings : list bytes) : outcome (list bytes) :=
  match n with
  | O => mret siblings
  | S n =>
      z ← zero_hash (leaf_height + depth);
      let s := default z (level !! N.to_nat (N.lxor index 1)) in
      let level := if Nat.odd (length level) then level ++ [z] else level in
      sparse_sha256_merkle_loop n (S depth) leaf_height (pair_up sha2 level)
        (N.shiftr index 1) (siblings ++ [s])
  end.

Definition sparse_sha256_merkle_siblings (leaves : list bytes) (target_index : N)
    (height leaf_height : nat) : outcome (list bytes) :=
  _ ← bail_when (N.of_nat (length leaves) <=? target_index)%N
        "Merkle target index is outside known leaves";
  sparse_sha256_merkle_loop height 0 leaf_height leaves target_index [].

End sparse_defs.

(** ** Checked hexadecimal fields *)
Section decode.
Context `{!Hex}.

Definition ensure_length (b : bytes) (expected : nat) : outcome () :=
  bail_when (negb (length b =? expected)%nat) "{name} must be {expected} bytes, got {}".

Definition decode_fixed (n : nat) (value : string) : outcome bytes :=
  b ← hex_decode_ok value;
  _ ← ensure_length b n;
  mret b.

Definition decode_hash (value : string) : outcome bytes := decode_fixed 32 value.

Lemma decode_fixed_Ok n v b : decode_fixed n v = Ok b <-> hex_decode v = Some b /\ length b = n.
Proof.
  unfold decode_fixed, hex_decode_ok, ensure_length. split.
  - intros E. inv_ok. bool_hyps. done.
  - intros [-> <-]. simpl. by rewrite Nat.eqb_refl.
Qed.

Lemma decode_fixed_returns n v : returns (decode_fixed n v) = true.
Proof. unfold decode_fixed, hex_decode_ok, ensure_length. solve_returns. Qed.

Lemma decode_fixed_encode `{!HexLaws} n b : length b = n -> decode_fixed n (hex_encode b) = Ok b.
Proof. intros. apply decode_fixed_Ok. by rewrite hex_decode_encode. Qed.
End decode.
#[export] Hint Resolve decode_fixed_returns : returns.

(** ** Frontiers: the last leaf of an append-only tree and its path *)
Record MerkleFrontier := mkMerkleFrontier {
  mf_index : N;
  mf_value_hex : string;
  mf_siblings_hex : list string;
}.

#[export] Instance MerkleFrontier_eq_dec : EqDecision MerkleFrontier.
Proof. solve_decision. Defined.

Module MerkleFrontierOps.
Section ops.
Context `{!Hex}.

Definition new (index : N) (value : bytes) (siblings : list bytes) : MerkleFrontier :=
  mkMerkleFrontier index (hex_encode value) (hex_encode <$> siblings).

Definition decode (f : MerkleFrontier) (expected_height : nat) : outcome (bytes * list bytes) :=
  value ← decode_hash (mf_value_hex f);
  _ ← bail_when (negb (length (mf_siblings_hex f) =? expected_height)%nat)
        "{name} must contain {expected_height} siblings, got {}";
  siblings ← mapM decode_hash (mf_siblings_hex f);
  mret (value, siblings).

Lemma decode_new `{!HexLaws} index value siblings :
  length value = 32 -> Forall (fun s => length s = 32) siblings ->
  decode (new index value siblings) (length siblings) = Ok (value, siblings).
Proof.
  intros Hv Hs. unfold decode, new, decode_hash. simpl.
  rewrite decode_fixed_encode by done. simpl. rewrite length_fmap, Nat.eqb_refl. simpl.
  replace (mapM (decode_fixed 32) (hex_encode <$> siblings)) with (Ok siblings); [done|].
  symmetry. apply mapM_Ok. induction Hs; simpl; constructor; [|done]. by apply decode_fixed_encode.
Qed.

Lemma decode_returns f h : returns (decode f h) = true.
Proof. unfold decode, decode_hash. solve_returns. Qed.

Lemma decode_lengths f h v s : decode f h = Ok (v, s) -> length v = 32 /\ length s = h.
Proof.
  unfold decode, decode_hash. intros E. inv_ok. bool_hyps.
  split; [by eapply decode_fixed_Ok|].
  match goal with H : mapM _ _ = Ok _ |- _ => apply mapM_Ok_length in H end. congruence.
Qed.
End ops.
End MerkleFrontierOps.
#[export] Hint Resolve MerkleFrontierOps.decode_returns : returns.

Section frontier_defs.
Context `{!Hex, !Sha}.
Local Abbreviation sha2 := hash_impl_sha256_two_to_one_bytes.

(** The loop over [last_siblings] that fills [next_frontier], one slot per
    level; [decode] has checked that there are [height] of them. *)
Fixpoint next_frontier_loop (previous_index : N) (current : bytes)
    (last_siblings : list bytes) : list bytes :=
  match last_siblings with
  | [] => []
  | s :: rest =>
      if (N.land previous_index 1 =? 0)%N
      then current :: next_frontier_loop (N.shiftr previous_index 1) (sha2 current s) rest
      else s :: next_frontier_loop (N.shiftr previous_index 1) (sha2 s current) rest
  end.

(** [new_index >> level] on a [u32] in a release build: the shift count is
    taken modulo 32. *)
Definition u32_shr (n : N) (level : nat) : N := N.shiftr n (N.of_nat (level mod 32)).

Definition sequential_next_leaf_siblings (frontier : MerkleFrontier) (new_index : N)
    (height leaf_height : nat) : outcome (list bytes) :=
  expected_index ← ok_or (checked_add u32_max (mf_index frontier) 1)
                     (Anyhow "{name} index overflow");
  _ ← bail_when (negb (new_index =? expected_index)%N)
        "{name} expected next index {expected_index}, got {new_index}";
  '(last_value, last_siblings) ← MerkleFrontierOps.decode frontier height;
  let next_frontier := next_frontier_loop (mf_index frontier) last_value last_siblings in
  mapM (fun level =>
    if (N.land (u32_shr new_index level) 1 =? 0)%N
    then zero_hash (leaf_height + level)
    else expect (next_frontier !! level) "next_frontier index") (seq 0 height).

Definition frontier_root (frontier : MerkleFrontier) (height : nat) : outcome bytes :=
  '(value, siblings) ← MerkleFrontierOps.decode frontier height;
  let '(index, current) := fold_path sha2 (mf_index frontier) value siblings in
  _ ← bail_when (negb (index =? 0)%N) "{name} index exceeds its configured tree height";
  mret current.

Lemma frontier_root_returns f h : returns (frontier_root f h) = true.
Proof.
  unfold frontier_root. apply bind_returns; [apply MerkleFrontierOps.decode_returns|].
  intros [v s] _. destruct (fold_path _ _ _ _). solve_returns.
Qed.
End frontier_defs.
#[export] Hint Resolve frontier_root_returns : returns.

(** ** Sparse trees: specification *)
Section sparse_spec.
Context `{!Sha}.
Local Abbreviation sha2 := hash_impl_sha256_two_to_one_bytes.

(** The root of an empty subtree of height [d]: [d] doublings of the empty
    leaf, which is entry [leaf_height] of the zero-hash table. *)
Definition zero_at (leaf_height d : nat) : bytes :=
  Nat.iter d (fun z => sha2 z z) (default [] (SHA256_ZERO_HASHES !! leaf_height)).

#[local] Arguments zero_at : simpl never.

(** The perfect binary tree whose leaves are [leaves] followed by empty
    leaves. *)
Fixpoint sparse_node (leaf_height : nat) (leaves : list bytes) (d : nat) (i : N) : bytes :=
  match d with
  | O => default (zero_at leaf_height 0) (leaves !! N.to_nat i)
  | S d => sha2 (sparse_node leaf_height leaves d (2 * i))
             (sparse_node leaf_height leaves d (2 * i + 1))
  end.

Lemma sparse_is_tree lh leaves top : is_tree sha2 (sparse_node lh leaves) top.
Proof. intros d i _. done. Qed.

Lemma zero_hash_at `{!ShaLaws} lh d :
  lh + d < length SHA256_ZERO_HASHES -> zero_hash (lh + d) = Ok (zero_at lh d).
Proof.
  induction d as [|d IH]; intros Hd.
  - unfold zero_hash, zero_at. rewrite Nat.add_0_r in *. cbn [Nat.iter].
    by destruct (lookup_lt_is_Some_2 _ _ Hd) as [z ->].
  - specialize (IH ltac:(lia)). unfold zero_hash in *. apply expect_Ok in IH.
    apply expect_Ok. destruct (lookup_lt_is_Some_2 _ _ Hd) as [z Hz].
    rewrite Hz. f_equal. rewrite <- plus_n_Sm in Hz. by apply (zero_hashes_step (lh + d)).
Qed.

Lemma sparse_node_zero lh leaves d i :
  (N.of_nat (length leaves) <= i * 2 ^ N.of_nat d)%N -> sparse_node lh leaves d i = zero_at lh d.
Proof.
  revert i. induction d as [|d IH]; intros i Hi.
  - simpl. change (2 ^ N.of_nat 0)%N with 1%N in Hi. by rewrite lookup_ge_None_2 by lia.
  - rewrite Nat2N.inj_succ, N.pow_succ_r' in Hi. simpl. rewrite !IH by nia. done.
Qed.

Lemma sparse_node_last lh leaves last :
  sparse_node lh (leaves ++ [last]) 0 (N.of_nat (length leaves)) = last.
Proof. simpl. by rewrite Nat2N.id, lookup_app_r, Nat.sub_diag. Qed.

(** A subtree is determined by the leaves below it. *)
Lemma sparse_node_app lh leaves rest d i :
  ((i + 1) * 2 ^ N.of_nat d <= N.of_nat (length leaves))%N ->
  sparse_node lh (leaves ++ rest) d i = sparse_node lh leaves d i.
Proof.
  revert i. induction d as [|d IH]; intros i Hi.
  - simpl. change (2 ^ N.of_nat 0)%N with 1%N in Hi. by rewrite lookup_app_l by lia.
  - rewrite Nat2N.inj_succ, N.pow_succ_r' in Hi. simpl. rewrite !IH by nia. done.
Qed.

Lemma sparse_node_length `{!ShaLaws} lh leaves d i :
  lh < length SHA256_ZERO_HASHES -> Forall (fun b => length b = 32) leaves ->
  length (sparse_node lh leaves d i) = 32.
Proof.
  intros Hlh Hl. destruct d as [|d]; simpl; [|apply sha256_two_to_one_length].
  destruct (leaves !! N.to_nat i) as [b|] eqn:E; simpl.
  - rewrite Forall_forall in Hl. apply Hl. by eapply list_elem_of_lookup_2.
  - unfold zero_at. cbn [Nat.iter]. destruct (lookup_lt_is_Some_2 _ _ Hlh) as [z Hz]. rewrite Hz.
    simpl. apply zero_hashes_length. by eapply list_elem_of_lookup_2.
Qed.

(** *** The loop computes the authentication path *)

(** The loop's level holds the nodes of height [d]; beyond it all is empty. *)
Definition sparse_level (lh : nat) (leaves : list bytes) (d : nat) (level : list bytes) : Prop :=
  (forall i, i < length level -> level !! i = Some (sparse_node lh leaves d (N.of_nat i))) /\
  (forall i, length level <= i -> sparse_node lh leaves d (N.of_nat i) = zero_at lh d).

Lemma sparse_level_lookup lh leaves d level i :
  sparse_level lh leaves d level ->
  default (zero_at lh d) (level !! N.to_nat i) = sparse_node lh leaves d i.
Proof.
  intros [Hin Hout]. rewrite <- (N2Nat.id i) at 2.
  destruct (Nat.lt_ge_cases (N.to_nat i) (length level)) as [Hi|Hi].
  - by rewrite Hin.
  - by rewrite Hout, lookup_ge_None_2.
Qed.

Lemma sparse_level_0 lh leaves : sparse_level lh leaves 0 leaves.
Proof.
  split; intros i Hi; simpl; rewrite Nat2N.id.
  - by destruct (lookup_lt_is_Some_2 _ _ Hi) as [x ->].
  - by rewrite lookup_ge_None_2.
Qed.

Lemma sparse_level_S lh leaves d level :
  sparse_level lh leaves d level ->
  sparse_level lh leaves (S d)
    (pair_up sha2 (if Nat.odd (length level) then level ++ [zero_at lh d] else level)).
Proof.
  intros Hlv. set (p := if Nat.odd _ then _ else _).
  assert (length p = 2 * Nat.div2 (S (length level))) as Hp.
  { unfold p. pose proof (Nat.div2_odd (S (length level))) as E. rewrite Nat.odd_succ in E.
    rewrite <- Nat.negb_odd in E. destruct (Nat.odd (length level)); cbn [negb Nat.b2n] in E.
    - rewrite length_app. cbn [length]. lia.
    - lia. }
  assert (forall i, i < length p -> p !! i = Some (sparse_node lh leaves d (N.of_nat i))) as Hin.
  { intros i Hi. destruct Hlv as [Hin Hout]. unfold p in *. destruct (Nat.odd _); [|by apply Hin].
    rewrite length_app in Hi. simpl in Hi.
    destruct (decide (i < length level)); [rewrite lookup_app_l by done; by apply Hin|].
    assert (i = length level) as -> by lia. rewrite lookup_app_r, Nat.sub_diag by done.
    simpl. by rewrite Hout. }
  assert (forall i, length p <= i -> sparse_node lh leaves d (N.of_nat i) = zero_at lh d) as Hout.
  { intros i Hi. apply Hlv. unfold p in Hi. destruct (Nat.odd _); [rewrite length_app in Hi|]; lia. }
  split; intros i; rewrite pair_up_length, Hp, Nat.div2_double; intros Hi; simpl;
    replace (2 * N.of_nat i)%N with (N.of_nat (2 * i)) by lia;
    replace (N.of_nat (2 * i) + 1)%N with (N.of_nat (2 * i + 1)) by lia.
  - by rewrite pair_up_lookup, !Hin by lia.
  - by rewrite !Hout by lia.
Qed.

Lemma sparse_loop_spec `{!ShaLaws} lh leaves index n d level acc :
  lh + (d + n) <= length SHA256_ZERO_HASHES -> sparse_level lh leaves d level ->
  sparse_sha256_merkle_loop n d lh level (N.shiftr index (N.of_nat d)) acc
  = Ok (acc ++ auth_path (sparse_node lh leaves) index d n).
Proof.
  revert d level acc. induction n as [|n IH]; intros d level acc Hz Hlv.
  - simpl. by rewrite app_nil_r.
  - cbn [sparse_sha256_merkle_loop]. rewrite zero_hash_at by lia. simpl.
    rewrite (sparse_level_lookup lh leaves) by done.
    rewrite N.shiftr_shiftr. replace (N.of_nat d + 1)%N with (N.of_nat (S d)) by lia.
    rewrite (IH (S d)); [|lia|by apply sparse_level_S].
    unfold auth_path. cbn [seq fmap list_fmap]. by rewrite <- app_assoc.
Qed.

Lemma sparse_siblings_eq `{!ShaLaws} leaves index height lh :
  (index < N.of_nat (length leaves))%N -> lh + height <= length SHA256_ZERO_HASHES ->
  sparse_sha256_merkle_siblings leaves index height lh
  = Ok (auth_path (sparse_node lh leaves) index 0 height).
Proof.
  intros Hi Hz. unfold sparse_sha256_merkle_siblings.
  rewrite (proj2 (N.leb_gt _ _)) by done. simpl.
  replace index with (N.shiftr index (N.of_nat 0)) at 1 by apply N.shiftr_0_r.
  by rewrite (sparse_loop_spec lh leaves) by (done || apply sparse_level_0).
Qed.

Lemma auth_path_length {A} (node : nat -> N -> A) i lo n : length (auth_path node i lo n) = n.
Proof. unfold auth_path. by rewrite length_fmap, length_seq. Qed.

Lemma auth_path_lookup {A} (node : nat -> N -> A) i lo n k :
  k < n -> auth_path node i lo n !! k
           = Some (node (lo + k) (N.lxor (N.shiftr i (N.of_nat (lo + k))) 1)).
Proof. intros Hk. unfold auth_path. by rewrite list_lookup_fmap, lookup_seq_lt. Qed.

(** [next_frontier] holds at each level the left neighbour a later leaf needs. *)
Lemma next_frontier_loop_lookup lh leaves i n d k :
  k < n ->
  next_frontier_loop (N.shiftr i (N.of_nat d)) (sparse_node lh leaves d (N.shiftr i (N.of_nat d)))
    (auth_path (sparse_node lh leaves) i d n) !! k
  = let p := N.shiftr i (N.of_nat (d + k)) in
    Some (sparse_node lh leaves (d + k) (if N.even p then p else (p - 1)%N)).
Proof.
  revert d k. induction n as [|n IH]; intros d k Hk; [lia|].
  unfold auth_path. cbn [seq fmap list_fmap next_frontier_loop]. set (p := N.shiftr i (N.of_nat d)).
  pose proof (is_tree_step sha2 _ (S d) d p (sparse_is_tree lh leaves _) ltac:(lia)) as E.
  assert (N.shiftr p 1 = N.shiftr i (N.of_nat (S d))) as Ep
    by (unfold p; rewrite N.shiftr_shiftr; f_equal; lia).
  rewrite Ep in *. specialize (IH (S d)). unfold auth_path in IH.
  rewrite land_1_even in *. destruct (N.even p) eqn:Hp; rewrite <- E.
  - destruct k as [|k]; cbn; [rewrite Nat.add_0_r; fold p; by rewrite Hp|].
    rewrite IH by lia. by replace (d + S k) with (S d + k) by lia.
  - destruct k as [|k]; cbn; [rewrite Nat.add_0_r, lxor_1; fold p; by rewrite Hp|].
    rewrite IH by lia. by replace (d + S k) with (S d + k) by lia.
Qed.
End sparse_spec.

(** *** The next leaf's path *)
Section next_leaf.
Context `{!Hex, !HexLaws, !Sha, !ShaLaws}.

Lemma right_neighbour_empty lh leaves n d :
  (N.of_nat (length leaves) <= n + 1)%N ->
  sparse_node lh leaves d (N.shiftr n (N.of_nat d) + 1) = zero_at lh d.
Proof.
  intros Hn. apply sparse_node_zero. rewrite N.shiftr_div_pow2.
  assert (2 ^ N.of_nat d <> 0)%N as Hp by (apply N.pow_nonzero; lia).
  pose proof (N.div_mod n _ Hp). pose proof (N.mod_lt n _ Hp). nia.
Qed.

Lemma left_neighbour_index n d :
  N.even (N.shiftr (n + 1) (N.of_nat d)) = false ->
  (let p := N.shiftr n (N.of_nat d) in if N.even p then p else p - 1)%N
  = (N.shiftr (n + 1) (N.of_nat d) - 1)%N.
Proof.
  cbv zeta. rewrite !N.shiftr_div_pow2.
  assert (2 ^ N.of_nat d <> 0)%N by (apply N.pow_nonzero; lia).
  destruct (N_div_succ n (2 ^ N.of_nat d)) as [->| ->]; [done|by intros ->|].
  rewrite N.even_add. change (N.even 1) with false.
  destruct (N.even (n / 2 ^ N.of_nat d)); [by rewrite N.add_sub|done].
Qed.

Lemma left_neighbour_app lh leaves rest n d :
  N.even (N.shiftr n (N.of_nat d)) = false -> (n <= N.of_nat (length leaves))%N ->
  sparse_node lh (leaves ++ rest) d (N.shiftr n (N.of_nat d) - 1)
  = sparse_node lh leaves d (N.shiftr n (N.of_nat d) - 1).
Proof.
  intros He Hn. apply sparse_node_app. rewrite N.shiftr_div_pow2 in *.
  rewrite N.sub_add, N.mul_comm; [etrans; [apply N.Div0.mul_div_le|done]|].
  destruct (n / 2 ^ N.of_nat d)%N; [done|lia].
Qed.

Lemma sequential_siblings_eq leaves last new_leaf height lh :
  let n := N.of_nat (length leaves) in
  let L := leaves ++ [last] in
  (n + 1 <= u32_max)%N -> height <= 32 -> lh + height < length SHA256_ZERO_HASHES ->
  (forall b, b ∈ L -> length b = 32) ->
  sequential_next_leaf_siblings
    (MerkleFrontierOps.new n last (auth_path (sparse_node lh L) n 0 height)) (n + 1) height lh
  = Ok (auth_path (sparse_node lh (L ++ [new_leaf])) (n + 1) 0 height).
Proof.
  intros n L Hn Hh Hz H32. set (path := auth_path _ n 0 height).
  assert (N.of_nat (length L) = n + 1)%N as HL by (unfold L; rewrite length_app; simpl; lia).
  unfold sequential_next_leaf_siblings. cbn [mf_index MerkleFrontierOps.new].
  rewrite (proj2 (checked_add_Some _ _ _ (n + 1)%N)) by lia. simpl. rewrite N.eqb_refl. simpl.
  replace height with (length path) at 1 by apply auth_path_length.
  rewrite MerkleFrontierOps.decode_new; [|apply H32; set_solver|].
  2: { apply Forall_forall. intros s Hs. apply list_elem_of_fmap in Hs as (d & -> & _).
       apply sparse_node_length; [lia|]. by apply Forall_forall. }
  simpl. apply mapM_Ok. apply Forall2_fmap_r, Forall_Forall2_diag, Forall_forall.
  intros d Hd. apply elem_of_seq in Hd. unfold u32_shr, compose.
  rewrite Nat.mod_small by lia. cbv beta. rewrite land_1_even, lxor_1.
  destruct (N.even (N.shiftr (n + 1) (N.of_nat d))) eqn:Eq.
  - rewrite zero_hash_at by lia. f_equal. symmetry. apply right_neighbour_empty.
    rewrite length_app. simpl. lia.
  - apply expect_Ok.
    pose proof (next_frontier_loop_lookup lh L n height 0 d ltac:(lia)) as E.
    cbn [Nat.add] in E. rewrite N.shiftr_0_r, left_neighbour_index in E by done. fold path in E.
    replace (sparse_node lh L 0 n) with last in E; [|unfold L, n; by rewrite sparse_node_last].
    rewrite E. f_equal. symmetry. apply left_neighbour_app; [done|lia].
Qed.
End next_leaf.

(** The frontier of any position of a sparse tree has the root of the tree. *)
Lemma frontier_root_node `{!Hex, !HexLaws, !Sha, !ShaLaws} (leaves : list bytes) (n : N)
    (height lh : nat) :
  (n < 2 ^ N.of_nat height)%N -> lh + height < length SHA256_ZERO_HASHES ->
  Forall (fun b => length b = 32) leaves ->
  frontier_root (MerkleFrontierOps.new n (sparse_node lh leaves 0 n)
                   (auth_path (sparse_node lh leaves) n 0 height)) height
  = Ok (sparse_node lh leaves height 0).
Proof.
  intros Hn Hz H32. unfold frontier_root. set (path := auth_path _ _ _ _).
  replace height with (length path) at 1 by apply auth_path_length.
  rewrite MerkleFrontierOps.decode_new.
  - simpl. pose proof (fold_path_auth hash_impl_sha256_two_to_one_bytes
      (sparse_node lh leaves) height n height 0 (sparse_is_tree _ _ _) ltac:(lia)) as E.
    fold path in E. rewrite N.shiftr_0_r in E. cbn [Nat.add] in E.
    assert (N.shiftr n (N.of_nat height) = 0%N) as Ez.
    { rewrite N.shiftr_div_pow2. apply N.div_small. lia. }
    rewrite Ez in E. simpl in E. by rewrite E.
  - apply sparse_node_length; [lia|done].
  - apply Forall_forall. intros s Hs. apply list_elem_of_fmap in Hs as (d & -> & _).
    apply sparse_node_length; [lia|done].
Qed.

(** *** Paths are always returned, at the height of their tree *)
Lemma sparse_siblings_returns `{!Sha, !ShaLaws} leaves index height lh :
  lh + height <= length SHA256_ZERO_HASHES ->
  returns (sparse_sha256_merkle_siblings leaves index height lh) = true.
Proof.
  intros Hz. destruct (N.lt_ge_cases index (N.of_nat (length leaves))) as [Hi|Hi].
  - by rewrite sparse_siblings_eq.
  - unfold sparse_sha256_merkle_siblings. by rewrite (proj2 (N.leb_le _ _)).
Qed.

Lemma sparse_siblings_length `{!Sha, !ShaLaws} leaves index height lh s :
  lh + height <= length SHA256_ZERO_HASHES ->
  sparse_sha256_merkle_siblings leaves index height lh = Ok s -> length s = height.
Proof.
  intros Hz. destruct (N.lt_ge_cases index (N.of_nat (length leaves))) as [Hi|Hi].
  - rewrite sparse_siblings_eq by done. intros [= <-]. apply auth_path_length.
  - unfold sparse_sha256_merkle_siblings. by rewrite (proj2 (N.leb_le _ _)).
Qed.

Lemma next_frontier_loop_length `{!Sha} i current s : length (next_frontier_loop i current s) = length s.
Proof.
  revert i current. induction s as [|x s IH]; intros i current; [done|]. cbn [next_frontier_loop].
  destruct (_ =? 0)%N; simpl; by rewrite IH.
Qed.

Lemma sequential_siblings_returns `{!Hex, !Sha, !ShaLaws} f i height lh :
  lh + height < length SHA256_ZERO_HASHES ->
  returns (sequential_next_leaf_siblings f i height lh) = true.
Proof.
  intros Hz. unfold sequential_next_leaf_siblings.
  apply bind_returns; [apply ok_or_returns|]. intros expected _.
  apply bind_returns; [apply bail_when_returns|]. intros _ _.
  apply bind_returns; [apply MerkleFrontierOps.decode_returns|]. intros [v s] Hd.
  apply MerkleFrontierOps.decode_lengths in Hd as [_ Hs].
  apply mapM_returns_elem. intros level Hl. apply elem_of_seq in Hl.
  case_match; [by rewrite zero_hash_at by lia|].
  destruct (lookup_lt_is_Some_2 (next_frontier_loop (mf_index f) v s) level) as [x ->]; [|done].
  rewrite next_frontier_loop_length. lia.
Qed.

Lemma sequential_siblings_length `{!Hex, !Sha} f i height lh s :
  sequential_next_leaf_siblings f i height lh = Ok s -> length s = height.
Proof.
  unfold sequential_next_leaf_siblings. intros Hs. inv_ok. repeat case_match.
  apply mapM_Ok_length in Hs. by rewrite length_seq in Hs.
Qed.

Lemma bitcoin_siblings_returns `{!Sha} hashes i : returns (bitcoin_merkle_siblings hashes i) = true.
Proof.
  destruct (N.lt_ge_cases i (N.of_nat (length hashes))) as [Hi|Hi].
  - by rewrite bitcoin_merkle_siblings_eq.
  - unfold bitcoin_merkle_siblings. by rewrite (proj2 (N.leb_le _ _)), orb_true_r.
Qed.

Lemma bitcoin_root_returns `{!Sha} hashes : returns (bitcoin_merkle_root hashes) = true.
Proof.
  destruct hashes as [|h hashes]; [done|]. by rewrite bitcoin_merkle_root_eq.
Qed.
#[export] Hint Resolve bitcoin_siblings_returns bitcoin_root_returns : returns.

(** ** Properties *)

(** C12: For every transaction of a block, the path [bitcoin_merkle_siblings]
    returns for its position folds the transaction hash to exactly the root
    [bitcoin_merkle_root] returns, which is the root of Bitcoin's block tree
    as specified position by position ([btc_node]); the two loops terminate
    and never panic. *)
Theorem bitcoin_merkle_path_authenticates `{!Sha} (hashes : list bytes) (i : N) (leaf : bytes) :
  hashes !! N.to_nat i = Some leaf ->
  exists root siblings,
    bitcoin_merkle_root hashes = Ok (Some root) /\
    bitcoin_merkle_siblings hashes i = Ok siblings /\
    root = btc_node hashes (btc_height hashes) 0 /\
    length siblings = btc_height hashes /\
    fold_path hash_impl_btc_hash256_two_to_one_bytes i leaf siblings = (0%N, root).
Proof.
  intros Hl. pose proof (lookup_lt_Some _ _ _ Hl) as Hi.
  assert (i < N.of_nat (length hashes))%N as Hi' by lia.
  eexists _, _. split_and!.
  - apply bitcoin_merkle_root_eq. by intros ->.
  - by apply bitcoin_merkle_siblings_eq.
  - done.
  - by rewrite length_fmap, length_seq.
  - apply bitcoin_siblings_fold; [done|]. by apply bitcoin_merkle_siblings_eq.
Qed.

(** C13: A frontier built from a full leaf history (index of the last leaf, its
    value, its sparse path) decodes and its [frontier_root] is the root of the
    sparse tree that holds exactly those leaves, whenever the history fits the
    tree and the zero-hash table covers its levels. *)
Theorem history_frontier_root `{!Hex, !HexLaws, !Sha, !ShaLaws} (leaves : list bytes) (last : bytes)
    (height leaf_height : nat) :
  let n := N.of_nat (length leaves) in
  (n + 1 <= 2 ^ N.of_nat height)%N ->
  leaf_height + height < length SHA256_ZERO_HASHES ->
  Forall (fun b => length b = 32) (leaves ++ [last]) ->
  exists siblings,
    sparse_sha256_merkle_siblings (leaves ++ [last]) n height leaf_height = Ok siblings /\
    frontier_root (MerkleFrontierOps.new n last siblings) height
    = Ok (sparse_node leaf_height (leaves ++ [last]) height 0).
Proof.
  intros n Hn Hz H32. eexists. split; [apply sparse_siblings_eq|].
  - rewrite length_app. simpl. lia.
  - lia.
  - rewrite <- (sparse_node_last leaf_height leaves last) at 1.
    apply frontier_root_node; [lia|done|done].
Qed.

(** C14: The incremental path of the next leaf agrees with the path recomputed
    from the full history: [sequential_next_leaf_siblings] on the frontier of
    a history returns exactly what [sparse_sha256_merkle_siblings] returns for
    the extended history, whatever the new leaf is.  The two branches of
    [prepare_height] (history kept, history dropped) therefore build the same
    witness. *)
Theorem incremental_siblings_agree `{!Hex, !HexLaws, !Sha, !ShaLaws} (leaves : list bytes)
    (last new_leaf : bytes) (height leaf_height : nat) :
  let n := N.of_nat (length leaves) in
  (n + 1 <= u32_max)%N -> height <= 32 ->
  leaf_height + height < length SHA256_ZERO_HASHES ->
  Forall (fun b => length b = 32) (leaves ++ [last]) ->
  exists siblings result,
    sparse_sha256_merkle_siblings (leaves ++ [last]) n height leaf_height = Ok siblings /\
    sequential_next_leaf_siblings (MerkleFrontierOps.new n last siblings) (n + 1) height leaf_height
    = Ok result /\
    sparse_sha256_merkle_siblings (leaves ++ [last; new_leaf]) (n + 1) height leaf_height = Ok result.
Proof.
  intros n Hn Hh Hz H32. set (L := leaves ++ [last]).
  set (path := auth_path (sparse_node leaf_height L) n 0 height).
  exists path, (auth_path (sparse_node leaf_height (L ++ [new_leaf])) (n + 1) 0 height).
  assert (length L = length leaves + 1) as HL by (unfold L; rewrite length_app; done).
  split; [|split].
  - apply sparse_siblings_eq; lia.
  - apply sequential_siblings_eq; [done..|].
    rewrite Forall_forall in H32. intros b Hb. by apply H32.
  - replace (leaves ++ [last; new_leaf]) with (L ++ [new_leaf]) by (unfold L; by rewrite <- app_assoc).
    apply sparse_siblings_eq; [rewrite length_app; simpl; lia|lia].
Qed.


(** ** Witnesses *)
Module MerkleWitness.
Import HexInstance ShaInstance.

Definition leaf (n : N) : bytes := le_bytes 32 n.

Lemma bitcoin_merkle_path_witness :
  exists root siblings,
    bitcoin_merkle_root [leaf 1; leaf 2; leaf 3] = Ok (Some root) /\
    bitcoin_merkle_siblings [leaf 1; leaf 2; leaf 3] 2 = Ok siblings /\
    root = btc_node [leaf 1; leaf 2; leaf 3] (btc_height [leaf 1; leaf 2; leaf 3]) 0 /\
    length siblings = btc_height [leaf 1; leaf 2; leaf 3] /\
    fold_path hash_impl_btc_hash256_two_to_one_bytes 2 (leaf 3) siblings = (0%N, root).
Proof. apply (bitcoin_merkle_path_authenticates [leaf 1; leaf 2; leaf 3] 2). reflexivity. Defined.

Lemma history_frontier_root_witness :
  exists siblings,
    sparse_sha256_merkle_siblings [leaf 1; leaf 2; leaf 3] 2 4 1 = Ok siblings /\
    frontier_root (MerkleFrontierOps.new 2 (leaf 3) siblings) 4
    = Ok (sparse_node 1 [leaf 1; leaf 2; leaf 3] 4 0).
Proof.
  apply (history_frontier_root [leaf 1; leaf 2] (leaf 3) 4 1).
  - vm_compute. discriminate.
  - change SHA256_ZERO_HASHES with zero_table. rewrite zero_table_length. lia.
  - repeat constructor.
Defined.

Lemma incremental_siblings_agree_witness :
  exists siblings result,
    sparse_sha256_merkle_siblings [leaf 1; leaf 2; leaf 3] 2 4 1 = Ok siblings /\
    sequential_next_leaf_siblings (MerkleFrontierOps.new 2 (leaf 3) siblings) 3 4 1 = Ok result /\
    sparse_sha256_merkle_siblings [leaf 1; leaf 2; leaf 3; leaf 4] 3 4 1 = Ok result.
Proof.
  apply (incremental_siblings_agree [leaf 1; leaf 2] (leaf 3) (leaf 4) 4 1).
  - vm_compute. discriminate.
  - lia.
  - change SHA256_ZERO_HASHES with zero_table. rewrite zero_table_length. lia.
  - repeat constructor.
Defined.
End MerkleWitness.
