(* ===== verification/Effects.v ===== *)
(** * Effectful code over an abstract world

    The services act on things outside the process: a clock, the Solana bridge
    program, the sender, a Redis store, the file system.  A computation is a
    function from a world to the worlds it passes through, the world it ends
    in and its outcome.  The list of worlds is what a crash can leave behind:
    the process may stop after any single effect, so a recovery theorem
    quantifies over that list.  [triple] is the program logic of these
    computations, with a condition on every world passed through. *)
From S2P Require Import Prelude.

Definition prog (W A : Type) : Type := W -> list W * W * outcome A.

#[export] Instance prog_ret {W} : MRet (prog W) := fun A a w => ([], w, Ok a).

#[export] Instance prog_bind {W} : MBind (prog W) := fun A B f m w =>
  match m w with
  | (t, w1, Ok a) => let '(t2, w2, r) := f a w1 in (t ++ t2, w2, r)
  | (t, w1, Err e) => (t, w1, Err e)
  | (t, w1, Panic s) => (t, w1, Panic s)
  | (t, w1, OutOfFuel) => (t, w1, OutOfFuel)
  end.

(** One external call: its effect is a single step of the world. *)
Definition perform {W A} (f : W -> W * outcome A) : prog W A := fun w =>
  let '(w', r) := f w in ([w'], w', r).

(** A call that only reads. *)
Definition query {W A} (f : W -> outcome A) : prog W A := fun w => ([], w, f w).

(** A pure fallible computation. *)
Definition lift {W A} (m : outcome A) : prog W A := fun w => ([], w, m).

(** [match p.await { Ok(..) => .., Err(error) => .. }]: the error as a value. *)
Definition try {W A} (p : prog W A) : prog W (A + error) := fun w =>
  match p w with
  | (t, w', Ok a) => (t, w', Ok (inl a))
  | (t, w', Err e) => (t, w', Ok (inr e))
  | (t, w', Panic s) => (t, w', Panic s)
  | (t, w', OutOfFuel) => (t, w', OutOfFuel)
  end.

Definition crash_points {W A} (p : prog W A) (w : W) : list W := w :: (p w).1.1.
Definition final {W A} (p : prog W A) (w : W) : W := (p w).1.2.
Definition result {W A} (p : prog W A) (w : W) : outcome A := (p w).2.

(** Sequential iteration: [for x in xs { body(x).await?; }]. *)
Fixpoint for_each {W A} (xs : list A) (body : A -> prog W ()) : prog W () :=
  match xs with
  | [] => mret ()
  | x :: xs => body x ;; for_each xs body
  end.

(** ** Program logic *)
Definition triple {W A} (P C : W -> Prop) (p : prog W A) (Q : outcome A -> W -> Prop) : Prop :=
  forall w, P w -> Forall C (p w).1.1 /\ Q (result p w) (final p w).

Section triples.
Context {W : Type}.
Implicit Types (P C : W -> Prop).

Lemma triple_conseq {A} P P' C C' (p : prog W A) Q Q' :
  triple P' C' p Q' -> (forall w, P w -> P' w) -> (forall w, C' w -> C w) ->
  (forall r w, Q' r w -> Q r w) -> triple P C p Q.
Proof.
  intros H HP HC HQ w Hw. destruct (H w (HP w Hw)) as [Ht Hr]. split; [|by apply HQ].
  by eapply Forall_impl.
Qed.

Lemma triple_pre {A} P P' C (p : prog W A) Q :
  triple P' C p Q -> (forall w, P w -> P' w) -> triple P C p Q.
Proof. intros H HP w Hw. by apply H, HP. Qed.

Lemma triple_pure {A} (phi : Prop) P C (p : prog W A) Q :
  (phi -> triple P C p Q) -> triple (fun w => P w /\ phi) C p Q.
Proof. intros H w [Hw Hphi]. by apply H. Qed.

Lemma triple_at {A} P C (p : prog W A) Q :
  (forall w, P w -> triple (fun x => x = w) C p Q) -> triple P C p Q.
Proof. intros H w Hw. by apply (H w Hw w). Qed.

Lemma triple_result {A} P C (p : prog W A) Q (phi : outcome A -> Prop) :
  (forall w, phi (result p w)) -> triple P C p Q -> triple P C p (fun r w => Q r w /\ phi r).
Proof. intros Hphi H w Hw. destruct (H w Hw). split; [done|]. by split. Qed.

Lemma triple_post {A} P C (p : prog W A) (Q Q' : outcome A -> W -> Prop) :
  triple P C p Q' -> (forall r w, Q' r w -> Q r w) -> triple P C p Q.
Proof. intros H HQ w Hw. destruct (H w Hw). split; [done|by apply HQ]. Qed.

Lemma triple_ret {A} P C (a : A) (Q : outcome A -> W -> Prop) :
  (forall w, P w -> Q (Ok a) w) -> triple P C (mret a) Q.
Proof. intros HQ w Hw. split; [constructor|]. by apply HQ. Qed.

Lemma triple_lift {A} P C (m : outcome A) (Q : outcome A -> W -> Prop) :
  (forall w, P w -> Q m w) -> triple P C (lift m) Q.
Proof. intros HQ w Hw. split; [constructor|]. by apply HQ. Qed.

Lemma triple_arg {A B} (o : outcome A) a (f : A -> prog W B) P C (Q : outcome B -> W -> Prop) :
  o = Ok a -> triple P C (f a) Q -> triple P C (lift o ≫= f) Q.
Proof.
  intros -> Hf w Hw. specialize (Hf w Hw). unfold mbind, prog_bind, lift, result, final in *.
  by destruct (f a w) as [[t w'] r].
Qed.

Lemma triple_query {A} P C (f : W -> outcome A) (Q : outcome A -> W -> Prop) :
  (forall w, P w -> Q (f w) w) -> triple P C (query f) Q.
Proof. intros HQ w Hw. split; [constructor|]. by apply HQ. Qed.

Lemma triple_perform {A} P C (f : W -> W * outcome A) (Q : outcome A -> W -> Prop) :
  (forall w, P w -> C (f w).1 /\ Q (f w).2 (f w).1) -> triple P C (perform f) Q.
Proof.
  intros HQ w Hw. specialize (HQ w Hw). unfold perform, result, final.
  destruct (f w) as [w' r]; simpl in *. destruct HQ. split; [by apply Forall_singleton|done].
Qed.

(** What a bind does with a non-[Ok] outcome of its first part. *)
Definition fail_as {A B} (r : outcome A) : option (outcome B) :=
  match r with
  | Ok _ => None
  | Err e => Some (Err e)
  | Panic s => Some (Panic s)
  | OutOfFuel => Some OutOfFuel
  end.

Lemma triple_bind {A B} P C (m : prog W A) (f : A -> prog W B)
    (R : outcome A -> W -> Prop) (Q : outcome B -> W -> Prop) :
  triple P C m R ->
  (forall a, triple (R (Ok a)) C (f a) Q) ->
  (forall r r' w, R r w -> fail_as r = Some r' -> Q r' w) ->
  triple P C (m ≫= f) Q.
Proof.
  intros Hm Hf Hr w Hw. destruct (Hm w Hw) as [Ht HR].
  unfold mbind, prog_bind, result, final in *.
  destruct (m w) as [[t w1] [a|e|s|]]; simpl in *; try (split; [done|]; by eapply Hr).
  destruct (Hf a w1 HR) as [Ht2 HQ]. unfold result, final in HQ.
  destruct (f a w1) as [[t2 w2] r]; simpl in *. split; [by apply Forall_app|done].
Qed.

Lemma triple_try {A} P C (p : prog W A) (Q : outcome (A + error) -> W -> Prop) R :
  triple P C p R ->
  (forall a w, R (Ok a) w -> Q (Ok (inl a)) w) ->
  (forall e w, R (Err e) w -> Q (Ok (inr e)) w) ->
  (forall s w, R (Panic s) w -> Q (Panic s) w) ->
  (forall w, R OutOfFuel w -> Q OutOfFuel w) ->
  triple P C (try p) Q.
Proof.
  intros Hp H1 H2 H3 H4 w Hw. destruct (Hp w Hw) as [Ht HR].
  unfold try, result, final in *.
  destruct (p w) as [[t w1] [a|e|s|]]; simpl in *; eauto.
Qed.

(** An invariant of the loop body is an invariant of the loop. *)
Lemma triple_for_each {A} (I : W -> Prop) C (xs : list A) (body : A -> prog W ()) :
  (forall x, x ∈ xs -> triple I C (body x) (fun _ w => I w)) ->
  triple I C (for_each xs body) (fun _ w => I w).
Proof.
  induction xs as [|x xs IH]; intros Hb; [by apply triple_ret|].
  cbn [for_each]. eapply triple_bind.
  - apply Hb. set_solver.
  - intros []. apply IH. intros y Hy. apply Hb. set_solver.
  - done.
Qed.
End triples.

(** Discharges the failure branch of [triple_bind] when the postcondition does
    not look at the outcome. *)
Ltac fail_branch := intros ? ? ? ? ?; simplify_eq; done.

(** A program stays within a relation to its starting world. *)
Lemma triple_use {W A} (P C : W -> Prop) (p : prog W A) Q w :
  triple P C p Q -> P w -> Q (result p w) (final p w).
Proof. intros H Hw. by destruct (H w Hw). Qed.

Lemma triple_crash {W A} (P C : W -> Prop) (p : prog W A) Q w x :
  triple P C p Q -> P w -> C w -> x ∈ crash_points p w -> C x.
Proof.
  intros H Hw HC Hx. destruct (H w Hw) as [Ht _]. unfold crash_points in Hx.
  apply elem_of_cons in Hx as [->|Hx]; [done|]. rewrite Forall_forall in Ht. by apply Ht.
Qed.

(** Running a bind step by step. *)
Lemma prog_bind_eq {W A B} (m : prog W A) (f : A -> prog W B) w :
  (m ≫= f) w
  = match m w with
    | (t, w1, Ok a) => ((t ++ (f a w1).1.1), (f a w1).1.2, (f a w1).2)
    | (t, w1, Err e) => (t, w1, Err e)
    | (t, w1, Panic s) => (t, w1, Panic s)
    | (t, w1, OutOfFuel) => (t, w1, OutOfFuel)
    end.
Proof.
  unfold mbind, prog_bind. destruct (m w) as [[t w1] [a|e|s|]]; try done.
  by destruct (f a w1) as [[t2 w2] r].
Qed.

Lemma prog_bind_ext {W A B} (m : prog W A) (f g : A -> prog W B) w :
  (forall a, result m w = Ok a -> f a (final m w) = g a (final m w)) -> (m ≫= f) w = (m ≫= g) w.
Proof.
  intros E. rewrite !prog_bind_eq. unfold result, final in E.
  destruct (m w) as [[t w1] [a|e|s|]]; try done.
  specialize (E a eq_refl). cbn in E. by rewrite E.
Qed.

Lemma result_bind {W A B} (m : prog W A) (f : A -> prog W B) w :
  result (m ≫= f) w
  = match result m w with
    | Ok a => result (f a) (final m w)
    | Err e => Err e
    | Panic s => Panic s
    | OutOfFuel => OutOfFuel
    end.
Proof.
  unfold result, final. rewrite prog_bind_eq. by destruct (m w) as [[t w1] [a| | |]].
Qed.

Lemma final_bind {W A B} (m : prog W A) (f : A -> prog W B) w :
  final (m ≫= f) w
  = match result m w with
    | Ok a => final (f a) (final m w)
    | _ => final m w
    end.
Proof.
  unfold result, final. rewrite prog_bind_eq. by destruct (m w) as [[t w1] [a| | |]].
Qed.

Lemma result_lift {W A} (m : outcome A) (w : W) : result (lift m) w = m.
Proof. done. Qed.
Lemma result_ret {W A} (a : A) (w : W) : result (mret a) w = Ok a.
Proof. done. Qed.

(** A program that returned went through each of its steps. *)
Lemma result_bind_Ok {W A B} (m : prog W A) (f : A -> prog W B) w b :
  result (m ≫= f) w = Ok b <->
  exists a, result m w = Ok a /\ result (f a) (final m w) = Ok b.
Proof. rewrite result_bind. destruct (result m w); naive_solver. Qed.

Lemma final_ret {W A} (a : A) (w : W) : final (mret a) w = w.
Proof. done. Qed.
Lemma final_lift {W A} (m : outcome A) (w : W) : final (lift m) w = w.
Proof. done. Qed.

Lemma try_Ok {W A} (p : prog W A) w r :
  result (try p) w = Ok r ->
  final (try p) w = final p w /\
  match r with inl a => result p w = Ok a | inr e => result p w = Err e end.
Proof.
  unfold try, result, final. destruct (p w) as [[t w'] [a|e|s|]]; simpl; intros E; by simplify_eq.
Qed.

(** [inv_prog] turns the hypothesis that a composed program returned into the
    facts that each of its steps did, and each pure step into its outcome. *)
Ltac inv_prog_step :=
  match goal with
  | H : result (mbind _ _) ?w = Ok _ |- _ =>
      let a := fresh "a" in let H1 := fresh "Hstep" in
      apply result_bind_Ok in H; destruct H as (a & H1 & H)
  | H : result (lift _) _ = Ok _ |- _ => rewrite result_lift in H
  | H : context [final (lift _) _] |- _ => rewrite final_lift in H
  | H : context [final (mret _) _] |- _ => rewrite final_ret in H
  | H : result (mret _) _ = Ok _ |- _ => rewrite result_ret in H; apply Ok_inj in H
  | H : Ok _ = Ok _ |- _ => apply Ok_inj in H
  | H : ok_or _ _ = Ok _ |- _ => apply ok_or_Ok in H
  | H : bail_when _ _ = Ok ?u |- _ => apply bail_when_Ok in H; try clear u
  | a : unit |- _ => destruct a
  | a : (_ * _)%type |- _ => destruct a
  end.
Ltac inv_prog := repeat inv_prog_step.
