(* ===== verification/NetworkRetry.v ===== *)
(** * Retrying network calls

    Models [network_retry.rs], the retry wrapper of [block_pipeline.rs] around
    the bridge client, and the request loops of [sol_submitter.rs] and
    [doge_link_rpc_async.rs].  Durations are nanoseconds. *)
From S2P Require Import Prelude Effects.

Section durations.
Local Open Scope N_scope.
Definition from_secs (s : N) : N := s * 1000000000.
Definition from_millis (ms : N) : N := ms * 1000000.
(** [Duration::MAX]: [u64::MAX] seconds and 999,999,999 nanoseconds. *)
Definition Duration_MAX : N := u64_max * 1000000000 + 999999999.
Definition duration_saturating_mul (d : N) (k : N) : N := N.min (d * k) Duration_MAX.
End durations.

Definition DEFAULT_REQUEST_TIMEOUT : N := from_secs 15.
Definition DEFAULT_INITIAL_DELAY : N := from_millis 500.
Definition DEFAULT_MAX_DELAY : N := from_secs 10.
Definition DEFAULT_OVERALL_DEADLINE : N := from_secs 600.
Definition DEFAULT_MAX_ATTEMPTS : N := 20.

(** The clock of the process, the only part of the world the retry loop itself
    touches. *)
Class Clock (W : Type) := {
  now : W -> N;              (* [Instant::now()], nanoseconds *)
  sleep : N -> W -> W;       (* [tokio::time::sleep(..).await] *)
}.

(** [sleep] takes at least the time asked for. *)
Class ClockLaws (W : Type) `{!Clock W} := {
  sleep_now d w : (now w + d <= now (sleep d w))%N;
}.

Inductive RetryAction (T E : Type) :=
| Success (value : T)
| Retry (error : E)
| Fatal (error : E).
Arguments Success {_ _} _.
Arguments Retry {_ _} _.
Arguments Fatal {_ _} _.

Record NetworkRetryPolicy := mkPolicy {
  request_timeout : N;
  initial_delay : N;
  max_delay : N;
  overall_deadline : option N;
  max_attempts : option N;
}.

Module NetworkRetryPolicyOps.

Definition new (request_timeout initial_delay max_delay : N) : NetworkRetryPolicy :=
  mkPolicy request_timeout initial_delay max_delay None None.

Definition with_overall_deadline (self : NetworkRetryPolicy) (deadline : N) : NetworkRetryPolicy :=
  mkPolicy self.(request_timeout) self.(initial_delay) self.(max_delay) (Some deadline)
    self.(max_attempts).

Definition with_max_attempts (self : NetworkRetryPolicy) (attempts : N) : NetworkRetryPolicy :=
  mkPolicy self.(request_timeout) self.(initial_delay) self.(max_delay) self.(overall_deadline)
    (Some attempts).

Definition is_bounded (self : NetworkRetryPolicy) : bool :=
  bool_decide (is_Some self.(overall_deadline)) && bool_decide (is_Some self.(max_attempts)).

Definition default : NetworkRetryPolicy :=
  with_max_attempts
    (with_overall_deadline (new DEFAULT_REQUEST_TIMEOUT DEFAULT_INITIAL_DELAY DEFAULT_MAX_DELAY)
       DEFAULT_OVERALL_DEADLINE)
    DEFAULT_MAX_ATTEMPTS.

Section run.
Context {W : Type} `{!Clock W} {T E : Type}.
Variable operation : prog W (RetryAction T E).

(** The duration of the next backoff sleep, [None] when the wall-clock budget
    is used up. *)
Definition sleep_duration (self : NetworkRetryPolicy) (start delay : N) (w : W) : option N :=
  match self.(overall_deadline) with
  | Some deadline =>
      let elapsed := (now w - start)%N in
      if (deadline <=? elapsed)%N then None
      else let remaining := (deadline - elapsed)%N in Some (N.min delay remaining)
  | None => Some delay
  end.

Definition attempts_exhausted (self : NetworkRetryPolicy) (attempt : N) : bool :=
  match self.(max_attempts) with
  | Some max_attempts => (max_attempts <=? attempt)%N
  | None => false
  end.

Definition next_delay (self : NetworkRetryPolicy) (delay : N) : N :=
  N.min (duration_saturating_mul delay 2) self.(max_delay).

Fixpoint run_loop (fuel : nat) (self : NetworkRetryPolicy) (start attempt delay : N)
  : prog W (T + E) :=
  match fuel with
  | O => lift OutOfFuel
  | S fuel =>
      action ← operation;
      match action with
      | Success value => mret (inl value)
      | Fatal error => mret (inr error)
      | Retry error =>
          if attempts_exhausted self attempt then mret (inr error)
          else
            duration ← query (fun w => Ok (sleep_duration self start delay w));
            match duration with
            | None => mret (inr error)
            | Some d =>
                perform (fun w => (sleep d w, Ok ())) ;;
                run_loop fuel self start (saturating_add u64_max attempt 1) (next_delay self delay)
            end
      end
  end.

Definition run (fuel : nat) (self : NetworkRetryPolicy) : prog W (T + E) :=
  start ← query (fun w => Ok (now w));
  run_loop fuel self start 1 self.(initial_delay).
End run.
End NetworkRetryPolicyOps.
Import NetworkRetryPolicyOps.

(** ** Error classification *)

Definition is_retryable_http_status (status : N) : bool :=
  existsb (N.eqb status) [408; 425; 429; 500; 502; 503; 504]%N.

(** [std::io::ErrorKind]: the kinds the code names, and the others. *)
Inductive IoErrorKind :=
| BrokenPipe | ConnectionAborted | ConnectionRefused | ConnectionReset | Interrupted
| NotConnected | TimedOut | UnexpectedEof | WouldBlock
| OtherKind (name : string).

Definition is_retryable_io_kind (kind : IoErrorKind) : bool :=
  match kind with
  | BrokenPipe | ConnectionAborted | ConnectionRefused | ConnectionReset | Interrupted
  | NotConnected | TimedOut | UnexpectedEof | WouldBlock => true
  | OtherKind _ => false
  end.

(** An error and its chain of sources; the entry of an error that downcasts to
    [io::Error] is its kind. *)
Definition StdError : Type := list (option IoErrorKind).

Fixpoint has_retryable_io_source (error : StdError) : bool :=
  match error with
  | [] => false
  | source :: rest =>
      match source with
      | Some kind => if is_retryable_io_kind kind then true else has_retryable_io_source rest
      | None => has_retryable_io_source rest
      end
  end.

(** The queries the code makes on a [reqwest::Error]. *)
Record ReqwestError := mkReqwestError {
  is_builder : bool;
  is_redirect : bool;
  is_timeout : bool;
  is_connect : bool;
  is_request : bool;
  is_body : bool;
  status : option N;
  sources : StdError;
}.

Definition is_retryable_reqwest (error : ReqwestError) : bool :=
  if error.(is_builder) || error.(is_redirect) then false
  else if error.(is_timeout) || error.(is_connect) || error.(is_request) || error.(is_body)
          || has_retryable_io_source error.(sources) then true
  else match error.(status) with
       | Some status => is_retryable_http_status status
       | None => false
       end.

(** [solana_client]'s error kinds and the bridge client's errors, as far as the
    code distinguishes them. *)
Inductive RpcError :=
| RpcRequestError (message : string)
| RpcResponseError (code : Z)
| OtherRpcError.

Inductive ClientErrorKind :=
| KindIo (kind : IoErrorKind)
| KindReqwest (error : ReqwestError)
| KindMiddleware (error : StdError)
| KindRpcError (error : RpcError)
| KindOther.

Inductive BridgeError :=
| BridgeRpc (error : ClientErrorKind)
| RateLimited
| ConnectionTimeout
| ConfirmationTimeout
| OtherBridgeError (message : string).

Definition is_retryable_solana_client_error (error : ClientErrorKind) : bool :=
  match error with
  | KindIo kind => is_retryable_io_kind kind
  | KindReqwest error =>
      error.(is_timeout) || error.(is_connect) || error.(is_request) || error.(is_body)
      || has_retryable_io_source error.(sources)
  | KindMiddleware error => has_retryable_io_source error
  | KindRpcError error =>
      match error with
      | RpcRequestError _ => true
      | RpcResponseError code =>
          existsb (Z.eqb code) [429; -32004; -32005; -32007; -32009]%Z
      | OtherRpcError => false
      end
  | KindOther => false
  end.

Definition is_retryable_bridge_error (error : BridgeError) : bool :=
  match error with
  | BridgeRpc error => is_retryable_solana_client_error error
  | RateLimited | ConnectionTimeout => true
  | ConfirmationTimeout => false
  | _ => false
  end.

Definition retry_bridge_network {W} `{!Clock W} {T} (fuel : nat) (policy : NetworkRetryPolicy)
    (operation : prog W (T + BridgeError)) : prog W (T + BridgeError) :=
  run
    (answer ← operation;
     mret match answer with
          | inl value => Success value
          | inr error => if is_retryable_bridge_error error then Retry error else Fatal error
          end) fuel policy.

(** ** The HTTP clients *)
Record BlockUpdateResponse := mkBlockUpdateResponse {
  resp_signature : string;
  resp_idempotency_key : string;
}.
Record AmbiguousBlockUpdateResponse := mkAmbiguousBlockUpdateResponse {
  amb_status : string;
  amb_signature : string;
  amb_idempotency_key : string;
}.

(** What the code uses of a [reqwest::Response]. *)
Class HttpResponse (R : Type) := {
  response_status : R -> N;
  response_bytes : R -> bytes + ReqwestError;
  response_text : R -> string + ReqwestError;
  json_ambiguous : R -> AmbiguousBlockUpdateResponse + ReqwestError;
  json_block_update : R -> BlockUpdateResponse + ReqwestError;
}.

Definition is_success (status : N) : bool := ((200 <=? status) && (status <? 300))%N.
Definition ACCEPTED : N := 202.

(** The error a failed transport step ends an attempt with. *)
Definition transport_error {T} (error : ReqwestError) : RetryAction T (Prelude.error) :=
  if is_retryable_reqwest error then Retry (External "reqwest") else Fatal (External "reqwest").

Section clients.
Context {W R : Type} `{!Clock W, !HttpResponse R}.

(** One attempt of [DogeLinkElectrsAsyncClient::get_response_bytes]. *)
Definition electrs_attempt (answer : R + ReqwestError) : RetryAction bytes (Prelude.error) :=
  match answer with
  | inr error => transport_error error
  | inl response =>
      if negb (is_success (response_status response)) then
        let error := Anyhow "Electrs request {url} returned HTTP {status}" in
        if is_retryable_http_status (response_status response) then Retry error else Fatal error
      else match response_bytes response with
           | inl b => Success b
           | inr error => transport_error error
           end
  end.

Definition get_response_bytes (fuel : nat) (retry_policy : NetworkRetryPolicy)
    (send : prog W (R + ReqwestError)) : prog W (bytes + Prelude.error) :=
  run (answer ← send; mret (electrs_attempt answer)) fuel retry_policy.

(** One attempt of [SolSubmitterClient::block_update]. *)
Definition block_update_attempt (answer : R + ReqwestError)
  : RetryAction BlockUpdateResponse (Prelude.error) :=
  match answer with
  | inr error => transport_error error
  | inl response =>
      let status := response_status response in
      if (status =? ACCEPTED)%N then
        match json_ambiguous response with
        | inl ambiguous =>
            if String.eqb ambiguous.(amb_status) "ambiguous"
            then Fatal (Anyhow "block-update submission outcome is ambiguous for signature {} and idempotency key {}")
            else Fatal (Anyhow "unexpected accepted block-update status '{}'")
        | inr error => transport_error error
        end
      else if is_success status then
        match json_block_update response with
        | inl response => Success response
        | inr error => transport_error error
        end
      else
        let retryable := is_retryable_http_status status in
        match response_text response with
        | inr error => transport_error error
        | inl body =>
            let error := Anyhow "block-update submission failed with HTTP {}: {}" in
            if retryable then Retry error else Fatal error
        end
  end.

(** [bearer_auth] is set when the key is not empty: [send] takes the header. *)
Definition block_update (fuel : nat) (retry_policy : NetworkRetryPolicy) (api_key : string)
    (send : option string -> prog W (R + ReqwestError))
  : prog W (BlockUpdateResponse + Prelude.error) :=
  run
    (answer ← send (if String.eqb api_key EmptyString then None else Some api_key);
     mret (block_update_attempt answer)) fuel retry_policy.
End clients.

(** ** The retry loop, attempt by attempt

    [retries self start attempt delay w sleeps attempt' delay' w']: from [w],
    attempts that each ended in a transient error, separated by the backoff
    sleeps [sleeps], lead to [w'], where the next attempt is to be made. *)
Section retry_theory.
Context {W : Type} `{!Clock W} {T E : Type}.
Variable operation : prog W (RetryAction T E).
Implicit Types (self : NetworkRetryPolicy).

Inductive retries (self : NetworkRetryPolicy) (start : N)
  : N -> N -> W -> list N -> N -> N -> W -> Prop :=
| retries_done attempt delay w : retries self start attempt delay w [] attempt delay w
| retries_step attempt delay w error d sleeps attempt' delay' w' :
    result operation w = Ok (Retry error) ->
    attempts_exhausted self attempt = false ->
    sleep_duration self start delay (final operation w) = Some d ->
    retries self start (saturating_add u64_max attempt 1) (next_delay self delay)
      (sleep d (final operation w)) sleeps attempt' delay' w' ->
    retries self start attempt delay w (d :: sleeps) attempt' delay' w'.

(** Whether the loop ends after the action of an attempt. *)
Definition stops self (start attempt delay : N) (action : RetryAction T E) (w : W) : bool :=
  match action with
  | Retry _ => attempts_exhausted self attempt || bool_decide (sleep_duration self start delay w = None)
  | _ => true
  end.

Definition outcome_of (action : RetryAction T E) : T + E :=
  match action with
  | Success value => inl value
  | Retry error | Fatal error => inr error
  end.

(** The delay before attempt [i + 2]. *)
Definition backoff self (i : nat) : N :=
  match i with
  | O => self.(initial_delay)
  | _ => N.min (self.(initial_delay) * 2 ^ N.of_nat i) self.(max_delay)
  end.

Lemma next_delay_backoff self i :
  (self.(max_delay) <= Duration_MAX)%N -> next_delay self (backoff self i) = backoff self (S i).
Proof.
  intros Hm. unfold next_delay, duration_saturating_mul.
  assert (backoff self (S i) = N.min (backoff self i * 2) (max_delay self)) as ->.
  { unfold backoff. destruct i as [|i].
    - rewrite N.pow_1_r. done.
    - rewrite (Nat2N.inj_succ (S i)), N.pow_succ_r'. lia. }
  lia.
Qed.

(** One turn of the loop. *)
Lemma run_loop_S fuel self start attempt delay w action :
  result operation w = Ok action ->
  exists t, run_loop operation (S fuel) self start attempt delay w =
  if stops self start attempt delay action (final operation w)
  then (t, final operation w, Ok (outcome_of action))
  else match sleep_duration self start delay (final operation w) with
       | None => (t, final operation w, Ok (outcome_of action))
       | Some d =>
           let p := run_loop operation fuel self start (saturating_add u64_max attempt 1)
                      (next_delay self delay) (sleep d (final operation w)) in
           (t ++ p.1.1, p.1.2, p.2)
       end.
Proof.
  unfold result, final. destruct (operation w) as [[t w1] r] eqn:Ew; simpl. intros ->.
  cbn [run_loop]. rewrite prog_bind_eq, Ew. unfold stops, outcome_of.
  destruct action as [v|e|e]; try (eexists; simpl; by rewrite ?app_nil_r).
  destruct (attempts_exhausted self attempt); [by eexists|]. simpl.
  rewrite prog_bind_eq. simpl.
  destruct (sleep_duration self start delay w1) as [d|] eqn:Ed; [|by eexists].
  rewrite prog_bind_eq. simpl.
  destruct (run_loop operation fuel self start _ _ (sleep d w1)) as [[t2 w2] r2]; simpl.
  exists (t ++ [sleep d w1]). by rewrite <- app_assoc.
Qed.

Lemma sleep_duration_bound self start delay w d :
  sleep_duration self start delay w = Some d ->
  (d <= delay)%N /\
  forall deadline, self.(overall_deadline) = Some deadline -> (now w - start + d <= deadline)%N.
Proof.
  unfold sleep_duration. destruct (overall_deadline self) as [D|]; [|naive_solver].
  case_match; [done|]. bool_hyps. intros [= <-]. split; [lia|]. intros ? [= <-]. lia.
Qed.

Lemma stops_false self start attempt delay action w :
  stops self start attempt delay action w = false ->
  exists error d, action = Retry error /\ attempts_exhausted self attempt = false /\
                  sleep_duration self start delay w = Some d.
Proof.
  unfold stops. destruct action as [|e|]; [done| |done]. intros. bool_hyps.
  destruct (sleep_duration self start delay w) as [d|]; [|done]. eauto.
Qed.

Lemma run_eq fuel self w :
  run operation fuel self w
  = run_loop operation fuel self (now w) 1 self.(initial_delay) w.
Proof.
  unfold run. rewrite prog_bind_eq. simpl.
  by destruct (run_loop _ _ _ _ _ _ w) as [[? ?] ?].
Qed.

Hypothesis operation_answers : forall w, exists action, result operation w = Ok action.

(** The shape of every run that has fuel for the attempts left. *)
Lemma run_loop_spec fuel self start m attempt i w :
  (self.(max_delay) <= Duration_MAX)%N -> (m <= u64_max)%N -> self.(max_attempts) = Some m ->
  (N.max 1 m < attempt + N.of_nat fuel)%N -> (attempt <= N.max 1 m)%N ->
  let p := run_loop operation fuel self start attempt (backoff self i) w in
  exists sleeps attempt' delay' w' action,
    retries self start attempt (backoff self i) w sleeps attempt' delay' w' /\
    result operation w' = Ok action /\
    stops self start attempt' delay' action (final operation w') = true /\
    p.2 = Ok (outcome_of action) /\ p.1.2 = final operation w' /\
    (attempt + N.of_nat (length sleeps) <= N.max 1 m)%N /\
    forall j s, sleeps !! j = Some s -> (s <= backoff self (i + j))%N.
Proof.
  intros Hd Hm64 Hm. revert attempt i w.
  induction fuel as [|fuel IH]; intros attempt i w Hf Ha; [lia|].
  destruct (operation_answers w) as [action Haction].
  destruct (run_loop_S fuel self start attempt (backoff self i) w action Haction) as [t E1].
  intros p. subst p. rewrite E1.
  destruct (stops self start attempt (backoff self i) action (final operation w)) eqn:Hs.
  { exists [], attempt, (backoff self i), w, action. simpl.
    split; [constructor|]. do 4 (split; [done|]). split; [simpl; lia|done]. }
  destruct (stops_false _ _ _ _ _ _ Hs) as (e & d & -> & Hx & Hdur). rewrite Hdur. simpl.
  unfold attempts_exhausted in Hx. rewrite Hm in Hx. bool_hyps.
  assert (saturating_add u64_max attempt 1 = (attempt + 1)%N) as Hat
    by (unfold saturating_add; lia).
  rewrite Hat, next_delay_backoff by done.
  destruct (IH (attempt + 1)%N (S i) (sleep d (final operation w)))
    as (sleeps & a' & d' & w' & action & Hr & Hres & Hst & E2 & Ef & Hl & Hb); [lia..|].
  exists (d :: sleeps), a', d', w', action. rewrite E2, Ef.
  split; [|split; [done|split; [done|split; [done|split; [done|split]]]]].
  - eapply retries_step; [done| |done|].
    + unfold attempts_exhausted. rewrite Hm. apply N.leb_gt. lia.
    + by rewrite Hat, next_delay_backoff.
  - simpl. lia.
  - intros [|j] s Hj; simpl in Hj.
    + injection Hj as <-. rewrite Nat.add_0_r. by eapply sleep_duration_bound.
    + replace (i + S j) with (S i + j) by lia. by apply Hb.
Qed.
End retry_theory.

(** C15: What a bounded retry policy does.  Given an operation that always
    answers and a policy with a cap of [m] attempts, [run] terminates with fuel
    for [max 1 m] attempts: at most [m] attempts (and always one) are made,
    every attempt before the last ended in a transient error and was followed
    by a sleep no longer than the exponential backoff of its position, and the
    result is that of the last attempt: its value on success, its error
    otherwise, the last transient error when the cap or the deadline ends the
    loop. *)
Theorem run_policy_spec {W} `{!Clock W} {T E} (operation : prog W (RetryAction T E))
    (self : NetworkRetryPolicy) (m : N) (fuel : nat) (w : W) :
  (forall w, exists action, result operation w = Ok action) ->
  self.(max_attempts) = Some m -> (m <= u64_max)%N -> (self.(max_delay) <= Duration_MAX)%N ->
  N.to_nat (N.max 1 m) <= fuel ->
  exists sleeps attempt delay w' action,
    retries operation self (now w) 1 self.(initial_delay) w sleeps attempt delay w' /\
    result operation w' = Ok action /\
    stops self (now w) attempt delay action (final operation w') = true /\
    result (run operation fuel self) w = Ok (outcome_of action) /\
    final (run operation fuel self) w = final operation w' /\
    (1 + N.of_nat (length sleeps) <= N.max 1 m)%N /\
    forall j s, sleeps !! j = Some s -> (s <= backoff self j)%N.
Proof.
  intros Hop Hm Hm64 Hd Hf.
  destruct (run_loop_spec operation Hop fuel self (now w) m 1 0 w)
    as (sleeps & a & d & w' & action & H); [done..|lia|lia|].
  exists sleeps, a, d, w', action. unfold result, final. rewrite run_eq. exact H.
Qed.

(** The wall-clock budget alone bounds the loop.  With an overall deadline
    [D] and no cap on attempts, positive delays and a clock that never goes
    back, [run] terminates: fuel for [D / min(initial, max) + 2] attempts is
    enough, because every sleep is at least the smaller delay or ends at the
    deadline. *)
Theorem run_deadline_terminates {W} `{!Clock W, !ClockLaws W} {T E}
    (operation : prog W (RetryAction T E)) (self : NetworkRetryPolicy) (D : N) (fuel : nat) (w : W) :
  (forall w, exists action, result operation w = Ok action) ->
  (forall w, (now w <= now (final operation w))%N) ->
  self.(overall_deadline) = Some D ->
  (0 < self.(initial_delay))%N -> (0 < self.(max_delay) <= Duration_MAX)%N ->
  (D / N.min self.(initial_delay) self.(max_delay) + 2 <= N.of_nat fuel)%N ->
  returns (result (run operation fuel self) w) = true.
Proof.
  intros Hop Hclock HD Hi Hm Hf. unfold result. rewrite run_eq.
  set (mu := N.min (initial_delay self) (max_delay self)) in *.
  assert (forall fuel attempt i w', (now w <= now w')%N -> fuel <> 0 ->
    (D + mu <= now w' - now w + N.of_nat fuel * mu)%N ->
    returns (run_loop operation fuel self (now w) attempt (backoff self i) w').2 = true) as Hloop.
  { clear fuel Hf. induction fuel as [|fuel IH]; intros attempt i w' Hw' Hf0 Hf; [done|].
    destruct (Hop w') as [action Haction].
    destruct (run_loop_S operation fuel self (now w) attempt (backoff self i) w' action Haction)
      as [t ->].
    case_match; [done|]. destruct (sleep_duration _ _ _ _) as [d|] eqn:Ed; [|done]. simpl.
    rewrite next_delay_backoff by lia. pose proof (Hclock w'). 
    assert (mu <= backoff self i)%N as Hmu.
    { unfold backoff, mu. destruct i; [lia|]. pose proof (N.pow_nonzero 2 (N.of_nat (S i))). nia. }
    unfold sleep_duration in Ed. rewrite HD in Ed. case_match; [done|]. bool_hyps.
    injection Ed as <-.
    set (d := N.min _ _). pose proof (sleep_now d (final operation w')) as Hs.
    assert (fuel <> 0) by (intros ->; nia).
    apply IH; [lia|done|]. rewrite Nat2N.inj_succ in Hf. subst d. nia. }
  pose proof (N.div_mod D mu ltac:(lia)). pose proof (N.mod_lt D mu ltac:(lia)).
  specialize (Hloop fuel 1%N 0 w (N.le_refl _)). change (backoff self 0) with (initial_delay self) in Hloop.
  remember (D / mu)%N as q. apply Hloop; [lia|nia].
Qed.

(** If [log] records the answers of the calls made, the answers a run adds are
    all to be retried but the last one, whose action is the result. *)
Lemma run_log {W} `{!Clock W} {A T E} (log : W -> list A) (send : prog W A)
    (classify : A -> RetryAction T E) (fuel : nat) (policy : NetworkRetryPolicy) (w : W) (r : T + E) :
  (forall d w, log (sleep d w) = log w) ->
  (forall w a, result send w = Ok a -> log (final send w) = log w ++ [a]) ->
  let p := run (answer ← send; mret (classify answer)) fuel policy in
  result p w = Ok r ->
  exists init last,
    log (final p w) = log w ++ init ++ [last] /\
    Forall (fun a => exists e, classify a = Retry e) init /\
    r = outcome_of (classify last).
Proof.
  intros Hsleep Hlog. unfold result, final. rewrite run_eq.
  generalize (initial_delay policy) as delay. generalize 1%N as attempt.
  generalize (now w) as start. intros start. set (op := (_ ≫= _)).
  assert (forall w action, result op w = Ok action -> exists a, result send w = Ok a /\
    final op w = final send w /\ action = classify a) as Hop.
  { clear. intros w action. unfold op, result, final. rewrite prog_bind_eq.
    destruct (send w) as [[t w1] [b| | |]]; simpl; try done. intros [= <-]. eauto. }
  revert w. induction fuel as [|fuel IH]; intros w attempt delay Hr; [done|].
  destruct (result op w) as [action|e|s|] eqn:Haction.
  2-4: cbn [run_loop] in Hr; unfold result in Haction; rewrite prog_bind_eq in Hr;
       destruct (op w) as [[? ?] ?]; simpl in *; by simplify_eq.
  destruct (run_loop_S op fuel policy start attempt delay w action Haction) as [t E1].
  rewrite E1 in Hr |- *.
  destruct (Hop w action Haction) as (a & Ha & Hf & ->). specialize (Hlog w a Ha).
  destruct (stops policy start attempt delay (classify a) (final op w)) eqn:Hs.
  { simpl in *. injection Hr as <-. exists [], a. by rewrite Hf, Hlog. }
  destruct (stops_false _ _ _ _ _ _ Hs) as (e & d & He & Hx & Hdur). rewrite Hdur in Hr |- *.
  simpl in *. destruct (IH (sleep d (final op w)) _ _ Hr) as (init & last & Hl & HF & Hlast).
  exists (a :: init), last. split; [|split; [constructor; [by exists e|done]|done]].
  rewrite Hl, Hsleep, Hf, Hlog. by rewrite <- !app_assoc.
Qed.

(** A bridge call is resent only after a retryable error.  If [log] records
    the answers of the calls made, a run of [retry_bridge_network] that returns
    adds a non-empty list of answers of which every one but the last is a
    retryable error; the result is the last answer.  In particular nothing is
    sent after a success, or after [ConfirmationTimeout], whose transaction may
    have landed. *)
Theorem retry_bridge_network_resends {W} `{!Clock W} {T} (log : W -> list (T + BridgeError))
    (operation : prog W (T + BridgeError)) (fuel : nat) (policy : NetworkRetryPolicy) (w : W)
    (answer : T + BridgeError) :
  (forall d w, log (sleep d w) = log w) ->
  (forall w a, result operation w = Ok a -> log (final operation w) = log w ++ [a]) ->
  result (retry_bridge_network fuel policy operation) w = Ok answer ->
  exists errors : list BridgeError,
    log (final (retry_bridge_network fuel policy operation) w)
    = log w ++ (inr <$> errors) ++ [answer] /\
    Forall (fun e => is_retryable_bridge_error e = true /\ e <> ConfirmationTimeout) errors.
Proof.
  intros Hsleep Hlog Hr.
  destruct (run_log log operation _ fuel policy w answer Hsleep Hlog Hr) as (init & last & Hl & HF & ->).
  assert (exists errors : list BridgeError, init = inr <$> errors /\
    Forall (fun e => is_retryable_bridge_error e = true /\ e <> ConfirmationTimeout) errors)
    as (errors & -> & He).
  { clear Hl Hr. induction HF as [|a init [e Ha] HF (errors & -> & He)]; [by exists []|].
    destruct a as [v|e']; [done|]. exists (e' :: errors). split; [done|]. constructor; [|done].
    destruct (is_retryable_bridge_error e') eqn:Hret; [|done]. split; [done|]. by intros ->. }
  exists errors. split; [|done]. unfold retry_bridge_network. rewrite Hl. do 3 f_equal.
  destruct last as [v|e]; [done|]. simpl. by case_match.
Qed.

(** C16: The sender is asked again only when nothing conclusive was received.
    If [log] records the answers to the requests, every answer before the last
    is a transport failure the client may retry, or an HTTP error status of the
    retryable set: never a readable acceptance ([202], an ambiguous
    submission) and never a readable success.  A returned response is the
    parsed body of a final answer with a 2xx status other than [202]. *)
Theorem block_update_resends {W R} `{!Clock W, !HttpResponse R} (log : W -> list (R + ReqwestError))
    (send : option string -> prog W (R + ReqwestError)) (fuel : nat) (policy : NetworkRetryPolicy)
    (api_key : string) (w : W) (r : BlockUpdateResponse + Prelude.error) :
  (forall d w, log (sleep d w) = log w) ->
  (forall header w a, result (send header) w = Ok a -> log (final (send header) w) = log w ++ [a]) ->
  result (block_update fuel policy api_key send) w = Ok r ->
  exists init last,
    log (final (block_update fuel policy api_key send) w) = log w ++ init ++ [last] /\
    Forall (fun a => match a with
      | inr error => is_retryable_reqwest error = true
      | inl response =>
          if (response_status response =? ACCEPTED)%N then
            exists error, json_ambiguous response = inr error /\ is_retryable_reqwest error = true
          else if is_success (response_status response) then
            exists error, json_block_update response = inr error /\ is_retryable_reqwest error = true
          else is_retryable_http_status (response_status response) = true
               \/ exists error, response_text response = inr error /\ is_retryable_reqwest error = true
      end) init /\
    forall v, r = inl v ->
      exists response, last = inl response /\ is_success (response_status response) = true /\
        response_status response <> ACCEPTED /\ json_block_update response = inl v.
Proof.
  intros Hsleep Hlog Hr.
  set (hdr := if String.eqb api_key EmptyString then None else Some api_key).
  destruct (run_log log (send hdr) block_update_attempt fuel policy w r Hsleep (Hlog hdr) Hr)
    as (init & last & Hl & HF & ->).
  exists init, last. split; [exact Hl|]. split.
  - eapply Forall_impl; [exact HF|]. intros a [e He]. unfold block_update_attempt, transport_error in He.
    destruct a as [response|error]; repeat case_match; simplify_eq; eauto.
  - intros v Hv. unfold block_update_attempt, transport_error in Hv.
    destruct last as [response|error]; repeat case_match; simplify_eq/=.
    bool_hyps. eauto 10.
Qed.

(** ** Witnesses: a scripted network *)
Module NetworkRetryWitness.

(** The clock, the answers still to come and the answers given. *)
Record world (A : Type) := mkWorld { clock : N; script : list A; given : list A }.
Arguments mkWorld {_} _ _ _.
Arguments clock {_} _.
Arguments script {_} _.
Arguments given {_} _.

#[local] Instance world_clock {A} : Clock (world A) := {|
  now w := w.(clock);
  sleep d w := mkWorld (w.(clock) + d) w.(script) w.(given);
|}.

#[local] Instance world_clock_laws {A} : ClockLaws (world A).
Proof. constructor. intros. simpl. lia. Qed.

(** Each call takes a second. *)
Definition scripted {A} (otherwise : A) : prog (world A) A :=
  perform (fun w =>
    let a := from_option id otherwise (head w.(script)) in
    (mkWorld (w.(clock) + from_secs 1) (tail w.(script)) (w.(given) ++ [a]), Ok a)).

Definition flaky : world (RetryAction N string) :=
  mkWorld 0 [Retry "reset"; Retry "reset"; Success 7%N] [].

Lemma run_policy_spec_witness :
  exists sleeps attempt delay w' action,
    retries (scripted (Retry "down")) NetworkRetryPolicyOps.default (now flaky) 1
      (initial_delay NetworkRetryPolicyOps.default) flaky sleeps attempt delay w' /\
    result (scripted (Retry "down")) w' = Ok action /\
    stops NetworkRetryPolicyOps.default (now flaky) attempt delay action
      (final (scripted (Retry "down")) w') = true /\
    result (run (scripted (Retry "down")) 20 NetworkRetryPolicyOps.default) flaky
    = Ok (outcome_of action) /\
    final (run (scripted (Retry "down")) 20 NetworkRetryPolicyOps.default) flaky
    = final (scripted (Retry "down")) w' /\
    (1 + N.of_nat (length sleeps) <= N.max 1 20)%N /\
    forall j s, sleeps !! j = Some s -> (s <= backoff NetworkRetryPolicyOps.default j)%N.
Proof.
  apply (run_policy_spec (scripted (Retry "down")) NetworkRetryPolicyOps.default 20 20 flaky).
  - intros w. by eexists.
  - reflexivity.
  - vm_compute. discriminate.
  - vm_compute. discriminate.
  - vm_compute. lia.
Defined.

Lemma run_deadline_terminates_witness :
  returns (result (run (scripted (A := RetryAction N string) (Retry "down")) 42
    (with_overall_deadline (NetworkRetryPolicyOps.new 0 (from_secs 1) (from_secs 5)) (from_secs 40)))
    (mkWorld 3 [] [])) = true.
Proof.
  apply (run_deadline_terminates (scripted (Retry "down")) _ (from_secs 40)).
  - intros w. by eexists.
  - intros w. simpl. lia.
  - reflexivity.
  - vm_compute. reflexivity.
  - split; [reflexivity|]. vm_compute. discriminate.
  - vm_compute. discriminate.
Defined.

Lemma retry_bridge_network_resends_witness :
  exists errors : list BridgeError,
    given (final (retry_bridge_network 9 NetworkRetryPolicyOps.default (scripted (inl 5%N)))
      (mkWorld 0 [inr RateLimited; inr ConfirmationTimeout] []))
    = [] ++ (inr <$> errors) ++ [inr ConfirmationTimeout] /\
    Forall (fun e => is_retryable_bridge_error e = true /\ e <> ConfirmationTimeout) errors.
Proof.
  apply (retry_bridge_network_resends (T := N) given (scripted (inl 5%N)) 9
    NetworkRetryPolicyOps.default (mkWorld 0 [inr RateLimited; inr ConfirmationTimeout] [])).
  - reflexivity.
  - intros w a [= <-]. reflexivity.
  - vm_compute. reflexivity.
Defined.

(** A response is its status and its text; the text [ok] parses. *)
#[local] Instance text_response : HttpResponse (N * string) := {|
  response_status r := r.1;
  response_bytes r := inl [];
  response_text r := inl r.2;
  json_ambiguous r := inl (mkAmbiguousBlockUpdateResponse r.2 "sig" "key");
  json_block_update r := inl (mkBlockUpdateResponse r.2 "key");
|}.

Definition update_script : list (N * string + ReqwestError) :=
  [inl (503, "busy")%N; inl (200, "sig")%N].

Lemma block_update_resends_witness :
  exists init last,
    given (final (block_update 5 NetworkRetryPolicyOps.default "token"
             (fun _ => scripted (inl (404, "none")%N))) (mkWorld 0 update_script []))
    = [] ++ init ++ [last] /\
    Forall (fun a => match a with
      | inr error => is_retryable_reqwest error = true
      | inl response =>
          if (response_status response =? ACCEPTED)%N then
            exists error, json_ambiguous response = inr error /\ is_retryable_reqwest error = true
          else if is_success (response_status response) then
            exists error, json_block_update response = inr error /\ is_retryable_reqwest error = true
          else is_retryable_http_status (response_status response) = true
               \/ exists error, response_text response = inr error /\ is_retryable_reqwest error = true
      end) init /\
    forall v, (inl (mkBlockUpdateResponse "sig" "key") : BlockUpdateResponse + Prelude.error) = inl v ->
      exists response, last = inl response /\ is_success (response_status response) = true /\
        response_status response <> ACCEPTED /\ json_block_update response = inl v.
Proof.
  apply (block_update_resends given (fun _ => scripted (inl (404, "none")%N)) 5
    NetworkRetryPolicyOps.default "token" (mkWorld 0 update_script [])
    (inl (mkBlockUpdateResponse "sig" "key"))).
  - reflexivity.
  - intros h w a [= <-]. reflexivity.
  - vm_compute. reflexivity.
Defined.
End NetworkRetryWitness.
