(* ===== verification/Chain.v ===== *)
(** * The chains the services sit between

    The light-client state of Dogecoin ([QEDDogeChainStateCore]), the block
    types of [doge_light_client] and the tree constants of
    [psy_doge_bridge_helper] are third-party code: a class of operations, with
    the documented behaviour the services rely on as a class of laws.  The
    configuration of the pipeline and its validation are the code's own. *)
From S2P Require Import Prelude External Merkle NetworkRetry.

Definition HEADER_SIZE : nat := 320.
Definition CONFIG_SIZE : nat := 48.
Definition CUSTODY_SCRIPT_CONFIG_SIZE : nat := 32.
Definition PROOF_SIZE : nat := 356.
Definition PUBLIC_VALUES_SIZE : nat := 32.
Definition CHECKPOINT_PREFIX : string := "PDOGE-E2E-BLOCK-CHECKPOINT-V3".
Definition CHECKPOINT_JOURNAL_SUFFIX : string := "pending".

(** ** Profiles *)
Inductive DogeNetworkProfile := Regtest | Testnet.

#[export] Instance profile_eq_dec : EqDecision DogeNetworkProfile.
Proof. solve_decision. Defined.

(** The two profile types of the light client the network selects between. *)
Inductive ManagerCustodyProfile := LocalRegtestManagerCustody | OfficialTestnetManagerCustody.
Inductive DogeNetworkConfig := DogeRegTestConfig | DogeTestNetConfig.

Definition as_str (self : DogeNetworkProfile) : string :=
  match self with Regtest => "regtest" | Testnet => "testnet" end.

Definition guest_id (self : DogeNetworkProfile) : string :=
  match self with Regtest => "block-transition" | Testnet => "block-transition-testnet" end.

Definition REGTEST_BLOCK_VK_HASH : bytes :=
  be_bytes 32 0x001fa018c35d88136afe0e92bc9afe33ba94ca5dcd9156147adf004c7810e199.
Definition TESTNET_BLOCK_VK_HASH : bytes :=
  be_bytes 32 0x00b25e2fe5866751a38e5ca4d975b30b4187f3e0528a06dc86edc6e9a8b9cc02.

Definition default_vk_hash (self : DogeNetworkProfile) : bytes :=
  match self with Regtest => REGTEST_BLOCK_VK_HASH | Testnet => TESTNET_BLOCK_VK_HASH end.

Definition default_block_elf_path (self : DogeNetworkProfile) : string :=
  let name := match self with
              | Regtest => "block-transition"
              | Testnet => "block-transition-testnet"
              end in
  "../psy-bridge-sp1/target/elf-compilation/riscv64im-succinct-zkvm-elf/release" +:+ "/" +:+ name.

Definition profile_of (network : DogeNetworkProfile) : DogeNetworkConfig * ManagerCustodyProfile :=
  match network with
  | Regtest => (DogeRegTestConfig, LocalRegtestManagerCustody)
  | Testnet => (DogeTestNetConfig, OfficialTestnetManagerCustody)
  end.

(** [CustodyScriptConfig::hash::<P>()] and the custody scripts. *)
Class Custody := {
  custody_config_hash : bytes -> ManagerCustodyProfile -> bytes;
  get_manager_custody_output_script : ManagerCustodyProfile -> bytes -> bytes -> bytes;
  get_manager_custody_redeem_script : ManagerCustodyProfile -> bytes -> bytes -> bytes;
}.

Definition custodian_hash `{!Custody} (self : DogeNetworkProfile) (emitter_bridge_pda : bytes) : bytes :=
  match self with
  | Regtest => custody_config_hash emitter_bridge_pda LocalRegtestManagerCustody
  | Testnet => custody_config_hash emitter_bridge_pda OfficialTestnetManagerCustody
  end.

(** ** Configuration *)
Inductive ProverBackendKind := Local | Redis.
#[export] Instance backend_eq_dec : EqDecision ProverBackendKind.
Proof. solve_decision. Defined.

(** A path, as the list of its components. *)
Abbreviation Path := (list string).

Record BlockPipelineConfig := mkConfig {
  network : DogeNetworkProfile;
  electrs_url : string;
  redis_url : string;
  sender_url : string;
  sender_bearer_token : string;
  gen_proof_path : Path;
  block_elf_path : Path;
  expected_vk_hash : bytes;
  evidence_dir : Path;
  poll_interval : N;
  redis_seed : N;
  prover_backend : ProverBackendKind;
  proof_prepare_window : nat;
  proof_queue_prefix : string;
  proof_wait_interval : N;
  start_height : option N;
  old_state_dir : option Path;
  witness_dir : option Path;
  custody_script_config : bytes;
  recipient_atas : list bytes;
  required_confirmations : N;
  config_params : bytes;
  initial_header : bytes;
  deposit_evidence_path : option Path;
  solana_rpc_url : string;
  operator_keypair : Path;
  payer_keypair : Path;
  doge_mint : bytes;
  bridge_program : bytes;
  pending_mint_program : bytes;
  txo_buffer_program : bytes;
}.

(** [u64::from_le_bytes(config[lo..hi])] *)
Definition deposit_fee_numerator (config : bytes) : N := le_value (slice config 0 8).
Definition deposit_fee_denominator (config : bytes) : N := le_value (slice config 8 16).
Definition deposit_flat_fee (config : bytes) : N := le_value (slice config 32 40).

Definition ensure_release_path (path : Path) : outcome () :=
  let has_release := existsb (String.eqb "release") path in
  let has_debug := existsb (String.eqb "debug") path in
  bail_when (negb has_release || has_debug) "{name} must be loaded from a release path: {}".

(** What validation reads from outside: the build profile, the file system, the
    keypair files and the program-derived addresses. *)
Class Host := {
  debug_assertions : bool;
  is_file : Path -> bool;
  is_blank : string -> bool;               (* [s.trim().is_empty()] *)
  read_keypair_file : Path -> option bytes; (* the public key *)
  find_program_address : list bytes -> bytes -> bytes;
}.

Section config.
Context `{!Host}.

Definition validate_gen_proof_path (backend : ProverBackendKind) (path : Path) : outcome () :=
  if bool_decide (backend = Redis) then mret ()
  else
    bail_when (negb (is_file path)) "SP1 gen-proof executable does not exist at {}" ;;
    ensure_release_path path.

Definition read_pipeline_keypair (path : Path) : outcome bytes :=
  ok_or (read_keypair_file path) (Anyhow "failed to read {name} keypair {}: {error}").

(** The keys of the list that occur before their position. *)
Fixpoint duplicate_key (seen keys : list bytes) : bool :=
  match keys with
  | [] => false
  | key :: keys => bool_decide (key ∈ seen) || duplicate_key (seen ++ [key]) keys
  end.

Definition validate_config (config : BlockPipelineConfig) : outcome () :=
  bail_when debug_assertions "block pipeline must be built in release mode" ;;
  validate_gen_proof_path config.(prover_backend) config.(gen_proof_path) ;;
  bail_when (negb (is_file config.(block_elf_path))) "block-transition ELF does not exist at {}" ;;
  ensure_release_path config.(block_elf_path) ;;
  bail_when (forallb (Byte.eqb x00) config.(expected_vk_hash))
    "expected SP1 program VK hash must be non-zero" ;;
  bail_when (bool_decide (config.(expected_vk_hash) <> default_vk_hash config.(network)))
    "{} profile requires SP1 block VK {}, got {}" ;;
  bail_when (is_blank config.(sender_bearer_token)) "sender bearer token is required" ;;
  bail_when (deposit_fee_denominator config.(config_params) =? 0)%N
    "deposit fee denominator must be non-zero" ;;
  bail_when (config.(proof_prepare_window) =? 0)%nat "proof prepare window must be at least 1" ;;
  bail_when (is_blank config.(proof_queue_prefix)) "proof queue prefix must not be empty" ;;
  bail_when (config.(proof_wait_interval) =? 0)%N "proof wait interval must be non-zero" ;;
  bail_when (bool_decide (config.(custody_script_config)
      <> find_program_address [string_bytes "bridge_state"] config.(bridge_program)))
    "custody script config {} does not match bridge-state PDA {expected_bridge_state}" ;;
  bail_when (bool_decide (config.(recipient_atas) = []))
    "at least one recipient ATA is required for manager custody auto-claim scanning" ;;
  bail_when (duplicate_key [] config.(recipient_atas)) "duplicate recipient ATA at index {index}" ;;
  bail_when (is_blank config.(solana_rpc_url)) "Solana RPC URL is required" ;;
  bail_when (negb (is_file config.(operator_keypair))) "{name} keypair does not exist at {}" ;;
  bail_when (negb (is_file config.(payer_keypair))) "{name} keypair does not exist at {}" ;;
  operator ← read_pipeline_keypair config.(operator_keypair);
  let expected_mint_buffer :=
    find_program_address [string_bytes "mint_buffer"; operator] config.(pending_mint_program) in
  let expected_txo_buffer :=
    find_program_address [string_bytes "txo_buffer"; operator] config.(txo_buffer_program) in
  bail_when (bool_decide (expected_mint_buffer = replicate 32 x00)
             || bool_decide (expected_txo_buffer = replicate 32 x00))
    "derived buffer PDA must be non-zero".

Lemma duplicate_key_spec seen keys :
  NoDup seen -> duplicate_key seen keys = false -> NoDup (seen ++ keys).
Proof.
  revert seen. induction keys as [|key keys IH]; intros seen Hs Hd; simpl in Hd.
  - by rewrite app_nil_r.
  - bool_hyps. replace (seen ++ key :: keys) with ((seen ++ [key]) ++ keys) by by rewrite <- app_assoc.
    apply IH; [|done]. apply NoDup_app. split; [done|]. split; [set_solver|]. apply NoDup_singleton.
Qed.
End config.

(** ** The light client *)
Record BlockRecord := mkBlockRecord {
  timestamp : N;
  rec_deposits_tree_root : bytes;
  rec_deposits_next_index : N;
  rec_txo_tree_root : bytes;
  total_fees_collected_chain_history : N;
}.

Record StateCommitment := mkStateCommitment {
  block_hash : bytes;
  block_merkle_tree_root : bytes;
  block_height : N;
  auto_claimed_txo_tree_root : bytes;
  auto_claimed_deposits_tree_root : bytes;
  auto_claimed_deposits_next_index : N;
}.

Class TreeParams := {
  AUTO_CLAIM_DEPOSITS_TREE_HEIGHT : nat;
  TXO_TREE_INDEX_BITS_BLOCK_NUM_LENGTH : nat;
  TXO_BLOCK_FULL_MERKLE_TREE_HEIGHT : nat;
  PSY_DOGE_BRIDGE_BLOCK_HASH_CACHE_SIZE : nat;
}.
(** Leaf indices are [u32], and the table of empty subtrees covers both trees. *)
Class TreeParamsLaws `{!TreeParams, !Sha} := {
  claim_tree_height : AUTO_CLAIM_DEPOSITS_TREE_HEIGHT <= 32;
  txo_tree_height : TXO_TREE_INDEX_BITS_BLOCK_NUM_LENGTH <= 32;
  claim_tree_zeros : AUTO_CLAIM_DEPOSITS_TREE_HEIGHT < length SHA256_ZERO_HASHES;
  txo_tree_zeros :
    TXO_BLOCK_FULL_MERKLE_TREE_HEIGHT + TXO_TREE_INDEX_BITS_BLOCK_NUM_LENGTH
    < length SHA256_ZERO_HASHES;
  cache_size_u32 : (N.of_nat PSY_DOGE_BRIDGE_BLOCK_HASH_CACHE_SIZE <= u32_max)%N;
}.

Record TxOutput := mkTxOutput { value : N; script : bytes }.

(** [doge_light_client]: transactions, headers and the chain state. *)
Class LightClient := {
  BTCTransaction : Type;
  get_hash : BTCTransaction -> bytes;
  outputs : BTCTransaction -> list TxOutput;
  QDogeBlockHeader : Type;
  #[global] header_eq_dec :: EqDecision QDogeBlockHeader;
  merkle_root : QDogeBlockHeader -> bytes;
  previous_block_hash : QDogeBlockHeader -> bytes;
  header_hash : QDogeBlockHeader -> bytes;
  BridgeState : Type;
  #[global] state_eq_dec :: EqDecision BridgeState;
  borsh_to_vec : BridgeState -> option bytes;
  try_from_slice : bytes -> option BridgeState;
  get_tip_block_number : BridgeState -> N;
  get_tip_block_hash : BridgeState -> bytes;
  get_finalized_block_number : BridgeState -> N -> N;
  get_record : BridgeState -> N -> option BlockRecord;
  get_tip_state_commitment : BridgeState -> StateCommitment;
  get_finalized_state_commitment : BridgeState -> N -> option StateCommitment;
  (** [PsyDogeBridgeState::from_init_data(&InitBlockDataIBC::new_from_block_headers_empty_tree(..))] *)
  from_init_data : list QDogeBlockHeader -> N -> BridgeState;
}.

Record QDogeBlock `{!LightClient} := mkQDogeBlock {
  header : QDogeBlockHeader;
  transactions : list BTCTransaction;
}.

(** The widths of the fields read from a state. *)
Definition commitment_wf (c : StateCommitment) : Prop :=
  length c.(block_hash) = 32 /\ length c.(block_merkle_tree_root) = 32 /\
  (c.(block_height) <= u32_max)%N /\ length c.(auto_claimed_txo_tree_root) = 32 /\
  length c.(auto_claimed_deposits_tree_root) = 32 /\
  (c.(auto_claimed_deposits_next_index) <= u32_max)%N.
Definition record_wf (r : BlockRecord) : Prop :=
  (r.(timestamp) <= u32_max /\ r.(total_fees_collected_chain_history) <= u64_max)%N.

Class LightClientLaws `{!LightClient, !TreeParams, !Sha} := {
  tip_commitment_wf s : commitment_wf (get_tip_state_commitment s);
  finalized_commitment_wf s n c : get_finalized_state_commitment s n = Some c -> commitment_wf c;
  records_wf s n r : get_record s n = Some r -> record_wf r;
  borsh_round_trip s b : borsh_to_vec s = Some b -> try_from_slice b = Some s;
  (** the initial state has its tip at the given height and empty claim trees *)
  init_tip headers height : get_tip_block_number (from_init_data headers height) = height;
  init_record headers height : exists r,
    get_record (from_init_data headers height) height = Some r /\
    r.(rec_deposits_next_index) = 0%N /\
    SHA256_ZERO_HASHES !! AUTO_CLAIM_DEPOSITS_TREE_HEIGHT = Some r.(rec_deposits_tree_root) /\
    SHA256_ZERO_HASHES !! (TXO_BLOCK_FULL_MERKLE_TREE_HEIGHT + TXO_TREE_INDEX_BITS_BLOCK_NUM_LENGTH)
    = Some r.(rec_txo_tree_root);
}.

Lemma ensure_release_path_Ok path u :
  ensure_release_path path = Ok u -> "release" ∈ path /\ "debug" ∉ path.
Proof.
  unfold ensure_release_path. intros Hp. inv_ok. bool_hyps.
  match goal with E : existsb _ _ = true |- _ => rename E into Hr end.
  match goal with E : existsb _ _ = false |- _ => rename E into Hd end.
  split.
  - apply existsb_exists in Hr as (x & Hx & <-%String.eqb_eq). by apply list_elem_of_In.
  - intros Hin. apply not_true_iff_false in Hd. destruct Hd. apply existsb_exists.
    exists "debug". split; [by apply list_elem_of_In|done].
Qed.

Lemma validate_gen_proof_path_Ok `{!Host} path u :
  validate_gen_proof_path Local path = Ok u ->
  is_file path = true /\ "release" ∈ path /\ "debug" ∉ path.
Proof.
  unfold validate_gen_proof_path. rewrite bool_decide_false by done. intros Hv. inv_ok. bool_hyps.
  split; [done|]. by eapply ensure_release_path_Ok.
Qed.

Lemma forallb_zero (b : bytes) : forallb (Byte.eqb x00) b = false -> exists x, x ∈ b /\ x <> x00.
Proof.
  induction b as [|x b IH]; [done|]. cbn [forallb]. destruct (Byte.eqb x00 x) eqn:E.
  - intros Hb. destruct (IH Hb) as (y & Hy & Hne). exists y. split; [set_solver|done].
  - intros _. exists x. split; [set_solver|]. intros ->. done.
Qed.

(** A validated configuration is safe to start with: a release build, the
    profile's own verifying key (not zero), a non-empty duplicate-free list of
    recipient accounts, a prepare window of at least one, a non-zero fee
    denominator and proof wait interval, and the custody script derived from
    the configured bridge program; with the local backend, a prover binary in a
    release directory. *)
Theorem validate_config_sound `{!Host} (config : BlockPipelineConfig) u :
  validate_config config = Ok u ->
  debug_assertions = false /\
  config.(expected_vk_hash) = default_vk_hash config.(network) /\
  (exists b, b ∈ config.(expected_vk_hash) /\ b <> x00) /\
  config.(recipient_atas) <> [] /\ NoDup config.(recipient_atas) /\
  1 <= config.(proof_prepare_window) /\
  (0 < deposit_fee_denominator config.(config_params))%N /\
  (0 < config.(proof_wait_interval))%N /\
  config.(custody_script_config)
  = find_program_address [string_bytes "bridge_state"] config.(bridge_program) /\
  "release" ∈ config.(block_elf_path) /\ "debug" ∉ config.(block_elf_path) /\
  (config.(prover_backend) = Local ->
   is_file config.(gen_proof_path) = true /\
   "release" ∈ config.(gen_proof_path) /\ "debug" ∉ config.(gen_proof_path)).
Proof.
  unfold validate_config. intros Hv. inv_ok. bool_hyps.
  repeat match goal with E : ¬ (_ <> _) |- _ => apply dec_stable in E end.
  repeat match goal with E : ensure_release_path _ = Ok _ |- _ => apply ensure_release_path_Ok in E end.
  split_and!; try done; try lia; try tauto.
  - by apply forallb_zero.
  - apply (duplicate_key_spec []); [constructor|done].
  - intros Hl. rewrite Hl in Hok0. by eapply validate_gen_proof_path_Ok.
Qed.

(** ** Witness *)
Module ChainWitness.

#[local] Instance host : Host := {|
  debug_assertions := false;
  is_file _ := true;
  is_blank s := String.eqb s EmptyString;
  read_keypair_file _ := Some (replicate 32 x07);
  find_program_address seeds program := take 32 (concat seeds ++ program);
|}.

Definition program : bytes := replicate 32 x09.

Definition config : BlockPipelineConfig := {|
  network := Testnet; electrs_url := "http://electrs"; redis_url := "redis://localhost";
  sender_url := "http://sender"; sender_bearer_token := "token";
  gen_proof_path := ["target"; "release"; "gen-proof"];
  block_elf_path := ["elf"; "release"; "block-transition-testnet"];
  expected_vk_hash := TESTNET_BLOCK_VK_HASH; evidence_dir := ["archive"];
  poll_interval := from_secs 1; redis_seed := 1337; prover_backend := Local;
  proof_prepare_window := 2; proof_queue_prefix := "queue"; proof_wait_interval := from_secs 1;
  start_height := None; old_state_dir := None; witness_dir := None;
  custody_script_config := take 32 (string_bytes "bridge_state" ++ program);
  recipient_atas := [replicate 32 x01; replicate 32 x02]; required_confirmations := 4;
  config_params := le_bytes 8 1 ++ le_bytes 8 100 ++ replicate 32 x00;
  initial_header := replicate 320 x00; deposit_evidence_path := None;
  solana_rpc_url := "http://solana"; operator_keypair := ["op.json"]; payer_keypair := ["payer.json"];
  doge_mint := replicate 32 x05; bridge_program := program; pending_mint_program := program;
  txo_buffer_program := program;
|}.

Lemma validate_config_witness :
  debug_assertions = false /\
  config.(expected_vk_hash) = default_vk_hash config.(network) /\
  (exists b, b ∈ config.(expected_vk_hash) /\ b <> x00) /\
  config.(recipient_atas) <> [] /\ NoDup config.(recipient_atas) /\
  1 <= config.(proof_prepare_window) /\
  (0 < deposit_fee_denominator config.(config_params))%N /\
  (0 < config.(proof_wait_interval))%N /\
  config.(custody_script_config)
  = find_program_address [string_bytes "bridge_state"] config.(bridge_program) /\
  "release" ∈ config.(block_elf_path) /\ "debug" ∉ config.(block_elf_path) /\
  (config.(prover_backend) = Local ->
   is_file config.(gen_proof_path) = true /\
   "release" ∈ config.(gen_proof_path) /\ "debug" ∉ config.(gen_proof_path)).
Proof. apply (validate_config_sound config ()). vm_compute. reflexivity. Defined.
End ChainWitness.
