(* ===== verification/ChainInstances.v ===== *)
(** * A small light client

    Instances of the classes of [Chain] that satisfy their laws, for the
    witnesses: short trees, and a state that holds its tip height, the roots of
    the two claim trees and the next deposit index. *)
From S2P Require Import Prelude External Instances Merkle Chain.
Import HexInstance ShaInstance.

#[export] Instance tree_params : TreeParams := {|
  AUTO_CLAIM_DEPOSITS_TREE_HEIGHT := 3;
  TXO_TREE_INDEX_BITS_BLOCK_NUM_LENGTH := 4;
  TXO_BLOCK_FULL_MERKLE_TREE_HEIGHT := 2;
  PSY_DOGE_BRIDGE_BLOCK_HASH_CACHE_SIZE := 2;
|}.

#[export] Instance tree_params_laws : TreeParamsLaws.
Proof.
  constructor; try (change SHA256_ZERO_HASHES with zero_table; rewrite zero_table_length);
    vm_compute; [lia..|discriminate].
Qed.

Record ToyState := mkToyState {
  toy_tip : N;
  toy_deposits_root : bytes;
  toy_next_index : N;
  toy_txo_root : bytes;
}.
#[export] Instance toy_state_eq_dec : EqDecision ToyState.
Proof. solve_decision. Defined.

Definition toy_encode (s : ToyState) : option bytes :=
  if (s.(toy_tip) <=? u32_max)%N && (s.(toy_next_index) <=? u32_max)%N
     && (length s.(toy_deposits_root) =? 32)%nat && (length s.(toy_txo_root) =? 32)%nat
  then Some (le_bytes 4 s.(toy_tip) ++ le_bytes 4 s.(toy_next_index)
             ++ s.(toy_deposits_root) ++ s.(toy_txo_root))
  else None.

Definition toy_decode (b : bytes) : option ToyState :=
  if (length b =? 72)%nat
  then Some (mkToyState (le_value (slice b 0 4)) (slice b 8 40) (le_value (slice b 4 8)) (slice b 40 72))
  else None.

Lemma toy_round_trip s b : toy_encode s = Some b -> toy_decode b = Some s.
Proof.
  unfold toy_encode. destruct s as [tip d n t]; cbn [toy_tip toy_deposits_root toy_next_index toy_txo_root].
  case_match; [|done]. bool_hyps. intros E. apply (inj Some) in E. subst b.
  unfold u32_max, toy_decode in *.
  assert (forall n, length (le_bytes 4 n) = 4) as L4 by (intros; apply le_bytes_length).
  rewrite !length_app, !L4, (proj2 (Nat.eqb_eq _ _)) by lia. f_equal.
  set (a := le_bytes 4 tip). set (c := le_bytes 4 n).
  assert (forall x y z : bytes, slice (x ++ y ++ z) (length x) (length x + length y) = y) as Hs.
  { intros x y z. unfold slice. rewrite drop_app_length, Nat.add_comm, Nat.add_sub.
    by rewrite take_app_length. }
  pose proof (Hs [] a (c ++ d ++ t)) as E1. pose proof (Hs a c (d ++ t)) as E2.
  pose proof (Hs (a ++ c) d t) as E3. pose proof (Hs (a ++ c ++ d) t []) as E4.
  rewrite app_nil_r in E4. rewrite <- !app_assoc in *. rewrite !length_app in *.
  unfold a, c in *. rewrite !L4, ?H0, ?H1 in *. simpl plus in *.
  rewrite E2, E3, E4. rewrite app_nil_l in E1. cbn [length Nat.add] in E1. rewrite E1.
  rewrite !le_value_bytes by lia. done.
Qed.

Definition toy_commitment (s : ToyState) : StateCommitment := {|
  block_hash := ShaInstance.hash (le_bytes 8 s.(toy_tip));
  block_merkle_tree_root := ShaInstance.hash [];
  block_height := N.min s.(toy_tip) u32_max;
  auto_claimed_txo_tree_root := ShaInstance.hash s.(toy_txo_root);
  auto_claimed_deposits_tree_root := ShaInstance.hash s.(toy_deposits_root);
  auto_claimed_deposits_next_index := N.min s.(toy_next_index) u32_max;
|}.

Definition toy_record (s : ToyState) : BlockRecord := {|
  timestamp := N.min s.(toy_tip) u32_max;
  rec_deposits_tree_root := s.(toy_deposits_root);
  rec_deposits_next_index := s.(toy_next_index);
  rec_txo_tree_root := s.(toy_txo_root);
  total_fees_collected_chain_history := 5;
|}.

(** Headers carry their hash, their parent and their transaction root. *)
Definition ToyHeader : Type := bytes * bytes * bytes.

#[export] Instance light_client : LightClient := {|
  BTCTransaction := bytes * list TxOutput;
  get_hash tx := tx.1;
  outputs tx := tx.2;
  QDogeBlockHeader := ToyHeader;
  merkle_root h := h.2;
  previous_block_hash h := h.1.2;
  header_hash h := h.1.1;
  BridgeState := ToyState;
  borsh_to_vec := toy_encode;
  try_from_slice := toy_decode;
  get_tip_block_number := toy_tip;
  get_tip_block_hash s := ShaInstance.hash (le_bytes 8 s.(toy_tip));
  get_finalized_block_number s confirmations := (s.(toy_tip) - confirmations)%N;
  get_record s n := Some (toy_record s);
  get_tip_state_commitment := toy_commitment;
  get_finalized_state_commitment s confirmations :=
    if (confirmations <=? s.(toy_tip))%N then Some (toy_commitment s) else None;
  from_init_data headers height :=
    mkToyState height (from_option id [] (zero_table !! 3)) 0 (from_option id [] (zero_table !! 6));
|}.

#[export] Instance light_client_laws : LightClientLaws.
Proof.
  assert (forall s, commitment_wf (toy_commitment s)) as Hc.
  { intros s. unfold commitment_wf. cbn [block_hash block_merkle_tree_root block_height
      auto_claimed_txo_tree_root auto_claimed_deposits_tree_root auto_claimed_deposits_next_index
      toy_commitment]. split_and!; apply le_bytes_length || apply N.le_min_r. }
  constructor; cbn -[zero_table N.min u32_max u64_max toy_commitment].
  - apply Hc.
  - intros s n c. case_match; [|done]. intros [= <-]. apply Hc.
  - intros s n r [= <-]. split; [apply N.le_min_r|]. by vm_compute.
  - apply toy_round_trip.
  - done.
  - intros headers n. eexists. split; [done|]. cbn -[zero_table]. split; [done|].
    destruct (lookup_lt_is_Some_2 zero_table 3) as [a ->]; [rewrite zero_table_length; lia|].
    destruct (lookup_lt_is_Some_2 zero_table 6) as [b ->]; [rewrite zero_table_length; lia|]. done.
Qed.
