(* ===== verification/Checkpoint.v ===== *)
(** * Pipeline checkpoints

    The committed state of the pipeline, its validation against the serialized
    light-client state and the on-chain header, and its initialisation. *)
From S2P Require Import Prelude External Instances Merkle Effects Chain ChainInstances.

Record PendingMintPayload := mkPendingMintPayload { recipient : bytes; amount : N }.
#[export] Instance payload_eq_dec : EqDecision PendingMintPayload.
Proof. solve_decision. Defined.

Record BlockBufferCommitment := mkBlockBufferCommitment {
  pending_mints_hash_hex : string;
  txo_output_list_hash_hex : string;
  pending_mints : list PendingMintPayload;
  txo_indices : list N;
  deposit_count : N;
  minted_amount_sats : N;
  auto_claim_start_index : N;
  auto_claim_end_index : N;
  fees_collected : N;
}.
#[export] Instance commitment_eq_dec : EqDecision BlockBufferCommitment.
Proof. solve_decision. Defined.

Record PipelineCheckpoint := mkCheckpoint {
  height : N;
  state_hex : string;
  header_hex : string;
  claim_frontier : MerkleFrontier;
  txo_block_frontier : MerkleFrontier;
  claim_history : list bytes;
  txo_block_history : list bytes;
  pending_finalization : gmap N BlockBufferCommitment;
}.

Record UploadedBuffers := mkUploadedBuffers {
  mint_buffer : bytes;
  mint_buffer_bump : N;
  txo_buffer : bytes;
  txo_buffer_bump : N;
}.

Record MintProgressRecord := mkMintProgress {
  signatures : list string;
  groups_processed : nat;
  total_mints_processed : nat;
}.

Record CheckpointJournal := mkJournal {
  journal_checkpoint : PipelineCheckpoint;
  uploaded_buffers : option UploadedBuffers;
  finalized_commitment : option BlockBufferCommitment;
  submission_signature : option string;
  mint_progress : option MintProgressRecord;
}.

Definition frontier_eqb (a b : MerkleFrontier) : bool :=
  (mf_index a =? mf_index b)%N && String.eqb (mf_value_hex a) (mf_value_hex b)
  && bool_decide (mf_siblings_hex a = mf_siblings_hex b).

Definition SAFETY_LIMIT : N := 1000000.

Section checkpoint.
Context `{!Hex, !Sha, !TreeParams, !LightClient}.

Definition validate_frontiers_against_state (checkpoint : PipelineCheckpoint) (state : BridgeState)
  : outcome () :=
  tip ← ok_or (get_record state (get_tip_block_number state)) (External "block_data_tracker");
  claim_root ← frontier_root checkpoint.(claim_frontier) AUTO_CLAIM_DEPOSITS_TREE_HEIGHT;
  bail_when (bool_decide (claim_root <> tip.(rec_deposits_tree_root)))
    "claim frontier root does not match checkpoint state" ;;
  claim_value ← decode_hash (mf_value_hex checkpoint.(claim_frontier));
  zero ← zero_hash 0;
  let expected_claim_index :=
    if (mf_index checkpoint.(claim_frontier) =? 0)%N && bool_decide (claim_value = zero) then 0%N
    else wrapping_add u32_max (mf_index checkpoint.(claim_frontier)) 1 in
  let state_claim_index := tip.(rec_deposits_next_index) in
  bail_when (negb (expected_claim_index =? state_claim_index)%N)
    "claim frontier next index {expected_claim_index} does not match state {state_claim_index}" ;;
  txo_root ← frontier_root checkpoint.(txo_block_frontier) TXO_TREE_INDEX_BITS_BLOCK_NUM_LENGTH;
  bail_when (bool_decide (txo_root <> tip.(rec_txo_tree_root)))
    "TXO block frontier root does not match checkpoint state" ;;
  bail_when (negb (mf_index checkpoint.(txo_block_frontier) =? checkpoint.(height))%N)
    "TXO block frontier height does not match checkpoint height".

(** The two history checks of [validate_checkpoint]. *)
Definition validate_claim_history (checkpoint : PipelineCheckpoint) : outcome () :=
  if bool_decide (checkpoint.(claim_history) = []) then mret ()
  else
    let last_index := length checkpoint.(claim_history) - 1 in
    last ← expect (checkpoint.(claim_history) !! last_index) "claim_history[last_index]";
    siblings ← sparse_sha256_merkle_siblings checkpoint.(claim_history) (N.of_nat last_index)
                 AUTO_CLAIM_DEPOSITS_TREE_HEIGHT 0;
    let expected := MerkleFrontierOps.new (as_u32 (N.of_nat last_index)) last siblings in
    bail_when (negb (frontier_eqb expected checkpoint.(claim_frontier)))
      "claim history does not reproduce the checkpoint frontier".

Definition validate_txo_history (checkpoint : PipelineCheckpoint) : outcome () :=
  if bool_decide (checkpoint.(txo_block_history) = []) then mret ()
  else
    bail_when (negb (N.of_nat (length checkpoint.(txo_block_history)) =? checkpoint.(height) + 1)%N)
      "TXO block history length does not match checkpoint height" ;;
    last ← expect (checkpoint.(txo_block_history) !! N.to_nat checkpoint.(height))
             "txo_block_history[height]";
    siblings ← sparse_sha256_merkle_siblings checkpoint.(txo_block_history) checkpoint.(height)
                 TXO_TREE_INDEX_BITS_BLOCK_NUM_LENGTH TXO_BLOCK_FULL_MERKLE_TREE_HEIGHT;
    let expected := MerkleFrontierOps.new checkpoint.(height) last siblings in
    bail_when (negb (frontier_eqb expected checkpoint.(txo_block_frontier)))
      "TXO block history does not reproduce the checkpoint frontier".

Definition validate_checkpoint (checkpoint : PipelineCheckpoint) : outcome () :=
  header ← hex_decode_ok checkpoint.(header_hex);
  ensure_length header HEADER_SIZE ;;
  bail_when ((SAFETY_LIMIT <? N.of_nat (length checkpoint.(claim_history)))%N
             || (SAFETY_LIMIT <? N.of_nat (length checkpoint.(txo_block_history)))%N)
    "checkpoint Merkle history exceeds the E2E safety limit" ;;
  validate_claim_history checkpoint ;;
  validate_txo_history checkpoint ;;
  state_bytes ← hex_decode_ok checkpoint.(state_hex);
  state ← ok_or (try_from_slice state_bytes) (External "borsh");
  bail_when (negb (get_tip_block_number state =? checkpoint.(height))%N)
    "checkpoint height {} does not match serialized state tip {}" ;;
  validate_frontiers_against_state checkpoint state.

(** [bytemuck::bytes_of] of the on-chain header is its 320 bytes. *)
Definition assert_checkpoint_matches_chain (checkpoint : PipelineCheckpoint) (chain_header : bytes)
  : outcome () :=
  checkpoint_header ← decode_fixed HEADER_SIZE checkpoint.(header_hex);
  bail_when (negb (length chain_header =? HEADER_SIZE)%nat)
    "on-chain bridge header has an unexpected size" ;;
  bail_when (bool_decide (checkpoint_header <> chain_header))
    "Redis checkpoint height {} does not match the current on-chain bridge header; refusing to prove or submit from stale off-chain state".

(** The Electrs client. *)
Class Electrs (W : Type) := {
  get_block_height : prog W N;
  get_qd_block : N -> prog W QDogeBlock;
  get_qd_block_headers_range_parallel : N -> N -> prog W (list QDogeBlockHeader);
}.

(** [core::array::from_fn(|index| SHA256_ZERO_HASHES[first + index])] *)
Definition zero_hashes_from (first n : nat) : outcome (list bytes) :=
  mapM (fun i => zero_hash (first + i)) (seq 0 n).

Definition initial_history (start_height : N) (zero : bytes) : list bytes :=
  if (start_height <=? 1000000)%N then replicate (N.to_nat start_height + 1) zero else [].

(** The part of [initialize_checkpoint] after the headers have been fetched. *)
Definition checkpoint_from_headers (config : BlockPipelineConfig) (start_height : N)
    (headers : list QDogeBlockHeader) : outcome PipelineCheckpoint :=
  bail_when (negb (length headers =? PSY_DOGE_BRIDGE_BLOCK_HASH_CACHE_SIZE)%nat)
    "expected 32 initialization headers, got {}" ;;
  let state := from_init_data headers start_height in
  claim_siblings ← zero_hashes_from 0 AUTO_CLAIM_DEPOSITS_TREE_HEIGHT;
  txo_siblings ← zero_hashes_from TXO_BLOCK_FULL_MERKLE_TREE_HEIGHT TXO_TREE_INDEX_BITS_BLOCK_NUM_LENGTH;
  txo_zero ← zero_hash TXO_BLOCK_FULL_MERKLE_TREE_HEIGHT;
  claim_zero ← zero_hash 0;
  state_bytes ← ok_or (borsh_to_vec state) (External "borsh");
  mret {|
    height := start_height;
    state_hex := hex_encode state_bytes;
    header_hex := hex_encode config.(initial_header);
    claim_frontier := MerkleFrontierOps.new 0 claim_zero claim_siblings;
    txo_block_frontier := MerkleFrontierOps.new start_height txo_zero txo_siblings;
    claim_history := [];
    txo_block_history := initial_history start_height txo_zero;
    pending_finalization := ∅;
  |}.

Definition initialize_checkpoint {W} `{!Electrs W} (config : BlockPipelineConfig)
  : prog W PipelineCheckpoint :=
  electrs_tip ← get_block_height;
  let finalized_tip := saturating_sub electrs_tip config.(required_confirmations) in
  let start := from_option id finalized_tip config.(start_height) in
  lift (bail_when (finalized_tip <? start)%N
    "start height {start_height} is above finalized Electrs height {finalized_tip}") ;;
  let cache_size := N.of_nat PSY_DOGE_BRIDGE_BLOCK_HASH_CACHE_SIZE in
  lift (bail_when (wrapping_add u32_max start 1 <? cache_size)%N
    "start height {start_height} is too low for the {}-header helper cache") ;;
  let first := (wrapping_add u32_max start 1 - cache_size)%N in
  headers ← get_qd_block_headers_range_parallel first start;
  lift (checkpoint_from_headers config start headers).
End checkpoint.

(** ** Validated checkpoints *)
Section checkpoint_theory.
Context `{!Hex, !HexLaws, !Sha, !ShaLaws, !TreeParams, !TreeParamsLaws, !LightClient}.

Lemma frontier_eqb_eq a b : frontier_eqb a b = true -> a = b.
Proof.
  unfold frontier_eqb. intros E. bool_hyps. destruct a, b. simpl in *. congruence.
Qed.

Lemma frontier_eqb_refl a : frontier_eqb a a = true.
Proof.
  unfold frontier_eqb. by rewrite N.eqb_refl, String.eqb_refl, bool_decide_true.
Qed.

Lemma frontier_root_returns_node leaves n last root height lh :
  leaves !! N.to_nat n = Some last -> (n < 2 ^ N.of_nat height)%N ->
  lh + height < length SHA256_ZERO_HASHES -> Forall (fun b => length b = 32) leaves ->
  frontier_root (MerkleFrontierOps.new n last (auth_path (sparse_node lh leaves) n 0 height)) height
  = Ok root -> root = sparse_node lh leaves height 0.
Proof.
  intros Hl Hn Hz H32 Hr. pose proof (frontier_root_node leaves n height lh Hn Hz H32) as E.
  unfold sparse_node at 1 in E. rewrite Hl in E. simpl in E. congruence.
Qed.

(** A history check that passed pins the frontier. *)
Lemma validate_claim_history_Ok c u :
  validate_claim_history c = Ok u -> c.(claim_history) <> [] ->
  (N.of_nat (length c.(claim_history)) <= SAFETY_LIMIT)%N ->
  let n := N.of_nat (length c.(claim_history) - 1) in
  exists last, c.(claim_history) !! N.to_nat n = Some last /\
    c.(claim_frontier) = MerkleFrontierOps.new n last
      (auth_path (sparse_node 0 c.(claim_history)) n 0 AUTO_CLAIM_DEPOSITS_TREE_HEIGHT).
Proof.
  intros Hv Hne Hlim n. unfold validate_claim_history in Hv.
  rewrite bool_decide_false in Hv by done. inv_ok. bool_hyps.
  assert (0 < length c.(claim_history)) by (destruct (claim_history c); [done|simpl; lia]).
  pose proof claim_tree_zeros as Hz. unfold SAFETY_LIMIT in Hlim.
  match goal with E : sparse_sha256_merkle_siblings _ _ _ _ = Ok _ |- _ =>
    rewrite sparse_siblings_eq in E by lia; injection E as <- end.
  match goal with E : frontier_eqb _ _ = true |- _ => apply frontier_eqb_eq in E end.
  eexists. split; [unfold n; rewrite Nat2N.id; done|].
  match goal with E : _ = c.(claim_frontier) |- _ => rewrite <- E end.
  f_equal. unfold as_u32, u32_max. fold n. apply N.mod_small. unfold n. lia.
Qed.

Lemma validate_txo_history_Ok c u :
  validate_txo_history c = Ok u -> c.(txo_block_history) <> [] ->
  N.of_nat (length c.(txo_block_history)) = (c.(height) + 1)%N /\
  exists last, c.(txo_block_history) !! N.to_nat c.(height) = Some last /\
    c.(txo_block_frontier) = MerkleFrontierOps.new c.(height) last
      (auth_path (sparse_node TXO_BLOCK_FULL_MERKLE_TREE_HEIGHT c.(txo_block_history)) c.(height) 0
         TXO_TREE_INDEX_BITS_BLOCK_NUM_LENGTH).
Proof.
  unfold validate_txo_history. intros Hv Hne.
  rewrite bool_decide_false in Hv by done. inv_ok. bool_hyps.
  split; [done|]. pose proof txo_tree_zeros as Hz.
  match goal with E : sparse_sha256_merkle_siblings _ _ _ _ = Ok _ |- _ =>
    rewrite sparse_siblings_eq in E by lia; injection E as <- end.
  match goal with E : frontier_eqb _ _ = true |- _ => apply frontier_eqb_eq in E end.
  eexists. split; [done|]. done.
Qed.

End checkpoint_theory.

(** C18: What a validated checkpoint guarantees.  Its header is 320 bytes and
    its serialized state decodes to a state whose tip is at the checkpoint's
    height.  When the TXO block history is kept it has one leaf per block up to
    that height, and the root of the sparse tree over it is the tip's
    auto-claimed TXO root; when a claim history is kept, the root over it is
    the tip's auto-claimed deposits root and the state's next deposit index is
    its length (unless it is the single empty leaf, which counts as no claim). *)
Theorem validate_checkpoint_sound
    `{!Hex, !HexLaws, !Sha, !ShaLaws, !TreeParams, !TreeParamsLaws, !LightClient}
    (c : PipelineCheckpoint) u :
  validate_checkpoint c = Ok u ->
  Forall (fun b => length b = 32) c.(claim_history) ->
  Forall (fun b => length b = 32) c.(txo_block_history) ->
  (N.of_nat (length c.(claim_history)) <= 2 ^ N.of_nat AUTO_CLAIM_DEPOSITS_TREE_HEIGHT)%N ->
  (N.of_nat (length c.(txo_block_history)) <= 2 ^ N.of_nat TXO_TREE_INDEX_BITS_BLOCK_NUM_LENGTH)%N ->
  exists header state_bytes state tip,
    hex_decode c.(header_hex) = Some header /\ length header = HEADER_SIZE /\
    hex_decode c.(state_hex) = Some state_bytes /\ try_from_slice state_bytes = Some state /\
    get_tip_block_number state = c.(height) /\
    get_record state c.(height) = Some tip /\
    mf_index c.(txo_block_frontier) = c.(height) /\
    frontier_root c.(claim_frontier) AUTO_CLAIM_DEPOSITS_TREE_HEIGHT
    = Ok tip.(rec_deposits_tree_root) /\
    frontier_root c.(txo_block_frontier) TXO_TREE_INDEX_BITS_BLOCK_NUM_LENGTH
    = Ok tip.(rec_txo_tree_root) /\
    (c.(txo_block_history) <> [] ->
     N.of_nat (length c.(txo_block_history)) = (c.(height) + 1)%N /\
     tip.(rec_txo_tree_root)
     = sparse_node TXO_BLOCK_FULL_MERKLE_TREE_HEIGHT c.(txo_block_history)
         TXO_TREE_INDEX_BITS_BLOCK_NUM_LENGTH 0) /\
    (c.(claim_history) <> [] ->
     tip.(rec_deposits_tree_root)
     = sparse_node 0 c.(claim_history) AUTO_CLAIM_DEPOSITS_TREE_HEIGHT 0 /\
     (tip.(rec_deposits_next_index) = N.of_nat (length c.(claim_history)) \/
      exists zero, SHA256_ZERO_HASHES !! 0 = Some zero /\ c.(claim_history) = [zero])).
Proof.
  intros Hv Hc32 Ht32 Hcfit Htfit. unfold validate_checkpoint, hex_decode_ok, ensure_length in Hv.
  inv_ok. bool_hyps.
  match goal with E : validate_claim_history c = Ok _ |- _ => rename E into Hclaim end.
  match goal with E : validate_txo_history c = Ok _ |- _ => rename E into Htxo end.
  match goal with E : try_from_slice _ = Some ?s |- _ => rename s into state end.
  unfold validate_frontiers_against_state in Hv. inv_ok. bool_hyps.
  repeat match goal with E : ¬ (_ <> _) |- _ => apply dec_stable in E end. subst.
  match goal with E : get_tip_block_number state = _ |- _ => rewrite E in * end.
  eexists _, _, state, _. do 9 (split; [by eauto|]). split.
  - intros Hne. destruct (validate_txo_history_Ok c _ Htxo Hne) as (Hlen & last & Hl & Hfr).
    split; [done|]. rewrite Hfr in *. eapply frontier_root_returns_node; [done|lia| |done|done].
    apply txo_tree_zeros.
  - intros Hne. destruct (validate_claim_history_Ok c _ Hclaim Hne) as (last & Hl & Hfr); [lia|].
    assert (0 < length c.(claim_history)) by (destruct (claim_history c); [done|simpl; lia]).
    rewrite Hfr in *. split.
    + eapply frontier_root_returns_node; [done|lia| |done|done]. apply claim_tree_zeros.
    + match goal with E : _ = rec_deposits_next_index _ |- _ => rewrite <- E end. simpl.
      destruct (_ && _) eqn:Hidx; bool_hyps; [|left].
      * right. match goal with E : decode_hash _ = Ok _ |- _ => rename E into Hval end.
        match goal with E : zero_hash 0 = Ok _ |- _ => rename E into Hzero end.
        simpl in Hval. apply decode_fixed_Ok in Hval as [Hval _]. rewrite hex_decode_encode in Hval.
        injection Hval as ->. unfold zero_hash in Hzero. apply expect_Ok in Hzero.
        eexists. split; [exact Hzero|].
        destruct (claim_history c) as [|x [|y l]]; simpl in *; [done| |lia].
        simplify_eq. done.
      * unfold wrapping_add, u32_max, SAFETY_LIMIT in *. rewrite N.mod_small; lia.
Qed.

(** ** Initialisation *)
Section initial.
Context `{!Hex, !HexLaws, !Sha, !ShaLaws, !TreeParams, !TreeParamsLaws, !LightClient, !LightClientLaws}.

Lemma sparse_node_replicate lh k d i :
  sparse_node lh (replicate k (zero_at lh 0)) d i = zero_at lh d.
Proof.
  revert i. induction d as [|d IH]; intros i; cbn [sparse_node].
  - destruct (replicate _ _ !! _) as [x|] eqn:E; [|done]. by apply lookup_replicate in E as [-> _].
  - by rewrite !IH.
Qed.

Lemma zero_hashes_from_eq first n :
  first + n <= length SHA256_ZERO_HASHES -> zero_hashes_from first n = Ok (zero_at first <$> seq 0 n).
Proof.
  intros Hn. apply mapM_Ok. apply Forall2_fmap_r, Forall_Forall2_diag, Forall_forall.
  intros i Hi. apply elem_of_seq in Hi. apply zero_hash_at. lia.
Qed.

Lemma auth_path_zeros lh k i n :
  auth_path (sparse_node lh (replicate k (zero_at lh 0))) i 0 n = zero_at lh <$> seq 0 n.
Proof.
  unfold auth_path. apply list_fmap_ext. intros j d _. apply sparse_node_replicate.
Qed.

Lemma zero_at_length lh : lh < length SHA256_ZERO_HASHES -> length (zero_at lh 0) = 32.
Proof.
  intros Hz. pose proof (sparse_node_length lh [] 0 0 Hz (Forall_nil_2 _)) as E.
  by rewrite (sparse_node_replicate lh 0) in E.
Qed.

Lemma frontier_root_zeros n height lh :
  (n < 2 ^ N.of_nat height)%N -> lh + height < length SHA256_ZERO_HASHES ->
  frontier_root (MerkleFrontierOps.new n (zero_at lh 0) (zero_at lh <$> seq 0 height)) height
  = Ok (zero_at lh height).
Proof.
  intros Hn Hz. pose proof (frontier_root_node (replicate 0 (zero_at lh 0)) n height lh Hn Hz
    (Forall_nil_2 _)) as E.
  by rewrite auth_path_zeros, !sparse_node_replicate in E.
Qed.

(** The checkpoint [checkpoint_from_headers] builds. *)
Definition initial_checkpoint (config : BlockPipelineConfig) (start : N) (state_bytes : bytes)
  : PipelineCheckpoint := {|
  height := start;
  state_hex := hex_encode state_bytes;
  header_hex := hex_encode config.(initial_header);
  claim_frontier :=
    MerkleFrontierOps.new 0 (zero_at 0 0) (zero_at 0 <$> seq 0 AUTO_CLAIM_DEPOSITS_TREE_HEIGHT);
  txo_block_frontier :=
    MerkleFrontierOps.new start (zero_at TXO_BLOCK_FULL_MERKLE_TREE_HEIGHT 0)
      (zero_at TXO_BLOCK_FULL_MERKLE_TREE_HEIGHT <$> seq 0 TXO_TREE_INDEX_BITS_BLOCK_NUM_LENGTH);
  claim_history := [];
  txo_block_history := initial_history start (zero_at TXO_BLOCK_FULL_MERKLE_TREE_HEIGHT 0);
  pending_finalization := ∅;
|}.

Lemma zero_hash_0 lh : lh < length SHA256_ZERO_HASHES -> zero_hash lh = Ok (zero_at lh 0).
Proof. intros. rewrite <- (zero_hash_at lh 0) by lia. f_equal. lia. Qed.

Lemma checkpoint_from_headers_eq config start headers state_bytes :
  borsh_to_vec (from_init_data headers start) = Some state_bytes ->
  length headers = PSY_DOGE_BRIDGE_BLOCK_HASH_CACHE_SIZE ->
  checkpoint_from_headers config start headers = Ok (initial_checkpoint config start state_bytes).
Proof.
  intros Hborsh Hheaders. pose proof claim_tree_zeros. pose proof txo_tree_zeros.
  unfold checkpoint_from_headers. rewrite Hheaders, Nat.eqb_refl. cbn [negb bail_when mbind outcome_bind].
  rewrite !zero_hashes_from_eq by lia. cbn [mbind outcome_bind].
  rewrite !zero_hash_0 by lia. cbn [mbind outcome_bind]. by rewrite Hborsh.
Qed.

Lemma initial_txo_history_valid config start state_bytes :
  validate_txo_history (initial_checkpoint config start state_bytes) = Ok ().
Proof.
  pose proof txo_tree_zeros. set (z := zero_at TXO_BLOCK_FULL_MERKLE_TREE_HEIGHT 0).
  unfold validate_txo_history. cbn [txo_block_history height initial_checkpoint].
  unfold initial_history. destruct (start <=? 1000000)%N eqn:Hs; [|done].
  rewrite bool_decide_false by (by rewrite Nat.add_comm).
  rewrite length_replicate. rewrite (proj2 (N.eqb_eq _ _)) by lia.
  cbn [negb bail_when mbind outcome_bind].
  rewrite lookup_replicate_2 by lia. cbn [expect mbind outcome_bind].
  rewrite sparse_siblings_eq by (rewrite ?length_replicate; lia). cbn [mbind outcome_bind].
  unfold z. rewrite auth_path_zeros. cbn [txo_block_frontier]. by rewrite frontier_eqb_refl.
Qed.

Lemma initial_frontiers_valid config start headers state_bytes :
  (start < 2 ^ N.of_nat TXO_TREE_INDEX_BITS_BLOCK_NUM_LENGTH)%N ->
  validate_frontiers_against_state (initial_checkpoint config start state_bytes)
    (from_init_data headers start) = Ok ().
Proof.
  intros Hstart. pose proof claim_tree_zeros. pose proof txo_tree_zeros.
  unfold validate_frontiers_against_state. rewrite init_tip.
  destruct (init_record headers start) as (r & -> & Hnext & Hdep & Htxo). cbn [ok_or mbind outcome_bind].
  assert (rec_deposits_tree_root r = zero_at 0 AUTO_CLAIM_DEPOSITS_TREE_HEIGHT) as ->.
  { pose proof (zero_hash_at 0 AUTO_CLAIM_DEPOSITS_TREE_HEIGHT ltac:(lia)) as E.
    apply expect_Ok in E. cbn [Nat.add] in E. congruence. }
  assert (rec_txo_tree_root r
          = zero_at TXO_BLOCK_FULL_MERKLE_TREE_HEIGHT TXO_TREE_INDEX_BITS_BLOCK_NUM_LENGTH) as ->.
  { pose proof (zero_hash_at TXO_BLOCK_FULL_MERKLE_TREE_HEIGHT TXO_TREE_INDEX_BITS_BLOCK_NUM_LENGTH
      ltac:(lia)) as E. apply expect_Ok in E. congruence. }
  cbn [claim_frontier txo_block_frontier height initial_checkpoint].
  rewrite !frontier_root_zeros by (done || lia || apply N.neq_0_lt_0, N.pow_nonzero; lia).
  cbn [mbind outcome_bind]. rewrite bool_decide_false by tauto. cbn [bail_when mbind outcome_bind].
  unfold decode_hash. cbn [mf_value_hex MerkleFrontierOps.new].
  rewrite decode_fixed_encode by (apply zero_at_length; lia). cbn [mbind outcome_bind].
  rewrite zero_hash_0 by lia. cbn [mbind outcome_bind mf_index N.eqb].
  rewrite bool_decide_true by done. rewrite Hnext. cbn [andb N.eqb negb bail_when mbind outcome_bind].
  rewrite bool_decide_false by tauto. by rewrite N.eqb_refl.
Qed.

Lemma initial_checkpoint_limit config start state_bytes :
  start = SAFETY_LIMIT -> length config.(initial_header) = HEADER_SIZE ->
  validate_checkpoint (initial_checkpoint config start state_bytes)
  = Err (Anyhow "checkpoint Merkle history exceeds the E2E safety limit").
Proof.
  intros Hs Hheader.
  unfold validate_checkpoint. cbn [header_hex claim_history txo_block_history initial_checkpoint].
  rewrite hex_decode_ok_encode. cbn [mbind outcome_bind].
  unfold ensure_length. rewrite Hheader, Nat.eqb_refl. cbn [negb bail_when mbind outcome_bind].
  assert ((SAFETY_LIMIT <? N.of_nat (length (initial_history start
    (zero_at TXO_BLOCK_FULL_MERKLE_TREE_HEIGHT 0))))%N = true) as ->; [|by rewrite orb_true_r].
  apply N.ltb_lt. unfold initial_history. change 1000000%N with SAFETY_LIMIT.
  rewrite (proj2 (N.leb_le _ _)) by lia. rewrite length_replicate. lia.
Qed.
End initial.

(** C19: The initial checkpoint is valid.  From the headers of the helper
    cache, for any start height other than 1,000,000 that fits the TXO block
    tree, [initialize_checkpoint] builds a checkpoint that [validate_checkpoint]
    accepts, at the start height, with the configured header (it fails only if
    the state does not serialize). *)
Theorem initialize_checkpoint_valid
    `{!Hex, !HexLaws, !Sha, !ShaLaws, !TreeParams, !TreeParamsLaws, !LightClient, !LightClientLaws}
    (config : BlockPipelineConfig) (start : N) (headers : list QDogeBlockHeader) (state_bytes : bytes) :
  borsh_to_vec (from_init_data headers start) = Some state_bytes ->
  length headers = PSY_DOGE_BRIDGE_BLOCK_HASH_CACHE_SIZE ->
  length config.(initial_header) = HEADER_SIZE ->
  (start < 2 ^ N.of_nat TXO_TREE_INDEX_BITS_BLOCK_NUM_LENGTH)%N -> start <> 1000000%N ->
  exists c, checkpoint_from_headers config start headers = Ok c /\
    c.(height) = start /\ hex_decode c.(header_hex) = Some config.(initial_header) /\
    validate_checkpoint c = Ok ().
Proof.
  intros Hborsh Hheaders Hheader Hstart Hlim.
  exists (initial_checkpoint config start state_bytes).
  split; [by apply (checkpoint_from_headers_eq config start headers)|].
  cbn [height header_hex initial_checkpoint]. split; [done|]. split; [apply hex_decode_encode|].
  unfold validate_checkpoint. rewrite initial_txo_history_valid.
  cbn [header_hex state_hex height claim_history txo_block_history initial_checkpoint].
  rewrite !hex_decode_ok_encode. cbn [mbind outcome_bind].
  unfold ensure_length. rewrite Hheader, Nat.eqb_refl. cbn [negb bail_when mbind outcome_bind].
  assert ((SAFETY_LIMIT <? N.of_nat (length (initial_history start
    (zero_at TXO_BLOCK_FULL_MERKLE_TREE_HEIGHT 0))))%N = false) as ->.
  { apply N.ltb_ge. unfold initial_history, SAFETY_LIMIT. case_match; bool_hyps; [|simpl; lia].
    rewrite length_replicate. lia. }
  cbn [orb length SAFETY_LIMIT N.of_nat bail_when mbind outcome_bind].
  rewrite (borsh_round_trip _ _ Hborsh). cbn [ok_or mbind outcome_bind].
  rewrite init_tip, N.eqb_refl. cbn [negb bail_when mbind outcome_bind].
  by apply initial_frontiers_valid.
Qed.

(** A start height of exactly 1,000,000 is accepted and can never be used:
    [initialize_checkpoint] still keeps the full TXO block history (its guard
    is [<= 1_000_000]), which is one leaf longer than [validate_checkpoint]
    allows, so the checkpoint it builds is rejected. *)
Theorem initialize_checkpoint_limit_rejected
    `{!Hex, !HexLaws, !Sha, !ShaLaws, !TreeParams, !TreeParamsLaws, !LightClient, !LightClientLaws}
    (config : BlockPipelineConfig) (headers : list QDogeBlockHeader) (state_bytes : bytes) :
  borsh_to_vec (from_init_data headers 1000000) = Some state_bytes ->
  length headers = PSY_DOGE_BRIDGE_BLOCK_HASH_CACHE_SIZE ->
  length config.(initial_header) = HEADER_SIZE ->
  exists c, checkpoint_from_headers config 1000000 headers = Ok c /\
    validate_checkpoint c = Err (Anyhow "checkpoint Merkle history exceeds the E2E safety limit").
Proof.
  intros Hborsh Hheaders Hheader. remember 1000000%N as start eqn:Hs.
  exists (initial_checkpoint config start state_bytes).
  split; [by apply (checkpoint_from_headers_eq config start headers)|].
  by apply initial_checkpoint_limit.
Qed.

(** ** Witnesses *)

Module CheckpointWitness.
Import HexInstance ShaInstance ChainWitness.

Definition headers : list QDogeBlockHeader := [([], [], []); ([], [], [])].

Lemma initialize_checkpoint_valid_witness :
  exists c, checkpoint_from_headers config 6 headers = Ok c /\
    c.(height) = 6%N /\ hex_decode c.(header_hex) = Some config.(initial_header) /\
    validate_checkpoint c = Ok ().
Proof.
  eapply (initialize_checkpoint_valid config 6 headers);
    [vm_compute; reflexivity | reflexivity | reflexivity | reflexivity | discriminate].
Defined.

Lemma initialize_checkpoint_limit_witness :
  exists c, checkpoint_from_headers config 1000000 headers = Ok c /\
    validate_checkpoint c = Err (Anyhow "checkpoint Merkle history exceeds the E2E safety limit").
Proof.
  eapply (initialize_checkpoint_limit_rejected config headers);
    [vm_compute; reflexivity | reflexivity | reflexivity].
Defined.

(** A checkpoint with one claimed deposit and three blocks. *)
Definition deposit : bytes := le_bytes 32 77.
Definition state : BridgeState :=
  mkToyState 2 (sparse_node 0 [deposit] 3 0) 1 (sparse_node 2 (replicate 3 (zero_at 2 0)) 4 0).
Definition checkpoint : PipelineCheckpoint := {|
  height := 2;
  state_hex := hex_encode (from_option id [] (borsh_to_vec state));
  header_hex := hex_encode (replicate 320 x01);
  claim_frontier := MerkleFrontierOps.new 0 deposit (auth_path (sparse_node 0 [deposit]) 0 0 3);
  txo_block_frontier := MerkleFrontierOps.new 2 (zero_at 2 0)
    (auth_path (sparse_node 2 (replicate 3 (zero_at 2 0))) 2 0 4);
  claim_history := [deposit];
  txo_block_history := replicate 3 (zero_at 2 0);
  pending_finalization := ∅;
|}.

Lemma validate_checkpoint_sound_witness :
  exists header state_bytes state tip,
    hex_decode checkpoint.(header_hex) = Some header /\ length header = HEADER_SIZE /\
    hex_decode checkpoint.(state_hex) = Some state_bytes /\ try_from_slice state_bytes = Some state /\
    get_tip_block_number state = checkpoint.(height) /\
    get_record state checkpoint.(height) = Some tip /\
    mf_index checkpoint.(txo_block_frontier) = checkpoint.(height) /\
    frontier_root checkpoint.(claim_frontier) AUTO_CLAIM_DEPOSITS_TREE_HEIGHT
    = Ok tip.(rec_deposits_tree_root) /\
    frontier_root checkpoint.(txo_block_frontier) TXO_TREE_INDEX_BITS_BLOCK_NUM_LENGTH
    = Ok tip.(rec_txo_tree_root) /\
    (checkpoint.(txo_block_history) <> [] ->
     N.of_nat (length checkpoint.(txo_block_history)) = (checkpoint.(height) + 1)%N /\
     tip.(rec_txo_tree_root)
     = sparse_node TXO_BLOCK_FULL_MERKLE_TREE_HEIGHT checkpoint.(txo_block_history)
         TXO_TREE_INDEX_BITS_BLOCK_NUM_LENGTH 0) /\
    (checkpoint.(claim_history) <> [] ->
     tip.(rec_deposits_tree_root)
     = sparse_node 0 checkpoint.(claim_history) AUTO_CLAIM_DEPOSITS_TREE_HEIGHT 0 /\
     (tip.(rec_deposits_next_index) = N.of_nat (length checkpoint.(claim_history)) \/
      exists zero, SHA256_ZERO_HASHES !! 0 = Some zero /\ checkpoint.(claim_history) = [zero])).
Proof.
  apply (validate_checkpoint_sound checkpoint ()).
  - vm_compute. reflexivity.
  - repeat constructor.
  - repeat constructor.
  - vm_compute. discriminate.
  - vm_compute. discriminate.
Defined.
End CheckpointWitness.
