(* ===== verification/SolHeader.v ===== *)
(** * The on-chain bridge header

    The 320-byte header the bridge program stores: sixteen fields at fixed
    byte ranges, fourteen of which a block update replaces. *)
From S2P Require Import Prelude External Instances Merkle Chain ChainInstances.

(** A byte range [lo..hi] of the header. *)
Definition range : Type := nat * nat.

Definition SOL_TIP_BLOCK_HASH : range := (0, 32).
Definition SOL_TIP_BLOCK_MERKLE_ROOT : range := (32, 64).
Definition SOL_TIP_BLOCK_TIME : range := (64, 68).
Definition SOL_TIP_BLOCK_HEIGHT : range := (68, 72).
Definition SOL_FINALIZED_BLOCK_HASH : range := (72, 104).
Definition SOL_FINALIZED_BLOCK_MERKLE_ROOT : range := (104, 136).
Definition SOL_FINALIZED_PENDING_MINTS_HASH : range := (136, 168).
Definition SOL_FINALIZED_TXO_LIST_HASH : range := (168, 200).
Definition SOL_FINALIZED_AUTO_CLAIMED_TXO_ROOT : range := (200, 232).
Definition SOL_FINALIZED_AUTO_CLAIMED_DEPOSITS_ROOT : range := (232, 264).
Definition SOL_FINALIZED_AUTO_CLAIMED_NEXT_INDEX : range := (264, 268).
Definition SOL_FINALIZED_BLOCK_HEIGHT : range := (268, 272).
Definition SOL_BRIDGE_STATE_HASH : range := (272, 304).
Definition SOL_LAST_ROLLBACK_AT_SECS : range := (304, 308).
Definition SOL_PAUSED_UNTIL_SECS : range := (308, 312).
Definition SOL_TOTAL_FINALIZED_FEES : range := (312, 320).

Definition header_ranges : list range :=
  [SOL_TIP_BLOCK_HASH; SOL_TIP_BLOCK_MERKLE_ROOT; SOL_TIP_BLOCK_TIME; SOL_TIP_BLOCK_HEIGHT;
   SOL_FINALIZED_BLOCK_HASH; SOL_FINALIZED_BLOCK_MERKLE_ROOT; SOL_FINALIZED_PENDING_MINTS_HASH;
   SOL_FINALIZED_TXO_LIST_HASH; SOL_FINALIZED_AUTO_CLAIMED_TXO_ROOT;
   SOL_FINALIZED_AUTO_CLAIMED_DEPOSITS_ROOT; SOL_FINALIZED_AUTO_CLAIMED_NEXT_INDEX;
   SOL_FINALIZED_BLOCK_HEIGHT; SOL_BRIDGE_STATE_HASH; SOL_LAST_ROLLBACK_AT_SECS;
   SOL_PAUSED_UNTIL_SECS; SOL_TOTAL_FINALIZED_FEES].

(** [header[r]] and [header[r].copy_from_slice(src)]; the latter panics when
    the lengths differ. *)
Definition field (r : range) (header : bytes) : bytes := slice header r.1 r.2.
Definition copy_from_slice (header : bytes) (r : range) (src : bytes) : outcome bytes :=
  if (r.1 <=? r.2)%nat && (r.2 <=? length header)%nat && (length src =? r.2 - r.1)%nat
  then mret (splice header r.1 r.2 src)
  else Panic "copy_from_slice".

Fixpoint copy_all (header : bytes) (writes : list (range * bytes)) : outcome bytes :=
  match writes with
  | [] => mret header
  | (r, src) :: writes => header ← copy_from_slice header r src; copy_all header writes
  end.

Section build.
Context `{!Sha, !LightClient}.

Definition build_new_solana_header (old_header : bytes) (state : BridgeState)
    (required_confirmations : N) (pending_mints_hash txo_output_list_hash : bytes) : outcome bytes :=
  let tip := get_tip_state_commitment state in
  finalized ← ok_or (get_finalized_state_commitment state required_confirmations)
                (External "block_data_tracker");
  tip_record ← ok_or (get_record state (get_tip_block_number state)) (External "block_data_tracker");
  finalized_record ← ok_or (get_record state (get_finalized_block_number state required_confirmations))
                       (External "block_data_tracker");
  new_header ← copy_all old_header
    [(SOL_TIP_BLOCK_HASH, tip.(block_hash));
     (SOL_TIP_BLOCK_MERKLE_ROOT, tip.(block_merkle_tree_root));
     (SOL_TIP_BLOCK_TIME, le_bytes 4 tip_record.(timestamp));
     (SOL_TIP_BLOCK_HEIGHT, le_bytes 4 tip.(block_height));
     (SOL_FINALIZED_BLOCK_HASH, finalized.(block_hash));
     (SOL_FINALIZED_BLOCK_MERKLE_ROOT, finalized.(block_merkle_tree_root));
     (SOL_FINALIZED_PENDING_MINTS_HASH, pending_mints_hash);
     (SOL_FINALIZED_TXO_LIST_HASH, txo_output_list_hash);
     (SOL_FINALIZED_AUTO_CLAIMED_TXO_ROOT, finalized.(auto_claimed_txo_tree_root));
     (SOL_FINALIZED_AUTO_CLAIMED_DEPOSITS_ROOT, finalized.(auto_claimed_deposits_tree_root));
     (SOL_FINALIZED_AUTO_CLAIMED_NEXT_INDEX, le_bytes 4 finalized.(auto_claimed_deposits_next_index));
     (SOL_FINALIZED_BLOCK_HEIGHT, le_bytes 4 finalized.(block_height))];
  state_bytes ← ok_or (borsh_to_vec state) (External "borsh");
  copy_all new_header
    [(SOL_BRIDGE_STATE_HASH, hash_impl_sha256_bytes state_bytes);
     (SOL_TOTAL_FINALIZED_FEES, le_bytes 8 finalized_record.(total_fees_collected_chain_history))].
End build.

(** Membership in a concrete list. *)
Ltac in_list := solve [repeat first [apply list_elem_of_here | apply list_elem_of_further]].

(** ** Writing disjoint fields *)
Definition disjoint_ranges (a b : range) : bool := (a.2 <=? b.1)%nat || (b.2 <=? a.1)%nat.
Fixpoint pairwise_disjoint (rs : list range) : bool :=
  match rs with
  | [] => true
  | r :: rs => forallb (disjoint_ranges r) rs && pairwise_disjoint rs
  end.

Section writes.
Implicit Types (h src : bytes) (r : range) (ws : list (range * bytes)).

Definition write_fits (n : nat) (w : range * bytes) : Prop :=
  w.1.1 <= w.1.2 <= n /\ length w.2 = w.1.2 - w.1.1.

Lemma copy_all_app h ws ws' :
  copy_all h (ws ++ ws') = (h ← copy_all h ws; copy_all h ws').
Proof.
  revert h. induction ws as [|[r src] ws IH]; intros h; [done|]. cbn [copy_all app].
  destruct (copy_from_slice h r src); cbn [mbind outcome_bind]; auto.
Qed.

Lemma copy_all_spec h ws :
  Forall (write_fits (length h)) ws ->
  exists h', copy_all h ws = Ok h' /\ length h' = length h /\
    (forall r, r.1 <= r.2 -> forallb (disjoint_ranges r) ws.*1 = true -> field r h' = field r h) /\
    (pairwise_disjoint ws.*1 = true -> forall r src, (r, src) ∈ ws -> field r h' = src).
Proof.
  revert h. induction ws as [|[r src] ws IH]; intros h Hws.
  - exists h. split_and!; [done..|]. intros _ r src []%elem_of_nil.
  - inversion Hws as [|? ? [Hr Hsrc] Hws']; subst. cbn [fst snd] in Hr, Hsrc.
    assert (length (splice h r.1 r.2 src) = length h) as Hlen by (apply splice_length; lia).
    rewrite <- Hlen in Hws'. destruct (IH _ Hws') as (h' & E & Hl & Hother & Hsame).
    exists h'. cbn [copy_all]. unfold copy_from_slice.
    rewrite (proj2 (Nat.leb_le _ _)), (proj2 (Nat.leb_le r.2 _)), (proj2 (Nat.eqb_eq _ _)) by lia.
    cbn [andb mbind outcome_bind mret outcome_ret]. split_and!; [done|lia| |].
    + intros r' Hr' Hd. cbn [fmap list_fmap forallb fst] in Hd. bool_hyps. rewrite Hother by done.
      unfold field. unfold disjoint_ranges in *.
      apply slice_splice_ne; try lia. apply orb_true_iff in H as [H|H]; apply Nat.leb_le in H; lia.
    + intros Hd r' src' Hin. cbn [fmap list_fmap pairwise_disjoint fst] in Hd. bool_hyps.
      apply elem_of_cons in Hin as [[= -> ->]|Hin]; [|by apply Hsame].
      rewrite Hother by (done || lia). apply slice_splice_eq; lia.
Qed.
End writes.

(** Adjacent ranges from [lo] to [hi] read back a contiguous slice. *)
Fixpoint contiguous (lo : nat) (rs : list range) (hi : nat) : bool :=
  match rs with
  | [] => (lo =? hi)%nat
  | r :: rs => (r.1 =? lo)%nat && (r.1 <=? r.2)%nat && contiguous r.2 rs hi
  end.

Lemma slice_app {A} (l : list A) lo mid hi :
  lo <= mid -> mid <= hi -> slice l lo mid ++ slice l mid hi = slice l lo hi.
Proof.
  intros. unfold slice. replace (hi - lo) with ((mid - lo) + (hi - mid)) by lia.
  rewrite <- take_take_drop, drop_drop. do 3 f_equal. lia.
Qed.

Lemma concat_fields (h : bytes) rs lo hi :
  contiguous lo rs hi = true -> hi <= length h ->
  concat (flip field h <$> rs) = slice h lo hi /\ lo <= hi.
Proof.
  revert lo. induction rs as [|r rs IH]; intros lo Hc Hh; cbn [contiguous] in Hc; bool_hyps.
  - subst. unfold slice. by rewrite Nat.sub_diag.
  - subst. match goal with E : (_ <=? _)%nat = true |- _ => apply Nat.leb_le in E end.
    match goal with E : contiguous _ _ _ = true |- _ => destruct (IH _ E Hh) as [Ec Hle] end.
    split; [|lia]. cbn [fmap list_fmap concat]. rewrite Ec. unfold flip, field. by apply slice_app.
Qed.

(** C20: The header of a block update carries exactly the new state.  Given a
    320-byte old header, building the new one never panics; when the state has
    the records asked for, the result is 320 bytes, its fields read back the
    tip and finalized commitments, the tip's time, the two buffer hashes, the
    SHA-256 of the serialized state and the finalized fee total, and the two
    fields an update must not touch (last rollback, paused-until) are those of
    the old header.  The sixteen ranges cover the header, so nothing else is in
    it. *)
Theorem build_new_solana_header_fields
    `{!Sha, !ShaLaws, !TreeParams, !LightClient, !LightClientLaws}
    (old_header : bytes) (state : BridgeState) (confirmations : N) (mints_hash txo_hash : bytes)
    (finalized : StateCommitment) (tip_record finalized_record : BlockRecord) (state_bytes : bytes) :
  length old_header = HEADER_SIZE -> length mints_hash = 32 -> length txo_hash = 32 ->
  get_finalized_state_commitment state confirmations = Some finalized ->
  get_record state (get_tip_block_number state) = Some tip_record ->
  get_record state (get_finalized_block_number state confirmations) = Some finalized_record ->
  borsh_to_vec state = Some state_bytes ->
  let tip := get_tip_state_commitment state in
  exists h,
    build_new_solana_header old_header state confirmations mints_hash txo_hash = Ok h /\
    length h = HEADER_SIZE /\
    field SOL_TIP_BLOCK_HASH h = tip.(block_hash) /\
    field SOL_TIP_BLOCK_MERKLE_ROOT h = tip.(block_merkle_tree_root) /\
    le_value (field SOL_TIP_BLOCK_TIME h) = tip_record.(timestamp) /\
    le_value (field SOL_TIP_BLOCK_HEIGHT h) = tip.(block_height) /\
    field SOL_FINALIZED_BLOCK_HASH h = finalized.(block_hash) /\
    field SOL_FINALIZED_BLOCK_MERKLE_ROOT h = finalized.(block_merkle_tree_root) /\
    field SOL_FINALIZED_PENDING_MINTS_HASH h = mints_hash /\
    field SOL_FINALIZED_TXO_LIST_HASH h = txo_hash /\
    field SOL_FINALIZED_AUTO_CLAIMED_TXO_ROOT h = finalized.(auto_claimed_txo_tree_root) /\
    field SOL_FINALIZED_AUTO_CLAIMED_DEPOSITS_ROOT h = finalized.(auto_claimed_deposits_tree_root) /\
    le_value (field SOL_FINALIZED_AUTO_CLAIMED_NEXT_INDEX h)
    = finalized.(auto_claimed_deposits_next_index) /\
    le_value (field SOL_FINALIZED_BLOCK_HEIGHT h) = finalized.(block_height) /\
    field SOL_BRIDGE_STATE_HASH h = hash_impl_sha256_bytes state_bytes /\
    field SOL_LAST_ROLLBACK_AT_SECS h = field SOL_LAST_ROLLBACK_AT_SECS old_header /\
    field SOL_PAUSED_UNTIL_SECS h = field SOL_PAUSED_UNTIL_SECS old_header /\
    le_value (field SOL_TOTAL_FINALIZED_FEES h)
    = finalized_record.(total_fees_collected_chain_history) /\
    concat (flip field h <$> header_ranges) = h.
Proof.
  intros Hold Hmints Htxo Hfin Htip Hfinrec Hborsh tip.
  pose proof (tip_commitment_wf state) as Hw. fold tip in Hw.
  pose proof (finalized_commitment_wf _ _ _ Hfin) as Hwf.
  pose proof (records_wf _ _ _ Htip) as [Hwt _]. pose proof (records_wf _ _ _ Hfinrec) as [_ Hwr].
  unfold commitment_wf, u32_max, u64_max in *.
  unfold build_new_solana_header. rewrite Hfin, Htip, Hfinrec. cbn [ok_or mbind outcome_bind].
  fold tip. set (ws := [_; _; _; _; _; _; _; _; _; _; _; _]).
  set (ws' := [(SOL_BRIDGE_STATE_HASH, hash_impl_sha256_bytes state_bytes);
     (SOL_TOTAL_FINALIZED_FEES, le_bytes 8 finalized_record.(total_fees_collected_chain_history))]).
  destruct (copy_all_spec old_header ws) as (h1 & E1 & L1 & O1 & S1).
  { rewrite Hold. unfold ws. repeat constructor; cbn -[le_bytes]; rewrite ?le_bytes_length; try lia; tauto. }
  destruct (copy_all_spec h1 ws') as (h & E2 & L2 & O2 & S2).
  { rewrite L1, Hold. unfold ws'. repeat constructor; cbn -[le_bytes];
      rewrite ?le_bytes_length, ?sha256_length; lia. }
  specialize (S1 eq_refl). specialize (S2 eq_refl).
  assert (forall r src, (r, src) ∈ ws -> r.1 <= r.2 -> forallb (disjoint_ranges r) ws'.*1 = true ->
    field r h = src) as Hf by (intros r src Hin Hr Hd; rewrite O2 by done; by apply S1).
  assert (forall w n, (n < 256 ^ N.of_nat w)%N -> le_value (le_bytes w n) = n) as Hle
    by (intros; by apply le_value_bytes).
  exists h. rewrite E1. cbn [mbind outcome_bind]. rewrite Hborsh. cbn [ok_or mbind outcome_bind].
  split; [exact E2|]. assert (length h = HEADER_SIZE) as Hl by lia. split; [done|].
  assert (forall r w n, (r, le_bytes w n) ∈ ws -> r.1 <= r.2 ->
    forallb (disjoint_ranges r) ws'.*1 = true -> (n < 256 ^ N.of_nat w)%N ->
    le_value (field r h) = n) as Hfle by (intros; erewrite Hf by done; auto).
  split_and!; first [eapply Hf; [in_list|cbn; lia|reflexivity]
    |eapply Hfle; [in_list|cbn; lia|reflexivity|cbn; lia] |idtac].
  - apply S2. in_list.
  - by rewrite O2, O1 by (reflexivity || cbn; lia).
  - by rewrite O2, O1 by (reflexivity || cbn; lia).
  - erewrite S2 by in_list. apply Hle. cbn. lia.
  - destruct (concat_fields h header_ranges 0 320 eq_refl) as [-> _]; [by rewrite Hl|].
    unfold slice. rewrite drop_0, take_ge; [done|]. by rewrite Hl.
Qed.

(** ** Witness *)
Module SolHeaderWitness.
Import HexInstance ShaInstance.

Definition old_header : bytes := replicate 304 x01 ++ le_bytes 4 11 ++ le_bytes 4 12 ++ le_bytes 8 0.
Definition state : BridgeState := mkToyState 9 (replicate 32 x05) 3 (replicate 32 x06).

Lemma build_new_solana_header_witness :
  exists h,
    build_new_solana_header old_header state 4 (replicate 32 x03) (replicate 32 x04) = Ok h /\
    length h = HEADER_SIZE /\
    le_value (field SOL_TIP_BLOCK_HEIGHT h) = 9%N /\
    field SOL_PAUSED_UNTIL_SECS h = le_bytes 4 12.
Proof.
  destruct (build_new_solana_header_fields old_header state 4 (replicate 32 x03) (replicate 32 x04)
    (toy_commitment state) (toy_record state) (toy_record state)
    (from_option id [] (toy_encode state))) as (h & E & Hl & _ & _ & _ & Hh & _ & _ & _ & _ & _ & _
    & _ & _ & _ & _ & Hp & _); [reflexivity..|].
  exists h. split; [exact E|]. split; [exact Hl|]. split; [exact Hh|exact Hp].
Defined.
End SolHeaderWitness.
