(* ===== verification/Claims.v ===== *)
(** * Deposit claims

    From a Dogecoin block to the claim witness of its custody deposits, and
    from the witness to the payload the bridge program mints from: scanning,
    witness construction, evaluation, the finalized buffers and their checks. *)
From S2P Require Import Prelude External Instances Merkle Chain ChainInstances Checkpoint SolHeader.

(** ** The helper library's types and operations *)
Record PsyBridgeClaimDepositItem := mkDepositItem {
  output_index : N;
  public_key_index : N;
}.
#[export] Instance deposit_item_eq_dec : EqDecision PsyBridgeClaimDepositItem.
Proof. solve_decision. Defined.

Record TransactionWitness `{!LightClient} := mkTransactionWitness {
  transaction_index : N;
  merkle_siblings : list bytes;
  deposit_outputs : list PsyBridgeClaimDepositItem;
  transaction : BTCTransaction;
}.

Record ClaimWitnessHeader := mkClaimWitnessHeader {
  txo_tree_block_siblings : list bytes;
  last_auto_claimed_deposits_siblings : list bytes;
  total_outputs_hint : N;
  claim_deposits_last_index : N;
  claim_deposits_last_value : bytes;
}.

Record ClaimBlockWitness `{!LightClient} := mkClaimBlockWitness {
  claim_header : ClaimWitnessHeader;
  deposit_solana_public_keys : list bytes;
  deposit_transactions : list TransactionWitness;
}.

Record IncomingBlockWitness `{!LightClient} := mkIncomingBlockWitness {
  witness_block_header : QDogeBlockHeader;
  claim_witness : ClaimBlockWitness;
  previous_header_last_rollback_at_secs : N;
  previous_header_paused_until_secs : N;
}.

(** [PsyBridgeClaimBlockWitnessVerifyResult], as far as it is read. *)
Record ClaimTransition := mkClaimTransition {
  new_claimed_txo_tree_root : bytes;
  new_auto_claimed_deposits_tree_root : bytes;
  start_auto_claimed_deposits_index : N;
  end_auto_claimed_deposits_index : N;
  transition_fees_collected : N;
}.

Record FeeRate := mkFeeRate { flat_fee : N; fee_numerator : N; fee_denominator : N }.

(** [BlockTransitionBuilder], [PendingMintsGroupsBuilder] and the hashes of the
    helper crates. *)
Class ClaimHelper `{!LightClient} := {
  Builder : Type;
  new_from_siblings : ManagerCustodyProfile -> ClaimWitnessHeader -> FeeRate -> bytes -> list bytes -> option Builder;
  verify_and_add_to_transition_builder : TransactionWitness -> Builder -> bytes -> option Builder;
  builder_finalize : Builder -> N -> ClaimWitnessHeader -> FeeRate -> option (Builder * ClaimTransition);
  claimed_txs_root : Builder -> bytes;
  total_deposit_amount : Builder -> N;
  calcuate_fee : N -> FeeRate -> option (N * N);
  combined_txo_index : N -> N -> option N;
  hash_deposit_leaf : bytes -> N -> bytes -> N -> bytes;
  pending_mint_and_txo_hashes_from_claim_witness :
    ManagerCustodyProfile -> ClaimBlockWitness -> bytes -> bytes -> FeeRate -> option (bytes * bytes);
  pending_mints_groups_hash : list (bytes * N) -> option bytes;
  witness_write_to_vec : IncomingBlockWitness -> option bytes;
  witness_read_from_buffer : bytes -> option IncomingBlockWitness;
}.

Record ClaimEvaluation := mkClaimEvaluation {
  eval_transition : ClaimTransition;
  eval_pending_mints_hash : bytes;
  eval_txo_output_list_hash : bytes;
  eval_pending_mints : list PendingMintPayload;
  eval_txo_indices : list N;
  eval_block_txo_root : bytes;
  eval_deposit_leaf_hashes : list bytes;
  eval_deposit_count : N;
  eval_minted_amount_sats : N;
}.

Section claims.
Context `{!Hex, !Sha, !TreeParams, !LightClient, !Custody, !ClaimHelper}.

Definition from_evaluation (evaluation : ClaimEvaluation) : BlockBufferCommitment := {|
  pending_mints_hash_hex := hex_encode evaluation.(eval_pending_mints_hash);
  txo_output_list_hash_hex := hex_encode evaluation.(eval_txo_output_list_hash);
  pending_mints := evaluation.(eval_pending_mints);
  txo_indices := evaluation.(eval_txo_indices);
  deposit_count := evaluation.(eval_deposit_count);
  minted_amount_sats := evaluation.(eval_minted_amount_sats);
  auto_claim_start_index := evaluation.(eval_transition).(start_auto_claimed_deposits_index);
  auto_claim_end_index := evaluation.(eval_transition).(end_auto_claimed_deposits_index);
  fees_collected := evaluation.(eval_transition).(transition_fees_collected);
|}.

Definition pending_mints_hash (payloads : list PendingMintPayload) : outcome bytes :=
  ok_or (pending_mints_groups_hash ((fun p => (p.(recipient), p.(amount))) <$> payloads))
    (External "PendingMintsGroupsBuilder").

Definition empty_commitment : outcome BlockBufferCommitment :=
  hash ← ok_or (pending_mints_groups_hash []) (External "PendingMintsGroupsBuilder");
  mret {|
    pending_mints_hash_hex := hex_encode hash;
    txo_output_list_hash_hex := hex_encode (hash_impl_sha256_bytes []);
    pending_mints := []; txo_indices := []; deposit_count := 0; minted_amount_sats := 0;
    auto_claim_start_index := 0; auto_claim_end_index := 0; fees_collected := 0;
  |}.

Definition commitment_pending_mints_hash (c : BlockBufferCommitment) : outcome bytes :=
  decode_hash c.(pending_mints_hash_hex).
Definition commitment_txo_output_list_hash (c : BlockBufferCommitment) : outcome bytes :=
  decode_hash c.(txo_output_list_hash_hex).

(** ** Scanning a block *)

(** [expected_scripts.iter().position(|script| output.script == script)] *)
Definition script_position (scripts : list bytes) (output : TxOutput) : option nat :=
  fst <$> list_find (eq output.(script)) scripts.

(** The loop over the outputs of one transaction. *)
Fixpoint scan_outputs (scripts : list bytes) (output_index : nat) (outs : list TxOutput)
    (deposits : list PsyBridgeClaimDepositItem) (total_outputs : N)
  : outcome (list PsyBridgeClaimDepositItem * N) :=
  match outs with
  | [] => mret (deposits, total_outputs)
  | output :: outs =>
      '(deposits, total_outputs) ←
        match script_position scripts output with
        | Some key =>
            o ← ok_or (u32_try_from output_index) (Anyhow "transaction output index exceeds u32");
            k ← ok_or (u32_try_from key) (Anyhow "deposit public key index exceeds u32");
            total ← ok_or (checked_add u32_max total_outputs 1) (Anyhow "deposit output count overflow");
            mret (deposits ++ [mkDepositItem o k], total)
        | None => mret (deposits, total_outputs)
        end;
      scan_outputs scripts (S output_index) outs deposits total_outputs
  end.

(** The loop over the transactions. *)
Fixpoint scan_transactions (scripts hashes : list bytes) (index : nat) (txs : list BTCTransaction)
    (found : list TransactionWitness) (total_outputs : N) : outcome (N * list TransactionWitness) :=
  match txs with
  | [] => mret (total_outputs, found)
  | tx :: txs =>
      '(deposits, total_outputs) ← scan_outputs scripts 0 (outputs tx) [] total_outputs;
      found ←
        (if bool_decide (deposits = []) then mret found
         else
           i ← ok_or (u32_try_from index) (Anyhow "transaction index exceeds u32");
           siblings ← bitcoin_merkle_siblings hashes (N.of_nat index);
           mret (found ++ [mkTransactionWitness _ i siblings deposits tx]));
      scan_transactions scripts hashes (S index) txs found total_outputs
  end.

Definition custody_scripts (P : ManagerCustodyProfile) (custody : bytes) (atas : list bytes) : list bytes :=
  get_manager_custody_output_script P custody <$> atas.

Definition scan_manager_custody_deposits (P : ManagerCustodyProfile) (block : QDogeBlock)
    (custody_script_config : bytes) (recipient_atas : list bytes)
  : outcome (N * list TransactionWitness) :=
  bail_when (bool_decide (block.(transactions) = [])) "Electrs block contains no transactions" ;;
  let transaction_hashes := get_hash <$> block.(transactions) in
  root ← bitcoin_merkle_root transaction_hashes;
  computed ← ok_or root (Anyhow "cannot compute an empty block transaction Merkle root");
  bail_when (bool_decide (computed <> merkle_root block.(header)))
    "Electrs transaction data Merkle root {} does not match block header {}" ;;
  scan_transactions (custody_scripts P custody_script_config recipient_atas) transaction_hashes 0
    block.(transactions) [] 0.

(** ** Claim witnesses *)

(** [v.try_into().expect(..)]: a vector into an array of [n]. *)
Definition expect_length (n : nat) (v : list bytes) (site : string) : outcome (list bytes) :=
  if (length v =? n)%nat then mret v else Panic site.

Definition build_hash_only_incoming_witness (P : ManagerCustodyProfile) (block : QDogeBlock)
    (custody_script_config : bytes) (recipient_atas : list bytes) : outcome IncomingBlockWitness :=
  '(total_outputs, deposit_transactions) ←
    scan_manager_custody_deposits P block custody_script_config recipient_atas;
  claim_siblings ← zero_hashes_from 0 AUTO_CLAIM_DEPOSITS_TREE_HEIGHT;
  txo_siblings ← zero_hashes_from TXO_BLOCK_FULL_MERKLE_TREE_HEIGHT TXO_TREE_INDEX_BITS_BLOCK_NUM_LENGTH;
  mret {|
    witness_block_header := block.(header);
    claim_witness := {|
      claim_header := mkClaimWitnessHeader txo_siblings claim_siblings total_outputs 0 (replicate 32 x00);
      deposit_solana_public_keys := recipient_atas;
      deposit_transactions := deposit_transactions;
    |};
    previous_header_last_rollback_at_secs := 0;
    previous_header_paused_until_secs := 0;
  |}.

(** The siblings of the last claim and of the next block, from the history when
    it is kept and from the frontier otherwise. *)
Definition last_claim_siblings (checkpoint : PipelineCheckpoint) : outcome (list bytes) :=
  if bool_decide (checkpoint.(claim_history) = []) then
    snd <$> MerkleFrontierOps.decode checkpoint.(claim_frontier) AUTO_CLAIM_DEPOSITS_TREE_HEIGHT
  else
    sparse_sha256_merkle_siblings checkpoint.(claim_history)
      (N.of_nat (length checkpoint.(claim_history) - 1)) AUTO_CLAIM_DEPOSITS_TREE_HEIGHT 0.

Definition next_block_siblings (checkpoint : PipelineCheckpoint) (next_height : N)
  : outcome (list bytes) :=
  if bool_decide (checkpoint.(txo_block_history) = []) then
    sequential_next_leaf_siblings checkpoint.(txo_block_frontier) next_height
      TXO_TREE_INDEX_BITS_BLOCK_NUM_LENGTH TXO_BLOCK_FULL_MERKLE_TREE_HEIGHT
  else
    zero ← zero_hash TXO_BLOCK_FULL_MERKLE_TREE_HEIGHT;
    let prospective := checkpoint.(txo_block_history) ++ [zero] in
    sparse_sha256_merkle_siblings prospective next_height
      TXO_TREE_INDEX_BITS_BLOCK_NUM_LENGTH TXO_BLOCK_FULL_MERKLE_TREE_HEIGHT.

Definition build_deposit_claim_witness (P : ManagerCustodyProfile) (block : QDogeBlock)
    (checkpoint : PipelineCheckpoint) (custody_script_config : bytes) (recipient_atas : list bytes)
  : outcome IncomingBlockWitness :=
  '(total_outputs, deposit_transactions) ←
    scan_manager_custody_deposits P block custody_script_config recipient_atas;
  claim_last_value ← decode_hash (mf_value_hex checkpoint.(claim_frontier));
  claim_siblings ← last_claim_siblings checkpoint;
  next_height ← ok_or (checked_add u32_max checkpoint.(height) 1) (Anyhow "checkpoint height overflow");
  txo_siblings ← next_block_siblings checkpoint next_height;
  old_header ← decode_fixed HEADER_SIZE checkpoint.(header_hex);
  txo_siblings ← expect_length TXO_TREE_INDEX_BITS_BLOCK_NUM_LENGTH txo_siblings
                   "TXO sibling height was checked";
  claim_siblings ← expect_length AUTO_CLAIM_DEPOSITS_TREE_HEIGHT claim_siblings
                     "claim sibling height was checked";
  mret {|
    witness_block_header := block.(header);
    claim_witness := {|
      claim_header := mkClaimWitnessHeader txo_siblings claim_siblings total_outputs
        (mf_index checkpoint.(claim_frontier)) claim_last_value;
      deposit_solana_public_keys := recipient_atas;
      deposit_transactions := deposit_transactions;
    |};
    previous_header_last_rollback_at_secs := le_value (field SOL_LAST_ROLLBACK_AT_SECS old_header);
    previous_header_paused_until_secs := le_value (field SOL_PAUSED_UNTIL_SECS old_header);
  |}.

(** ** Evaluating a witness *)
Record Accumulated := mkAccumulated {
  acc_leaf_hashes : list bytes;
  acc_pending_mints : list PendingMintPayload;
  acc_txo_indices : list N;
}.

Definition evaluate_deposit (keys : list bytes) (fees : FeeRate) (tw : TransactionWitness)
    (deposit : PsyBridgeClaimDepositItem) (acc : Accumulated) : outcome Accumulated :=
  public_key ← ok_or (keys !! N.to_nat deposit.(public_key_index))
                 (Anyhow "deposit public key index out of bounds");
  output ← ok_or (outputs tw.(transaction) !! N.to_nat deposit.(output_index))
             (Anyhow "deposit output index out of bounds");
  '(_, net_amount) ← ok_or (calcuate_fee output.(value) fees) (External "calcuate_fee");
  index ← ok_or (combined_txo_index tw.(transaction_index) deposit.(output_index))
            (External "combined_txo_index");
  mret {|
    acc_leaf_hashes := acc.(acc_leaf_hashes)
      ++ [hash_deposit_leaf (get_hash tw.(transaction)) deposit.(output_index) public_key net_amount];
    acc_pending_mints := acc.(acc_pending_mints) ++ [mkPendingMintPayload public_key net_amount];
    acc_txo_indices := acc.(acc_txo_indices) ++ [index];
  |}.

Fixpoint evaluate_deposits (keys : list bytes) (fees : FeeRate) (tw : TransactionWitness)
    (deposits : list PsyBridgeClaimDepositItem) (acc : Accumulated) : outcome Accumulated :=
  match deposits with
  | [] => mret acc
  | deposit :: deposits =>
      acc ← evaluate_deposit keys fees tw deposit acc;
      evaluate_deposits keys fees tw deposits acc
  end.

Fixpoint evaluate_transactions (keys : list bytes) (fees : FeeRate) (root : bytes)
    (tws : list TransactionWitness) (builder : Builder) (acc : Accumulated)
  : outcome (Builder * Accumulated) :=
  match tws with
  | [] => mret (builder, acc)
  | tw :: tws =>
      builder ← ok_or (verify_and_add_to_transition_builder tw builder root)
                  (External "verify_and_add_to_transition_builder");
      acc ← evaluate_deposits keys fees tw tw.(deposit_outputs) acc;
      evaluate_transactions keys fees root tws builder acc
  end.

Definition evaluate_claim_witness (P : ManagerCustodyProfile) (block_height : N)
    (witness : ClaimBlockWitness) (root custody_script_config : bytes) (fees : FeeRate)
  : outcome ClaimEvaluation :=
  let h := witness.(claim_header) in
  let keys := witness.(deposit_solana_public_keys) in
  builder ← ok_or (new_from_siblings P h fees custody_script_config keys) (External "new_from_siblings");
  '(builder, acc) ← evaluate_transactions keys fees root witness.(deposit_transactions) builder
                      (mkAccumulated [] [] []);
  bail_when (negb (N.of_nat (length acc.(acc_leaf_hashes)) =? h.(total_outputs_hint))%N)
    "witness total_outputs_hint {} does not match {} deposit outputs" ;;
  '(builder, transition) ← ok_or (builder_finalize builder block_height h fees) (External "finalize");
  let block_txo_root := claimed_txs_root builder in
  let minted := total_deposit_amount builder in
  '(mints_hash, txo_hash) ←
    ok_or (pending_mint_and_txo_hashes_from_claim_witness P witness root custody_script_config fees)
      (External "pending_mint_and_txo_hashes_from_claim_witness");
  count ← ok_or (u32_try_from (length acc.(acc_leaf_hashes))) (Anyhow "deposit count exceeds u32");
  mret {|
    eval_transition := transition;
    eval_pending_mints_hash := mints_hash;
    eval_txo_output_list_hash := txo_hash;
    eval_pending_mints := acc.(acc_pending_mints);
    eval_txo_indices := acc.(acc_txo_indices);
    eval_block_txo_root := block_txo_root;
    eval_deposit_leaf_hashes := acc.(acc_leaf_hashes);
    eval_deposit_count := count;
    eval_minted_amount_sats := minted;
  |}.

(** ** The finalized buffers *)

(** The two field assignments at the end of [resolve_finalized_buffers]. *)
Definition set_hashes (c : BlockBufferCommitment) (mints_hash txo_hash : bytes) : BlockBufferCommitment := {|
  pending_mints_hash_hex := hex_encode mints_hash;
  txo_output_list_hash_hex := hex_encode txo_hash;
  pending_mints := c.(pending_mints);
  txo_indices := c.(txo_indices);
  deposit_count := c.(deposit_count);
  minted_amount_sats := c.(minted_amount_sats);
  auto_claim_start_index := c.(auto_claim_start_index);
  auto_claim_end_index := c.(auto_claim_end_index);
  fees_collected := c.(fees_collected);
|}.

Definition resolve_finalized_buffers (P : ManagerCustodyProfile) (block : option QDogeBlock)
    (redis_buffers : option BlockBufferCommitment) (custody_script_config : bytes)
    (recipient_atas : list bytes) (fees : FeeRate) : outcome (BlockBufferCommitment * string) :=
  match redis_buffers with
  | None => buffers ← empty_commitment; mret (buffers, EmptyString)
  | Some redis_buffers =>
      block ← ok_or block (Anyhow "finalized Electrs block is missing");
      witness ← build_hash_only_incoming_witness P block custody_script_config recipient_atas;
      '(mints_hash, txo_hash) ←
        ok_or (pending_mint_and_txo_hashes_from_claim_witness P witness.(claim_witness)
                 (merkle_root block.(header)) custody_script_config fees)
          (External "pending_mint_and_txo_hashes_from_claim_witness");
      redis_mints_hash ← commitment_pending_mints_hash redis_buffers;
      bail_when (bool_decide (redis_mints_hash <> mints_hash))
        "Redis pending-mint hash disagrees with finalized Electrs witness" ;;
      redis_txo_hash ← commitment_txo_output_list_hash redis_buffers;
      bail_when (bool_decide (redis_txo_hash <> txo_hash))
        "Redis TXO-list hash disagrees with finalized Electrs witness" ;;
      witness_bytes ← ok_or (witness_write_to_vec witness) (External "write_to_vec");
      mret (set_hashes redis_buffers mints_hash txo_hash, hex_encode witness_bytes)
  end.

Definition serialize_pending_mint_payloads (payloads : list PendingMintPayload) : bytes :=
  concat ((fun p => p.(recipient) ++ le_bytes 8 p.(amount)) <$> payloads).

(** [bytemuck::cast_slice] of a [u32] slice, little-endian. *)
Definition serialize_txo_indices (indices : list N) : bytes := concat (le_bytes 4 <$> indices).

(** [try_fold(0u64, |sum, mint| sum.checked_add(mint.amount))] *)
Fixpoint sum_amounts (sum : N) (payloads : list PendingMintPayload) : outcome N :=
  match payloads with
  | [] => mret sum
  | mint :: payloads =>
      sum ← ok_or (checked_add u64_max sum mint.(amount)) (Anyhow "pending-mint amount overflow");
      sum_amounts sum payloads
  end.

(** [PendingMintPayload::to_bridge_mint] *)
Definition to_bridge_mint (p : PendingMintPayload) : bytes * N := (p.(recipient), p.(amount)).

Definition validate_buffer_payload (finalized : BlockBufferCommitment) (bridge_mints : list (bytes * N))
  : outcome () :=
  bail_when (negb (length finalized.(pending_mints) =? length finalized.(txo_indices))%nat
             || negb (N.of_nat (length finalized.(pending_mints)) =? finalized.(deposit_count))%N)
    "finalized buffer payload lengths mints={}, txos={}, deposits={} do not match" ;;
  bail_when (negb (length bridge_mints =? length finalized.(pending_mints))%nat)
    "bridge pending-mint conversion changed payload length" ;;
  amount ← sum_amounts 0 finalized.(pending_mints);
  bail_when (negb (amount =? finalized.(minted_amount_sats))%N)
    "pending-mint payload amount {amount} does not match commitment {}" ;;
  actual_mints_hash ← pending_mints_hash finalized.(pending_mints);
  expected_mints_hash ← commitment_pending_mints_hash finalized;
  bail_when (bool_decide (actual_mints_hash <> expected_mints_hash))
    "pending-mint payload hash does not match finalized header commitment" ;;
  expected_txo_hash ← commitment_txo_output_list_hash finalized;
  bail_when (bool_decide (hash_impl_sha256_bytes (serialize_txo_indices finalized.(txo_indices))
                          <> expected_txo_hash))
    "TXO payload hash {} does not match finalized header commitment {} for indices {:?}".
End claims.

(** ** Scanning: specification *)
Section scan_theory.
Context `{!Hex, !Sha, !TreeParams, !LightClient, !Custody, !ClaimHelper}.

(** The custody outputs from position [j] on, each with the first key whose
    script it pays. *)
Fixpoint deposit_items_from (scripts : list bytes) (j : nat) (outs : list TxOutput)
  : list PsyBridgeClaimDepositItem :=
  match outs with
  | [] => []
  | o :: outs =>
      match script_position scripts o with
      | Some k => [mkDepositItem (N.of_nat j) (N.of_nat k)]
      | None => []
      end ++ deposit_items_from scripts (S j) outs
  end.
Definition deposit_items (scripts : list bytes) (outs : list TxOutput) : list PsyBridgeClaimDepositItem :=
  deposit_items_from scripts 0 outs.

Lemma deposit_items_elem scripts j outs item :
  item ∈ deposit_items_from scripts j outs <->
  exists i o k, outs !! i = Some o /\ script_position scripts o = Some k /\
                item = mkDepositItem (N.of_nat (j + i)) (N.of_nat k).
Proof.
  revert j. induction outs as [|o outs IH]; intros j; cbn [deposit_items_from].
  - split; [by intros []%elem_of_nil|]. by intros (i & o & k & [=] & _).
  - rewrite elem_of_app, IH. split.
    + intros [Hin|(i & o' & k & Hi & Hk & ->)].
      * destruct (script_position scripts o) as [k|] eqn:Hk; [|by apply elem_of_nil in Hin].
        apply list_elem_of_singleton in Hin as ->. exists 0, o, k. by rewrite Nat.add_0_r.
      * exists (S i), o', k. by rewrite Nat.add_succ_r.
    + intros ([|i] & o' & k & Hi & Hk & ->); simpl in Hi.
      * injection Hi as ->. rewrite Hk. left. apply list_elem_of_singleton. by rewrite Nat.add_0_r.
      * right. exists i, o', k. by rewrite Nat.add_succ_r.
Qed.

Lemma deposit_items_NoDup scripts j outs :
  NoDup (output_index <$> deposit_items_from scripts j outs).
Proof.
  revert j. induction outs as [|o outs IH]; intros j; cbn [deposit_items_from]; [constructor|].
  destruct (script_position scripts o) as [k|]; [|apply IH]. cbn. constructor; [|apply IH].
  intros Hin. apply list_elem_of_fmap in Hin as (item & E & Hitem).
  apply deposit_items_elem in Hitem as (i & o' & k' & _ & _ & ->). simpl in E. lia.
Qed.

Lemma script_position_Some scripts o k :
  script_position scripts o = Some k -> scripts !! k = Some o.(script).
Proof.
  unfold script_position. intros E. apply fmap_Some in E as ((k' & s) & Hf & ->).
  apply list_find_Some in Hf as (Hs & -> & _). done.
Qed.

Lemma script_position_is_Some scripts o :
  o.(script) ∈ scripts -> is_Some (script_position scripts o).
Proof.
  intros Hin. unfold script_position. apply fmap_is_Some.
  by apply (list_find_elem_of (eq o.(script)) scripts o.(script)).
Qed.

Lemma scan_outputs_Ok scripts j outs deposits total r :
  scan_outputs scripts j outs deposits total = Ok r ->
  r = (deposits ++ deposit_items_from scripts j outs,
       (total + N.of_nat (length (deposit_items_from scripts j outs)))%N).
Proof.
  revert j deposits total. induction outs as [|o outs IH]; intros j deposits total Hs; cbn [scan_outputs] in Hs.
  - inv_ok. by rewrite app_nil_r, N.add_0_r.
  - cbn [deposit_items_from]. destruct (script_position scripts o) as [k|]; inv_ok.
    + unfold u32_try_from in *. repeat case_match; simplify_eq.
      match goal with E : checked_add _ _ _ = Some _ |- _ => apply checked_add_Some in E as [-> _] end.
      match goal with E : scan_outputs _ _ _ _ _ = Ok _ |- _ => rewrite (IH _ _ _ E) end.
      rewrite <- app_assoc. f_equal. rewrite length_app. cbn [length]. lia.
    + match goal with E : scan_outputs _ _ _ _ _ = Ok _ |- _ => by rewrite (IH _ _ _ E) end.
Qed.

Lemma scan_transactions_Ok scripts hashes idx txs found total r :
  scan_transactions scripts hashes idx txs found total = Ok r ->
  exists ws, r.2 = found ++ ws /\
    r.1 = (total + N.of_nat (length (ws ≫= deposit_outputs)))%N /\
    (forall w, w ∈ ws -> exists i, txs !! i = Some w.(transaction) /\
       w.(transaction_index) = N.of_nat (idx + i) /\
       w.(deposit_outputs) = deposit_items scripts (outputs w.(transaction)) /\
       w.(deposit_outputs) <> [] /\
       bitcoin_merkle_siblings hashes (N.of_nat (idx + i)) = Ok w.(merkle_siblings)) /\
    (forall i tx, txs !! i = Some tx -> deposit_items scripts (outputs tx) <> [] ->
       exists w, w ∈ ws /\ w.(transaction_index) = N.of_nat (idx + i) /\ w.(transaction) = tx) /\
    NoDup (transaction_index <$> ws).
Proof.
  revert idx found total. induction txs as [|tx txs IH]; intros idx found total Hs;
    cbn [scan_transactions] in Hs.
  { inv_ok. exists []. rewrite app_nil_r, N.add_0_r. split_and!; [done..| | |].
    - by intros w []%elem_of_nil.
    - done.
    - constructor. }
  apply bind_Ok in Hs as ([deposits total'] & Ho & Hs). apply scan_outputs_Ok in Ho as [= -> ->].
  cbn [app] in Hs. fold (deposit_items scripts (outputs tx)) in Hs.
  apply bind_Ok in Hs as (found' & Hf & Hs).
  destruct (IH _ _ _ Hs) as (ws & -> & -> & Hin & Hall & Hnd). clear IH Hs.
  case_bool_decide as Hd.
  - inv_ok. exists ws. rewrite Hd, N.add_0_r. split_and!; [done..| | |done].
    + intros w Hw. destruct (Hin w Hw) as (i & Hi & Ei & Hrest). exists (S i).
      rewrite <- !plus_n_Sm. done.
    + intros [|i] tx' Hi Hne; simpl in Hi; [by simplify_eq|].
      destruct (Hall i tx' Hi Hne) as (w & Hw & Ei & Et). exists w. by rewrite <- plus_n_Sm.
  - inv_ok. match goal with E : u32_try_from _ = Some _ |- _ => rename E into Hu end.
    unfold u32_try_from in Hu. case_match; [|done]. injection Hu as <-.
    eexists (_ :: ws). split; [by rewrite <- app_assoc|]. split_and!.
    + rewrite bind_cons, length_app. cbn [deposit_outputs]. lia.
    + intros w [->|Hw]%elem_of_cons.
      * exists 0. cbn. rewrite !Nat.add_0_r. done.
      * destruct (Hin w Hw) as (i & Hi & Ei & Hrest). exists (S i). rewrite <- !plus_n_Sm. done.
    + intros [|i] tx' Hi Hne; simpl in Hi.
      * injection Hi as ->. eexists. split; [apply list_elem_of_here|]. by rewrite Nat.add_0_r.
      * destruct (Hall i tx' Hi Hne) as (w & Hw & Ei & Et). exists w.
        rewrite <- plus_n_Sm. split; [by apply list_elem_of_further|done].
    + cbn. constructor; [|done]. intros (w & E & Hw)%list_elem_of_fmap.
      destruct (Hin w Hw) as (i & _ & Ei & _). rewrite Ei in E. lia.
Qed.
End scan_theory.

(** ** Evaluation: one payload entry per deposit *)
Section evaluate_theory.
Context `{!Hex, !Sha, !TreeParams, !LightClient, !Custody, !ClaimHelper}.

(** What a deposit of a transaction contributes. *)
Definition contributes (keys : list bytes) (fees : FeeRate)
    (td : TransactionWitness * PsyBridgeClaimDepositItem) (e : bytes * PendingMintPayload * N) : Prop :=
  exists key output fee net,
    keys !! N.to_nat td.2.(public_key_index) = Some key /\
    outputs td.1.(transaction) !! N.to_nat td.2.(output_index) = Some output /\
    calcuate_fee output.(value) fees = Some (fee, net) /\
    combined_txo_index td.1.(transaction_index) td.2.(output_index) = Some e.2 /\
    e.1.2 = mkPendingMintPayload key net /\
    e.1.1 = hash_deposit_leaf (get_hash td.1.(transaction)) td.2.(output_index) key net.

Definition deposits_of (tws : list TransactionWitness)
  : list (TransactionWitness * PsyBridgeClaimDepositItem) :=
  tws ≫= fun tw => pair tw <$> tw.(deposit_outputs).

Definition acc_app (acc : Accumulated) (es : list (bytes * PendingMintPayload * N)) : Accumulated :=
  mkAccumulated (acc.(acc_leaf_hashes) ++ ((fun e => e.1.1) <$> es))
    (acc.(acc_pending_mints) ++ ((fun e => e.1.2) <$> es)) (acc.(acc_txo_indices) ++ es.*2).

Lemma acc_app_nil acc : acc_app acc [] = acc.
Proof. unfold acc_app. destruct acc. simpl. by rewrite !app_nil_r. Qed.
Lemma acc_app_app acc es es' : acc_app (acc_app acc es) es' = acc_app acc (es ++ es').
Proof. unfold acc_app. simpl. by rewrite !fmap_app, !app_assoc. Qed.

Lemma evaluate_deposits_Ok keys fees tw deposits acc r :
  evaluate_deposits keys fees tw deposits acc = Ok r ->
  exists es, r = acc_app acc es /\ Forall2 (contributes keys fees) (pair tw <$> deposits) es.
Proof.
  revert acc. induction deposits as [|d deposits IH]; intros acc He; cbn [evaluate_deposits] in He.
  - inv_ok. exists []. by rewrite acc_app_nil.
  - apply bind_Ok in He as (acc1 & E1 & He). destruct (IH _ He) as (es & -> & HF).
    unfold evaluate_deposit in E1. inv_ok. repeat case_match. inv_ok.
    eexists (_ :: es). split; [|constructor; [|exact HF]].
    + match goal with |- acc_app ?a es = acc_app acc (?e :: es) =>
        change (acc_app acc (e :: es)) with (acc_app acc ([e] ++ es)) end.
      rewrite <- acc_app_app. f_equal. unfold acc_app. simpl.
      instantiate (1 := (_, _, _)). reflexivity.
    + unfold contributes. simpl. eauto 10.
Qed.

Lemma evaluate_transactions_Ok keys fees root tws builder acc r :
  evaluate_transactions keys fees root tws builder acc = Ok r ->
  exists es, r.2 = acc_app acc es /\ Forall2 (contributes keys fees) (deposits_of tws) es.
Proof.
  revert builder acc. induction tws as [|tw tws IH]; intros builder acc He;
    cbn [evaluate_transactions] in He.
  - inv_ok. exists []. by rewrite acc_app_nil.
  - inv_ok. match goal with E : evaluate_deposits _ _ _ _ _ = Ok _ |- _ =>
      apply evaluate_deposits_Ok in E as (es1 & -> & HF1) end.
    destruct (IH _ _ He) as (es2 & -> & HF2). exists (es1 ++ es2). split; [apply acc_app_app|].
    unfold deposits_of. rewrite bind_cons. by apply Forall2_app.
Qed.

(** The payload lists of an evaluation, entry by entry. *)
Lemma evaluate_claim_witness_Ok P block_height witness root custody fees ev :
  evaluate_claim_witness P block_height witness root custody fees = Ok ev ->
  exists es,
    Forall2 (contributes witness.(deposit_solana_public_keys) fees)
      (deposits_of witness.(deposit_transactions)) es /\
    ev.(eval_deposit_leaf_hashes) = (fun e => e.1.1) <$> es /\
    ev.(eval_pending_mints) = (fun e => e.1.2) <$> es /\
    ev.(eval_txo_indices) = es.*2 /\
    ev.(eval_deposit_count) = N.of_nat (length es) /\
    witness.(claim_header).(total_outputs_hint) = N.of_nat (length es).
Proof.
  unfold evaluate_claim_witness. intros He. inv_ok. repeat case_match. inv_ok.
  repeat case_match. inv_ok. repeat case_match. inv_ok. bool_hyps.
  match goal with E : evaluate_transactions _ _ _ _ _ _ = Ok _ |- _ => rename E into Het end.
  apply evaluate_transactions_Ok in Het as (es & Hacc & HF).
  simpl in Hacc. subst. exists es. simpl in *.
  unfold u32_try_from in *. repeat case_match; simplify_eq/=.
  rewrite !length_fmap in *. done.
Qed.
End evaluate_theory.

Section claim_theory.
Context `{!Hex, !Sha, !TreeParams, !LightClient, !Custody, !ClaimHelper}.

(** What a successful scan returned. *)
Lemma scan_Ok P block custody atas total found :
  scan_manager_custody_deposits P block custody atas = Ok (total, found) ->
  let scripts := custody_scripts P custody atas in
  let hashes := get_hash <$> block.(transactions) in
  bitcoin_merkle_root hashes = Ok (Some (merkle_root block.(header))) /\
  total = N.of_nat (length (found ≫= deposit_outputs)) /\
  (forall w, w ∈ found -> exists i, block.(transactions) !! i = Some w.(transaction) /\
     w.(transaction_index) = N.of_nat i /\
     w.(deposit_outputs) = deposit_items scripts (outputs w.(transaction)) /\
     w.(deposit_outputs) <> [] /\
     bitcoin_merkle_siblings hashes (N.of_nat i) = Ok w.(merkle_siblings)) /\
  (forall i tx, block.(transactions) !! i = Some tx -> deposit_items scripts (outputs tx) <> [] ->
     exists w, w ∈ found /\ w.(transaction_index) = N.of_nat i /\ w.(transaction) = tx) /\
  NoDup (transaction_index <$> found).
Proof.
  intros Hs scripts hashes. unfold scan_manager_custody_deposits in Hs. inv_ok. bool_hyps.
  match goal with E : ¬ (_ <> _) |- _ => apply dec_stable in E; subst end.
  destruct (scan_transactions_Ok _ _ _ _ _ _ _ Hs) as (ws & Ef & Et & Hin & Hall & Hnd).
  cbn in Ef, Et. subst. split_and!; try done.
Qed.

Lemma deposits_of_elem tws tw d :
  (tw, d) ∈ deposits_of tws <-> tw ∈ tws /\ d ∈ tw.(deposit_outputs).
Proof.
  unfold deposits_of. rewrite list_elem_of_bind. split.
  - intros (tw' & (d' & [= -> ->] & Hd)%list_elem_of_fmap & Ht). done.
  - intros [Ht Hd]. exists tw. split; [|done]. apply list_elem_of_fmap. eauto.
Qed.

(** The position in the block of a deposit: its transaction and its output. *)
Definition position (td : TransactionWitness * PsyBridgeClaimDepositItem) : nat * nat :=
  (N.to_nat td.1.(transaction_index), N.to_nat td.2.(output_index)).

Lemma positions_NoDup tws :
  NoDup (transaction_index <$> tws) ->
  (forall tw, tw ∈ tws -> NoDup (output_index <$> tw.(deposit_outputs))) ->
  NoDup (position <$> deposits_of tws).
Proof.
  intros Hnd Ho. induction tws as [|tw tws IH]; [constructor|].
  unfold deposits_of. rewrite bind_cons, fmap_app. fold (deposits_of tws).
  cbn [fmap list_fmap] in Hnd. inversion Hnd as [|? ? Hnot Hnd']; subst.
  apply NoDup_app. split_and!.
  - assert (NoDup (output_index <$> tw.(deposit_outputs))) as Hd by (apply Ho, list_elem_of_here).
    clear - Hd. rewrite <- list_fmap_compose. revert Hd.
    induction (deposit_outputs tw) as [|d l IHl]; [constructor|]. cbn [fmap list_fmap].
    inversion 1 as [|? ? Hn Hd']; subst. constructor; [|by apply IHl].
    intros (d' & [= E] & Hin)%list_elem_of_fmap. apply Hn. apply list_elem_of_fmap.
    exists d'. split; [lia|done].
  - intros p (td & -> & (d & -> & Hd)%list_elem_of_fmap)%list_elem_of_fmap
      ([tw' d'] & E & [Htw' Hd']%deposits_of_elem)%list_elem_of_fmap.
    unfold position in E. simpl in E. injection E as E _. apply Hnot, list_elem_of_fmap.
    exists tw'. split; [lia|done].
  - apply IH; [done|]. intros tw' Htw'. apply Ho. by apply list_elem_of_further.
Qed.

(** The transactions of a generated witness are those the scan found. *)
Lemma build_deposit_claim_witness_Ok P block checkpoint custody atas w :
  build_deposit_claim_witness P block checkpoint custody atas = Ok w ->
  w.(claim_witness).(deposit_solana_public_keys) = atas /\
  w.(witness_block_header) = block.(header) /\
  scan_manager_custody_deposits P block custody atas
  = Ok (w.(claim_witness).(claim_header).(total_outputs_hint), w.(claim_witness).(deposit_transactions)).
Proof.
  unfold build_deposit_claim_witness. intros Hb.
  apply bind_Ok in Hb as ([total found] & Hs & Hb). inv_ok. done.
Qed.
End claim_theory.

(** C22: The scan of a block finds exactly its custody deposits.  The header's
    Merkle root is that of the block's transactions.  Every transaction witness
    names a transaction of the block at its position, its siblings fold the
    transaction's hash to the header's Merkle root, and its deposits are the
    transaction's outputs that pay the custody script of a recipient account,
    each with the first such account; every transaction with such an output has
    a witness, no position is reported twice, and the total is the number of
    deposits. *)
Theorem scan_finds_custody_deposits
    `{!Hex, !Sha, !TreeParams, !LightClient, !Custody, !ClaimHelper}
    (P : ManagerCustodyProfile) (block : QDogeBlock) (custody : bytes) (atas : list bytes)
    (total : N) (found : list TransactionWitness) :
  scan_manager_custody_deposits P block custody atas = Ok (total, found) ->
  total = N.of_nat (length (found ≫= deposit_outputs)) /\
  NoDup (transaction_index <$> found) /\
  (forall w, w ∈ found ->
     block.(transactions) !! N.to_nat w.(transaction_index) = Some w.(transaction) /\
     fold_path hash_impl_btc_hash256_two_to_one_bytes w.(transaction_index)
       (get_hash w.(transaction)) w.(merkle_siblings) = (0%N, merkle_root block.(header)) /\
     forall j k, mkDepositItem j k ∈ w.(deposit_outputs) <->
       exists output, outputs w.(transaction) !! N.to_nat j = Some output /\
         script_position (custody_scripts P custody atas) output = Some (N.to_nat k)) /\
  (forall i tx j output ata, block.(transactions) !! i = Some tx -> outputs tx !! j = Some output ->
     ata ∈ atas -> output.(script) = get_manager_custody_output_script P custody ata ->
     exists w k, w ∈ found /\ w.(transaction_index) = N.of_nat i /\ w.(transaction) = tx /\
       mkDepositItem (N.of_nat j) k ∈ w.(deposit_outputs)).
Proof.
  intros Hs. destruct (scan_Ok _ _ _ _ _ _ Hs) as (Hroot & Htotal & Hin & Hall & Hnd).
  split; [done|]. split; [done|]. split.
  - intros w Hw. destruct (Hin w Hw) as (i & Hi & Ei & Ed & _ & Hsib). rewrite Ei, Nat2N.id.
    split; [done|]. split.
    + assert ((get_hash <$> block.(transactions)) !! N.to_nat (N.of_nat i)
              = Some (get_hash w.(transaction))) as Hh
        by (by rewrite Nat2N.id, list_lookup_fmap, Hi).
      rewrite (bitcoin_siblings_fold _ _ _ _ Hh Hsib). f_equal.
      rewrite bitcoin_merkle_root_eq in Hroot by (intros E; by rewrite E in Hh).
      by injection Hroot.
    + intros j k. rewrite Ed. unfold deposit_items. rewrite deposit_items_elem. split.
      * intros (i' & o & k' & Ho & Hk & [= -> ->]). exists o. by rewrite !Nat2N.id.
      * intros (o & Ho & Hk). exists (N.to_nat j), o, (N.to_nat k).
        split_and!; [done..|]. f_equal; lia.
  - intros i tx j output ata Htx Hout Hata Hscript.
    destruct (script_position_is_Some (custody_scripts P custody atas) output) as [k Hk].
    { rewrite Hscript. unfold custody_scripts. by apply list_elem_of_fmap_2. }
    assert (mkDepositItem (N.of_nat j) (N.of_nat k)
            ∈ deposit_items (custody_scripts P custody atas) (outputs tx)) as Hd.
    { apply deposit_items_elem. exists j, output, k. done. }
    destruct (Hall i tx Htx) as (w & Hw & Ei & Et).
    { intros E. rewrite E in Hd. by apply elem_of_nil in Hd. }
    exists w, (N.of_nat k). split_and!; [done..|].
    destruct (Hin w Hw) as (? & _ & _ & -> & _). by rewrite Et.
Qed.

(** C21: Every mint of a generated witness is backed by a custody output, and
    every custody output is minted once.  When the witness built for a block
    evaluates, there is one pending mint, one TXO index and one leaf hash per
    deposit, the deposit count is their number and the witness's hint; the
    [n]-th mint credits a configured recipient account with the net amount of
    an output of the block that pays that account's custody script, and the
    [n]-th TXO index is that output's; no output is minted twice, and every
    output that pays a recipient's custody script is one of them. *)
Theorem minted_deposits_are_custody_outputs
    `{!Hex, !Sha, !TreeParams, !LightClient, !Custody, !ClaimHelper}
    (P : ManagerCustodyProfile) (block : QDogeBlock) (checkpoint : PipelineCheckpoint)
    (custody root : bytes) (atas : list bytes) (fees : FeeRate) (block_height : N)
    (w : IncomingBlockWitness) (ev : ClaimEvaluation) :
  build_deposit_claim_witness P block checkpoint custody atas = Ok w ->
  evaluate_claim_witness P block_height w.(claim_witness) root custody fees = Ok ev ->
  exists positions : list (nat * nat),
    NoDup positions /\
    length ev.(eval_pending_mints) = length positions /\
    length ev.(eval_txo_indices) = length positions /\
    length ev.(eval_deposit_leaf_hashes) = length positions /\
    ev.(eval_deposit_count) = N.of_nat (length positions) /\
    (forall n i j, positions !! n = Some (i, j) ->
       exists tx output mint fee index,
         block.(transactions) !! i = Some tx /\ outputs tx !! j = Some output /\
         ev.(eval_pending_mints) !! n = Some mint /\ ev.(eval_txo_indices) !! n = Some index /\
         mint.(recipient) ∈ atas /\
         output.(script) = get_manager_custody_output_script P custody mint.(recipient) /\
         calcuate_fee output.(value) fees = Some (fee, mint.(amount)) /\
         combined_txo_index (N.of_nat i) (N.of_nat j) = Some index) /\
    (forall i tx j output ata, block.(transactions) !! i = Some tx -> outputs tx !! j = Some output ->
       ata ∈ atas -> output.(script) = get_manager_custody_output_script P custody ata ->
       (i, j) ∈ positions).
Proof.
  intros Hb He. destruct (build_deposit_claim_witness_Ok _ _ _ _ _ _ Hb) as (Hkeys & _ & Hs).
  destruct (scan_Ok _ _ _ _ _ _ Hs) as (_ & _ & Hin & Hall & Hnd).
  destruct (evaluate_claim_witness_Ok _ _ _ _ _ _ _ He) as (es & HF & El & Em & Et & Ec & _).
  rewrite Hkeys in HF. set (tws := deposit_transactions (claim_witness w)) in *.
  set (pos := position).
  pose proof (Forall2_length _ _ _ HF) as Hlen.
  exists (pos <$> deposits_of tws). rewrite !length_fmap, El, Em, Et, Ec, !length_fmap, Hlen.
  split.
  { apply positions_NoDup; [done|]. intros tw Htw. destruct (Hin tw Htw) as (? & _ & _ & -> & _).
    apply deposit_items_NoDup. }
  do 4 (split; [done|]). split.
  - intros n i j Hn. rewrite list_lookup_fmap in Hn.
    destruct (deposits_of tws !! n) as [[tw d]|] eqn:Etd; [|done]. simpl in Hn. injection Hn as <- <-.
    destruct (Forall2_lookup_l _ _ _ _ _ HF Etd) as (e & Ee & key & output & fee & net & Hk & Ho & Hfee & Hidx & Hm & _).
    simpl in *. apply list_elem_of_lookup_2 in Etd as [Htw Hd]%deposits_of_elem.
    destruct (Hin tw Htw) as (i & Hi & Ei & Ed & _). rewrite Ed in Hd.
    apply deposit_items_elem in Hd as (j & o & k & Hj & Hk' & ->). simpl in *.
    rewrite Nat2N.id in *. simplify_eq. apply script_position_Some in Hk'.
    unfold custody_scripts in Hk'. rewrite list_lookup_fmap, Hk in Hk'. injection Hk' as Hscript.
    exists (transaction tw), o, (mkPendingMintPayload key net), fee, e.2.
    rewrite Ei, Nat2N.id, !list_lookup_fmap, Ee. simpl. rewrite Hm, <- Ei.
    split_and!; try done. by eapply list_elem_of_lookup_2.
  - intros i tx j output ata Htx Hout Hata Hscript.
    destruct (script_position_is_Some (custody_scripts P custody atas) output) as [k Hk].
    { rewrite Hscript. unfold custody_scripts. by apply list_elem_of_fmap_2. }
    assert (mkDepositItem (N.of_nat j) (N.of_nat k)
            ∈ deposit_items (custody_scripts P custody atas) (outputs tx)) as Hd.
    { apply deposit_items_elem. exists j, output, k. done. }
    destruct (Hall i tx Htx) as (tw & Htw & Ei & Etx).
    { intros E. rewrite E in Hd. by apply elem_of_nil in Hd. }
    apply list_elem_of_fmap. exists (tw, mkDepositItem (N.of_nat j) (N.of_nat k)).
    unfold pos, position. simpl. rewrite Ei, !Nat2N.id. split; [done|]. apply deposits_of_elem. split; [done|].
    destruct (Hin tw Htw) as (? & _ & _ & -> & _). by rewrite Etx.
Qed.

(** Concatenations of fixed-width non-empty encodings are injective. *)
Lemma concat_fmap_inj {A} (wf : A -> Prop) (f : A -> bytes) (w : nat) (a b : list A) :
  0 < w -> (forall x, wf x -> length (f x) = w) ->
  (forall x y, wf x -> wf y -> f x = f y -> x = y) ->
  Forall wf a -> Forall wf b -> concat (f <$> a) = concat (f <$> b) -> a = b.
Proof.
  intros Hw Hl Hinj Ha. revert b. induction Ha as [|x a Hx Ha IH]; intros b Hb E.
  - inversion Hb as [|y b' Hy Hb']; subst; [done|]. apply (f_equal length) in E.
    cbn [fmap list_fmap concat] in E. rewrite length_app, Hl in E by done. simpl in E. lia.
  - inversion Hb as [|y b' Hy Hb']; subst; cbn [fmap list_fmap concat] in E.
    + apply (f_equal length) in E. rewrite length_app, Hl in E by done. simpl in E. lia.
    + apply app_inj_1 in E as [E1 E2]; [|by rewrite !Hl]. f_equal; [by apply Hinj|by apply IH].
Qed.

(** ** Panic freedom and the finalized buffers *)
Section claim_results.
Context `{!Hex, !HexLaws, !Sha, !ShaLaws, !TreeParams, !TreeParamsLaws, !LightClient, !Custody, !ClaimHelper}.

Lemma scan_outputs_returns scripts j outs deposits total :
  returns (scan_outputs scripts j outs deposits total) = true.
Proof.
  revert j deposits total. induction outs as [|o outs IH]; intros j deposits total; [done|].
  cbn [scan_outputs]. apply bind_returns; [solve_returns|]. intros [d t] _. apply IH.
Qed.

Lemma scan_transactions_returns scripts hashes idx txs found total :
  returns (scan_transactions scripts hashes idx txs found total) = true.
Proof.
  revert idx found total. induction txs as [|tx txs IH]; intros idx found total; [done|].
  cbn [scan_transactions]. apply bind_returns; [apply scan_outputs_returns|]. intros [d t] _.
  apply bind_returns; [solve_returns|]. intros f _. apply IH.
Qed.

Lemma scan_returns P block custody atas :
  returns (scan_manager_custody_deposits P block custody atas) = true.
Proof.
  unfold scan_manager_custody_deposits. solve_returns. apply scan_transactions_returns.
Qed.

Lemma last_claim_siblings_length c s :
  last_claim_siblings c = Ok s -> length s = AUTO_CLAIM_DEPOSITS_TREE_HEIGHT.
Proof.
  pose proof claim_tree_zeros. unfold last_claim_siblings. case_bool_decide; intros E.
  - apply fmap_Ok in E as ([v s'] & E & <-). by apply MerkleFrontierOps.decode_lengths in E as [_ ?].
  - eapply sparse_siblings_length; [|exact E]. lia.
Qed.

Lemma next_block_siblings_length c n s :
  next_block_siblings c n = Ok s -> length s = TXO_TREE_INDEX_BITS_BLOCK_NUM_LENGTH.
Proof.
  pose proof txo_tree_zeros. unfold next_block_siblings. case_bool_decide; intros E.
  - by eapply sequential_siblings_length.
  - inv_ok. eapply sparse_siblings_length; [|exact E]. lia.
Qed.

Lemma last_claim_siblings_returns c : returns (last_claim_siblings c) = true.
Proof.
  pose proof claim_tree_zeros. unfold last_claim_siblings. case_bool_decide.
  - pose proof (MerkleFrontierOps.decode_returns (claim_frontier c) AUTO_CLAIM_DEPOSITS_TREE_HEIGHT).
    by destruct (MerkleFrontierOps.decode _ _).
  - apply sparse_siblings_returns. lia.
Qed.

Lemma next_block_siblings_returns c n : returns (next_block_siblings c n) = true.
Proof.
  pose proof txo_tree_zeros. unfold next_block_siblings. case_bool_decide.
  - apply sequential_siblings_returns. lia.
  - rewrite zero_hash_0 by lia. apply sparse_siblings_returns. lia.
Qed.

Lemma decode_hash_canonical s h : decode_hash s = Ok h -> decode_hash (hex_encode h) = Ok h.
Proof. intros E. apply decode_fixed_Ok in E as [_ E]. by apply decode_fixed_encode. Qed.

(** A commitment with canonical hashes validates like the original. *)
Lemma set_hashes_spec c mh th :
  commitment_pending_mints_hash c = Ok mh -> commitment_txo_output_list_hash c = Ok th ->
  commitment_pending_mints_hash (set_hashes c mh th) = Ok mh /\
  commitment_txo_output_list_hash (set_hashes c mh th) = Ok th /\
  forall mints, validate_buffer_payload (set_hashes c mh th) mints = validate_buffer_payload c mints.
Proof.
  intros Hm Ht.
  assert (commitment_pending_mints_hash (set_hashes c mh th) = Ok mh) as Em
    by exact (decode_hash_canonical _ _ Hm).
  assert (commitment_txo_output_list_hash (set_hashes c mh th) = Ok th) as Et
    by exact (decode_hash_canonical _ _ Ht).
  split; [done|]. split; [done|]. intros mints. unfold validate_buffer_payload.
  by rewrite Em, Et, Hm, Ht.
Qed.
End claim_results.

(** Building a claim witness never panics.  For every block and checkpoint
    the construction returns a witness or an error: the loops of the scan
    terminate, and the two [expect]s on sibling counts cannot fail, whether the
    paths come from a kept history or from a frontier.  A witness it returns
    has paths of exactly the heights of the two trees. *)
Theorem build_deposit_claim_witness_returns
    `{!Hex, !HexLaws, !Sha, !ShaLaws, !TreeParams, !TreeParamsLaws, !LightClient, !Custody, !ClaimHelper}
    (P : ManagerCustodyProfile) (block : QDogeBlock) (checkpoint : PipelineCheckpoint)
    (custody : bytes) (atas : list bytes) :
  returns (build_deposit_claim_witness P block checkpoint custody atas) = true /\
  forall w, build_deposit_claim_witness P block checkpoint custody atas = Ok w ->
    length w.(claim_witness).(claim_header).(txo_tree_block_siblings)
    = TXO_TREE_INDEX_BITS_BLOCK_NUM_LENGTH /\
    length w.(claim_witness).(claim_header).(last_auto_claimed_deposits_siblings)
    = AUTO_CLAIM_DEPOSITS_TREE_HEIGHT.
Proof.
  unfold build_deposit_claim_witness. split.
  - apply bind_returns; [apply scan_returns|]. intros [total found] _.
    apply bind_returns; [apply decode_fixed_returns|]. intros last _.
    apply bind_returns; [apply last_claim_siblings_returns|]. intros cs Hcs.
    apply bind_returns; [apply ok_or_returns|]. intros next _.
    apply bind_returns; [apply next_block_siblings_returns|]. intros ts Hts.
    apply bind_returns; [apply decode_fixed_returns|]. intros h _.
    unfold expect_length. rewrite (next_block_siblings_length _ _ _ Hts), Nat.eqb_refl.
    cbn [mbind outcome_bind mret outcome_ret].
    by rewrite (last_claim_siblings_length _ _ Hcs), Nat.eqb_refl.
  - intros w Hw. apply bind_Ok in Hw as ([total found] & _ & Hw). inv_ok.
    unfold expect_length in *. repeat case_match; inv_ok. bool_hyps. done.
Qed.

(** C23: The finalized payload is the one the header commits to.  Without a
    pending commitment the buffers are empty and pass validation.  With one,
    the hashes Redis recorded are those recomputed from the finalized block's
    own deposits, the resolved buffers decode to the same hashes, and payload,
    counts and amounts are carried over unchanged, so they validate exactly
    when the recorded commitment does. *)
Theorem resolve_finalized_buffers_spec
    `{!Hex, !HexLaws, !Sha, !ShaLaws, !TreeParams, !LightClient, !Custody, !ClaimHelper}
    (P : ManagerCustodyProfile) (block : option QDogeBlock) (redis : option BlockBufferCommitment)
    (custody : bytes) (atas : list bytes) (fees : FeeRate) (b : BlockBufferCommitment) (text : string) :
  (forall payloads h, pending_mints_groups_hash payloads = Some h -> length h = 32) ->
  resolve_finalized_buffers P block redis custody atas fees = Ok (b, text) ->
  match redis with
  | None => text = EmptyString /\ b.(pending_mints) = [] /\ b.(txo_indices) = [] /\
            validate_buffer_payload b [] = Ok ()
  | Some r =>
      exists blk witness mints_hash txo_hash,
        block = Some blk /\
        build_hash_only_incoming_witness P blk custody atas = Ok witness /\
        pending_mint_and_txo_hashes_from_claim_witness P witness.(claim_witness)
          (merkle_root blk.(header)) custody fees = Some (mints_hash, txo_hash) /\
        commitment_pending_mints_hash r = Ok mints_hash /\
        commitment_txo_output_list_hash r = Ok txo_hash /\
        commitment_pending_mints_hash b = Ok mints_hash /\
        commitment_txo_output_list_hash b = Ok txo_hash /\
        b.(pending_mints) = r.(pending_mints) /\ b.(txo_indices) = r.(txo_indices) /\
        forall mints, validate_buffer_payload b mints = validate_buffer_payload r mints
  end.
Proof.
  intros Hlen Hr. unfold resolve_finalized_buffers in Hr. destruct redis as [r|].
  - inv_ok. repeat case_match. inv_ok. bool_hyps.
    repeat match goal with E : ¬ (_ <> _) |- _ => apply dec_stable in E end. subst.
    match goal with Em : commitment_pending_mints_hash r = Ok ?mh,
                    Et : commitment_txo_output_list_hash r = Ok ?th |- _ =>
      destruct (set_hashes_spec r mh th Em Et) as (Em' & Et' & Hv) end.
    eexists _, _, _, _. do 4 (split; [by eauto|]). done.
  - unfold empty_commitment in Hr. inv_ok. split_and!; try done.
    match goal with E : pending_mints_groups_hash [] = Some ?h |- _ =>
      rename E into Hh; pose proof (Hlen _ _ Hh) as Hl; rename h into h0 end.
    unfold validate_buffer_payload, pending_mints_hash, commitment_pending_mints_hash,
      commitment_txo_output_list_hash, decode_hash. cbn.
    rewrite Hh, !decode_fixed_encode by (done || apply sha256_length). cbn.
    by rewrite !bool_decide_false by tauto.
Qed.

(** The serialized payloads determine the payload: two lists of TXO indices
    below [2^32] with the same bytes are equal, and so are two lists of mints
    with 32-byte recipients and amounts below [2^64].  The hashes the header
    commits to therefore bind the lists up to a collision of SHA-256. *)
Theorem serialized_payload_injective :
  (forall a b : list N, Forall (fun i => i <= u32_max)%N a -> Forall (fun i => i <= u32_max)%N b ->
     serialize_txo_indices a = serialize_txo_indices b -> a = b) /\
  (forall a b : list PendingMintPayload,
     Forall (fun p => length p.(recipient) = 32 /\ (p.(amount) <= u64_max)%N) a ->
     Forall (fun p => length p.(recipient) = 32 /\ (p.(amount) <= u64_max)%N) b ->
     serialize_pending_mint_payloads a = serialize_pending_mint_payloads b -> a = b).
Proof.
  split.
  - intros a b. apply (concat_fmap_inj _ (le_bytes 4) 4); [lia|intros; apply le_bytes_length|].
    unfold u32_max. intros x y Hx Hy. apply le_bytes_inj; cbn; lia.
  - intros a b. apply (concat_fmap_inj _ _ 40); [lia| |].
    + intros p [Hp _]. by rewrite length_app, Hp, le_bytes_length.
    + unfold u64_max. intros [r1 a1] [r2 a2] [H1 H1'] [H2 H2'] E. cbn [recipient amount] in *.
      apply app_inj_1 in E as [-> E]; [|congruence]. f_equal. eapply le_bytes_inj; [| |exact E]; cbn; lia.
Qed.

(** ** Witnesses *)
Module ClaimsInstance.
Import HexInstance ShaInstance.

#[export] Instance custody : Custody := {|
  custody_config_hash config P := ShaInstance.hash config;
  get_manager_custody_output_script P config ata := take 23 ata;
  get_manager_custody_redeem_script P config ata := ata;
|}.

Definition net_of (amount : N) (fees : FeeRate) : N :=
  (amount - fees.(flat_fee) - amount * fees.(fee_numerator) / fees.(fee_denominator))%N.

Definition encode_mints (l : list (bytes * N)) : bytes := concat ((fun p => p.1 ++ le_bytes 8 p.2) <$> l).

(** The payload of a witness, recomputed without the builder. *)
Definition payload_of (w : ClaimBlockWitness) (fees : FeeRate) : list (bytes * N * N) :=
  w.(deposit_transactions) ≫= fun tw =>
    (fun d => (from_option id [] (w.(deposit_solana_public_keys) !! N.to_nat d.(public_key_index)),
               net_of (from_option value 0%N (outputs tw.(transaction) !! N.to_nat d.(output_index))) fees,
               tw.(transaction_index) * 65536 + d.(output_index))%N) <$> tw.(deposit_outputs).

#[export] Instance claim_helper : ClaimHelper := {|
  Builder := N;
  new_from_siblings P h fees custody keys := Some 0%N;
  verify_and_add_to_transition_builder tw b root := Some (b + 1)%N;
  builder_finalize b height h fees := Some (b, mkClaimTransition (replicate 32 x02) (replicate 32 x03)
    h.(claim_deposits_last_index) (h.(claim_deposits_last_index) + b) 0);
  claimed_txs_root b := replicate 32 x09;
  total_deposit_amount b := 0%N;
  calcuate_fee amount fees := Some ((amount - net_of amount fees)%N, net_of amount fees);
  combined_txo_index i j := Some (i * 65536 + j)%N;
  hash_deposit_leaf h i key amount := ShaInstance.hash (h ++ le_bytes 4 i ++ key ++ le_bytes 8 amount);
  pending_mint_and_txo_hashes_from_claim_witness P w root custody fees :=
    Some (ShaInstance.hash (encode_mints (payload_of w fees).*1),
          ShaInstance.hash (concat ((fun e => le_bytes 4 e.2) <$> payload_of w fees)));
  pending_mints_groups_hash l := Some (ShaInstance.hash (encode_mints l));
  witness_write_to_vec w := Some (header_hash w.(witness_block_header));
  witness_read_from_buffer b := None;
|}.
End ClaimsInstance.

Module ClaimsWitness.
Import HexInstance ShaInstance ClaimsInstance CheckpointWitness.

Definition ata : bytes := replicate 32 x0a.
Definition fees : FeeRate := mkFeeRate 1 1 100.
Definition txs : list BTCTransaction :=
  [(replicate 32 x01, [mkTxOutput 50 (replicate 23 x0b)]);
   (replicate 32 x02, [mkTxOutput 7 []; mkTxOutput 1000 (replicate 23 x0a)])].
Definition block : QDogeBlock :=
  mkQDogeBlock _ (replicate 32 x03, replicate 32 x00,
                from_option id [] (match bitcoin_merkle_root (get_hash <$> txs) with Ok r => r | _ => None end))
    txs.

Lemma scan_finds_custody_deposits_witness :
  exists total found w k,
    scan_manager_custody_deposits LocalRegtestManagerCustody block [] [ata] = Ok (total, found) /\
    w ∈ found /\ w.(transaction_index) = 1%N /\
    fold_path hash_impl_btc_hash256_two_to_one_bytes 1 (replicate 32 x02) w.(merkle_siblings)
    = (0%N, merkle_root block.(header)) /\
    mkDepositItem 1 k ∈ w.(deposit_outputs).
Proof.
  assert (is_ok (scan_manager_custody_deposits LocalRegtestManagerCustody block [] [ata]) = true) as Hok
    by (vm_compute; reflexivity).
  apply is_ok_true in Hok as ([total found] & E).
  destruct (scan_finds_custody_deposits LocalRegtestManagerCustody block [] [ata] total found E)
    as (_ & _ & Hin & Hall).
  destruct (Hall 1 (replicate 32 x02, [mkTxOutput 7 []; mkTxOutput 1000 (replicate 23 x0a)]) 1
    (mkTxOutput 1000 (replicate 23 x0a)) ata) as (w & k & Hw & Ei & Et & Hd);
    [reflexivity|reflexivity|apply list_elem_of_here|reflexivity|].
  destruct (Hin w Hw) as (_ & Hf & _). exists total, found, w, k.
  split; [exact E|]. split; [exact Hw|]. split; [exact Ei|]. split; [|exact Hd].
  rewrite Ei, Et in Hf. exact Hf.
Defined.

Definition generated : outcome IncomingBlockWitness :=
  build_deposit_claim_witness LocalRegtestManagerCustody block checkpoint [] [ata].
Definition evaluated : outcome ClaimEvaluation :=
  w ← generated; evaluate_claim_witness LocalRegtestManagerCustody 3 w.(claim_witness) [] [] fees.

Lemma minted_deposits_witness :
  exists w ev positions,
    generated = Ok w /\
    evaluate_claim_witness LocalRegtestManagerCustody 3 w.(claim_witness) [] [] fees = Ok ev /\
    NoDup positions /\ length ev.(eval_pending_mints) = length positions /\ (1, 1) ∈ positions.
Proof.
  assert (is_ok evaluated = true) as Hok by (vm_compute; reflexivity).
  apply is_ok_true in Hok as (ev & Ev). unfold evaluated in Ev. apply bind_Ok in Ev as (w & Eg & Ev).
  destruct (minted_deposits_are_custody_outputs LocalRegtestManagerCustody block checkpoint [] []
    [ata] fees 3 w ev Eg Ev) as (positions & Hnd & Hl & _ & _ & _ & _ & Hall).
  exists w, ev, positions. split; [exact Eg|]. split; [exact Ev|]. split; [exact Hnd|]. split; [exact Hl|].
  apply (Hall 1 (replicate 32 x02, [mkTxOutput 7 []; mkTxOutput 1000 (replicate 23 x0a)]) 1
    (mkTxOutput 1000 (replicate 23 x0a)) ata); [reflexivity|reflexivity|apply list_elem_of_here|reflexivity].
Defined.

Definition recorded : BlockBufferCommitment := {|
  pending_mints_hash_hex := hex_encode (ShaInstance.hash (encode_mints [(ata, 989%N)]));
  txo_output_list_hash_hex := hex_encode (ShaInstance.hash (serialize_txo_indices [65537%N]));
  pending_mints := [mkPendingMintPayload ata 989]; txo_indices := [65537%N]; deposit_count := 1;
  minted_amount_sats := 989; auto_claim_start_index := 0; auto_claim_end_index := 1; fees_collected := 11;
|}.

Lemma resolve_finalized_buffers_witness :
  exists b, b.(pending_mints) = recorded.(pending_mints) /\
    forall mints, validate_buffer_payload b mints = validate_buffer_payload recorded mints.
Proof.
  assert (is_ok (resolve_finalized_buffers LocalRegtestManagerCustody (Some block) (Some recorded)
    [] [ata] fees) = true) as Hok by (vm_compute; reflexivity).
  apply is_ok_true in Hok as ([b text] & E).
  destruct (resolve_finalized_buffers_spec LocalRegtestManagerCustody (Some block) (Some recorded)
    [] [ata] fees b text) as (_ & _ & _ & _ & _ & _ & _ & _ & _ & _ & _ & Hp & _ & Hv).
  - intros payloads h [= <-]. apply le_bytes_length.
  - exact E.
  - exists b. split; [exact Hp|exact Hv].
Defined.

Lemma build_deposit_claim_witness_returns_witness :
  exists w, generated = Ok w /\
    length w.(claim_witness).(claim_header).(txo_tree_block_siblings) = 4 /\
    length w.(claim_witness).(claim_header).(last_auto_claimed_deposits_siblings) = 3.
Proof.
  assert (is_ok generated = true) as Hok by (vm_compute; reflexivity).
  apply is_ok_true in Hok as (w & E). exists w. split; [exact E|].
  destruct (build_deposit_claim_witness_returns LocalRegtestManagerCustody block checkpoint [] [ata])
    as [_ Hw]. exact (Hw w E).
Defined.

Lemma serialized_payload_injective_witness :
  (forall l, Forall (fun i => i <= u32_max)%N l ->
     serialize_txo_indices l = serialize_txo_indices [7; 65537]%N -> l = [7; 65537]%N) /\
  serialize_txo_indices [7; 65537]%N = map byte_of_N [7; 0; 0; 0; 1; 0; 1; 0]%N.
Proof.
  split; [|reflexivity]. intros l Hl E.
  apply serialized_payload_injective; [exact Hl| |exact E].
  repeat constructor; discriminate.
Defined.
End ClaimsWitness.
