(* ===== verification/ProofJob.v ===== *)
(** * Proof jobs

    The content-addressed identity of a proof job, its validation, the results
    of the prover and the checks that tie a result to a job. *)
From S2P Require Import Prelude External Instances.

Definition PROOF_SCHEMA_VERSION : N := 2.
Definition DEFAULT_QUEUE_PREFIX : string := "PDOGE-SP1-PROOF-V2".

Record ProofRequest := mkProofRequest {
  request_id : string;
  req_old_state : string;
  req_witness : string;
  finalized_witness : string;
  req_custody_script_config : string;
  req_required_confirmations : N;
  req_flat_fee : N;
  fee_num : N;
  fee_den : N;
  req_old_header : string;
  req_new_header : string;
  req_config_params : string;
}.
#[export] Instance proof_request_eq_dec : EqDecision ProofRequest.
Proof. solve_decision. Defined.

Record ProofJob := mkProofJob {
  schema_version : N;
  job_id : string;
  job_network : string;
  job_height : N;
  parent_checkpoint_sha256 : string;
  input_fingerprint : string;
  job_guest_id : string;
  job_block_elf_sha256 : string;
  job_vkey_hash : string;
  request : ProofRequest;
}.
#[export] Instance proof_job_eq_dec : EqDecision ProofJob.
Proof. solve_decision. Defined.

(** [serde_json::Value] is kept abstract: the response a daemon printed. *)
Inductive ProofOutcome (Value : Type) :=
| OutcomeSuccess (response : Value) (stderr : string)
| OutcomeError (error : string).
Arguments OutcomeSuccess {_} _ _.
Arguments OutcomeError {_} _.

Record ProofResult (Value : Type) := mkProofResult {
  res_schema_version : N;
  res_job_id : string;
  res_network : string;
  res_height : N;
  res_parent_checkpoint_sha256 : string;
  res_input_fingerprint : string;
  res_guest_id : string;
  res_block_elf_sha256 : string;
  res_vkey_hash : string;
  res_outcome : ProofOutcome Value;
}.
Arguments mkProofResult {_} _ _ _ _ _ _ _ _ _ _.
Arguments res_schema_version {_} _.
Arguments res_job_id {_} _.
Arguments res_network {_} _.
Arguments res_height {_} _.
Arguments res_parent_checkpoint_sha256 {_} _.
Arguments res_input_fingerprint {_} _.
Arguments res_guest_id {_} _.
Arguments res_block_elf_sha256 {_} _.
Arguments res_vkey_hash {_} _.
Arguments res_outcome {_} _.

Record ProverProofResponse := mkProverProofResponse {
  kind : string;
  resp_request_id : option string;
  ok : bool;
  resp_network : option string;
  resp_guest_id : option string;
  resp_block_elf_sha256 : option string;
  resp_vkey_hash : option string;
  proof_size : option nat;
  proof_bytes : option string;
  public_values_size : option nat;
  public_values : option string;
  resp_error : option string;
}.

Record ProverOutput := mkProverOutput {
  stdout : bytes;
  stderr : bytes;
  vk_hash : bytes;
  out_proof : bytes;
  out_public_values : bytes;
}.

(** [serde_json::to_vec(&value)], [from_value], [from_slice]. *)
Class DaemonJson := {
  Value : Type;
  value_to_vec : Value -> option bytes;
  value_from_slice : bytes -> option Value;
  response_from_value : Value -> option ProverProofResponse;
}.

Section job.
Context `{!Hex, !Sha, !Json ProofRequest}.

Definition sha256_hex (b : bytes) : string := hex_encode (hash_impl_sha256_bytes b).

Definition canonical_request_bytes (r : ProofRequest) : outcome bytes := string_bytes <$> json_string r.

Definition append_len_prefixed (output b : bytes) : outcome bytes :=
  len ← ok_or (u32_try_from (length b)) (External "u32::try_from");
  mret (output ++ be_bytes 4 len ++ b).

Definition decode_hex_32 (value : string) : outcome bytes :=
  b ← hex_decode_ok value;
  bail_when (negb (length b =? 32)%nat) "{name} must be 32 bytes, got {}" ;;
  mret b.

Definition validate_hex_32 (value : string) : outcome () :=
  decode_hex_32 value ;;
  bail_when (negb (String.length value =? 64)%nat || negb (no_uppercase value))
    "{name} must use 64 lowercase hexadecimal characters".

(** The bytes whose hash is the job's identity. *)
Definition identity_bytes (self : ProofJob) : outcome bytes :=
  request_bytes ← canonical_request_bytes self.(request);
  let identity := be_bytes 4 self.(schema_version) in
  identity ← append_len_prefixed identity (string_bytes self.(job_network));
  let identity := identity ++ be_bytes 4 self.(job_height) in
  parent ← decode_hex_32 self.(parent_checkpoint_sha256);
  let identity := identity ++ parent in
  fingerprint ← decode_hex_32 self.(input_fingerprint);
  let identity := identity ++ fingerprint in
  identity ← append_len_prefixed identity (string_bytes self.(job_guest_id));
  elf ← decode_hex_32 self.(job_block_elf_sha256);
  let identity := identity ++ elf in
  vkey ← decode_hex_32 self.(job_vkey_hash);
  let identity := identity ++ vkey in
  append_len_prefixed identity request_bytes.

Definition compute_job_id (self : ProofJob) : outcome string := sha256_hex <$> identity_bytes self.

Definition validate (self : ProofJob) : outcome () :=
  bail_when (negb (self.(schema_version) =? PROOF_SCHEMA_VERSION)%N)
    "proof job schema version {} is unsupported" ;;
  validate_hex_32 self.(parent_checkpoint_sha256) ;;
  validate_hex_32 self.(input_fingerprint) ;;
  validate_hex_32 self.(job_block_elf_sha256) ;;
  validate_hex_32 self.(job_vkey_hash) ;;
  request_bytes ← canonical_request_bytes self.(request);
  let actual_fingerprint := sha256_hex request_bytes in
  bail_when (negb (String.eqb self.(input_fingerprint) actual_fingerprint))
    "proof job input fingerprint mismatch: expected {}, got {}" ;;
  actual_job_id ← compute_job_id self;
  bail_when (negb (String.eqb self.(job_id) actual_job_id))
    "proof job id mismatch: expected {actual_job_id}, got {}".

Definition new_job (network : string) (height : N) (parent guest_id elf vkey : string)
    (request : ProofRequest) : outcome ProofJob :=
  request_bytes ← canonical_request_bytes request;
  let input_fingerprint := sha256_hex request_bytes in
  let job := mkProofJob PROOF_SCHEMA_VERSION EmptyString network height parent input_fingerprint
               guest_id elf vkey request in
  id ← compute_job_id job;
  let job := mkProofJob PROOF_SCHEMA_VERSION id network height parent input_fingerprint
               guest_id elf vkey request in
  validate job ;;
  mret job.

Definition identity_matches {V} (self : ProofJob) (result : ProofResult V) : bool :=
  (self.(schema_version) =? result.(res_schema_version))%N
  && String.eqb self.(job_id) result.(res_job_id)
  && String.eqb self.(job_network) result.(res_network)
  && (self.(job_height) =? result.(res_height))%N
  && String.eqb self.(parent_checkpoint_sha256) result.(res_parent_checkpoint_sha256)
  && String.eqb self.(input_fingerprint) result.(res_input_fingerprint)
  && String.eqb self.(job_guest_id) result.(res_guest_id)
  && String.eqb self.(job_block_elf_sha256) result.(res_block_elf_sha256)
  && String.eqb self.(job_vkey_hash) result.(res_vkey_hash).

Definition from_job {V} (job : ProofJob) (outcome : ProofOutcome V) : ProofResult V := {|
  res_schema_version := job.(schema_version);
  res_job_id := job.(job_id);
  res_network := job.(job_network);
  res_height := job.(job_height);
  res_parent_checkpoint_sha256 := job.(parent_checkpoint_sha256);
  res_input_fingerprint := job.(input_fingerprint);
  res_guest_id := job.(job_guest_id);
  res_block_elf_sha256 := job.(job_block_elf_sha256);
  res_vkey_hash := job.(job_vkey_hash);
  res_outcome := outcome;
|}.

Definition success {V} (job : ProofJob) (response : V) (stderr : bytes) : ProofResult V :=
  from_job job (OutcomeSuccess response (hex_encode stderr)).
Definition error_result {V} (job : ProofJob) (error : string) : ProofResult V :=
  from_job job (OutcomeError error).

Definition validate_for {V} (self : ProofResult V) (job : ProofJob) : outcome () :=
  validate job ;;
  bail_when (negb (identity_matches job self)) "proof result identity mismatch for expected job {}".

(** The loop over (name, actual, expected). *)
Definition validate_daemon_response (job : ProofJob) (response : ProverProofResponse) : outcome () :=
  bail_when (negb (String.eqb response.(kind) "proof")) "proof response kind was '{}', expected 'proof'" ;;
  bail_when (bool_decide (response.(resp_request_id) <> Some job.(request).(request_id)))
    "proof response request_id did not match queued request" ;;
  bail_when (negb response.(ok)) "successful proof result wrapped a daemon error: {}" ;;
  foldr (fun '(actual, expected) rest =>
      bail_when (bool_decide (actual <> Some expected))
        "proof response {name} mismatch: expected {expected}, got {:?}" ;; rest)
    (mret ())
    [(response.(resp_network), job.(job_network));
     (response.(resp_guest_id), job.(job_guest_id));
     (response.(resp_block_elf_sha256), job.(job_block_elf_sha256));
     (response.(resp_vkey_hash), job.(job_vkey_hash))].

Definition decode_required_response_bytes (value : option string) : outcome bytes :=
  value ← ok_or value (Anyhow "proof response is missing {name}");
  hex_decode_ok value.

Definition into_prover_output `{!DaemonJson} (self : ProofResult Value) (job : ProofJob)
  : outcome ProverOutput :=
  validate_for self job ;;
  '(response, stderr) ←
    match self.(res_outcome) with
    | OutcomeError error => Err (ProverRequestErr "proof job {} failed: {error}")
    | OutcomeSuccess response stderr =>
        stderr ← hex_decode_ok stderr;
        mret (response, stderr)
    end;
  response_bytes ← ok_or (value_to_vec response) (External "serde_json");
  response ← ok_or (response_from_value response) (External "serde_json");
  validate_daemon_response job response ;;
  proof ← decode_required_response_bytes response.(proof_bytes);
  values ← decode_required_response_bytes response.(public_values);
  bail_when (bool_decide (response.(proof_size) <> Some (length proof)))
    "proof result proof_size {:?} did not match {} returned bytes" ;;
  bail_when (bool_decide (response.(public_values_size) <> Some (length values)))
    "proof result public_values_size {:?} did not match {} returned bytes" ;;
  vk ← decode_hex_32 job.(job_vkey_hash);
  mret {| stdout := response_bytes; stderr := stderr; vk_hash := vk;
          out_proof := proof; out_public_values := values |}.
End job.

(** ** The identity binds every field *)
Section identity.
Context `{!Hex, !HexLaws, !Sha, !Json ProofRequest, !JsonLaws ProofRequest}.

Definition collision : Prop :=
  exists a b : bytes, a <> b /\ hash_impl_sha256_bytes a = hash_impl_sha256_bytes b.

Lemma sha256_hex_inj a b : sha256_hex a = sha256_hex b -> a = b \/ collision.
Proof.
  intros E. apply hex_encode_inj in E. destruct (decide (a = b)); [by left|]. right. by exists a, b.
Qed.

Lemma decode_hex_32_Ok s b : decode_hex_32 s = Ok b <-> hex_decode s = Some b /\ length b = 32.
Proof.
  unfold decode_hex_32, hex_decode_ok. split.
  - intros E. inv_ok. bool_hyps. done.
  - intros [-> Hl]. simpl. by rewrite Hl.
Qed.

(** Canonical hexadecimal text is determined by its bytes. *)
Lemma validate_hex_32_Ok s u :
  validate_hex_32 s = Ok u ->
  exists b, decode_hex_32 s = Ok b /\ length b = 32 /\ s = hex_encode b.
Proof.
  unfold validate_hex_32. intros E. inv_ok. bool_hyps. eexists. split; [done|].
  match goal with E : decode_hex_32 s = Ok _ |- _ => apply decode_hex_32_Ok in E as [? ?] end.
  split; [done|]. symmetry. by apply hex_encode_decode.
Qed.

Definition canonical_hex (s : string) : Prop :=
  exists b, decode_hex_32 s = Ok b /\ length b = 32 /\ s = hex_encode b.

Lemma canonical_hex_inj s1 s2 :
  canonical_hex s1 -> canonical_hex s2 -> hex_decode s1 = hex_decode s2 -> s1 = s2.
Proof.
  intros (b1 & _ & _ & ->) (b2 & _ & _ & ->). rewrite !hex_decode_encode. congruence.
Qed.

(** What [identity_bytes] builds: prefixed texts between fixed-width fields. *)
Definition prefixed (b : bytes) : bytes := be_bytes 4 (N.of_nat (length b)) ++ b.

Lemma append_len_prefixed_Ok out b r :
  append_len_prefixed out b = Ok r -> r = out ++ prefixed b /\ (N.of_nat (length b) <= u32_max)%N.
Proof.
  unfold append_len_prefixed, u32_try_from. intros E. inv_ok. case_match; simplify_eq.
  bool_hyps. done.
Qed.

Lemma identity_bytes_Ok j b :
  identity_bytes j = Ok b ->
  exists parent fp elf vkey req,
    json_string j.(request) = Ok req /\
    hex_decode j.(parent_checkpoint_sha256) = Some parent /\ length parent = 32 /\
    hex_decode j.(input_fingerprint) = Some fp /\ length fp = 32 /\
    hex_decode j.(job_block_elf_sha256) = Some elf /\ length elf = 32 /\
    hex_decode j.(job_vkey_hash) = Some vkey /\ length vkey = 32 /\
    (N.of_nat (length (string_bytes j.(job_network))) <= u32_max)%N /\
    (N.of_nat (length (string_bytes j.(job_guest_id))) <= u32_max)%N /\
    (N.of_nat (length (string_bytes req)) <= u32_max)%N /\
    b = be_bytes 4 j.(schema_version) ++ prefixed (string_bytes j.(job_network))
        ++ be_bytes 4 j.(job_height) ++ parent ++ fp ++ prefixed (string_bytes j.(job_guest_id))
        ++ elf ++ vkey ++ prefixed (string_bytes req).
Proof.
  unfold identity_bytes, canonical_request_bytes. intros E. inv_ok.
  repeat match goal with
  | E : append_len_prefixed _ _ = Ok _ |- _ => apply append_len_prefixed_Ok in E as [-> ?]
  | E : decode_hex_32 _ = Ok _ |- _ => apply decode_hex_32_Ok in E as [? ?]
  end.
  eexists _, _, _, _, _. split_and!; try done. by rewrite <- !app_assoc.
Qed.

Lemma prefixed_app_inj a b r r' :
  (N.of_nat (length a) <= u32_max)%N -> (N.of_nat (length b) <= u32_max)%N ->
  prefixed a ++ r = prefixed b ++ r' -> a = b /\ r = r'.
Proof.
  unfold prefixed, u32_max. intros Ha Hb E. rewrite <- !app_assoc in E.
  apply app_inj_1 in E as [E1 E2]; [|by rewrite !be_bytes_length].
  apply be_bytes_inj in E1; [|cbn; lia..]. apply Nat2N.inj in E1.
  by apply app_inj_1 in E2.
Qed.

Lemma identity_bytes_inj j1 j2 b :
  identity_bytes j1 = Ok b -> identity_bytes j2 = Ok b ->
  (j1.(schema_version) <= u32_max)%N -> (j2.(schema_version) <= u32_max)%N ->
  (j1.(job_height) <= u32_max)%N -> (j2.(job_height) <= u32_max)%N ->
  j1.(schema_version) = j2.(schema_version) /\ j1.(job_network) = j2.(job_network) /\
  j1.(job_height) = j2.(job_height) /\
  hex_decode j1.(parent_checkpoint_sha256) = hex_decode j2.(parent_checkpoint_sha256) /\
  hex_decode j1.(input_fingerprint) = hex_decode j2.(input_fingerprint) /\
  j1.(job_guest_id) = j2.(job_guest_id) /\
  hex_decode j1.(job_block_elf_sha256) = hex_decode j2.(job_block_elf_sha256) /\
  hex_decode j1.(job_vkey_hash) = hex_decode j2.(job_vkey_hash) /\
  j1.(request) = j2.(request).
Proof.
  intros E1 E2 Hs1 Hs2 Hh1 Hh2. unfold u32_max in *.
  apply identity_bytes_Ok in E1 as (p1 & f1 & e1 & v1 & r1 & R1 & P1 & LP1 & F1 & LF1 & X1 & LX1 & V1 & LV1 & N1 & G1 & Q1 & ->).
  apply identity_bytes_Ok in E2 as (p2 & f2 & e2 & v2 & r2 & R2 & P2 & LP2 & F2 & LF2 & X2 & LX2 & V2 & LV2 & N2 & G2 & Q2 & E).
  apply app_inj_1 in E as [Es E]; [|by rewrite !be_bytes_length].
  apply be_bytes_inj in Es; [|cbn; lia..].
  apply prefixed_app_inj in E as [En E]; [|done..].
  apply app_inj_1 in E as [Eh E]; [|by rewrite !be_bytes_length].
  apply be_bytes_inj in Eh; [|cbn; lia..].
  apply app_inj_1 in E as [-> E]; [|congruence].
  apply app_inj_1 in E as [-> E]; [|congruence].
  apply prefixed_app_inj in E as [Eg E]; [|done..].
  apply app_inj_1 in E as [-> E]; [|congruence].
  apply app_inj_1 in E as [-> E]; [|congruence].
  assert (string_bytes r1 = string_bytes r2) as Er.
  { apply (prefixed_app_inj _ _ [] []); [done..|]. by rewrite !app_nil_r. }
  apply string_bytes_inj in En, Eg, Er. subst r2.
  unfold json_string in R1, R2. inv_ok. split_and!; try congruence. by eapply to_json_inj.
Qed.

(** The parts of a successful validation. *)
Lemma validate_Ok j u :
  validate j = Ok u ->
  j.(schema_version) = PROOF_SCHEMA_VERSION /\
  (exists b, identity_bytes j = Ok b /\ j.(job_id) = sha256_hex b) /\
  (exists r, json_string j.(request) = Ok r /\ j.(input_fingerprint) = sha256_hex (string_bytes r)) /\
  canonical_hex j.(parent_checkpoint_sha256) /\ canonical_hex j.(input_fingerprint) /\
  canonical_hex j.(job_block_elf_sha256) /\ canonical_hex j.(job_vkey_hash).
Proof.
  unfold validate, compute_job_id, canonical_request_bytes. intros E. inv_ok. bool_hyps.
  repeat match goal with E : validate_hex_32 _ = Ok _ |- _ => apply validate_hex_32_Ok in E end.
  split_and!; [done|eauto|eauto|done..].
Qed.

(** A job that [new_job] returns is valid and has the fields asked for. *)
Lemma new_job_Ok network height parent guest elf vkey req j :
  new_job network height parent guest elf vkey req = Ok j ->
  validate j = Ok () /\ j.(job_network) = network /\ j.(job_height) = height /\
  j.(parent_checkpoint_sha256) = parent /\ j.(job_guest_id) = guest /\
  j.(job_block_elf_sha256) = elf /\ j.(job_vkey_hash) = vkey /\ j.(request) = req.
Proof.
  unfold new_job. intros E. apply bind_Ok in E as (r & _ & E). apply bind_Ok in E as (id & _ & E).
  apply bind_Ok in E as ([] & V & E). apply Ok_inj in E. subst j. done.
Qed.
End identity.

(** C24: A job id determines the job.  Two validated jobs with the same id are
    the same job in every field (schema, network, height, parent checkpoint,
    input fingerprint, guest, ELF, verifying key and request), or two different
    byte strings with the same SHA-256 have been found.  Adding or changing any
    input therefore changes the id under which it is queued. *)
Theorem job_id_binds_job
    `{!Hex, !HexLaws, !Sha, !Json ProofRequest, !JsonLaws ProofRequest} (j1 j2 : ProofJob) u1 u2 :
  validate j1 = Ok u1 -> validate j2 = Ok u2 ->
  (j1.(job_height) <= u32_max)%N -> (j2.(job_height) <= u32_max)%N ->
  j1.(job_id) = j2.(job_id) ->
  j1 = j2 \/ collision.
Proof.
  intros V1 V2 Hh1 Hh2 E.
  apply validate_Ok in V1 as (S1 & (b1 & B1 & I1) & _ & P1 & F1 & X1 & K1).
  apply validate_Ok in V2 as (S2 & (b2 & B2 & I2) & _ & P2 & F2 & X2 & K2).
  rewrite I1, I2 in E. apply sha256_hex_inj in E as [->|]; [|by right]. left.
  assert (PROOF_SCHEMA_VERSION <= u32_max)%N as Hs by (unfold PROOF_SCHEMA_VERSION, u32_max; lia).
  destruct (identity_bytes_inj j1 j2 b2) as (En & Ew & Eh & Ep & Ef & Eg & Ee & Ev & Er);
    [done|done|congruence|congruence|done|done|].
  assert (job_id j1 = job_id j2) as Ej by congruence.
  apply canonical_hex_inj in Ep, Ef, Ee, Ev; [|done..].
  destruct j1, j2. cbn [job_id job_network schema_version job_height parent_checkpoint_sha256
    input_fingerprint job_guest_id job_block_elf_sha256 job_vkey_hash request] in *. by subst.
Qed.

(** C25: A prover output belongs to its job.  When [into_prover_output] accepts
    a result, the job is valid, the result carries the job's whole identity,
    the daemon's response is a successful proof for the job's request, network,
    guest, ELF and verifying key, the returned proof and public values are the
    decoded response fields of exactly the declared sizes, and the verifying
    key hash is the job's. *)
Theorem into_prover_output_sound
    `{!Hex, !HexLaws, !Sha, !Json ProofRequest, !JsonLaws ProofRequest, !DaemonJson}
    (result : ProofResult Value) (job : ProofJob) (out : ProverOutput) :
  into_prover_output result job = Ok out ->
  validate job = Ok () /\
  result = from_job job result.(res_outcome) /\
  hex_encode out.(vk_hash) = job.(job_vkey_hash) /\ length out.(vk_hash) = 32 /\
  exists value text response p v,
    result.(res_outcome) = OutcomeSuccess value text /\
    hex_decode text = Some out.(stderr) /\
    response_from_value value = Some response /\
    response.(kind) = "proof" /\ response.(ok) = true /\
    response.(resp_request_id) = Some job.(request).(request_id) /\
    response.(resp_network) = Some job.(job_network) /\
    response.(resp_guest_id) = Some job.(job_guest_id) /\
    response.(resp_block_elf_sha256) = Some job.(job_block_elf_sha256) /\
    response.(resp_vkey_hash) = Some job.(job_vkey_hash) /\
    response.(proof_bytes) = Some p /\ hex_decode p = Some out.(out_proof) /\
    response.(public_values) = Some v /\ hex_decode v = Some out.(out_public_values) /\
    response.(proof_size) = Some (length out.(out_proof)) /\
    response.(public_values_size) = Some (length out.(out_public_values)).
Proof.
  unfold into_prover_output, validate_for, validate_daemon_response, decode_required_response_bytes,
    hex_decode_ok. intros E. inv_ok. destruct (res_outcome result) as [value text|e] eqn:Ho; [|inv_ok].
  inv_ok. repeat case_match. inv_ok. cbn [foldr] in *. inv_ok. bool_hyps.
  repeat match goal with E : ¬ (_ <> _) |- _ => apply dec_stable in E end.
  match goal with E : validate job = Ok ?u |- _ => destruct u; rename E into Hv end.
  match goal with E : identity_matches _ _ = true |- _ => unfold identity_matches in E end.
  bool_hyps.
  pose proof (validate_Ok _ _ Hv) as (_ & _ & _ & _ & _ & _ & (vk & Hvk & Hl & Ek)).
  match goal with E : decode_hex_32 (job_vkey_hash job) = Ok ?x |- context [vk_hash {| vk_hash := ?x |}] =>
    assert (x = vk) as -> by congruence end.
  split; [done|]. split.
  { destruct result. unfold from_job. cbn [res_outcome res_schema_version res_job_id res_network
      res_height res_parent_checkpoint_sha256 res_input_fingerprint res_guest_id
      res_block_elf_sha256 res_vkey_hash] in *. congruence. }
  cbn [vk_hash stderr out_proof out_public_values]. split; [done|]. split; [done|].
  eexists _, _, _, _, _. split_and!; done.
Qed.

(** ** Witnesses *)
Module ProofJobInstance.
Import HexInstance ShaInstance.

(** A request as JSON: its twelve fields, each followed by a separator. *)
Definition request_text (r : ProofRequest) : string := r.(request_id).

#[export] Instance request_json : Json ProofRequest := {|
  to_json r := if bool_decide (r = mkProofRequest r.(request_id) "" "" "" "" 0 0 0 0 "" "" "")
               then Some r.(request_id) else None;
  from_json s := Some (mkProofRequest s "" "" "" "" 0 0 0 0 "" "" "");
|}.
#[export] Instance request_json_laws : JsonLaws ProofRequest.
Proof. constructor. intros r s. simpl. case_bool_decide as E; [|done]. intros [= <-]. by rewrite <- E. Qed.

#[export] Instance daemon_json : DaemonJson := {|
  Value := ProverProofResponse;
  value_to_vec r := Some (string_bytes r.(kind));
  value_from_slice b := None;
  response_from_value r := Some r;
|}.
End ProofJobInstance.

Module ProofJobWitness.
Import HexInstance ShaInstance ProofJobInstance.

Definition request1 : ProofRequest := mkProofRequest "block-42" "" "" "" "" 0 0 0 0 "" "" "".
Definition hex32 (b : byte) : string := hex_encode (replicate 32 b).

Definition job1 : outcome ProofJob := new_job "testnet" 42 (hex32 x66) "guest" (hex32 x77) (hex32 x88) request1.

Lemma job_id_binds_job_witness :
  exists j, job1 = Ok j /\ (j = j \/ collision).
Proof.
  assert (is_ok job1 = true) as Hok by (vm_compute; reflexivity).
  apply is_ok_true in Hok as (j & E). exists j. split; [exact E|].
  destruct (new_job_Ok _ _ _ _ _ _ _ _ E) as (V & _ & Eh & _).
  assert (j.(job_height) <= u32_max)%N as Hh by (rewrite Eh; discriminate).
  exact (job_id_binds_job j j () () V V Hh Hh eq_refl).
Defined.

Definition response1 : ProverProofResponse :=
  mkProverProofResponse "proof" (Some "block-42") true (Some "testnet") (Some "guest")
    (Some (hex32 x77)) (Some (hex32 x88)) (Some 2) (Some "0102") (Some 1) (Some "ff") None.

Definition output1 : outcome (ProofJob * ProverOutput) :=
  j ← job1; out ← into_prover_output (success j response1 []) j; mret (j, out).

Lemma into_prover_output_witness :
  exists j out, output1 = Ok (j, out) /\ validate j = Ok () /\ length out.(vk_hash) = 32.
Proof.
  assert (is_ok output1 = true) as Hok by (vm_compute; reflexivity).
  apply is_ok_true in Hok as ([j out] & E). exists j, out. split; [exact E|].
  unfold output1 in E. apply bind_Ok in E as (j' & _ & E). apply bind_Ok in E as (out' & Ho & E).
  apply Ok_inj, pair_eq in E as [<- <-].
  destruct (into_prover_output_sound _ _ _ Ho) as (V & _ & _ & Hl & _). split; [exact V|exact Hl].
Defined.
End ProofJobWitness.
