(* ===== verification/ProofQueue.v ===== *)
(** * The proof queue

    The lease state machine of a queued job, the Redis keys and the atomic
    submission script, the loop that waits for a durable result, and the local
    backend's job runner. *)
From S2P Require Import Prelude External Instances Effects ProofJob.

(** ** The lease state machine *)
Inductive ProofJobState :=
| Queued
| Claimed (worker_id lease_id : string) (lease_expires_ms attempt : N)
| Completed (completed_ms attempt : N)
| Failed (failed_ms attempt : N) (error : string).
#[export] Instance proof_job_state_eq_dec : EqDecision ProofJobState.
Proof. solve_decision. Defined.

Inductive LeaseCasError := NotQueued | NotClaimed | FenceMismatch | Expired.

Definition claim_state (state : ProofJobState) (worker_id lease_id : string)
    (lease_expires_ms attempt : N) : ProofJobState + LeaseCasError :=
  match state with
  | Queued => inl (Claimed worker_id lease_id lease_expires_ms attempt)
  | _ => inr NotQueued
  end.

Definition heartbeat_state (state : ProofJobState) (worker_id lease_id : string)
    (lease_expires_ms now_ms : N) : ProofJobState + LeaseCasError :=
  match state with
  | Claimed claimed_worker claimed_lease current_expiry attempt =>
      if String.eqb claimed_worker worker_id && String.eqb claimed_lease lease_id then
        if (current_expiry <=? now_ms)%N then inr Expired
        else inl (Claimed claimed_worker claimed_lease lease_expires_ms attempt)
      else inr FenceMismatch
  | _ => inr NotClaimed
  end.

Definition complete_state (state : ProofJobState) (worker_id lease_id : string)
    (completed_ms : N) : ProofJobState + LeaseCasError :=
  match state with
  | Claimed claimed_worker claimed_lease lease_expires_ms attempt =>
      if String.eqb claimed_worker worker_id && String.eqb claimed_lease lease_id then
        if (lease_expires_ms <=? completed_ms)%N then inr Expired
        else inl (Completed completed_ms attempt)
      else inr FenceMismatch
  | _ => inr NotClaimed
  end.

(** [None] is the [unreachable!] branch. *)
Definition fail_state (state : ProofJobState) (worker_id lease_id : string) (failed_ms : N)
    (error : string) : option (ProofJobState + LeaseCasError) :=
  match complete_state state worker_id lease_id failed_ms with
  | inr e => Some (inr e)
  | inl (Completed _ attempt) => Some (inl (Failed failed_ms attempt error))
  | inl _ => None
  end.

(** The operations of any number of workers, in the order the store runs them. *)
Inductive LeaseOp :=
| OpClaim (worker lease : string) (expires attempt : N)
| OpHeartbeat (worker lease : string) (expires now : N)
| OpComplete (worker lease : string) (now : N)
| OpFail (worker lease : string) (now : N) (error : string).

Definition apply_op (op : LeaseOp) (state : ProofJobState) : option ProofJobState :=
  match op with
  | OpClaim w l e a => match claim_state state w l e a with inl s => Some s | inr _ => None end
  | OpHeartbeat w l e t => match heartbeat_state state w l e t with inl s => Some s | inr _ => None end
  | OpComplete w l t => match complete_state state w l t with inl s => Some s | inr _ => None end
  | OpFail w l t e => match fail_state state w l t e with Some (inl s) => Some s | _ => None end
  end.

(** The operations accepted, and the state they leave; a rejected operation
    leaves the state as it is. *)
Fixpoint run_ops (ops : list LeaseOp) (state : ProofJobState) : list LeaseOp * ProofJobState :=
  match ops with
  | [] => ([], state)
  | op :: ops =>
      match apply_op op state with
      | Some state' => let '(accepted, final) := run_ops ops state' in (op :: accepted, final)
      | None => run_ops ops state
      end
  end.

(** What a holder may do: renew before expiry, then complete or fail once
    before expiry. *)
Inductive lease_run (w l : string) (a : N) : N -> list LeaseOp -> ProofJobState -> Prop :=
| lease_open e : lease_run w l a e [] (Claimed w l e a)
| lease_renewed e e' t ops s :
    (t < e)%N -> lease_run w l a e' ops s -> lease_run w l a e (OpHeartbeat w l e' t :: ops) s
| lease_completed e t : (t < e)%N -> lease_run w l a e [OpComplete w l t] (Completed t a)
| lease_failed e t m : (t < e)%N -> lease_run w l a e [OpFail w l t m] (Failed t a m).

Lemma terminal_absorbing ops s :
  match s with Completed _ _ | Failed _ _ _ => True | _ => False end -> run_ops ops s = ([], s).
Proof.
  intros Hs. induction ops as [|op ops IH]; [done|]. cbn [run_ops].
  destruct s; try done; destruct op; exact IH.
Qed.

Lemma run_ops_claimed ops w l e a :
  lease_run w l a e (run_ops ops (Claimed w l e a)).1 (run_ops ops (Claimed w l e a)).2.
Proof.
  revert e. induction ops as [|op ops IH]; intros e; [constructor|]. cbn [run_ops].
  destruct op as [w' l' e' a'|w' l' e' t|w' l' t|w' l' t m]; cbn [apply_op claim_state];
    unfold fail_state, heartbeat_state, complete_state; [apply IH|..];
    destruct (String.eqb w w' && String.eqb l l') eqn:Ew; try apply IH;
    bool_hyps; subst; destruct (e <=? t)%N eqn:Et; try apply IH; bool_hyps.
  - specialize (IH e'). destruct (run_ops ops (Claimed w' l' e' a)). by constructor.
  - rewrite terminal_absorbing by done. by constructor.
  - rewrite terminal_absorbing by done. by constructor.
Qed.

(** C26: The lease protocol is exclusive.  Whatever operations any number of
    workers attempt on a freshly queued job, either none is accepted and the job
    is still queued, or the accepted ones are one claim followed by operations
    of that claim's worker and lease only: renewals made before the current
    expiry, then at most one completion or failure, also before the current
    expiry, which fixes the final state and the claimed attempt for good. *)
Theorem lease_exclusive (ops : list LeaseOp) :
  let '(accepted, final) := run_ops ops Queued in
  (accepted = [] /\ final = Queued) \/
  exists w l e a rest, accepted = OpClaim w l e a :: rest /\ lease_run w l a e rest final.
Proof.
  induction ops as [|op ops IH]; [by left|]. cbn [run_ops].
  destruct op as [w l e a|w l e t|w l t|w l t m]; cbn [apply_op claim_state]; try exact IH.
  pose proof (run_ops_claimed ops w l e a) as Hr.
  destruct (run_ops ops (Claimed w l e a)) as [accepted final]. right. by eexists _, _, _, _, _.
Qed.

(** ** Keys *)
Record QueueKeys := mkQueueKeys {
  namespace : string;
  queue : string;
  notify : string;
  leases : string;
}.

Module QueueKeysOps.
Definition new (namespace : string) : QueueKeys :=
  mkQueueKeys namespace (namespace +:+ ":queue") (namespace +:+ ":notify") (namespace +:+ ":leases").
Definition job (self : QueueKeys) (job_id : string) : string := self.(namespace) +:+ ":job:" +:+ job_id.
Definition state (self : QueueKeys) (job_id : string) : string := self.(namespace) +:+ ":state:" +:+ job_id.
Definition result (self : QueueKeys) (job_id : string) : string := self.(namespace) +:+ ":result:" +:+ job_id.
Definition attempt (self : QueueKeys) (job_id : string) : string := self.(namespace) +:+ ":attempt:" +:+ job_id.
End QueueKeysOps.

Lemma keys_distinct ns id id' :
  let k := QueueKeysOps.new ns in
  QueueKeysOps.job k id <> QueueKeysOps.state k id' /\
  QueueKeysOps.job k id <> QueueKeysOps.attempt k id' /\
  QueueKeysOps.state k id <> QueueKeysOps.attempt k id' /\
  QueueKeysOps.result k id <> QueueKeysOps.job k id' /\
  QueueKeysOps.result k id <> QueueKeysOps.state k id' /\
  QueueKeysOps.result k id <> QueueKeysOps.attempt k id' /\
  queue k <> QueueKeysOps.job k id /\ queue k <> QueueKeysOps.state k id /\
  queue k <> QueueKeysOps.result k id /\ queue k <> QueueKeysOps.attempt k id.
Proof.
  cbn. unfold QueueKeysOps.job, QueueKeysOps.state, QueueKeysOps.attempt, QueueKeysOps.result. cbn [namespace].
  split_and!; intros E; apply (inj (String.app ns)) in E; discriminate.
Qed.

Lemma keys_inj ns id id' :
  let k := QueueKeysOps.new ns in
  (QueueKeysOps.job k id = QueueKeysOps.job k id' -> id = id') /\
  (QueueKeysOps.state k id = QueueKeysOps.state k id' -> id = id') /\
  (QueueKeysOps.result k id = QueueKeysOps.result k id' -> id = id') /\
  (QueueKeysOps.attempt k id = QueueKeysOps.attempt k id' -> id = id').
Proof.
  cbn. unfold QueueKeysOps.job, QueueKeysOps.state, QueueKeysOps.attempt, QueueKeysOps.result. cbn [namespace].
  split_and!; intros E; apply (inj (String.app ns)) in E; by injection E.
Qed.

(** ** Submission

    The commands the script uses, on an abstract Redis database: string values
    under [GET]/[SET], lists under [RPUSH]. *)
Class RedisDb (D : Type) := {
  db_get : D -> string -> option string;
  db_list : D -> string -> list string;
  db_set : string -> string -> D -> D;
  db_rpush : string -> string -> D -> D;
}.
Class RedisDbLaws (D : Type) `{!RedisDb D} := {
  get_set k v d k' : db_get (db_set k v d) k' = if bool_decide (k = k') then Some v else db_get d k';
  list_set k v d k' : k <> k' -> db_list (db_set k v d) k' = db_list d k';
  get_rpush k v d k' : k <> k' -> db_get (db_rpush k v d) k' = db_get d k';
  list_rpush k v d k' :
    db_list (db_rpush k v d) k' = if bool_decide (k = k') then db_list d k ++ [v] else db_list d k';
}.

Lemma get_set_eq {D} `{RedisDbLaws D} k v d : db_get (db_set k v d) k = Some v.
Proof. by rewrite get_set, bool_decide_true. Qed.
Lemma get_set_ne {D} `{RedisDbLaws D} k v d k' : k <> k' -> db_get (db_set k v d) k' = db_get d k'.
Proof. intros. by rewrite get_set, bool_decide_false. Qed.
Ltac db_simpl :=
  repeat first [rewrite get_set_eq | rewrite get_set_ne by congruence
               | rewrite get_rpush by congruence | rewrite list_set by congruence].

Definition quote : string := String (Ascii.ascii_of_N 34) EmptyString.
Definition QUEUED_JSON : string :=
  "{" +:+ quote +:+ "status" +:+ quote +:+ ":" +:+ quote +:+ "Queued" +:+ quote +:+ "}".

(** [SUBMIT_JOB_SCRIPT], with its four keys and two arguments; [inr] is the
    error reply. *)
Definition SUBMIT_JOB_SCRIPT {D} `{!RedisDb D} (key1 key2 key3 key4 argv1 argv2 : string) (d : D)
  : D * (Z + string) :=
  match db_get d key1 with
  | Some existing =>
      if negb (String.eqb existing argv1) then (d, inr "JOB_ID_COLLISION") else (d, inl 0%Z)
  | None =>
      let d := db_set key1 argv1 d in
      let d := db_set key2 QUEUED_JSON d in
      let d := db_set key3 "0" d in
      let d := db_rpush key4 argv2 d in
      (d, inl 1%Z)
  end.

(** [RedisProofBackend::submit]: the database effect of the [EVAL]. *)
Definition redis_submit {D} `{!RedisDb D, !Json ProofJob} (keys : QueueKeys) (job : ProofJob) (d : D)
  : D * outcome ProofJob :=
  match json_string job with
  | Ok job_json =>
      match SUBMIT_JOB_SCRIPT (QueueKeysOps.job keys job.(job_id)) (QueueKeysOps.state keys job.(job_id))
              (QueueKeysOps.attempt keys job.(job_id)) keys.(queue) job_json job.(job_id) d with
      | (d, inl _) => (d, Ok job)
      | (d, inr _) => (d, Err (Anyhow "failed to durably enqueue proof job"))
      end
  | Err e => (d, Err e)
  | Panic s => (d, Panic s)
  | OutOfFuel => (d, OutOfFuel)
  end.

(** C27: Submission is durable and idempotent.  Submitting a job whose key is
    free stores its JSON, the state [Queued] and the attempt counter 0, and
    appends its id to the queue once; nothing stored for another job changes.
    Submitting it again, whatever other keys the workers have written in
    between, succeeds and changes nothing, so a restarted submitter neither
    requeues the job nor resets its progress; a different job under the same id
    is refused without effect. *)
Theorem submit_idempotent {D} `{!RedisDb D, !RedisDbLaws D, !Json ProofJob, !JsonLaws ProofJob}
    (ns : string) (job : ProofJob) (json : string) (d : D) :
  to_json job = Some json ->
  let k := QueueKeysOps.new ns in
  let id := job.(job_id) in
  let d' := (redis_submit k job d).1 in
  (db_get d (QueueKeysOps.job k id) = None ->
     (redis_submit k job d).2 = Ok job /\
     db_get d' (QueueKeysOps.job k id) = Some json /\
     db_get d' (QueueKeysOps.state k id) = Some QUEUED_JSON /\
     db_get d' (QueueKeysOps.attempt k id) = Some "0" /\
     db_list d' k.(queue) = db_list d k.(queue) ++ [id] /\
     (forall id', id' <> id ->
        db_get d' (QueueKeysOps.job k id') = db_get d (QueueKeysOps.job k id') /\
        db_get d' (QueueKeysOps.state k id') = db_get d (QueueKeysOps.state k id') /\
        db_get d' (QueueKeysOps.result k id') = db_get d (QueueKeysOps.result k id') /\
        db_get d' (QueueKeysOps.attempt k id') = db_get d (QueueKeysOps.attempt k id'))) /\
  (db_get d (QueueKeysOps.job k id) = Some json -> redis_submit k job d = (d, Ok job)) /\
  (forall other other_json, to_json other = Some other_json -> other <> job ->
     db_get d (QueueKeysOps.job k id) = Some other_json ->
     d' = d /\ is_ok (redis_submit k job d).2 = false).
Proof.
  intros Hj k id d'. unfold d', redis_submit, json_string, SUBMIT_JOB_SCRIPT.
  rewrite Hj. cbn [ok_or]. fold id.
  pose proof (keys_distinct ns) as KD. pose proof (keys_inj ns) as KI. cbv zeta in KD, KI.
  fold k in KD, KI. clearbody k.
  destruct (KD id id) as (N1 & N2 & N3 & _ & _ & _ & Q1 & Q2 & _ & Q4).
  split_and!.
  - intros Hnone. rewrite Hnone. cbn [fst snd].
    rewrite list_rpush, bool_decide_true by done. db_simpl.
    split_and!; try done. intros id' Hne.
    destruct (KD id id') as (A1 & A2 & A3 & _ & _ & _ & B1 & B2 & B3 & B4).
    destruct (KD id' id) as (C1 & C2 & C3 & R1 & R2 & R3 & _ & _ & _ & _).
    destruct (KD id' id') as (_ & _ & _ & _ & _ & _ & D1 & D2 & D3 & D4).
    destruct (KI id id') as (I1 & I2 & _ & I4).
    assert (QueueKeysOps.job k id <> QueueKeysOps.job k id') by (intros E; by apply Hne; rewrite I1).
    assert (QueueKeysOps.state k id <> QueueKeysOps.state k id') by (intros E; by apply Hne; rewrite I2).
    assert (QueueKeysOps.attempt k id <> QueueKeysOps.attempt k id') by (intros E; by apply Hne; rewrite I4).
    db_simpl. done.
  - intros ->. by rewrite String.eqb_refl.
  - intros other oj Ho Hne ->. assert (oj <> json) by (intros ->; apply Hne; by eapply to_json_inj).
    rewrite (proj2 (String.eqb_neq _ _)) by done. done.
Qed.

(** ** Waiting for a durable result *)

(** How the blocking pop of the wake list ends within its timeout. *)
Inductive Notification := Elapsed | Popped (key id : string) | PopFailed (is_timeout : bool).

(** The commands of the waiting submitter.  The workers run concurrently: each
    command may find, and leave, a different world. *)
Class QueueClient (W : Type) := {
  redis_get : string -> prog W (option string);
  redis_brpop : string -> N -> prog W Notification;
  pause : N -> prog W ();
}.

Section backend.
Context {W : Type} `{!QueueClient W, !Hex, !Sha, !Json ProofRequest, !DaemonJson}.
Context `{!Json (ProofResult Value), !Json ProofJobState}.

(** The wake hint: a failed pop other than a timeout is followed by a pause. *)
Definition wake (keys : QueueKeys) (wait_interval : N) : prog W () :=
  notification ← redis_brpop keys.(notify) wait_interval;
  match notification with
  | PopFailed is_timeout => if is_timeout then mret () else pause wait_interval
  | _ => mret ()
  end.

Fixpoint wait_result (fuel : nat) (keys : QueueKeys) (wait_interval : N) (job : ProofJob)
  : prog W (ProofResult Value) :=
  match fuel with
  | O => lift OutOfFuel
  | S fuel =>
      result_json ← redis_get (QueueKeysOps.result keys job.(job_id));
      match result_json with
      | Some result_json =>
          result ← lift (json_parse (A := ProofResult Value) result_json);
          lift (validate_for result job) ;;
          mret result
      | None =>
          state_json ← redis_get (QueueKeysOps.state keys job.(job_id));
          state_json ← lift (ok_or state_json (Anyhow "durable proof job {} disappeared"));
          state ← lift (json_parse (A := ProofJobState) state_json);
          match state with
          | Failed _ _ _ => lift (Err (Anyhow "proof job {} failed permanently: {error}"))
          | Completed _ _ => lift (Err (Anyhow "proof job {} is Completed but its durable result is missing"))
          | Queued | Claimed _ _ _ _ =>
              wake keys wait_interval ;;
              wait_result fuel keys wait_interval job
          end
      end
  end.

(** [ProofBackend::wait] on the Redis backend. *)
Definition wait_redis (fuel : nat) (keys : QueueKeys) (wait_interval : N) (job : ProofJob)
  : prog W ProverOutput :=
  result ← wait_result fuel keys wait_interval job;
  lift (into_prover_output result job).

(** After [n] more rounds the result is there: in each round before, the state
    read is [Queued] or [Claimed]. *)
Inductive ready_after (keys : QueueKeys) (wait_interval : N) (job : ProofJob)
    (r : ProofResult Value) : nat -> W -> Prop :=
| ready_now w json :
    result (redis_get (QueueKeysOps.result keys job.(job_id))) w = Ok (Some json) ->
    from_json json = Some r -> validate_for r job = Ok () -> ready_after keys wait_interval job r 0 w
| ready_later n w w1 w2 w3 json state :
    result (redis_get (QueueKeysOps.result keys job.(job_id))) w = Ok None ->
    w1 = final (redis_get (QueueKeysOps.result keys job.(job_id))) w ->
    result (redis_get (QueueKeysOps.state keys job.(job_id))) w1 = Ok (Some json) ->
    w2 = final (redis_get (QueueKeysOps.state keys job.(job_id))) w1 ->
    from_json json = Some state ->
    match state with Queued | Claimed _ _ _ _ => True | _ => False end ->
    result (wake keys wait_interval) w2 = Ok () ->
    w3 = final (wake keys wait_interval) w2 ->
    ready_after keys wait_interval job r n w3 ->
    ready_after keys wait_interval job r (S n) w.

Lemma wait_result_ready keys wait_interval job n fuel w r :
  ready_after keys wait_interval job r n w -> n < fuel ->
  result (wait_result fuel keys wait_interval job) w = Ok r.
Proof.
  intros Hr. revert fuel. induction Hr as [w json E Ep Ev|
    n w w1 w2 w3 json state E1 -> E2 -> Ep Hs E3 -> Hr IH]; intros fuel Hf;
    (destruct fuel as [|fuel]; [lia|]); cbn [wait_result]; rewrite result_bind.
  - rewrite E, result_bind, result_lift. unfold json_parse. rewrite Ep. cbn [ok_or].
    rewrite result_bind, result_lift, Ev. done.
  - rewrite E1, result_bind, E2, result_bind, result_lift. cbn [ok_or].
    rewrite result_bind, result_lift. unfold json_parse. rewrite Ep. cbn [ok_or].
    destruct state; try done; rewrite result_bind; unfold final in E3 |- *; simpl in *;
      rewrite E3; apply IH; lia.
Qed.

(** A result returned is one that was read from the job's own key. *)
Definition durable (keys : QueueKeys) (job : ProofJob) (r : ProofResult Value) : Prop :=
  validate_for r job = Ok () /\
  exists w' json, result (redis_get (QueueKeysOps.result keys job.(job_id))) w' = Ok (Some json) /\
    from_json json = Some r.

Lemma wait_result_durable keys wait_interval job fuel w r :
  result (wait_result fuel keys wait_interval job) w = Ok r -> durable keys job r.
Proof.
  revert w r. induction fuel as [|fuel IH]; intros w r Hr; [done|]. cbn [wait_result] in Hr.
  apply result_bind_Ok in Hr as ([json|] & E & Hr).
  - apply result_bind_Ok in Hr as (r' & Ep & Hr). apply result_bind_Ok in Hr as ([] & Ev & Hr).
    apply Ok_inj in Hr as ->. split; [exact Ev|]. exists w, json. split; [done|].
    unfold result, lift, json_parse in Ep. by apply ok_or_Ok in Ep.
  - apply result_bind_Ok in Hr as (sj & _ & Hr). apply result_bind_Ok in Hr as (sj' & _ & Hr).
    apply result_bind_Ok in Hr as (state & _ & Hr). destruct state; try done;
      apply result_bind_Ok in Hr as ([] & _ & Hr); by eapply IH.
Qed.

(** C28: Waiting returns the durable result.  If the result of a job becomes
    readable after [n] rounds during which the job is queued or claimed,
    [wait_result] returns exactly that result (with fuel for [n + 1] rounds),
    however the wake-ups end; and any result it returns is one it read from the
    job's own result key, parsed and validated for the job. *)
Theorem wait_result_returns_durable_result (keys : QueueKeys) (wait_interval : N) (job : ProofJob) :
  (forall n fuel w r, ready_after keys wait_interval job r n w -> n < fuel ->
     result (wait_result fuel keys wait_interval job) w = Ok r) /\
  (forall fuel w r, result (wait_result fuel keys wait_interval job) w = Ok r -> durable keys job r).
Proof. split; intros; [by eapply wait_result_ready|by eapply wait_result_durable]. Qed.
End backend.

(** ** Concurrent workers as snapshots

    A world in which the workers run freely: the list of the databases that
    successive commands of the submitter see. *)
Module Snapshots.

#[export] Instance snapshots : QueueClient (list (gmap string string)) := {|
  redis_get k := perform (fun w => (tail w, Ok (match w with [] => None | db :: _ => db !! k end)));
  redis_brpop k d := perform (fun w => (tail w, Ok Elapsed));
  pause d := mret ();
|}.
End Snapshots.
Import Snapshots.

(** C33: The two reads of [wait_result] are not atomic.  A worker that publishes
    the result and the state [Completed] together, between the submitter's read
    of the result key and its read of the state key, makes [wait_result] fail
    with "Completed but its durable result is missing", although the database
    it then sees holds the job's valid result, which the same call would have
    returned had it started one command later. *)
Theorem wait_result_race
    `{!Hex, !Sha, !Json ProofRequest, !DaemonJson, !Json (ProofResult Value), !Json ProofJobState}
    (keys : QueueKeys) (wait_interval : N) (job : ProofJob) (r : ProofResult Value)
    (before after : gmap string string) (result_json state_json : string) (completed_ms attempt : N)
    (rest : list (gmap string string)) (fuel : nat) :
  before !! QueueKeysOps.result keys job.(job_id) = None ->
  after !! QueueKeysOps.result keys job.(job_id) = Some result_json ->
  after !! QueueKeysOps.state keys job.(job_id) = Some state_json ->
  from_json result_json = Some r -> validate_for r job = Ok () ->
  from_json state_json = Some (Completed completed_ms attempt) ->
  result (wait_result (S fuel) keys wait_interval job) (before :: after :: rest)
  = Err (Anyhow "proof job {} is Completed but its durable result is missing") /\
  result (wait_result (S fuel) keys wait_interval job) (after :: rest) = Ok r.
Proof.
  intros Hb Hr Hs Pr Vr Ps. cbn [wait_result]. split.
  - rewrite result_bind. change (result (redis_get ?k) (before :: after :: rest)) with (Ok (before !! k)).
    rewrite Hb. change (final (redis_get ?k) (before :: after :: rest)) with (after :: rest).
    rewrite result_bind. change (result (redis_get ?k) (after :: rest)) with (Ok (after !! k)).
    rewrite Hs, result_bind, result_lift. cbn [ok_or]. rewrite result_bind, result_lift.
    unfold json_parse. by rewrite Ps.
  - rewrite result_bind. change (result (redis_get ?k) (after :: rest)) with (Ok (after !! k)).
    rewrite Hr, result_bind, result_lift. unfold json_parse. rewrite Pr. cbn [ok_or].
    by rewrite result_bind, result_lift, Vr.
Qed.

(** ** The local backend *)

(** The prover daemon process: a handle, starting, asking for a proof,
    terminating; and the optional dump of the request. *)
Class Daemon (W : Type) := {
  ProverDaemon : Type;
  daemon_start : prog W ProverDaemon;
  daemon_prove : ProverDaemon -> ProofRequest -> prog W ProverOutput;
  daemon_terminate : ProverDaemon -> prog W ();
  prepare_prover_request : ProofRequest -> prog W ();
}.

Section local.
Context {W : Type} `{!Daemon W, !DaemonJson, !Hex}.

Definition local_output_result (job : ProofJob) (output : ProverOutput) : outcome (ProofResult Value) :=
  response ← ok_or (value_from_slice output.(stdout)) (Anyhow "local gen-proof returned malformed JSON");
  mret (success job response output.(stderr)).

(** [error.downcast_ref::<ProverRequestError>().is_some()] *)
Definition is_prover_request_error (e : error) : bool :=
  match e with ProverRequestErr _ => true | _ => false end.

(** The daemon slot is updated in place: the program returns its new value
    next to the [Result]. *)
Definition run_local_job (daemon : option ProverDaemon) (job : ProofJob)
  : prog W (option ProverDaemon * outcome (ProofResult Value)) :=
  let request := job.(request) in
  prepared ← try (prepare_prover_request request);
  match prepared, daemon with
  | inr e, _ => mret (daemon, Err e)
  | inl _, None => mret (None, Err (Anyhow "local gen-proof daemon is stopped"))
  | inl _, Some d =>
      first ← try (daemon_prove d request);
      match first with
      | inl output => mret (daemon, local_output_result job output)
      | inr error =>
          if is_prover_request_error error then
            mret (daemon, Ok (error_result job "{error:#}"))
          else
            daemon_terminate d ;;
            restarted ← try daemon_start;
            match restarted with
            | inr _ =>
                mret (None, Err (Anyhow "gen-proof daemon request failed: {first_error:#}; restart/revalidation failed: {restart_error:#}"))
            | inl restarted =>
                retry ← try (daemon_prove restarted request);
                match retry with
                | inl output => mret (Some restarted, local_output_result job output)
                | inr _ =>
                    daemon_terminate restarted ;;
                    mret (None, Ok (error_result job "gen-proof daemon request failed: {first_error:#}; retry after restart failed: {retry_error:#}"))
                end
            end
      end
  end.
End local.

(** A wrapped output comes from the daemon's JSON. *)
Lemma local_output_result_success `{!DaemonJson, !Hex} job out r value text :
  local_output_result job out = Ok r -> r.(res_outcome) = OutcomeSuccess value text ->
  value_from_slice out.(stdout) = Some value /\ r = success job value out.(stderr).
Proof.
  unfold local_output_result. intros E Ho. inv_ok. cbn in Ho. by simplify_eq.
Qed.

(** A proof request is retried once, on a fresh daemon, and only when the
    daemon itself failed.  If [proofs] and [starts] count the requests sent and
    the daemons started, a job sends at most two requests and starts at most
    one daemon; a [ProverRequestError] (the prover refused the request) is
    reported as the job's result after one request, with the daemon kept; and a
    successful result wraps the output of a proof call of this run. *)
Theorem run_local_job_retries_once {W} `{!Daemon W, !DaemonJson, !Hex}
    (proofs starts : W -> nat) (d : ProverDaemon) (job : ProofJob) (w : W)
    (slot : option ProverDaemon) (answer : outcome (ProofResult Value)) :
  (forall d r w, proofs (final (daemon_prove d r) w) = S (proofs w) /\
                 starts (final (daemon_prove d r) w) = starts w) ->
  (forall w, proofs (final daemon_start w) = proofs w /\ starts (final daemon_start w) = S (starts w)) ->
  (forall d w, proofs (final (daemon_terminate d) w) = proofs w /\
               starts (final (daemon_terminate d) w) = starts w) ->
  (forall r w, proofs (final (prepare_prover_request r) w) = proofs w /\
               starts (final (prepare_prover_request r) w) = starts w) ->
  result (run_local_job (Some d) job) w = Ok (slot, answer) ->
  let w' := final (run_local_job (Some d) job) w in
  proofs w' <= proofs w + 2 /\ starts w' <= starts w + 1 /\
  (forall w1 site, w1 = final (prepare_prover_request job.(request)) w ->
     result (prepare_prover_request job.(request)) w = Ok () ->
     result (daemon_prove d job.(request)) w1 = Err (ProverRequestErr site) ->
     slot = Some d /\ answer = Ok (error_result job "{error:#}") /\ proofs w' = S (proofs w) /\
     starts w' = starts w) /\
  (forall r value text, answer = Ok r -> r.(res_outcome) = OutcomeSuccess value text ->
     exists d' w1 out, slot = Some d' /\ result (daemon_prove d' job.(request)) w1 = Ok out /\
       value_from_slice out.(stdout) = Some value /\ r = success job value out.(stderr)).
Proof.
  intros Hprove Hstart Hterm Hprep Hr w'. subst w'. unfold run_local_job in *.
  apply result_bind_Ok in Hr as (prepared & E1 & Hr).
  rewrite final_bind, E1. destruct (try_Ok _ _ _ E1) as [F1 R1]. rewrite F1 in Hr |- *.
  destruct (Hprep (request job) w) as [P1 S1].
  set (w1 := final (prepare_prover_request (request job)) w) in *. clearbody w1.
  destruct prepared as [[]|e].
  2: { rewrite final_ret. apply Ok_inj, pair_eq in Hr as [<- <-]. rewrite P1, S1.
       split_and!; [lia|lia| |done]. intros ? ? -> E. congruence. }
  apply result_bind_Ok in Hr as (first & E2 & Hr). rewrite final_bind, E2.
  destruct (try_Ok _ _ _ E2) as [F2 R2]. rewrite F2 in Hr |- *.
  destruct (Hprove d (request job) w1) as [P2 S2].
  set (w2 := final (daemon_prove d (request job)) w1) in *. clearbody w2.
  destruct first as [out|e].
  { rewrite final_ret. apply Ok_inj, pair_eq in Hr as [<- <-]. rewrite P2, S2, P1, S1.
    split_and!; [lia|lia| |].
    - intros ? site -> _ E. congruence.
    - intros r value text E Ho. destruct (local_output_result_success _ _ _ _ _ E Ho). eauto 10. }
  destruct (is_prover_request_error e) eqn:He.
  { rewrite final_ret. apply Ok_inj, pair_eq in Hr as [<- <-]. rewrite P2, S2, P1, S1.
    split_and!; [lia|lia| |].
    - intros. split_and!; done || lia.
    - intros r value text [= <-] Ho. done. }
  apply result_bind_Ok in Hr as ([] & E3 & Hr). rewrite final_bind, E3.
  destruct (Hterm d w2) as [P3 S3]. set (w3 := final (daemon_terminate d) w2) in *. clearbody w3.
  apply result_bind_Ok in Hr as (restarted & E4 & Hr). rewrite final_bind, E4.
  destruct (try_Ok _ _ _ E4) as [F4 R4]. rewrite F4 in Hr |- *. destruct (Hstart w3) as [P4 S4].
  set (w4 := final daemon_start w3) in *. clearbody w4.
  destruct restarted as [d'|e'].
  2: { rewrite final_ret. apply Ok_inj, pair_eq in Hr as [<- <-]. rewrite P4, S4, P3, S3, P2, S2, P1, S1.
       split_and!; [lia|lia| |done]. intros ? site -> _ E. rewrite E in R2. simplify_eq. }
  apply result_bind_Ok in Hr as (retry & E5 & Hr). rewrite final_bind, E5.
  destruct (try_Ok _ _ _ E5) as [F5 R5]. rewrite F5 in Hr |- *.
  destruct (Hprove d' (request job) w4) as [P5 S5].
  set (w5 := final (daemon_prove d' (request job)) w4) in *. clearbody w5.
  destruct retry as [out|e'].
  { rewrite final_ret. apply Ok_inj, pair_eq in Hr as [<- <-].
    rewrite P5, S5, P4, S4, P3, S3, P2, S2, P1, S1. split_and!; [lia|lia| |].
    - intros ? site -> _ E. rewrite E in R2. simplify_eq.
    - intros r value text E Ho. destruct (local_output_result_success _ _ _ _ _ E Ho). eauto 10. }
  apply result_bind_Ok in Hr as ([] & E6 & Hr). rewrite final_bind, E6, final_ret.
  destruct (Hterm d' w5) as [P6 S6]. apply Ok_inj, pair_eq in Hr as [<- <-].
  rewrite P6, S6, P5, S5, P4, S4, P3, S3, P2, S2, P1, S1. split_and!; [lia|lia| |].
  - intros ? site -> _ E. rewrite E in R2. simplify_eq.
  - intros r value text [= <-] Ho. done.
Qed.

(** ** Witnesses *)
Module RedisInstance.
Definition database : Type := gmap string string * gmap string (list string).

#[export] Instance redis_db : RedisDb database := {|
  db_get d k := d.1 !! k;
  db_list d k := from_option id [] (d.2 !! k);
  db_set k v d := (<[k := v]> d.1, d.2);
  db_rpush k v d := (d.1, <[k := from_option id [] (d.2 !! k) ++ [v]]> d.2);
|}.

#[export] Instance redis_db_laws : RedisDbLaws database.
Proof.
  constructor; intros; cbn; try done.
  - case_bool_decide; subst; [by rewrite lookup_insert_eq|by rewrite lookup_insert_ne].
  - case_bool_decide; subst; [by rewrite lookup_insert_eq|by rewrite lookup_insert_ne].
Qed.
End RedisInstance.

Module ProofQueueWitness.
Import HexInstance ShaInstance ProofJobInstance ProofJobWitness RedisInstance.

Definition dummy : ProofJob := mkProofJob 0 "" "" 0 "" "" "" "" "" request1.
Definition the_job : ProofJob := match job1 with Ok j => j | _ => dummy end.
Definition the_result : ProofResult Value := success the_job response1 [].

(** One job and one result have a text. *)
#[local] Instance job_json : Json ProofJob := {|
  to_json j := if bool_decide (j = dummy) then Some "job" else None;
  from_json s := Some dummy;
|}.
#[local] Instance job_json_laws : JsonLaws ProofJob.
Proof. constructor. intros j s. cbn. case_bool_decide; [|done]. by intros [= <-]; subst. Qed.
#[local] Instance result_json : Json (ProofResult Value) := {|
  to_json r := None; from_json s := if String.eqb s "result" then Some the_result else None;
|}.
#[local] Instance state_json : Json ProofJobState := {|
  to_json s := None;
  from_json s := if String.eqb s "completed" then Some (Completed 9 1) else Some Queued;
|}.

Lemma submit_idempotent_witness :
  let k := QueueKeysOps.new "ns" in
  let d := (redis_submit k dummy ((∅, ∅) : database)).1 in
  db_get d (QueueKeysOps.job k (job_id dummy)) = Some "job" /\ redis_submit k dummy d = (d, Ok dummy).
Proof.
  intros k d.
  destruct (submit_idempotent "ns" dummy "job" ((∅, ∅) : database)) as (H1 & _); [reflexivity|].
  destruct H1 as (_ & E & _); [reflexivity|].
  split; [exact E|].
  destruct (submit_idempotent "ns" dummy "job" d) as (_ & H2 & _); [reflexivity|]. exact (H2 E).
Defined.

Definition keys : QueueKeys := QueueKeysOps.new "ns".
Definition before : gmap string string := {[ QueueKeysOps.state keys (job_id the_job) := "queued" ]}.
Definition after : gmap string string :=
  <[QueueKeysOps.result keys (job_id the_job) := "result"]>
    {[ QueueKeysOps.state keys (job_id the_job) := "completed" ]}.

Lemma the_result_valid : validate_for the_result the_job = Ok ().
Proof. vm_compute. reflexivity. Qed.

Lemma job_keys_ne : QueueKeysOps.state keys (job_id the_job) <> QueueKeysOps.result keys (job_id the_job).
Proof. apply not_eq_sym. apply keys_distinct. Qed.

Lemma wait_result_race_witness :
  result (wait_result 3 keys 5 the_job) [before; after]
  = Err (Anyhow "proof job {} is Completed but its durable result is missing") /\
  result (wait_result 3 keys 5 the_job) [after] = Ok the_result.
Proof.
  pose proof job_keys_ne as Hne.
  apply (wait_result_race keys 5 the_job the_result before after "result" "completed" 9 1 [] 2).
  - unfold before. by rewrite lookup_singleton_ne.
  - unfold after. apply lookup_insert_eq.
  - unfold after. rewrite lookup_insert_ne by done. apply lookup_singleton_eq.
  - reflexivity.
  - exact the_result_valid.
  - reflexivity.
Defined.

Lemma wait_result_witness :
  result (wait_result 2 keys 5 the_job) [before; before; before; after] = Ok the_result.
Proof.
  pose proof job_keys_ne as Hne.
  apply (wait_result_returns_durable_result keys 5 the_job) with (n := 1); [|lia].
  eapply (ready_later keys 5 the_job the_result 0 _ _ _ _ "queued" Queued);
    [|reflexivity| |reflexivity|reflexivity|exact I|reflexivity|reflexivity|].
  - change (Ok (before !! QueueKeysOps.result keys (job_id the_job)) = Ok None).
    unfold before. by rewrite lookup_singleton_ne.
  - change (Ok (before !! QueueKeysOps.state keys (job_id the_job)) = Ok (Some "queued")).
    unfold before. by rewrite lookup_singleton_eq.
  - apply (ready_now _ _ _ _ _ "result"); [|reflexivity|exact the_result_valid].
    change (Ok (after !! QueueKeysOps.result keys (job_id the_job)) = Ok (Some "result")).
    unfold after. by rewrite lookup_insert_eq.
Defined.

(** A daemon that fails its first request and refuses the second. *)
#[local] Instance daemon : Daemon (nat * nat) := {|
  ProverDaemon := nat;
  daemon_start := perform (fun w => ((w.1, S w.2), Ok w.2));
  daemon_prove d r := perform (fun w => ((S w.1, w.2),
    Err (if (w.1 =? 0)%nat then Anyhow "timed out" else ProverRequestErr "refused")));
  daemon_terminate d := perform (fun w => (w, Ok ()));
  prepare_prover_request r := mret ();
|}.

Definition d0 : @ProverDaemon (nat * nat) daemon := 0.

Lemma run_local_job_witness :
  (final (run_local_job (Some d0) the_job) (0, 0)).1 <= 0 + 2 /\
  (final (run_local_job (Some d0) the_job) (0, 0)).2 <= 0 + 1.
Proof.
  destruct (run_local_job_retries_once fst snd d0 the_job (0, 0) None
    (Ok (error_result the_job "gen-proof daemon request failed: {first_error:#}; retry after restart failed: {retry_error:#}")))
    as (H1 & H2 & _); [done|done|done|done|reflexivity|].
  split; [exact H1|exact H2].
Defined.
End ProofQueueWitness.
