(* ===== verification/Prover.v ===== *)
(** * The prover daemon

    The deadlines shared with [gen-proof], its line protocol on standard
    output, and the validation of its identity and of its proof responses. *)
From Stdlib Require Import Ascii.
From S2P Require Import Prelude External Instances Merkle NetworkRetry Chain ProofJob.

(** ** Deadlines *)
Section deadlines.
Local Open Scope N_scope.
Definition SP1_SETUP_TIMEOUT_SECS : N := 600.
Definition SP1_EXECUTE_TIMEOUT_SECS : N := 900.
Definition SP1_PROVE_TIMEOUT_SECS : N := 7200.
Definition PROVER_DEADLINE_HEADROOM_SECS : N := 300.
Definition PROVER_IDENTITY_DEADLINE : N :=
  from_secs (SP1_SETUP_TIMEOUT_SECS + PROVER_DEADLINE_HEADROOM_SECS).
Definition PROVER_STDIN_WRITE_DEADLINE : N := from_secs 60.
Definition PROVER_RESPONSE_DEADLINE : N :=
  from_secs (SP1_EXECUTE_TIMEOUT_SECS + SP1_PROVE_TIMEOUT_SECS + PROVER_DEADLINE_HEADROOM_SECS).
Definition PROVER_PROOF_DEADLINE : N :=
  from_secs (60 + SP1_EXECUTE_TIMEOUT_SECS + SP1_PROVE_TIMEOUT_SECS + PROVER_DEADLINE_HEADROOM_SECS).
Definition POLL_ONCE_WATCHDOG : N :=
  from_secs ((SP1_SETUP_TIMEOUT_SECS + PROVER_DEADLINE_HEADROOM_SECS)
    + 2 * (60 + SP1_EXECUTE_TIMEOUT_SECS + SP1_PROVE_TIMEOUT_SECS + PROVER_DEADLINE_HEADROOM_SECS)
    + 1800).
End deadlines.

Definition MAX_PROVER_DIAGNOSTICS_BYTES : nat := Z.to_nat (256 * 1024).

(** ** The line protocol *)

(** What the daemon's standard output yields: lines (with their newline), and
    at last its end or the process exit. *)
Inductive StdoutEvent := Line (line : bytes) | Closed | Exited.

(** [while matches!(line.last(), Some(b'\n' | b'\r')) { line.pop(); }] *)
Definition is_newline (b : byte) : bool := Byte.eqb b x0a || Byte.eqb b x0d.
Fixpoint drop_newlines (reversed : bytes) : bytes :=
  match reversed with
  | b :: rest => if is_newline b then drop_newlines rest else reversed
  | [] => []
  end.
Definition trim_line (line : bytes) : bytes := reverse (drop_newlines (reverse line)).

(** [diagnostics.extend(line); push('\n'); drain to the last MAX bytes] *)
Definition append_diagnostics (diagnostics line : bytes) : bytes :=
  let d := diagnostics ++ line ++ [x0a] in
  if (MAX_PROVER_DIAGNOSTICS_BYTES <? length d)%nat
  then drop (length d - MAX_PROVER_DIAGNOSTICS_BYTES) d else d.

(** The loop of [read_response_line] over the events of the output: the
    response line, the diagnostics, and the events left. *)
Fixpoint read_response_line (events : list StdoutEvent) (diagnostics : bytes)
  : outcome bytes * bytes * list StdoutEvent :=
  match events with
  | [] => (OutOfFuel, diagnostics, [])
  | Exited :: events =>
      (Err (Anyhow "gen-proof daemon exited with {status} before returning a response; stderr:\n{}"), diagnostics, events)
  | Closed :: events =>
      (Err (Anyhow "gen-proof daemon closed stdout with {status}; stderr:\n{}"), diagnostics, events)
  | Line line :: events =>
      match trim_line line with
      | [] => read_response_line events diagnostics
      | x7b :: rest => (Ok (x7b :: rest), diagnostics, events)
      | line => read_response_line events (append_diagnostics diagnostics line)
      end
  end.

(** ** Identity and responses *)
Record ProverIdentityResponse := mkProverIdentityResponse {
  id_kind : string;
  id_network : string;
  id_guest_id : string;
  id_block_elf_sha256 : string;
  id_vkey_hash : string;
}.

Section prover.
Context `{!Hex, !Sha}.
(** The contents of the configured ELF, if it can be read. *)
Variable read_elf : option bytes.

Definition strip_0x (value : string) : string :=
  match value with
  | String "0"%char (String "x"%char rest) => rest
  | _ => value
  end.

Definition decode_required_response_bytes (value : option string) : outcome bytes :=
  value ← ok_or value (Anyhow "gen-proof response omitted {name}");
  ok_or (hex_decode value) (Anyhow "invalid gen-proof {name} hex: {error}").

Definition decode_prover_hash (value : string) : outcome bytes := decode_fixed 32 (strip_0x value).

Definition validate_prover_elf_sha256 (prover_elf_sha256 : string) : outcome () :=
  configured_elf ← ok_or read_elf (Anyhow "failed to read configured block-transition ELF {}: {error}");
  bail_when (negb (String.eqb prover_elf_sha256 (sha256_hex configured_elf)))
    "SP1 ELF hash mismatch: gen-proof embeds {prover_elf_sha256}, configured ELF is {configured_elf_sha256}".

Definition validate_prover_identity (config : BlockPipelineConfig) (identity : ProverIdentityResponse)
  : outcome bytes :=
  bail_when (negb (String.eqb identity.(id_kind) "identity"))
    "gen-proof initial response kind was '{}', expected 'identity'" ;;
  bail_when (negb (String.eqb identity.(id_network) (as_str config.(network))))
    "SP1 prover network mismatch: expected {}, got {}" ;;
  bail_when (negb (String.eqb identity.(id_guest_id) (guest_id config.(network))))
    "SP1 prover guest id mismatch: expected {}, got {}" ;;
  validate_prover_elf_sha256 identity.(id_block_elf_sha256) ;;
  vk_hash ← decode_prover_hash identity.(id_vkey_hash);
  bail_when (bool_decide (vk_hash <> config.(expected_vk_hash)))
    "SP1 program VK mismatch: expected {}, got {}" ;;
  mret vk_hash.

Definition validate_proof_response (config : BlockPipelineConfig) (identity_vk_hash : bytes)
    (response : ProverProofResponse) : outcome () :=
  bail_when (bool_decide (response.(resp_network) <> Some (as_str config.(network))))
    "gen-proof response network {:?} did not match {}" ;;
  bail_when (bool_decide (response.(resp_guest_id) <> Some (guest_id config.(network))))
    "gen-proof response guest id {:?} did not match {}" ;;
  configured_elf ← ok_or read_elf (External "std::fs::read");
  bail_when (bool_decide (response.(resp_block_elf_sha256) <> Some (sha256_hex configured_elf)))
    "gen-proof response block_elf_sha256 changed after identity validation" ;;
  vkey ← ok_or response.(resp_vkey_hash) (Anyhow "gen-proof response omitted vkey_hash");
  response_vk_hash ← decode_prover_hash vkey;
  bail_when (bool_decide (response_vk_hash <> identity_vk_hash)
             || bool_decide (response_vk_hash <> config.(expected_vk_hash)))
    "gen-proof response VK hash changed after identity validation".

(** [error_message.contains(pattern)] *)
Fixpoint contains (pattern s : string) : bool :=
  String.prefix pattern s
  || match s with EmptyString => false | String _ s => contains pattern s end.

(** The part of [ProverDaemon::prove] after the response line has been read;
    [parse] is [serde_json::from_slice]. *)
Definition accept_response (config : BlockPipelineConfig) (vk : bytes) (request : ProofRequest)
    (parse : bytes -> option ProverProofResponse) (response_line stderr : bytes) : outcome ProverOutput :=
  response ← ok_or (parse response_line) (Anyhow "malformed gen-proof response: {error}");
  bail_when (negb (String.eqb response.(kind) "proof")) "gen-proof response kind was '{}', expected 'proof'" ;;
  bail_when (bool_decide (response.(resp_request_id) <> Some request.(request_id)))
    "gen-proof response request id {:?} did not match '{request_id}'" ;;
  (if negb response.(ok) then
     let error_message := from_option id "missing error message" response.(resp_error) in
     if contains "timed out" error_message
     then Err (Anyhow "gen-proof request {request_id} timed out: {error_message}")
     else Err (ProverRequestErr "gen-proof request {request_id} failed: {error_message}")
   else mret ()) ;;
  validate_proof_response config vk response ;;
  proof ← decode_required_response_bytes response.(proof_bytes);
  values ← decode_required_response_bytes response.(public_values);
  bail_when (bool_decide (response.(proof_size) <> Some (length proof)))
    "gen-proof proof_size {:?} did not match {} returned bytes" ;;
  bail_when (bool_decide (response.(public_values_size) <> Some (length values)))
    "gen-proof public_values_size {:?} did not match {} returned bytes" ;;
  mret {| stdout := response_line; stderr := stderr; vk_hash := vk;
          out_proof := proof; out_public_values := values |}.
End prover.

(** The daemon's own phase timeouts fire before the deadlines of the pipeline,
    and the watchdog covers a restart with two identities and two proofs. *)
Lemma deadlines_nested :
  (from_secs SP1_SETUP_TIMEOUT_SECS < PROVER_IDENTITY_DEADLINE /\
   from_secs (SP1_EXECUTE_TIMEOUT_SECS + SP1_PROVE_TIMEOUT_SECS) < PROVER_RESPONSE_DEADLINE /\
   PROVER_STDIN_WRITE_DEADLINE + PROVER_RESPONSE_DEADLINE <= PROVER_PROOF_DEADLINE /\
   2 * PROVER_IDENTITY_DEADLINE + 2 * PROVER_PROOF_DEADLINE < POLL_ONCE_WATCHDOG)%N.
Proof. by vm_compute. Qed.

(** ** The line protocol: properties *)
Lemma drop_newlines_spec l :
  exists nl, l = nl ++ drop_newlines l /\ Forall (fun b => is_newline b = true) nl /\
    match drop_newlines l with b :: _ => is_newline b = false | [] => True end.
Proof.
  induction l as [|b l (nl & E & Hn & Hh)]; cbn [drop_newlines]; [by exists []|].
  destruct (is_newline b) eqn:Hb; [|by exists []]. exists (b :: nl). cbn. rewrite <- E. eauto.
Qed.

Lemma trim_line_spec line :
  exists nl, line = trim_line line ++ nl /\ Forall (fun b => is_newline b = true) nl /\
    forall b, last (trim_line line) = Some b -> is_newline b = false.
Proof.
  unfold trim_line. destruct (drop_newlines_spec (reverse line)) as (nl & E & Hn & Hh).
  exists (reverse nl). split_and!.
  - rewrite <- reverse_app, <- E. by rewrite reverse_involutive.
  - by apply Forall_reverse.
  - intros b Hb. rewrite last_reverse in Hb. destruct (drop_newlines (reverse line)); [done|].
    simpl in Hb. by simplify_eq.
Qed.

Lemma append_diagnostics_bound d line :
  length (append_diagnostics d line) <= MAX_PROVER_DIAGNOSTICS_BYTES.
Proof.
  unfold append_diagnostics. generalize MAX_PROVER_DIAGNOSTICS_BYTES as m. intros m.
  destruct (Nat.ltb_spec m (length (d ++ line ++ [x0a]))); [|done].
  rewrite length_drop. lia.
Qed.

(** Lines the reader skips. *)
Definition skipped (e : StdoutEvent) : Prop :=
  exists line, e = Line line /\ head (trim_line line) <> Some x7b.

Definition ends_reading (e : StdoutEvent) : bool :=
  match e with
  | Line line => match trim_line line with x7b :: _ => true | _ => false end
  | Closed | Exited => true
  end.

Lemma read_response_line_skip e events d :
  ends_reading e = false ->
  skipped e /\
  exists d', read_response_line (e :: events) d = read_response_line events d' /\
    (length d <= MAX_PROVER_DIAGNOSTICS_BYTES -> length d' <= MAX_PROVER_DIAGNOSTICS_BYTES).
Proof.
  destruct e as [line| |]; [|done..]. intros He. cbn in He. cbn [read_response_line].
  unfold skipped. destruct (trim_line line) as [|b rest] eqn:Et.
  - split; [exists line; by rewrite Et|]. by exists d.
  - destruct b; try done; (split; [exists line; by rewrite Et|]; eexists; split; [reflexivity|];
      intros _; apply append_diagnostics_bound).
Qed.

(** C34: Reading a response skips noise and nothing else.  A line is returned
    exactly when the output has a line that, without its trailing newlines,
    starts with an opening brace, before the output ends: it is the first such
    line, it carries no trailing newline, every event before it was a line of
    another kind, and the events after it are left for the next request.  If
    the output ends first the read fails, so it never hangs on a closed or
    exited daemon, and the diagnostics kept stay within their limit. *)
Theorem read_response_line_spec (events : list StdoutEvent) (diagnostics : bytes) :
  length diagnostics <= MAX_PROVER_DIAGNOSTICS_BYTES ->
  let '(answer, diagnostics', rest) := read_response_line events diagnostics in
  length diagnostics' <= MAX_PROVER_DIAGNOSTICS_BYTES /\
  (returns answer = existsb ends_reading events) /\
  (forall response, answer = Ok response ->
     exists before line newlines, events = before ++ Line line :: rest /\ Forall skipped before /\
       line = response ++ newlines /\ Forall (fun b => is_newline b = true) newlines /\
       head response = Some x7b /\ forall b, last response = Some b -> is_newline b = false) /\
  (forall e, answer = Err e ->
     exists before last_event, events = before ++ last_event :: rest /\ Forall skipped before /\
       (last_event = Closed \/ last_event = Exited)).
Proof.
  revert diagnostics. induction events as [|e events IH]; intros d Hd.
  { cbn. split_and!; [done|done|by intros|by intros]. }
  cbn [existsb]. destruct (ends_reading e) eqn:He.
  - cbn [orb]. destruct e as [line| |]; cbn [read_response_line].
    + cbn in He. destruct (trim_line_spec line) as (nl & E & Hn & Hlast).
      destruct (trim_line line) as [|b rest] eqn:Et; [done|]. destruct b; try done.
      split_and!; [done|done| |done]. intros r [= <-]. exists [], line, nl. split_and!; done.
    + split_and!; [done|done|done|]. intros e [= <-]. exists [], Closed. split_and!; [done..|by left].
    + split_and!; [done|done|done|]. intros e [= <-]. exists [], Exited. split_and!; [done..|by right].
  - destruct (read_response_line_skip e events d He) as (Hs & d' & -> & Hb).
    specialize (IH d' (Hb Hd)). cbn [orb].
    destruct (read_response_line events d') as [[answer d''] rest].
    destruct IH as (H1 & H2 & H3 & H4). split_and!; [done|done| |].
    + intros r Er. destruct (H3 r Er) as (before & line & nl & -> & HF & Hrest).
      exists (e :: before), line, nl. split; [done|]. split; [by constructor|done].
    + intros x Ex. destruct (H4 x Ex) as (before & last_event & -> & HF & Hrest).
      exists (e :: before), last_event. split; [done|]. split; [by constructor|done].
Qed.

(** The pipeline and the queue decode a field with functions of the same name,
    which differ in their errors only. *)
Lemma decode_required_agree `{!Hex} (value : option string) b :
  decode_required_response_bytes value = Ok b <-> ProofJob.decode_required_response_bytes value = Ok b.
Proof.
  unfold decode_required_response_bytes, ProofJob.decode_required_response_bytes, hex_decode_ok.
  destruct value as [value|]; [|done]. cbn. by destruct (hex_decode value).
Qed.

(** What an accepted response says, for a daemon whose key hash is [vk]. *)
Lemma accept_response_Ok `{!Hex, !Sha} (read_elf : option bytes) config vk request parse line stderr out :
  accept_response read_elf config vk request parse line stderr = Ok out ->
  exists response elf,
    parse line = Some response /\ read_elf = Some elf /\ vk = config.(expected_vk_hash) /\
    response.(kind) = "proof" /\ response.(ok) = true /\
    response.(resp_request_id) = Some request.(request_id) /\
    response.(resp_network) = Some (as_str config.(network)) /\
    response.(resp_guest_id) = Some (guest_id config.(network)) /\
    response.(resp_block_elf_sha256) = Some (sha256_hex elf) /\
    (exists v, response.(resp_vkey_hash) = Some v /\ decode_prover_hash v = Ok vk) /\
    ProofJob.decode_required_response_bytes response.(proof_bytes) = Ok out.(out_proof) /\
    ProofJob.decode_required_response_bytes response.(public_values) = Ok out.(out_public_values) /\
    response.(proof_size) = Some (length out.(out_proof)) /\
    response.(public_values_size) = Some (length out.(out_public_values)) /\
    out.(stdout) = line /\ out.(ProofJob.stderr) = stderr /\ out.(vk_hash) = vk.
Proof.
  intros Ha. unfold accept_response, validate_proof_response in Ha. inv_ok. bool_hyps.
  repeat match goal with E : ¬ (_ <> _) |- _ => apply dec_stable in E end. subst.
  match goal with E : (if negb (ok ?r) then _ else _) = Ok _ |- _ =>
    destruct (ok r) eqn:Hok'; [|cbn in E; by destruct (contains _ _)] end.
  eexists _, _. split_and!; try done; [eauto|by apply decode_required_agree..].
Qed.

(** An accepted response is a proof of the configured program.  The output
    of a request is accepted only if the daemon's answer is a successful proof
    that echoes the request id, the configured network and guest, the SHA-256
    of the configured ELF and the verifying key hash validated at startup,
    which is the configured one; its proof and public values are the decoded
    fields, of the declared sizes. *)
Theorem accept_response_sound `{!Hex, !HexLaws, !Sha} (read_elf : option bytes)
    (config : BlockPipelineConfig) (identity : ProverIdentityResponse) (vk : bytes)
    (request : ProofRequest) (parse : bytes -> option ProverProofResponse)
    (line stderr : bytes) (out : ProverOutput) :
  validate_prover_identity read_elf config identity = Ok vk ->
  accept_response read_elf config vk request parse line stderr = Ok out ->
  exists response elf,
    parse line = Some response /\ read_elf = Some elf /\
    vk = config.(expected_vk_hash) /\ out.(vk_hash) = vk /\ length vk = 32 /\
    id_network identity = as_str config.(network) /\ id_guest_id identity = guest_id config.(network) /\
    id_block_elf_sha256 identity = sha256_hex elf /\
    response.(kind) = "proof" /\ response.(ok) = true /\
    response.(resp_request_id) = Some request.(request_id) /\
    response.(resp_network) = Some (as_str config.(network)) /\
    response.(resp_guest_id) = Some (guest_id config.(network)) /\
    response.(resp_block_elf_sha256) = Some (sha256_hex elf) /\
    (exists v, response.(resp_vkey_hash) = Some v /\ decode_prover_hash v = Ok vk) /\
    ProofJob.decode_required_response_bytes response.(proof_bytes) = Ok out.(out_proof) /\
    ProofJob.decode_required_response_bytes response.(public_values) = Ok out.(out_public_values) /\
    response.(proof_size) = Some (length out.(out_proof)) /\
    response.(public_values_size) = Some (length out.(out_public_values)).
Proof.
  intros Hi Ha. unfold validate_prover_identity, validate_prover_elf_sha256 in Hi. inv_ok. bool_hyps.
  repeat match goal with E : ¬ (_ <> _) |- _ => apply dec_stable in E end. subst.
  match goal with E : decode_prover_hash (id_vkey_hash identity) = Ok _ |- _ =>
    pose proof (proj2 (proj1 (decode_fixed_Ok _ _ _) E)) as Hlen end.
  apply accept_response_Ok in Ha as (response & elf & Ha). exists response, elf.
  destruct Ha as (? & ? & ? & ? & ? & ? & ? & ? & ? & ? & ? & ? & ? & ? & ? & ? & ?).
  simplify_eq. split_and!; done.
Qed.

(** A response that names another ELF file or spells another key than the job is
    refused. *)
Lemma mismatch_refused `{!Hex, !HexLaws, !Sha, !Json ProofRequest, !DaemonJson}
    (job : ProofJob) (value : Value) (response : ProverProofResponse) (stderr : bytes) :
  response_from_value value = Some response ->
  response.(resp_block_elf_sha256) <> Some job.(job_block_elf_sha256) \/
    response.(resp_vkey_hash) <> Some job.(job_vkey_hash) ->
  is_ok (into_prover_output (success job value stderr) job) = false.
Proof.
  intros Hv Hne. destruct (is_ok _) eqn:E; [|done]. apply is_ok_true in E as (out & E).
  unfold into_prover_output, success, from_job in E. cbn [res_outcome] in E. inv_ok.
  repeat case_match. inv_ok.
  match goal with E : validate_daemon_response job response = Ok _ |- _ =>
    unfold validate_daemon_response in E; cbn [foldr] in E end. inv_ok. bool_hyps.
  repeat match goal with E : ¬ (_ <> _) |- _ => apply dec_stable in E end.
  by destruct Hne.
Qed.

(** The two checks of the verifying key disagree on an [0x] prefix.  A daemon
    that prints the configured key with the prefix [0x] passes the identity
    and response checks of the local backend, which strip it, but the result
    built from the same response is refused when it is turned into the job's
    output, because there the text must equal the job's own unprefixed key. *)
Theorem prefixed_vkey_refused `{!Hex, !HexLaws, !Sha, !Json ProofRequest, !JsonLaws ProofRequest, !DaemonJson}
    (read_elf : option bytes) (config : BlockPipelineConfig) (job : ProofJob) (value : Value)
    (response : ProverProofResponse) (stderr : bytes) :
  length config.(expected_vk_hash) = 32 ->
  job.(job_vkey_hash) = hex_encode config.(expected_vk_hash) ->
  response.(resp_vkey_hash) = Some ("0x" +:+ hex_encode config.(expected_vk_hash)) ->
  response_from_value value = Some response ->
  decode_prover_hash ("0x" +:+ hex_encode config.(expected_vk_hash)) = Ok config.(expected_vk_hash) /\
  is_ok (into_prover_output (success job value stderr) job) = false.
Proof.
  intros Hl Hj Hr Hv. split.
  - unfold decode_prover_hash. by apply decode_fixed_encode.
  - apply (mismatch_refused _ _ response); [done|]. right. rewrite Hr, Hj. intros Ek.
    apply (inj Some), (f_equal String.length) in Ek. set (k := hex_encode _) in Ek.
    change (S (S (String.length k)) = String.length k) in Ek. clearbody k. clear -Ek. lia.
Qed.

(** ** Witnesses *)
Module ProverWitness.
Import HexInstance ShaInstance ProofJobInstance ProofJobWitness ChainWitness.

Definition events : list StdoutEvent :=
  [Line (string_bytes "setup done" ++ [x0a]); Line [x0a]; Line (string_bytes "{}" ++ [x0d; x0a]); Closed].

Lemma read_response_line_witness :
  exists answer d, read_response_line events [] = (answer, d, [Closed]) /\ returns answer = true.
Proof.
  pose proof (read_response_line_spec events [] (Nat.le_0_l _)) as Hr.
  destruct (read_response_line events []) as [[answer d] rest] eqn:E.
  destruct Hr as (_ & Hret & _).
  assert (rest = [Closed]) as -> by (vm_compute in E; congruence).
  exists answer, d. split; [reflexivity|]. rewrite Hret. reflexivity.
Defined.

Definition identity : ProverIdentityResponse :=
  mkProverIdentityResponse "identity" "testnet" "block-transition-testnet" (sha256_hex [x01])
    (hex_encode TESTNET_BLOCK_VK_HASH).
Definition response2 : ProverProofResponse :=
  mkProverProofResponse "proof" (Some "block-42") true (Some "testnet") (Some "block-transition-testnet")
    (Some (sha256_hex [x01])) (Some ("0x" +:+ hex_encode TESTNET_BLOCK_VK_HASH)) (Some 2) (Some "0102")
    (Some 1) (Some "ff") None.

Lemma accept_response_witness :
  exists out,
    accept_response (Some [x01]) config TESTNET_BLOCK_VK_HASH request1 (fun _ => Some response2) [] []
    = Ok out /\ out.(vk_hash) = TESTNET_BLOCK_VK_HASH.
Proof.
  assert (is_ok (accept_response (Some [x01]) config TESTNET_BLOCK_VK_HASH request1
    (fun _ => Some response2) [] []) = true) as Hok by (vm_compute; reflexivity).
  apply is_ok_true in Hok as (out & E). exists out. split; [exact E|].
  destruct (accept_response_sound (Some [x01]) config identity TESTNET_BLOCK_VK_HASH request1
    (fun _ => Some response2) [] [] out) as (_ & _ & _ & _ & _ & Hvk & _);
    [vm_compute; reflexivity|exact E|exact Hvk].
Defined.

Definition value2 : @Value daemon_json := response2.

Lemma prefixed_vkey_refused_witness :
  exists job, is_ok (into_prover_output (success job value2 []) job) = false.
Proof.
  exists (mkProofJob 2 "" "testnet" 42 "" "" "block-transition-testnet" ""
            (hex_encode TESTNET_BLOCK_VK_HASH) request1).
  apply (prefixed_vkey_refused None config _ value2 response2 []); reflexivity.
Defined.
End ProverWitness.
