(* ===== verification/Files.v ===== *)
(** * Files and text

    The file operations of the services, with the laws of a file system whose
    writes are not atomic and whose renames are, and the string functions the
    code applies to the text of an artifact. *)
From S2P Require Import Prelude External Effects Chain.
From stdpp Require Import pretty.

(** A [String] as its characters (Unicode scalar values). *)
Abbreviation chars := (list N).

Class Files (W : Type) := {
  fs_is_file : W -> Path -> bool;
  fs_read : Path -> prog W bytes;
  fs_read_to_string : Path -> prog W chars;
  fs_write : Path -> bytes -> prog W ();
  fs_create_dir_all : Path -> prog W ();
  fs_rename : Path -> Path -> prog W ();
  current_dir : prog W Path;
  process_id : N;
  path_display : Path -> string;
  path_from : string -> Path;       (* [PathBuf::from] *)
}.

(** The files of a world.  Directory creation and reads change none of them; a
    write touches its path only and may be cut short; a rename replaces the
    target in one step. *)
Class FilesLaws (W : Type) `{!Files W} := {
  files : W -> gmap Path bytes;
  path_round_trip p : path_from (path_display p) = p;
  read_keeps p w : (fs_read p w).1.1 = [] /\ final (fs_read p) w = w;
  read_file p w b : result (fs_read p) w = Ok b -> files w !! p = Some b;
  create_dir_keeps p w :
    Forall (fun w' => files w' = files w) (fs_create_dir_all p w).1.1 /\
    files (final (fs_create_dir_all p) w) = files w;
  write_local p b w :
    Forall (fun w' => forall q, q <> p -> files w' !! q = files w !! q) (fs_write p b w).1.1 /\
    (forall q, q <> p -> files (final (fs_write p b) w) !! q = files w !! q) /\
    (forall u, result (fs_write p b) w = Ok u -> files (final (fs_write p b) w) !! p = Some b);
  rename_atomic p q w b :
    p <> q -> files w !! p = Some b ->
    Forall (fun w' => files w' = files w \/ files w' = <[q := b]> (delete p (files w)))
      (fs_rename p q w).1.1 /\
    match result (fs_rename p q) w with
    | Ok _ => files (final (fs_rename p q) w) = <[q := b]> (delete p (files w))
    | _ => files (final (fs_rename p q) w) = files w \/
           files (final (fs_rename p q) w) = <[q := b]> (delete p (files w))
    end;
}.

(** ** Text *)

(** [char::is_whitespace] and [char::is_ascii_whitespace] *)
Definition is_whitespace (c : N) : bool :=
  (((9 <=? c) && (c <=? 13)) || (c =? 32) || (c =? 0x85) || (c =? 0xA0) || (c =? 0x1680)
   || ((0x2000 <=? c) && (c <=? 0x200A)) || (c =? 0x2028) || (c =? 0x2029) || (c =? 0x202F)
   || (c =? 0x205F) || (c =? 0x3000))%N.
Definition is_ascii_whitespace (c : N) : bool :=
  ((c =? 32) || (c =? 9) || (c =? 10) || (c =? 12) || (c =? 13))%N.

Fixpoint trim_start (s : chars) : chars :=
  match s with
  | [] => []
  | c :: s' => if is_whitespace c then trim_start s' else s
  end.
Definition trim (s : chars) : chars := reverse (trim_start (reverse (trim_start s))).

(** [s.strip_prefix(0x).unwrap_or(s)] *)
Definition strip_0x (s : chars) : chars :=
  match s with
  | 48 :: 120 :: rest => rest
  | _ => s
  end%N.

(** [hex::decode] of a string: its bytes are hex digits only when every
    character is ASCII. *)
Definition ascii_string (s : chars) : option string :=
  if forallb (fun c => c <? 128)%N s
  then Some (String.string_of_list_ascii (Ascii.ascii_of_N <$> s)) else None.
Definition hex_decode_chars `{!Hex} (s : chars) : option bytes := ascii_string s ≫= hex_decode.

Definition normalize_artifact (text : chars) : chars :=
  filter (fun c => is_ascii_whitespace c = false) (strip_0x (trim text)).

(** [format!("{n}")] *)
Definition decimal (n : N) : string := pretty n.

#[export] Instance decimal_inj : Inj (=) (=) decimal.
Proof. intros a b E. by apply (inj pretty) in E. Qed.

Definition height_artifact_path (directory : Path) (height : N) : Path :=
  directory ++ [decimal height +:+ ".hex"].

Definition read_optional_height_artifact {W} `{!Files W, !Hex} (directory : option Path) (height : N)
    (generated : bytes) : prog W bytes :=
  match directory with
  | None => mret generated
  | Some directory =>
      text ← try (fs_read_to_string (height_artifact_path directory height));
      match text with
      | inr _ => lift (Err (Anyhow "failed to read {name} artifact {}: {error}"))
      | inl text =>
          lift (ok_or (hex_decode_chars (normalize_artifact text))
                  (Anyhow "invalid {name} artifact {}: {error}"))
      end
  end.

(** [file_sha256_hex]: in [ProofJob] terms, the hex SHA-256 of a file. *)
Definition file_sha256_hex {W} `{!Files W, !Hex, !Sha} (path : Path) : prog W string :=
  b ← try (fs_read path);
  match b with
  | inl b => mret (hex_encode (hash_impl_sha256_bytes b))
  | inr _ => lift (Err (Anyhow "failed to read {}"))
  end.


(** ** Paths

    A path is the list of its components; the first component of an absolute
    one is the root. *)
Definition ROOT_DIR : string := "/".

Definition absolute_path {W} `{!Files W} (path : Path) : prog W Path :=
  if bool_decide (head path = Some ROOT_DIR) then mret path
  else dir ← current_dir; mret (dir ++ path).

(** [Path::parent]: none for the root and for the empty path. *)
Definition parent (path : Path) : option Path :=
  match path with
  | [] => None
  | _ => if bool_decide (path = [ROOT_DIR]) then None else Some (removelast path)
  end.

(** The file stem: the name up to its last dot, unless the only dot starts it. *)
Definition dot : Ascii.ascii := Ascii.ascii_of_N 46.
Definition file_stem (name : string) : string :=
  match list_find (eq dot) (reverse (String.list_ascii_of_string name)) with
  | Some (i, _) =>
      let n := String.length name - S i in
      if (n =? 0)%nat then name else String.substring 0 n name
  | None => name
  end.

Definition with_extension (path : Path) (extension : string) : Path :=
  match last path with
  | Some name => removelast path ++ [file_stem name +:+ "." +:+ extension]
  | None => path
  end.
