(* ===== verification/Daemon.v ===== *)
(** * The prover daemon as a process

    [ProverDaemon] of [block_pipeline.rs] over an interface of the operating
    system: [start], [prove] and [terminate], the reader of its output with its
    deadlines, and the diagnostics buffer that the reader shares with the task
    draining standard error.  With these operations it implements the [Daemon]
    interface that the local backend of [ProofQueue] uses. *)
From S2P Require Import Prelude External Instances Merkle Effects NetworkRetry Chain ProofJob.
From S2P Require Import ProofQueue Prover Files.

(** What the daemon does that the pipeline sees: an event of its standard
    output, or a chunk read by the task that drains its standard error. *)
Inductive DaemonEvent := Output (e : StdoutEvent) | Chunk (chunk : bytes).

(** Child processes with piped streams.  The buffer behind
    [Arc<Mutex<Vec<u8>>>] is memory shared by the reader and the task. *)
Class Processes (W : Type) := {
  Child : Type;
  spawn : Path -> list string -> prog W Child;
  (** [None] when the deadline passes first *)
  child_write : Child -> bytes -> N -> prog W (option ());
  child_flush : Child -> N -> prog W (option ());
  next_event : Child -> N -> prog W (option DaemonEvent);
  child_wait : Child -> prog W ();
  child_wait_until : Child -> N -> prog W (option ());
  child_kill : Child -> prog W ();
  close_stdin : Child -> prog W ();
  (** what the task still reads once the child has exited; stopping the task *)
  drain_stderr : Child -> prog W (list bytes);
  abort_stderr : Child -> prog W ();
  diagnostics : W -> Child -> bytes;
  set_diagnostics : Child -> bytes -> W -> W;
  save_prover_args : bool;     (* [std::env::var_os("DOGE_SAVE_PROVER_ARGS").is_some()] *)
}.

(** [serde_json::from_slice] at the two response types, and the dump of a request. *)
Class ResponseJson := {
  parse_identity : bytes -> option ProverIdentityResponse;
  parse_response : bytes -> option ProverProofResponse;
  args_to_vec_pretty : string -> ProofRequest -> option bytes;
}.

(** What parses as a response parses as JSON, which has that response. *)
Class ResponseJsonLaws `{!ResponseJson, !DaemonJson} : Prop := {
  parse_response_value b r : parse_response b = Some r ->
    exists v, value_from_slice b = Some v /\ response_from_value v = Some r /\ is_Some (value_to_vec v);
}.

Record DaemonHandle {W} `{!Processes W} := mkDaemon { child : Child; daemon_vk : bytes }.
Arguments mkDaemon {_ _} _ _.

(** The last [MAX_PROVER_DIAGNOSTICS_BYTES] of a buffer with more appended. *)
Definition append_chunk (diagnostics chunk : bytes) : bytes :=
  let d := diagnostics ++ chunk in
  if (MAX_PROVER_DIAGNOSTICS_BYTES <? length d)%nat
  then drop (length d - MAX_PROVER_DIAGNOSTICS_BYTES) d else d.

Section daemon.
Context {W : Type} `{!Clock W, !Files W, !Processes W, !Hex, !Sha, !Json ProofRequest, !ResponseJson}.

Definition edit_diagnostics (c : Child) (f : bytes -> bytes) : prog W () :=
  perform (fun w => (set_diagnostics c (f (diagnostics w c)) w, Ok ())).

Definition take_stderr (c : Child) : prog W bytes :=
  stderr ← query (fun w => Ok (diagnostics w c));
  edit_diagnostics c (fun _ => []) ;;
  mret stderr.

Definition finish_stderr (c : Child) : prog W bytes :=
  chunks ← drain_stderr c;
  edit_diagnostics c (fun d => foldl append_chunk d chunks) ;;
  take_stderr c.

(** The loop of [read_response_line] until the deadline [until], at which it is
    dropped ([None]). *)
Fixpoint read_line (fuel : nat) (c : Child) (until : N) : prog W (option bytes) :=
  match fuel with
  | O => lift OutOfFuel
  | S fuel =>
      event ← next_event c until;
      match event with
      | None => mret None
      | Some (Chunk chunk) =>
          edit_diagnostics c (fun d => append_chunk d chunk) ;;
          read_line fuel c until
      | Some (Output Exited) =>
          child_wait c ;;
          finish_stderr c ;;
          lift (Err (Anyhow "gen-proof daemon exited with {status} before returning a response; stderr:\n{}"))
      | Some (Output Closed) =>
          child_wait c ;;
          finish_stderr c ;;
          lift (Err (Anyhow "gen-proof daemon closed stdout with {status}; stderr:\n{}"))
      | Some (Output (Line line)) =>
          match trim_line line with
          | [] => read_line fuel c until
          | x7b :: rest => mret (Some (x7b :: rest))
          | line =>
              edit_diagnostics c (fun d => append_diagnostics d line) ;;
              read_line fuel c until
          end
      end
  end.

(** [tokio::time::timeout(deadline, ..)], inside one that ends at [outer]: the
    earlier of the two decides the error. *)
Definition bounded {A} (deadline : N) (outer : N) (inner_site outer_site : string)
    (p : N -> prog W (option A)) : prog W A :=
  start ← query (fun w => Ok (now w));
  let inner := (start + deadline)%N in
  r ← p (N.min inner outer);
  match r with
  | Some a => mret a
  | None => lift (Err (Anyhow (if (inner <=? outer)%N then inner_site else outer_site)))
  end.

Definition no_response : string := "gen-proof daemon did not respond within {deadline:?}".

Definition read_response_line_within (fuel : nat) (c : Child) (deadline : N) : prog W bytes :=
  start ← query (fun w => Ok (now w));
  bounded deadline (start + deadline) no_response no_response (read_line fuel c).

(** ** Starting *)
Definition daemon_args (config : BlockPipelineConfig) : list string :=
  ["--network"; as_str config.(network); "--daemon";
   "--setup-timeout-secs"; decimal SP1_SETUP_TIMEOUT_SECS;
   "--execute-timeout-secs"; decimal SP1_EXECUTE_TIMEOUT_SECS;
   "--prove-timeout-secs"; decimal SP1_PROVE_TIMEOUT_SECS].

(** Kill the child, reap it, collect its diagnostics, fail. *)
Definition abandon {A} (c : Child) (site : string) : prog W A :=
  try (child_kill c) ;;
  try (child_wait c) ;;
  finish_stderr c ;;
  lift (Err (Anyhow site)).

Definition read_elf_file (config : BlockPipelineConfig) : prog W (option bytes) :=
  r ← try (fs_read config.(block_elf_path));
  mret (match r with inl b => Some b | inr _ => None end).

Definition start (fuel : nat) (config : BlockPipelineConfig) : prog W DaemonHandle :=
  c ← spawn config.(gen_proof_path) (daemon_args config);
  identity_line ← try (read_response_line_within fuel c PROVER_IDENTITY_DEADLINE);
  match identity_line with
  | inr _ => abandon c "gen-proof daemon startup failed: {error:#}; stderr:\n{}"
  | inl identity_line =>
      match parse_identity identity_line with
      | None => abandon c "malformed gen-proof identity response: {error}; stderr:\n{}"
      | Some identity =>
          elf ← read_elf_file config;
          checked ← try (lift (validate_prover_identity elf config identity));
          match checked with
          | inr _ => abandon c "gen-proof daemon identity validation failed: {error:#}; stderr:\n{}"
          | inl vk => mret (mkDaemon c vk)
          end
      end
  end.

(** ** Proving *)
Definition request_timed_out : string := "gen-proof request {request_id} timed out after {PROVER_PROOF_DEADLINE:?}".

Definition exchange (fuel : nat) (c : Child) (request_line : bytes) : prog W bytes :=
  began ← query (fun w => Ok (now w));
  let outer := (began + PROVER_PROOF_DEADLINE)%N in
  bounded PROVER_STDIN_WRITE_DEADLINE outer
    "gen-proof daemon stdin write timed out after {PROVER_STDIN_WRITE_DEADLINE:?}" request_timed_out
    (child_write c request_line) ;;
  bounded PROVER_STDIN_WRITE_DEADLINE outer
    "gen-proof daemon stdin flush timed out after {PROVER_STDIN_WRITE_DEADLINE:?}" request_timed_out
    (child_flush c) ;;
  bounded PROVER_RESPONSE_DEADLINE outer no_response request_timed_out (read_line fuel c).

Definition prove (fuel : nat) (config : BlockPipelineConfig) (d : DaemonHandle) (request : ProofRequest)
  : prog W ProverOutput :=
  request_json ← lift (canonical_request_bytes request);
  response_line ← exchange fuel d.(child) (request_json ++ [x0a]);
  elf ← read_elf_file config;
  stderr ← query (fun w => Ok (diagnostics w d.(child)));
  output ← lift (accept_response elf config d.(daemon_vk) request parse_response response_line stderr);
  edit_diagnostics d.(child) (fun _ => []) ;;
  mret output.

Definition terminate (d : DaemonHandle) : prog W () :=
  close_stdin d.(child) ;;
  began ← query (fun w => Ok (now w));
  exited ← try (child_wait_until d.(child) (began + from_secs 5));
  match exited with
  | inl (Some _) => mret ()
  | _ => try (child_kill d.(child)) ;; mret ()
  end ;;
  abort_stderr d.(child).

(** [prepare_prover_request]: the optional dump of the request's arguments. *)
Definition PROVER_ARGS_PATH : Path := [ROOT_DIR; "tmp"; "psy-block-prover-args.json"].
Definition dump_request (config : BlockPipelineConfig) (request : ProofRequest) : prog W () :=
  if save_prover_args then
    args ← lift (ok_or (args_to_vec_pretty (as_str config.(network)) request) (External "serde_json"));
    fs_write PROVER_ARGS_PATH args
  else mret ().

(** The daemon the local backend drives. *)
Definition process_daemon (fuel : nat) (config : BlockPipelineConfig) : Daemon W := {|
  ProverDaemon := DaemonHandle;
  daemon_start := start fuel config;
  daemon_prove := prove fuel config;
  daemon_terminate := terminate;
  prepare_prover_request := dump_request config;
|}.
End daemon.

(** What is relied on of processes: a killed child is dead and stays so; the
    shared buffer is memory that only its owners change; a child produces
    finitely many events before a deadline. *)
Class ProcessLaws (W : Type) `{!Processes W} := {
  alive : W -> Child -> bool;
  events_left : W -> Child -> N -> nat;
  kill_stops c w : alive (final (child_kill c) w) c = false;
  wait_dead c d w : alive w c = false -> alive (final (child_wait d) w) c = false;
  drain_dead c d w : alive w c = false -> alive (final (drain_stderr d) w) c = false;
  memory_dead c d b w : alive (set_diagnostics d b w) c = alive w c;
  memory_set c b w : diagnostics (set_diagnostics c b w) c = b;
  memory_left c d b u w : events_left (set_diagnostics d b w) c u = events_left w c u;
  event_memory c u w : diagnostics (final (next_event c u) w) c = diagnostics w c;
  wait_memory c w : diagnostics (final (child_wait c) w) c = diagnostics w c;
  drain_memory c w : diagnostics (final (drain_stderr c) w) c = diagnostics w c;
  event_progress c u w e : result (next_event c u) w = Ok (Some e) ->
    events_left (final (next_event c u) w) c u < events_left w c u;
  event_answers c u w : result (next_event c u) w <> OutOfFuel;
  wait_answers c w : result (child_wait c) w <> OutOfFuel;
  drain_answers c w : result (drain_stderr c) w <> OutOfFuel;
}.

Section daemon_theory.
Context {W : Type} `{!Clock W, !Files W, !Processes W, !ProcessLaws W}.
Context `{!Hex, !HexLaws, !Sha, !Json ProofRequest, !ResponseJson}.

(** A predicate on worlds that a program leaves true. *)
Definition keeps {A} (I : W -> Prop) (p : prog W A) : Prop := forall w, I w -> I (final p w).

Lemma keeps_bind {A B} I (m : prog W A) (f : A -> prog W B) :
  keeps I m -> (forall a, keeps I (f a)) -> keeps I (m ≫= f).
Proof. intros Hm Hf w Hw. rewrite final_bind. destruct (result m w); try apply Hf; by apply Hm. Qed.
Lemma keeps_lift {A} I (m : outcome A) : keeps I (lift m).
Proof. by intros w. Qed.
Lemma keeps_ret {A} I (a : A) : keeps I (mret a).
Proof. by intros w. Qed.
Lemma keeps_query {A} I (f : W -> outcome A) : keeps I (query f).
Proof. by intros w. Qed.
Lemma keeps_try {A} I (p : prog W A) : keeps I p -> keeps I (try p).
Proof. intros Hp w Hw. specialize (Hp w Hw). unfold try, final in *. by destruct (p w) as [[t w'] []]. Qed.
Lemma final_edit c f w : final (edit_diagnostics c f) w = set_diagnostics c (f (diagnostics w c)) w.
Proof. done. Qed.

(** ** The diagnostics stay within their limit *)
Lemma append_chunk_bound d chunk : length (append_chunk d chunk) <= MAX_PROVER_DIAGNOSTICS_BYTES.
Proof.
  unfold append_chunk. generalize MAX_PROVER_DIAGNOSTICS_BYTES as m. intros m.
  destruct (Nat.ltb_spec m (length (d ++ chunk))); [|done]. rewrite length_drop. lia.
Qed.
Lemma foldl_chunk_bound chunks d :
  length d <= MAX_PROVER_DIAGNOSTICS_BYTES ->
  length (foldl append_chunk d chunks) <= MAX_PROVER_DIAGNOSTICS_BYTES.
Proof.
  revert d. induction chunks as [|c chunks IH]; intros d Hd; [done|]. apply IH, append_chunk_bound.
Qed.

Definition buffer_ok (c : Child) (w : W) : Prop := length (diagnostics w c) <= MAX_PROVER_DIAGNOSTICS_BYTES.

Lemma edit_buffer c f :
  (forall d, length d <= MAX_PROVER_DIAGNOSTICS_BYTES -> length (f d) <= MAX_PROVER_DIAGNOSTICS_BYTES) ->
  keeps (buffer_ok c) (edit_diagnostics c f).
Proof. intros Hf w Hw. unfold buffer_ok in *. rewrite final_edit, memory_set. by apply Hf. Qed.

Lemma finish_buffer c : keeps (buffer_ok c) (finish_stderr c).
Proof.
  unfold finish_stderr, take_stderr. apply keeps_bind.
  { intros w Hw. unfold buffer_ok. by rewrite drain_memory. }
  intros chunks. apply keeps_bind; [apply edit_buffer; intros; by apply foldl_chunk_bound|].
  intros _. apply keeps_bind; [apply keeps_query|]. intros b.
  apply keeps_bind; [apply edit_buffer; intros; cbn; lia|]. intros _. apply keeps_ret.
Qed.

Lemma read_line_buffer fuel c until : keeps (buffer_ok c) (read_line fuel c until).
Proof.
  induction fuel as [|fuel IH]; [apply keeps_lift|]. cbn [read_line].
  assert (forall site, keeps (buffer_ok c)
    (child_wait c ;; finish_stderr c ;; lift (Err (A := option bytes) (Anyhow site)))) as Hend.
  { intros site. apply keeps_bind; [intros w Hw; unfold buffer_ok; by rewrite wait_memory|].
    intros _. apply keeps_bind; [apply finish_buffer|]. intros _. apply keeps_lift. }
  apply keeps_bind; [intros w Hw; unfold buffer_ok; by rewrite event_memory|].
  intros [[[line| |]|chunk]|]; [|apply Hend|apply Hend| |apply keeps_ret].
  - destruct (trim_line line) as [|b rest]; [done|].
    destruct b; try apply keeps_ret;
      (apply keeps_bind; [apply edit_buffer; intros; apply append_diagnostics_bound|done]).
  - apply keeps_bind; [|done]. apply edit_buffer. intros. apply append_chunk_bound.
Qed.

(** ** What the reader returns *)
Lemma read_line_json fuel c until w line :
  result (read_line fuel c until) w = Ok (Some line) ->
  head line = Some x7b /\ forall b, last line = Some b -> is_newline b = false.
Proof.
  revert w. induction fuel as [|fuel IH]; intros w E; [done|]. cbn [read_line] in E.
  apply result_bind_Ok in E as (e & _ & E).
  destruct e as [[[l| |]|chunk]|]; [| | |by apply result_bind_Ok in E as (? & _ & E); eapply IH|done].
  - destruct (trim_line_spec l) as (nl & _ & _ & Hlast).
    destruct (trim_line l) as [|b rest]; [by eapply IH|].
    destruct b; try (apply result_bind_Ok in E as (? & _ & E); by eapply IH).
    rewrite result_ret in E. apply Ok_inj in E. by injection E as <-.
  - by inv_prog.
  - by inv_prog.
Qed.

(** One round of fuel per event is enough. *)
Lemma read_line_fuel fuel c until w :
  events_left w c until < fuel -> result (read_line fuel c until) w <> OutOfFuel.
Proof.
  revert w. induction fuel as [|fuel IH]; intros w Hw; [lia|]. cbn [read_line].
  assert (forall site w, result (child_wait c ;; finish_stderr c ;; lift (Err (A := option bytes) (Anyhow site))) w
    <> OutOfFuel) as Hend.
  { intros site w0. unfold finish_stderr. rewrite !result_bind. pose proof (wait_answers c w0).
    destruct (result (child_wait c) w0); try done.
    pose proof (drain_answers c (final (child_wait c) w0)).
    by destruct (result (drain_stderr c) _). }
  assert (forall f w', events_left w' c until < fuel ->
    result (edit_diagnostics c f ;; read_line fuel c until) w' <> OutOfFuel) as Hedit.
  { intros f w' Hl. rewrite result_bind. unfold edit_diagnostics at 1. cbn [result perform].
    change (result (read_line fuel c until) (final (edit_diagnostics c f) w') <> OutOfFuel).
    apply IH. by rewrite final_edit, memory_left. }
  rewrite result_bind. pose proof (event_answers c until w).
  destruct (result (next_event c until) w) as [e| | |] eqn:Ee; try done.
  destruct e as [[[line| |]|chunk]|]; [| | | |done].
  all: pose proof (event_progress c until w _ Ee).
  - destruct (trim_line line) as [|b rest]; [apply IH; lia|].
    destruct b; try done; apply Hedit; lia.
  - apply Hend.
  - apply Hend.
  - apply Hedit. lia.
Qed.

(** ** Starting *)
Lemma abandon_kills {A} c site w : alive (final (abandon (A := A) c site) w) c = false.
Proof.
  set (dead := fun w => alive w c = false).
  assert (forall f, keeps dead (edit_diagnostics c f)) as Hedit.
  { intros f w' Hw. unfold dead. by rewrite final_edit, memory_dead. }
  assert (keeps dead (finish_stderr c)) as Hfin.
  { unfold finish_stderr, take_stderr. apply keeps_bind; [intros w' Hw; by apply drain_dead|].
    intros chunks. apply keeps_bind; [apply Hedit|]. intros _. apply keeps_bind; [apply keeps_query|].
    intros b. apply keeps_bind; [apply Hedit|]. intros _. apply keeps_ret. }
  assert (forall B (p : prog W B) w', final (try p) w' = final p w') as Htry.
  { intros B p w'. unfold try, final. by destruct (p w') as [[t w1] []]. }
  unfold abandon. rewrite final_bind, Htry.
  assert (dead (final (child_kill c) w)) as Hk by apply kill_stops.
  assert (keeps dead (try (child_wait c) ;; finish_stderr c ;; lift (Err (A := A) (Anyhow site)))) as Hrest.
  { apply keeps_bind; [apply keeps_try; intros w' Hw; by apply wait_dead|].
    intros _. apply keeps_bind; [exact Hfin|]. intros _. apply keeps_lift. }
  destruct (result (try (child_kill c)) w); [by apply Hrest|exact Hk..].
Qed.

(** A start that fails leaves no process behind. *)
Lemma start_failure_kills fuel config w e :
  result (start fuel config) w = Err e ->
  let spawned := spawn config.(gen_proof_path) (daemon_args config) in
  result spawned w = Err e \/
  exists c, result spawned w = Ok c /\ alive (final (start fuel config) w) c = false.
Proof.
  intros E spawned. subst spawned. unfold start in *. rewrite result_bind in E. rewrite final_bind.
  destruct (result (spawn _ _) w) as [c| | |] eqn:Es; try done; [right|left; by simplify_eq].
  exists c. split; [done|]. generalize dependent (final (spawn (gen_proof_path config) (daemon_args config)) w).
  intros w1 E. rewrite result_bind in E. rewrite final_bind.
  destruct (result (try _) w1) as [[line|]|err| |] eqn:El; try done; [|apply abandon_kills|].
  - destruct (parse_identity line) as [identity|]; [|apply abandon_kills].
    rewrite result_bind in E. rewrite final_bind.
    destruct (result (read_elf_file config) _) as [elf| | |] eqn:Ef; try done.
    + rewrite result_bind in E. rewrite final_bind.
      unfold try at 1, lift at 1, result at 1 in E. unfold try at 1, lift at 1, result at 1.
      destruct (validate_prover_identity elf config identity); try done. apply abandon_kills.
    + exfalso. clear -Ef. unfold read_elf_file in Ef. rewrite result_bind in Ef.
      unfold try, result in Ef. by destruct (fs_read _ _) as [[t w'] []].
  - exfalso. clear -El. unfold try, result in El. by destruct (read_response_line_within _ _ _ _) as [[t w'] []].
Qed.

(** A daemon that started is the configured program. *)
Lemma start_validated fuel config w d :
  result (start fuel config) w = Ok d -> d.(daemon_vk) = config.(expected_vk_hash).
Proof.
  unfold start. intros E. apply result_bind_Ok in E as (c & _ & E). apply result_bind_Ok in E as (line & _ & E).
  assert (forall A site w (a : A), result (abandon c site) w = Ok a -> False) as Habandon.
  { intros A site w' a Ha. unfold abandon in Ha. by inv_prog. }
  destruct line as [line|]; [|by apply Habandon in E].
  destruct (parse_identity line) as [identity|]; [|by apply Habandon in E].
  apply result_bind_Ok in E as (elf & _ & E). apply result_bind_Ok in E as (checked & Hc & E).
  apply try_Ok in Hc as [_ Hc]. destruct checked as [vk|]; [|by apply Habandon in E].
  rewrite result_ret in E. apply Ok_inj in E. subst d. cbn [daemon_vk].
  rewrite result_lift in Hc. unfold validate_prover_identity in Hc. inv_ok. bool_hyps.
  by match goal with E : ¬ (_ <> _) |- _ => apply dec_stable in E end.
Qed.
End daemon_theory.

(** ** The local backend end to end *)
Section accepted.
Context {W : Type} `{!Clock W, !Files W, !Processes W, !Hex, !HexLaws, !Sha, !Json ProofRequest}.
Context `{!DaemonJson, !ResponseJson, !ResponseJsonLaws}.

Lemma read_elf_file_Ok config w elf :
  result (read_elf_file config) w = Ok (Some elf) ->
  result (fs_read config.(block_elf_path)) w = Ok elf.
Proof.
  unfold read_elf_file. intros E. apply result_bind_Ok in E as (r & Hr & E).
  apply try_Ok in Hr as [_ Hr]. rewrite result_ret in E. apply Ok_inj in E. destruct r; by simplify_eq.
Qed.

(** A proof of the daemon comes from a response line it accepted. *)
Lemma prove_Ok fuel config d request w out :
  result (prove fuel config d request) w = Ok out ->
  exists w' elf, result (fs_read config.(block_elf_path)) w' = Ok elf /\
    accept_response (Some elf) config d.(daemon_vk) request parse_response out.(stdout) out.(stderr) = Ok out.
Proof.
  unfold prove. intros E. apply result_bind_Ok in E as (json & _ & E).
  apply result_bind_Ok in E as (line & _ & E). apply result_bind_Ok in E as (elf & Helf & E).
  apply result_bind_Ok in E as (stderr & _ & E). apply result_bind_Ok in E as (output & Hout & E).
  apply result_bind_Ok in E as (u & _ & E). rewrite result_ret in E. apply Ok_inj in E. subst output.
  rewrite result_lift in Hout. pose proof Hout as Ha.
  apply accept_response_Ok in Ha as (r & b & _ & -> & _ & _ & _ & _ & _ & _ & _ & _ & _ & _ & _ & _ & Hs & He & _).
  eexists _, b. split; [by apply read_elf_file_Ok|]. by rewrite Hs, He.
Qed.

(** A response that matches the job in every checked field is turned into the
    output it carries. *)
Lemma matching_output (job : ProofJob) (value : Value) (r : ProverProofResponse) key (err proof values : bytes) :
  validate job = Ok () -> is_Some (value_to_vec value) -> response_from_value value = Some r ->
  validate_daemon_response job r = Ok () ->
  ProofJob.decode_required_response_bytes r.(proof_bytes) = Ok proof ->
  ProofJob.decode_required_response_bytes r.(public_values) = Ok values ->
  r.(proof_size) = Some (length proof) -> r.(public_values_size) = Some (length values) ->
  job.(job_vkey_hash) = hex_encode key -> length key = 32 ->
  exists out', into_prover_output (success job value err) job = Ok out' /\
    out'.(out_proof) = proof /\ out'.(out_public_values) = values /\
    out'.(stderr) = err /\ out'.(vk_hash) = key.
Proof.
  intros Hvalid [text Htext] Hresp Hr Hproof Hvals Hps Hvs Hk Hlen.
  unfold into_prover_output, success, from_job. cbn [res_outcome].
  assert (validate_for (from_job job (OutcomeSuccess value (hex_encode err))) job = Ok ()) as Hfor.
  { unfold validate_for. rewrite Hvalid. cbn [mbind outcome_bind].
    unfold identity_matches, from_job. cbn. by rewrite !N.eqb_refl, !String.eqb_refl. }
  unfold from_job in Hfor. rewrite Hfor. cbn [mbind outcome_bind].
  unfold hex_decode_ok at 1. rewrite hex_decode_encode. cbn [ok_or mbind outcome_bind].
  change (mret (M := outcome) (value, err)) with (Ok (value, err)). cbn [mbind outcome_bind].
  rewrite Htext, Hresp. cbn [ok_or mbind outcome_bind]. rewrite Hr.
  cbn [mbind outcome_bind]. rewrite Hproof, Hvals. cbn [mbind outcome_bind].
  rewrite Hps, Hvs. rewrite !bool_decide_eq_false_2 by naive_solver.
  cbn [mbind outcome_bind bail_when].
  assert (decode_hex_32 job.(job_vkey_hash) = Ok key) as ->.
  { unfold decode_hex_32, hex_decode_ok. rewrite Hk, hex_decode_encode. cbn [ok_or mbind outcome_bind].
    by rewrite Hlen. }
  eexists. split; [reflexivity|]. done.
Qed.

(** C30: What becomes of a proof the local backend obtains.  Let a valid job be
    for the configured network, guest and key, and let the daemon's answer to its
    request pass the daemon's checks.  The answer names the ELF file those checks
    read and spells the configured key, with or without the prefix [0x].  If that
    ELF file is the one the job was made for and the key is spelled as in the job,
    then the result the backend wraps around the answer is turned by
    [into_prover_output] of the same job into the daemon's proof, public values
    and diagnostics, with the configured key.  Otherwise it is refused. *)
Theorem local_proof_accepted fuel config d (job : ProofJob) w out :
  validate job = Ok () ->
  job.(job_network) = as_str config.(network) -> job.(job_guest_id) = guest_id config.(network) ->
  job.(job_vkey_hash) = hex_encode config.(expected_vk_hash) ->
  result (prove fuel config d job.(request)) w = Ok out ->
  exists r w' elf key,
    local_output_result job out = Ok r /\ result (fs_read config.(block_elf_path)) w' = Ok elf /\
    (exists response, parse_response out.(stdout) = Some response /\
       response.(resp_block_elf_sha256) = Some (sha256_hex elf) /\ response.(resp_vkey_hash) = Some key) /\
    decode_prover_hash key = Ok config.(expected_vk_hash) /\
    (sha256_hex elf = job.(job_block_elf_sha256) -> key = job.(job_vkey_hash) ->
     exists out', into_prover_output r job = Ok out' /\
       out'.(out_proof) = out.(out_proof) /\ out'.(out_public_values) = out.(out_public_values) /\
       out'.(stderr) = out.(stderr) /\ out'.(vk_hash) = config.(expected_vk_hash)) /\
    (sha256_hex elf <> job.(job_block_elf_sha256) \/ key <> job.(job_vkey_hash) ->
     is_ok (into_prover_output r job) = false).
Proof.
  intros Hvalid Hn Hg Hk Hp.
  apply prove_Ok in Hp as (w' & elf & Hread & Ha).
  apply accept_response_Ok in Ha as (r & b & Hr & [= <-] & Hvk & Hkind & Hok & Hid & Hrn & Hrg & Hre &
    (v & Hv & Hdec) & Hproof & Hvals & Hps & Hvs & _ & _ & _).
  destruct (parse_response_value _ _ Hr) as (value & Hval & Hresp & [text Htext]).
  rewrite Hvk in Hdec. pose proof (proj2 (proj1 (decode_fixed_Ok _ _ _) Hdec)) as Hlen.
  exists (success job value out.(stderr)), w', elf, v.
  split; [unfold local_output_result; by rewrite Hval|]. split; [done|]. split; [by exists r|].
  split; [exact Hdec|]. split.
  2: { intros Hne. apply (mismatch_refused _ _ r); [done|]. rewrite Hre, Hv. destruct Hne; [left|right]; congruence. }
  intros Helf Hkey. rewrite Helf in Hre. rewrite Hkey in Hv.
  apply (matching_output job value r); try done.
  unfold validate_daemon_response. cbn [foldr]. rewrite Hkind, Hid, Hok, Hrn, Hrg, Hre, Hv, Hn, Hg, String.eqb_refl.
  rewrite !bool_decide_eq_false_2 by naive_solver. done.
Qed.
End accepted.

(** ** A daemon to run *)
Module DaemonWitness.
Import HexInstance ShaInstance ProofJobWitness ChainWitness ProverWitness.
#[local] Existing Instance ProofJobInstance.request_json.

(** The events still to come, and the diagnostics buffer. *)
Definition PipeWorld : Type := list DaemonEvent * bytes.

Definition answer_line : bytes := string_bytes "{proof}".
Definition identity_line : bytes := string_bytes "{identity}".
Definition response3 : ProverProofResponse :=
  mkProverProofResponse "proof" (Some "block-42") true (Some "testnet") (Some "block-transition-testnet")
    (Some (sha256_hex [x01])) (Some (hex_encode TESTNET_BLOCK_VK_HASH)) (Some 2) (Some "0102")
    (Some 1) (Some "ff") None.
Definition parsed (b : bytes) : option ProverProofResponse :=
  if bool_decide (b = answer_line) then Some response3 else None.

#[local] Instance line_json : DaemonJson := {|
  Value := bytes; value_to_vec b := Some b; value_from_slice b := Some b; response_from_value := parsed;
|}.
#[local] Instance response_json : ResponseJson := {|
  parse_identity b := if bool_decide (b = identity_line) then Some identity else None;
  parse_response := parsed;
  args_to_vec_pretty n r := None;
|}.
#[local] Instance response_json_laws : ResponseJsonLaws.
Proof. constructor. intros b r E. exists b. split; [done|]. split; [exact E|by eexists]. Qed.

#[local] Instance pipe_clock : Clock PipeWorld := {| now w := 0%N; sleep d w := w |}.
#[local] Instance pipe_files : Files PipeWorld := {|
  fs_is_file w p := true; fs_read p := mret [x01]; fs_read_to_string p := mret [];
  fs_write p b := mret (); fs_create_dir_all p := mret (); fs_rename p q := mret ();
  current_dir := mret []; process_id := 1; path_display p := EmptyString; path_from s := [];
|}.
#[local] Instance pipe_processes : Processes PipeWorld := {|
  Child := ();
  spawn p args := mret ();
  child_write c b u := perform (fun w =>
    ((w.1 ++ [Chunk [x2e]; Output (Line (string_bytes "proving")); Output (Line (answer_line ++ [x0a]))], w.2),
     Ok (Some ())));
  child_flush c u := mret (Some ());
  next_event c u := perform (fun w => ((tail w.1, w.2), Ok (head w.1)));
  child_wait c := mret (); child_wait_until c u := mret (Some ()); child_kill c := mret ();
  close_stdin c := mret (); drain_stderr c := mret []; abort_stderr c := mret ();
  diagnostics w c := w.2; set_diagnostics c b w := (w.1, b); save_prover_args := false;
|}.

Definition boot : PipeWorld := ([Output (Line identity_line)], []).
Definition the_job : ProofJob :=
  match new_job "testnet" 42 (hex32 x66) "block-transition-testnet" (sha256_hex [x01])
          (hex_encode TESTNET_BLOCK_VK_HASH) request1 with
  | Ok j => j
  | _ => mkProofJob 0 "" "" 0 "" "" "" "" "" request1
  end.
Abbreviation proved := (d ← start 2 config; prove 4 config d the_job.(request)).

Lemma local_proof_accepted_witness :
  exists out r out', result proved boot = Ok out /\ local_output_result the_job out = Ok r /\
    into_prover_output r the_job = Ok out' /\ out'.(out_proof) = out.(out_proof) /\
    out'.(stderr) = string_bytes ".proving" ++ [x0a].
Proof.
  assert (match result proved boot with
    | Ok x => bool_decide (stdout x = answer_line) && bool_decide (stderr x = string_bytes ".proving" ++ [x0a])
    | _ => false end = true) as Hok by (vm_compute; reflexivity).
  destruct (result proved boot) as [out| | |] eqn:E; try discriminate Hok.
  apply andb_prop in Hok as [Hs He]. apply bool_decide_eq_true in Hs, He.
  pose proof E as E'. apply result_bind_Ok in E' as (d & Hd & Hp).
  assert (validate the_job = Ok ()) as Hv by (vm_compute; reflexivity).
  assert (the_job.(job_network) = as_str config.(network)) as Hn by (vm_compute; reflexivity).
  assert (the_job.(job_guest_id) = guest_id config.(network)) as Hg by (vm_compute; reflexivity).
  assert (the_job.(job_vkey_hash) = hex_encode config.(expected_vk_hash)) as Hk by (vm_compute; reflexivity).
  assert (sha256_hex [x01] = the_job.(job_block_elf_sha256)) as Helf by (vm_compute; reflexivity).
  assert (parsed answer_line = Some response3) as Hparsed by (vm_compute; reflexivity).
  destruct (local_proof_accepted 4 config d the_job (final (start 2 config) boot) out Hv Hn Hg Hk Hp)
    as (r & w' & elf & key & Hr & Hread & (response & Hresp & _ & Hkey) & _ & Haccept & _).
  change (Ok [x01] = Ok elf) in Hread. apply Ok_inj in Hread. subst elf.
  rewrite Hs in Hresp. change (parsed answer_line = Some response) in Hresp.
  rewrite Hparsed in Hresp. apply (inj Some) in Hresp. subst response.
  change (Some (hex_encode config.(expected_vk_hash)) = Some key) in Hkey. apply (inj Some) in Hkey. subst key.
  destruct (Haccept Helf (eq_sym Hk)) as (out' & Ho & Hproof & _ & Herr & _).
  exists out, r, out'. split; [reflexivity|]. split; [exact Hr|]. split; [exact Ho|]. split; [exact Hproof|].
  rewrite Herr. exact He.
Defined.
End DaemonWitness.
