(* ===== verification/LocalBackend.v ===== *)
(** * The local proof backend

    [LocalProofBackend] of [proof_queue.rs], and the local half of
    [ProofBackend]: a task that owns the prover daemon and serves the requests
    of a bounded channel one after the other, answering each on its own
    one-shot channel, until it is told to stop.  The task and its clients run
    concurrently: the model is a step relation on the channels and the world. *)
From S2P Require Import Prelude External Instances Effects ProofJob ProofQueue.
From stdpp Require Import relations.

(** [Stopping]: the loop was left and the daemon terminated, but the channels
    are not dropped yet. *)
Inductive Phase := Serving | Stopping | Stopped.
#[export] Instance phase_eq_dec : EqDecision Phase.
Proof. solve_decision. Defined.

Section backend.
Context {W : Type} `{!Daemon W, !DaemonJson, !Hex, !Sha, !Json ProofRequest}.

(** The channels.  A ticket holds its job and the receiving end of its one-shot
    channel: it is the index of the job in [tickets]. *)
Record LocalProofBackend := mkLocal {
  capacity : nat;                                       (* [proof_prepare_window] *)
  tickets : list ProofJob;
  requests : list (nat * ProofJob);                     (* the [mpsc] buffer *)
  shutdown_sent : bool;
  phase : Phase;
  slot : option ProverDaemon;
  replies : gmap nat (outcome (ProofResult Value));     (* the filled one-shot channels *)
}.

Definition set_phase (p : Phase) (requests : list (nat * ProofJob)) (s : LocalProofBackend) : LocalProofBackend :=
  mkLocal s.(capacity) s.(tickets) requests s.(shutdown_sent) p s.(slot) s.(replies).

(** [LocalProofBackend::start] *)
Definition local_start (window : nat) : prog W LocalProofBackend :=
  daemon ← daemon_start;
  lift (if (window =? 0)%nat then Panic "mpsc bounded channel requires buffer > 0" else Ok ()) ;;
  mret (mkLocal window [] [] false Serving (Some daemon) ∅).

(** [LocalProofBackend::submit], after [ProofBackend::submit] validated the job:
    [None] while the channel is full and the sender waits. *)
Definition local_submit (s : LocalProofBackend) (job : ProofJob) : option (LocalProofBackend * outcome nat) :=
  match validate job with
  | Ok _ =>
      match s.(phase) with
      | Stopped => Some (s, Err (Anyhow "local proof backend is stopped"))
      | _ =>
          if (length s.(requests) <? s.(capacity))%nat then
            let ticket := length s.(tickets) in
            Some (mkLocal s.(capacity) (s.(tickets) ++ [job]) (s.(requests) ++ [(ticket, job)])
                    s.(shutdown_sent) s.(phase) s.(slot) s.(replies), Ok ticket)
          else None
      end
  | Err e => Some (s, Err e)
  | Panic p => Some (s, Panic p)
  | OutOfFuel => Some (s, OutOfFuel)
  end.

(** [LocalProofBackend::shutdown]: a message no one takes is dropped with the channel. *)
Definition local_shutdown (s : LocalProofBackend) : LocalProofBackend :=
  mkLocal s.(capacity) s.(tickets) s.(requests) true s.(phase) s.(slot) s.(replies).

(** One round of the task: the biased [select!] takes a shutdown message first,
    then the next request; [None] while there is neither. *)
Definition serve (s : LocalProofBackend) : option (prog W LocalProofBackend) :=
  match s.(phase) with
  | Serving =>
      if s.(shutdown_sent) then
        Some (match s.(slot) with Some d => daemon_terminate d | None => mret () end ;;
              mret (mkLocal s.(capacity) s.(tickets) s.(requests) true Stopping None s.(replies)))
      else
        match s.(requests) with
        | [] => None
        | (ticket, job) :: rest =>
            Some ('(slot, answer) ← run_local_job s.(slot) job;
                  mret (mkLocal s.(capacity) s.(tickets) rest s.(shutdown_sent) Serving slot
                          (<[ticket := answer]> s.(replies))))
        end
  | Stopping => Some (mret (set_phase Stopped [] s))
  | Stopped => None
  end.

(** [ProofBackend::wait] on a local ticket; [None] while the receiver waits. *)
Definition local_wait (s : LocalProofBackend) (ticket : nat) (job : ProofJob) : option (outcome ProverOutput) :=
  match s.(replies) !! ticket with
  | Some reply => Some (r ← reply; into_prover_output r job)
  | None =>
      if decide (s.(phase) = Stopped)
      then Some (Err (Anyhow "local proof task stopped before returning a result")) else None
  end.

(** A round of the task; a panic drops its channels. *)
Inductive task_step : W * LocalProofBackend -> W * LocalProofBackend -> Prop :=
| task_serves w s s' p : serve s = Some p -> result p w = Ok s' -> task_step (w, s) (final p w, s')
| task_panics w s p : serve s = Some p -> is_ok (result p w) = false ->
    task_step (w, s) (final p w, set_phase Stopped [] s).

(** The clients, the task, and everything else that moves the world. *)
Inductive step : W * LocalProofBackend -> W * LocalProofBackend -> Prop :=
| step_submit w s s' job r : local_submit s job = Some (s', r) -> step (w, s) (w, s')
| step_shutdown w s : step (w, s) (w, local_shutdown s)
| step_task x y : task_step x y -> step x y
| step_world w w' s : step (w, s) (w', s).

(** ** The order of service *)

(** The requests of the tickets from [k] on. *)
Definition queued_from (k : nat) (jobs : list ProofJob) : list (nat * ProofJob) :=
  imap (fun i job => (k + i, job)) (drop k jobs).

(** A reply is what [run_local_job] returned for the ticket's own job. *)
Definition own_reply (s : LocalProofBackend) : Prop :=
  forall t r, s.(replies) !! t = Some r -> exists job d d' w,
    s.(tickets) !! t = Some job /\ result (run_local_job d job) w = Ok (d', r).

(** The first [k] tickets were replied to, and no other; unless the task has
    stopped, the rest are queued in order. *)
Record in_order (s : LocalProofBackend) (k : nat) : Prop := {
  order_replies t : is_Some (s.(replies) !! t) <-> t < k;
  order_tickets : k <= length s.(tickets);
  order_queue : s.(requests) = if decide (s.(phase) = Stopped) then [] else queued_from k s.(tickets);
  order_room : length s.(requests) <= s.(capacity);
  order_own : own_reply s;
}.

Lemma queued_from_length k jobs : length (queued_from k jobs) = length jobs - k.
Proof. unfold queued_from. by rewrite length_imap, length_drop. Qed.

Lemma queued_from_snoc k jobs job :
  k <= length jobs -> queued_from k (jobs ++ [job]) = queued_from k jobs ++ [(length jobs, job)].
Proof.
  intros Hk. unfold queued_from. rewrite drop_app_le by done. rewrite imap_app. cbn.
  rewrite Nat.add_0_r, length_drop. by replace (k + (length jobs - k)) with (length jobs) by lia.
Qed.

Lemma queued_from_cons k jobs t job rest :
  queued_from k jobs = (t, job) :: rest ->
  t = k /\ jobs !! k = Some job /\ k < length jobs /\ rest = queued_from (S k) jobs.
Proof.
  unfold queued_from. intros E. destruct (drop k jobs) as [|j js] eqn:Ed; [done|].
  assert (jobs !! k = Some j) as Hk by (by rewrite <- (Nat.add_0_r k), <- lookup_drop, Ed).
  cbn in E. injection E as <- <- <-. split; [lia|]. split; [done|].
  split; [by apply lookup_lt_Some in Hk|].
  assert (drop (S k) jobs = js) as -> by (by rewrite <- Nat.add_1_r, <- drop_drop, Ed).
  apply imap_ext. intros i x _. cbn. f_equal. lia.
Qed.

Lemma in_order_stop s k : in_order s k -> in_order (set_phase Stopped [] s) k.
Proof.
  intros [Hr Ht Hq Hc Ho]. constructor; cbn; [done|done| |lia|done]. by rewrite decide_True.
Qed.

Lemma in_order_step w s w' s' k :
  step (w, s) (w', s') -> in_order s k -> exists k', k <= k' /\ in_order s' k'.
Proof.
  intros Hs Hi. pose proof Hi as [Hr Ht Hq Hc Ho].
  remember (w, s) as x eqn:Ex. remember (w', s') as y eqn:Ey.
  destruct Hs as [w0 s0 s1 job r E|w0 s0|x y Hs|w0 w1 s0]; [| |subst; inversion Hs as [w0 s0 s1 p E Er|w0 s0 p E Er]; subst; clear Hs|]; simplify_eq.
  - exists k. split; [done|]. unfold local_submit in E. destruct (validate job); try (by simplify_eq).
    destruct (phase s) eqn:Ep; try (by simplify_eq);
      (destruct (length (requests s) <? capacity s) eqn:El; [|done]; injection E as <- <-; bool_hyps;
       rewrite decide_False in Hq by congruence; constructor; cbn;
       [done|rewrite length_app; lia|rewrite ?Ep, decide_False by done; by rewrite Hq, queued_from_snoc
       |rewrite length_app; cbn; lia|];
       intros t x Hx; destruct (Ho t x Hx) as (j & d & d' & w1 & Hj & Hrun);
       exists j, d, d', w1; split; [|done]; by apply lookup_app_l_Some).
  - exists k. split; [done|]. by constructor.
  - unfold serve in E. destruct (phase s) eqn:Ep; [| |done].
    + rewrite decide_False in Hq by congruence. destruct (shutdown_sent s) eqn:Esh.
      * injection E as <-. exists k. split; [done|].
        apply result_bind_Ok in Er as ([] & _ & Er). rewrite result_ret in Er. apply Ok_inj in Er. subst s'.
        constructor; cbn; try done. 
      * destruct (requests s) as [|[t job] rest] eqn:Eq; [done|]. injection E as <-.
        symmetry in Hq. apply queued_from_cons in Hq as (-> & Hj & Hlt & ->).
        apply result_bind_Ok in Er as ([d' answer] & Hrun & Er). rewrite result_ret in Er. apply Ok_inj in Er. subst s'.
        exists (S k). split; [lia|]. constructor; cbn.
        -- intros t. destruct (decide (t = k)) as [->|Hne].
           ++ rewrite lookup_insert_eq. split; [lia|by eexists].
           ++ rewrite lookup_insert_ne by done. rewrite Hr. lia.
        -- lia.
        -- done.
        -- cbn in Hc. lia.
        -- intros t r Hx. cbn [replies tickets] in *. destruct (decide (t = k)) as [->|Hne].
           ++ rewrite lookup_insert_eq in Hx. injection Hx as <-. by eexists _, _, _, _.
           ++ rewrite lookup_insert_ne in Hx by done. by apply Ho.
    + injection E as <-. rewrite result_ret in Er. apply Ok_inj in Er. subst s'.
      exists k. split; [done|]. by apply in_order_stop.
  - exists k. split; [done|]. by apply in_order_stop.
  - by exists k.
Qed.

Lemma task_step_phase w s w' s' :
  task_step (w, s) (w', s') -> s'.(tickets) = s.(tickets) /\ s'.(capacity) = s.(capacity) /\
    (s'.(phase) = Serving -> s.(phase) = Serving /\ s'.(shutdown_sent) = s.(shutdown_sent)) .
Proof.
  intros Hs. inversion Hs as [w0 s0 s1 p E Er|w0 s0 p E Er]; subst; clear Hs; [|done].
  unfold serve in E. destruct (phase s) eqn:Ep; [| |done].
  - destruct (shutdown_sent s); [|destruct (requests s) as [|[t job] rest]; [done|]]; injection E as <-.
    + apply result_bind_Ok in Er as ([] & _ & Er). rewrite result_ret in Er. apply Ok_inj in Er. by subst.
    + apply result_bind_Ok in Er as ([d' answer] & _ & Er). rewrite result_ret in Er. apply Ok_inj in Er. by subst.
  - injection E as <-. rewrite result_ret in Er. apply Ok_inj in Er. by subst.
Qed.

Lemma step_capacity w s w' s' : step (w, s) (w', s') -> s'.(capacity) = s.(capacity).
Proof.
  intros Hs. inversion Hs as [w0 s0 s1 job r E|w0 s0|x y Ht|w0 w1 s0]; subst; try done.
  - unfold local_submit in E. destruct (validate job); try (by simplify_eq).
    destruct (phase s); try (by simplify_eq); by destruct (_ <? _); simplify_eq.
  - by apply task_step_phase in Ht as (_ & ? & _).
Qed.

Lemma reachable_in_order (d : ProverDaemon) window w0 w s :
  rtc step (w0, mkLocal window [] [] false Serving (Some d) ∅) (w, s) ->
  s.(capacity) = window /\ exists k, in_order s k.
Proof.
  intros Hr.
  refine (rtc_ind_r (fun x => x.2.(capacity) = window /\ exists k, in_order x.2 k) _ _ _ (w, s) Hr).
  - split; [done|]. exists 0. constructor; cbn.
    + intros t. rewrite lookup_empty. split; [by intros []|lia].
    + lia.
    + done.
    + lia.
    + intros t r. cbn. by rewrite lookup_empty.
  - intros [w1 s1] [w2 s2] _ Hs [Hcap [k Hi]]. cbn [snd] in *. split; [rewrite (step_capacity _ _ _ _ Hs); done|].
    destruct (in_order_step _ _ _ _ _ Hs Hi) as (k' & _ & Hi'). by exists k'.
Qed.

(** A ticket waits only while its request is in the queue of a live task. *)
Lemma in_order_wait s k t job :
  in_order s k -> s.(tickets) !! t = Some job ->
  (local_wait s t job = None <-> s.(phase) <> Stopped /\ (t, job) ∈ s.(requests)).
Proof.
  intros [Hr Ht Hq Hc Ho] Hj. unfold local_wait.
  destruct (replies s !! t) as [reply|] eqn:Er.
  - split; [done|]. intros [Hp Hin]. exfalso. assert (t < k) as Hlt by (apply Hr; by eexists).
    rewrite Hq, decide_False in Hin by done. unfold queued_from in Hin.
    apply list_elem_of_lookup in Hin as (i & Hin). rewrite list_lookup_imap in Hin.
    apply fmap_Some in Hin as (x & _ & E). injection E as E _. lia.
  - destruct (decide (phase s = Stopped)) as [Hs|Hs]; [by split; [|intros [? _]]|].
    split; [|done]. intros _. split; [done|].
    assert (k <= t) as Hle.
    { destruct (decide (t < k)) as [Hlt|]; [|lia]. apply Hr in Hlt as [x Hx]. congruence. }
    rewrite Hq. apply list_elem_of_lookup. exists (t - k).
    unfold queued_from. rewrite list_lookup_imap, lookup_drop.
    replace (k + (t - k)) with t by lia. by rewrite Hj.
Qed.

(** Left alone, the task answers or fails every ticket, one round per request
    and two to stop. *)
Lemma task_drains w s k :
  in_order s k -> exists n w' s', n <= length s.(requests) + 2 /\ nsteps task_step n (w, s) (w', s') /\
    forall t job, s'.(tickets) !! t = Some job -> local_wait s' t job <> None.
Proof.
  assert (forall s k, in_order s k -> s.(phase) = Stopped ->
    forall t job, s.(tickets) !! t = Some job -> local_wait s t job <> None) as Hstop.
  { intros s0 k0 Hi Hp t job Hj. rewrite (in_order_wait _ _ _ _ Hi Hj). naive_solver. }
  assert (forall (w : W) s k, in_order s k -> s.(phase) = Stopping -> exists n w' s', n <= 1 /\
    nsteps task_step n (w, s) (w', s') /\
    forall t job, s'.(tickets) !! t = Some job -> local_wait s' t job <> None) as Hstopping.
  { intros w0 s0 k0 Hi Hp. exists 1, w0, (set_phase Stopped [] s0). split; [done|]. split.
    - apply nsteps_once. change w0 with (final (mret (M := prog W) (set_phase Stopped [] s0)) w0) at 2.
      apply task_serves; [|done].
      unfold serve. by rewrite Hp.
    - apply (Hstop _ k0); [by apply in_order_stop|done]. }
  remember (length s.(requests)) as len eqn:El. revert w s k El.
  induction len as [len IH] using lt_wf_ind. intros w s k El Hi.
  destruct (phase s) eqn:Ep; [|destruct (Hstopping w s k Hi Ep) as (n & w' & s' & ? & ? & ?); exists n, w', s'; split_and!; [lia|done..]
    |exists 0, w, s; split; [lia|]; split; [constructor|by eapply Hstop]].
  destruct (serve s) as [p|] eqn:Es.
  2: { exists 0, w, s. split; [lia|]. split; [constructor|]. intros t job Hj.
       rewrite (in_order_wait _ _ _ _ Hi Hj). unfold serve in Es. rewrite Ep in Es.
       destruct (shutdown_sent s); [done|]. destruct (requests s) as [|[]] eqn:Eq; [|done]. set_solver. }
  destruct (is_ok (result p w)) eqn:Eok.
  2: { exists 1, (final p w), (set_phase Stopped [] s). split; [lia|]. split.
       - apply nsteps_once. by apply task_panics.
       - apply (Hstop _ k); [by apply in_order_stop|done]. }
  apply is_ok_true in Eok as [s1 Er].
  assert (task_step (w, s) (final p w, s1)) as Hs by (by apply task_serves).
  destruct (in_order_step _ _ _ _ k (step_task _ _ Hs) Hi) as (k1 & _ & Hi1).
  destruct (phase s1) eqn:Ep1.
  - assert (length s1.(requests) < len) as Hlt.
    { unfold serve in Es. rewrite Ep in Es. destruct (shutdown_sent s).
      - injection Es as <-. apply result_bind_Ok in Er as ([] & _ & Er). rewrite result_ret in Er.
        apply Ok_inj in Er. by subst.
      - destruct (requests s) as [|[t job] rest]; [done|]. injection Es as <-.
        apply result_bind_Ok in Er as ([d' answer] & _ & Er). rewrite result_ret in Er.
        apply Ok_inj in Er. subst. cbn. lia. }
    destruct (IH _ Hlt (final p w) s1 k1 eq_refl Hi1) as (n & w' & s' & Hn & Hsteps & Hall).
    exists (S n), w', s'. split; [lia|]. split; [by econstructor|done].
  - destruct (Hstopping (final p w) s1 k1 Hi1 Ep1) as (n & w' & s' & Hn & Hsteps & Hall).
    exists (S n), w', s'. split; [lia|]. split; [by econstructor|done].
  - exists 1, (final p w), s1. split; [lia|]. split; [by apply nsteps_once|by eapply Hstop].
Qed.

(** C29: The local backend serves its tickets in order.  However its clients
    submit and shut it down and whatever the daemon does, at most the prepare
    window of requests is queued; the tickets answered so far are the first
    ones handed out; every answer is what [run_local_job] returned for the
    ticket's own job; and a ticket waits only while its request is queued in a
    task that has not stopped.  From any such state the task, left alone, reaches
    within two more rounds than it has requests a state where no ticket waits. *)
Theorem local_backend_in_order (d : ProverDaemon) window w0 w s :
  rtc step (w0, mkLocal window [] [] false Serving (Some d) ∅) (w, s) ->
  length s.(requests) <= window /\
  (exists k, forall t, is_Some (s.(replies) !! t) <-> t < k) /\
  own_reply s /\
  (forall t job, s.(tickets) !! t = Some job ->
     (local_wait s t job = None <-> s.(phase) <> Stopped /\ (t, job) ∈ s.(requests))) /\
  (exists n w' s', n <= length s.(requests) + 2 /\ nsteps task_step n (w, s) (w', s') /\
     forall t job, s'.(tickets) !! t = Some job -> local_wait s' t job <> None).
Proof.
  intros Hr. destruct (reachable_in_order _ _ _ _ _ Hr) as [Hcap [k Hi]].
  split; [rewrite <- Hcap; apply Hi|]. split; [exists k; apply Hi|]. split; [apply Hi|].
  split; [intros t job Hj; by apply (in_order_wait _ k)|by apply (task_drains w s k)].
Qed.
End backend.

(** ** A backend to run *)
Module LocalBackendWitness.
Import HexInstance ShaInstance ProofJobInstance ProofJobWitness.

Definition the_job : ProofJob := match job1 with Ok j => j | _ => mkProofJob 0 "" "" 0 "" "" "" "" "" request1 end.

(** A daemon that counts its proofs and refuses each. *)
#[local] Instance counting : Daemon nat := {|
  ProverDaemon := ();
  daemon_start := mret ();
  daemon_prove d r := perform (fun w => (S w, Err (ProverRequestErr "refused")));
  daemon_terminate d := mret ();
  prepare_prover_request r := mret ();
|}.

Definition Sys : Type := nat * @LocalProofBackend nat counting daemon_json.
Definition submits (x : Sys) : Sys :=
  match local_submit x.2 the_job with Some (s, _) => (x.1, s) | None => x end.
Definition serves (x : Sys) : Sys :=
  match serve x.2 with
  | Some p => match result p x.1 with Ok s => (final p x.1, s) | _ => x end
  | None => x
  end.

Lemma submits_step x : rtc step x (submits x).
Proof.
  unfold submits. destruct x as [w s]. cbn. destruct (local_submit s the_job) as [[s' r]|] eqn:E; [|done].
  apply rtc_once. by eapply step_submit.
Qed.
Lemma serves_step x : rtc step x (serves x).
Proof.
  unfold serves. destruct x as [w s]. cbn. destruct (serve s) as [p|] eqn:E; [|done].
  destruct (result p w) eqn:Er; try done. apply rtc_once, step_task. by apply task_serves.
Qed.

Definition booted : Sys := (0, mkLocal 2 [] [] false Serving (Some ()) ∅).
Definition served : Sys := serves (submits (submits (submits booted))).

Lemma local_backend_in_order_witness :
  length served.2.(requests) = 1 /\ served.1 = 1 /\
  is_Some (served.2.(replies) !! 0) /\ own_reply served.2 /\
  (local_wait served.2 1 the_job = None <-> served.2.(phase) <> Stopped /\ (1, the_job) ∈ served.2.(requests)).
Proof.
  assert (rtc step booted served) as Hr.
  { etrans; [|apply serves_step]. etrans; [|apply submits_step]. etrans; [|apply submits_step]. apply submits_step. }
  destruct (local_backend_in_order (tt : @ProverDaemon nat counting) 2 0 served.1 served.2) as (_ & [k Hk] & Hown & Hwait & _).
  { rewrite <- (surjective_pairing served). exact Hr. }
  split; [vm_compute; reflexivity|]. split; [vm_compute; reflexivity|].
  split; [eexists; vm_compute; reflexivity|]. split; [exact Hown|].
  apply Hwait. vm_compute. reflexivity.
Defined.
End LocalBackendWitness.
