(* ===== verification/Services.v ===== *)
(** * The services the pipeline drives

    Redis, the Solana bridge client and the sender, as classes of operations
    over the world, with what the pipeline relies on as laws.  A law speaks of
    three things of a world, its [View]: the pipeline's keys of the Redis
    database, the header stored by the bridge program, and the pending-mint
    buffers whose mints have all been processed.  An operation may change nothing else the laws mention, and
    may fail at any point: a failed write may or may not have happened. *)
From S2P Require Import Prelude External Instances Effects NetworkRetry Chain ProofJob Files.
From stdpp Require Import pretty.
Import NetworkRetryPolicyOps.

(** The Redis database is shared with the proof queue, whose keys all contain a
    colon.  The pipeline's own keys contain none. *)
Definition plain_key (k : string) : bool :=
  forallb (fun c => negb (Ascii.eqb c (Ascii.ascii_of_N 58))) (String.list_ascii_of_string k).
Class PlainKey (k : string) : Prop := is_plain_key : plain_key k = true.

Lemma plain_key_app a b : plain_key (a +:+ b) = plain_key a && plain_key b.
Proof.
  induction a as [|c a IH]; [done|].
  change (plain_key (String c a +:+ b)) with (negb (Ascii.eqb c (Ascii.ascii_of_N 58)) && plain_key (a +:+ b)).
  by rewrite IH, andb_assoc.
Qed.

#[export] Instance plain_app a b : PlainKey a -> PlainKey b -> PlainKey (a +:+ b).
Proof. unfold PlainKey. by rewrite plain_key_app, andb_true_iff. Qed.
#[export] Hint Extern 2 (PlainKey (String _ _)) => vm_compute; reflexivity : typeclass_instances.

#[export] Instance plain_decimal n : PlainKey (decimal n).
Proof.
  assert (forall x, plain_key (String (pretty_N_char (x mod 10)) "") = true) as Hdigit.
  { intros x. pose proof (N.mod_lt x 10 ltac:(lia)) as Hx. destruct (x mod 10)%N as [|p]; [done|].
    do 4 (destruct p as [p|p|]; try done; try lia). }
  assert (forall x s, plain_key s = true -> plain_key (pretty_N_go x s) = true) as Hgo.
  { intros x. induction (N.lt_wf_0 x) as [x _ IH]. intros s Hs.
    destruct (decide (0 < x)%N) as [Hx|Hx].
    - rewrite pretty_N_go_step by done. apply IH; [apply N.div_lt; lia|].
      change (plain_key (String (pretty_N_char (x mod 10)) "" +:+ s) = true).
      by rewrite plain_key_app, Hdigit, Hs.
    - replace x with 0%N by lia. by rewrite pretty_N_go_0. }
  unfold PlainKey, decimal, pretty, pretty_N. destruct (decide (n = 0)%N); [done|]. by apply Hgo.
Qed.

(** [doge_bridge_client::PendingMint]: recipient and amount. *)
Abbreviation PendingMint := (bytes * N)%type.

Record View := mkView {
  v_db : gmap string string;
  v_header : bytes;
  v_minted : list (bytes * list PendingMint);
}.

(** The same database and header, and every mint still processed. *)
Definition agrees (s s' : View) : Prop :=
  s'.(v_db) = s.(v_db) /\ s'.(v_header) = s.(v_header) /\ s.(v_minted) ⊆ s'.(v_minted).

Definition with_key (k v : string) (s : View) : View :=
  mkView (<[k := v]> s.(v_db)) s.(v_header) s.(v_minted).
Definition without_key (k : string) (s : View) : View :=
  mkView (delete k s.(v_db)) s.(v_header) s.(v_minted).
Definition with_header (h : bytes) (s : View) : View := mkView s.(v_db) h s.(v_minted).

#[export] Instance agrees_preorder : PreOrder agrees.
Proof.
  split; [by intros s; split_and!|]. intros a b c (E1 & E2 & M1) (E3 & E4 & M2). unfold agrees.
  rewrite E3, E4. split_and!; [done..|]. by etrans.
Qed.

Lemma agrees_with_key k v s s' : agrees s s' -> agrees (with_key k v s) (with_key k v s').
Proof. intros (E & Eh & Hm). unfold agrees; cbn. by rewrite E. Qed.
Lemma agrees_without_key k s s' : agrees s s' -> agrees (without_key k s) (without_key k s').
Proof. intros (E & Eh & Hm). unfold agrees; cbn. by rewrite E. Qed.
Lemma agrees_with_header h s s' : agrees s s' -> agrees (with_header h s) (with_header h s').
Proof. by intros (E & Eh & Hm). Qed.
#[export] Hint Resolve agrees_with_key agrees_without_key agrees_with_header : view.

(** [doge_bridge_client::ProcessMintsResult] *)
Record ProcessMintsResult := mkProcessMintsResult {
  res_signatures : list string;      (* [to_string()] of each signature *)
  res_groups_processed : nat;
  res_total_mints_processed : nat;
  fully_completed : bool;
}.

Record BlockUpdateRequestBody := mkBlockUpdateRequest {
  idempotency_key : string;
  proof_hex : string;
  body_header_hex : string;
  body_mint_buffer : string;
  body_txo_buffer : string;
  body_mint_buffer_bump : N;
  body_txo_buffer_bump : N;
}.

(** What [initialize] reads of the bridge state account. *)
Record BridgeChainState := mkBridgeChainState {
  operator_pubkey : bytes;
  custodian_wallet_config_hash : bytes;
  bridge_header : bytes;
}.

Class Store (W : Type) := {
  store_get : string -> prog W (option string);
  store_set : string -> string -> prog W ();
  store_del : string -> prog W ();
}.

Class BridgeClient (W : Type) := {
  pubkey_to_string : bytes -> string;
  setup_pending_mints_buffer : N -> list PendingMint -> prog W ((bytes * N) + BridgeError);
  setup_txo_buffer : N -> list N -> prog W ((bytes * N) + BridgeError);
  process_remaining_pending_mints_groups :
    list PendingMint -> bytes -> N -> prog W (ProcessMintsResult + BridgeError);
  get_current_bridge_state : prog W (BridgeChainState + BridgeError);
  get_doge_mint : prog W (bytes + BridgeError);
  get_account : bytes -> prog W (() + ClientErrorKind);
}.

(** The POST of a block update, with its bearer header. *)
Class Sender (W R : Type) := {
  post_block_update : BlockUpdateRequestBody -> option string -> prog W (R + ReqwestError);
}.

(** The proof backend, as the pipeline uses it. *)
Class ProofService (W : Type) := {
  ProofTicket : Type;
  proof_submit : ProofJob -> prog W ProofTicket;
  proof_wait : ProofTicket -> prog W ProverOutput;
}.

(** An operation that leaves every view it starts in. *)
Definition quiet {W A} (view : W -> View) (p : prog W A) : Prop :=
  forall s, triple (fun w => agrees s (view w)) (fun w => agrees s (view w)) p
              (fun _ w => agrees s (view w)).

(** A write: the view is [s] or [s'] throughout, and [s'] once it returned. *)
Definition writes {W A} (view : W -> View) (f : View -> View) (p : prog W A) : Prop :=
  forall s, triple (fun w => agrees s (view w))
              (fun w => agrees s (view w) \/ agrees (f s) (view w)) p
              (fun r w => match r with
                          | Ok _ => agrees (f s) (view w)
                          | _ => agrees s (view w) \/ agrees (f s) (view w)
                          end).

(** A command that answers or fails in its library. *)
Definition answers {A} (r : outcome A) : bool :=
  match r with Ok _ | Err (External _) => true | _ => false end.

Class ServiceLaws (W R : Type)
    `{!Clock W, !Files W, !Store W, !BridgeClient W, !Sender W R, !HttpResponse R, !Hex} := {
  view : W -> View;
  sleep_view d w : view (sleep d w) = view w;
  get_quiet k : quiet view (store_get k);
  (** a read returns what is stored *)
  get_reads k w v `{!PlainKey k} : result (store_get k) w = Ok v -> v = (view w).(v_db) !! k;
  get_answers k w : answers (result (store_get k) w) = true;
  set_answers k v w : answers (result (store_set k v) w) = true;
  del_answers k w : answers (result (store_del k) w) = true;
  set_writes k v `{!PlainKey k} : writes view (with_key k v) (store_set k v);
  del_writes k `{!PlainKey k} : writes view (without_key k) (store_del k);
  mints_buffer_quiet h mints : quiet view (setup_pending_mints_buffer h mints);
  txo_buffer_quiet h txos : quiet view (setup_txo_buffer h txos);
  process_quiet mints b bump : quiet view (process_remaining_pending_mints_groups mints b bump);
  process_answers mints b bump w :
    exists r, result (process_remaining_pending_mints_groups mints b bump) w = Ok r;
  (** [fully_completed] is reported when every mint of the buffer is processed *)
  process_completes mints b bump w r :
    result (process_remaining_pending_mints_groups mints b bump) w = Ok (inl r) ->
    r.(fully_completed) = true ->
    (b, mints) ∈ (view (final (process_remaining_pending_mints_groups mints b bump) w)).(v_minted);
  state_quiet : quiet view get_current_bridge_state;
  state_reads w c :
    result get_current_bridge_state w = Ok (inl c) -> c.(bridge_header) = (view w).(v_header);
  mint_quiet : quiet view get_doge_mint;
  account_quiet a : quiet view (get_account a);
  read_quiet p : quiet view (fs_read p);
  write_quiet p b : quiet view (fs_write p b);
  create_dir_quiet p : quiet view (fs_create_dir_all p);
  rename_quiet p q : quiet view (fs_rename p q);
  current_dir_quiet : quiet view current_dir;
  (** a block update moves the on-chain header to the one it carries, or fails;
      the sender may report a failure of an update that went through, but a
      success only of one that did *)
  post_writes body auth h s :
    hex_decode body.(body_header_hex) = Some h ->
    triple (fun w => agrees s (view w)) (fun w => agrees s (view w) \/ agrees (with_header h s) (view w))
      (post_block_update body auth)
      (fun r w => (agrees s (view w) \/ agrees (with_header h s) (view w)) /\
         forall response, r = Ok (inl response) -> is_success (response_status response) = true ->
           response_status response <> ACCEPTED -> agrees (with_header h s) (view w));
}.

(** ** Retried calls *)

(** [retry_bridge_network(..).await?] and [sender.block_update(..).await?] *)
Definition question {W A E} (f : E -> error) (p : prog W (A + E)) : prog W A :=
  answer ← p;
  match answer with
  | inl a => mret a
  | inr e => lift (Err (f e))
  end.

(** The default policy stops after [DEFAULT_MAX_ATTEMPTS] attempts. *)
Definition retry_fuel : nat := N.to_nat DEFAULT_MAX_ATTEMPTS.

Section retries.
Context {W : Type} `{!Clock W}.

(** What holds before and after every attempt, sleeps included, holds of the
    loop; a fact about a successful attempt is one about its result. *)
Lemma triple_run {T E} (I C : W -> Prop) (Phi : T -> W -> Prop) (op : prog W (RetryAction T E))
    (fuel : nat) (policy : NetworkRetryPolicy) :
  (forall d w, I w -> I (sleep d w) /\ C (sleep d w)) ->
  triple I C op (fun r w => I w /\ forall v, r = Ok (Success v) -> Phi v w) ->
  triple I C (run op fuel policy) (fun r w => I w /\ forall v, r = Ok (inl v) -> Phi v w).
Proof.
  intros Hsleep Hop. unfold run. eapply triple_bind.
  - apply (triple_query I C (fun w => Ok (now w)) (fun _ w => I w)). done.
  - intros start. cbn. generalize 1%N as attempt, (initial_delay policy) as delay.
    induction fuel as [|fuel IH]; intros attempt delay; cbn [run_loop].
    + apply triple_lift. by intros w Hw.
    + eapply triple_bind; [exact Hop| |].
      2: { intros r r' w [Hw _] Hf. split; [done|]. destruct r; cbn in Hf; by simplify_eq. }
      intros [v|e|e].
      * apply triple_ret. intros w [Hw HP]. split; [done|]. intros v' [= <-]. by apply HP.
      * apply (triple_pre _ I); [|by intros w []]. case_match; [by apply triple_ret|].
        eapply triple_bind; [by apply (triple_query I C _ (fun _ w => I w))| |].
        { intros [d|]; [|by apply triple_ret].
          eapply triple_bind; [apply (triple_perform _ C _ (fun _ w => I w)) | |].
          - intros w Hw. cbn. by apply and_comm, Hsleep.
          - intros []. apply IH.
          - intros r r' w Hw Hf. split; [done|]. destruct r; cbn in Hf; by simplify_eq. }
        intros r r' w Hw Hf. split; [done|]. destruct r; cbn in Hf; by simplify_eq.
      * apply triple_ret. intros w [Hw _]. by split.
  - intros r r' w Hw Hf. split; [done|]. destruct r; cbn in Hf; by simplify_eq.
Qed.

Lemma triple_question {A E} (P C : W -> Prop) (f : E -> error) (p : prog W (A + E))
    (Q : A -> W -> Prop) (I : W -> Prop) :
  triple P C p (fun r w => I w /\ forall v, r = Ok (inl v) -> Q v w) ->
  triple P C (question f p) (fun r w => I w /\ forall v, r = Ok v -> Q v w).
Proof.
  intros Hp. unfold question. eapply triple_bind; [exact Hp| |].
  - intros [a|e].
    + apply triple_ret. intros w [Hw HQ]. split; [done|]. intros v [= <-]. by apply HQ.
    + apply triple_lift. by intros w [Hw _].
  - intros r r' w [Hw _] Hf. split; [done|]. destruct r; cbn in Hf; by simplify_eq.
Qed.

Lemma triple_retry_bridge {T} (I C : W -> Prop) (Phi : T -> W -> Prop) (op : prog W (T + BridgeError))
    (fuel : nat) (policy : NetworkRetryPolicy) :
  (forall d w, I w -> I (sleep d w) /\ C (sleep d w)) ->
  triple I C op (fun r w => I w /\ forall v, r = Ok (inl v) -> Phi v w) ->
  triple I C (retry_bridge_network fuel policy op)
    (fun r w => I w /\ forall v, r = Ok (inl v) -> Phi v w).
Proof.
  intros Hsleep Hop. apply triple_run; [done|]. eapply triple_bind; [exact Hop| |].
  - intros [v|e].
    + apply triple_ret. intros w [Hw HP]. split; [done|]. intros v' [= <-]. by apply HP.
    + apply triple_ret. intros w [Hw _]. split; [done|]. by case_match.
  - intros r r' w [Hw _] Hf. split; [done|]. destruct r; cbn in Hf; by simplify_eq.
Qed.
End retries.

(** ** Quiet computations *)
Section quiet.
Context {W : Type} (v : W -> View).

Lemma quiet_ret {A} (a : A) : quiet v (mret a).
Proof. intros s. by apply triple_ret. Qed.
Lemma quiet_lift {A} (m : outcome A) : quiet v (lift m).
Proof. intros s. by apply triple_lift. Qed.
Lemma quiet_query {A} (f : W -> outcome A) : quiet v (query f).
Proof. intros s. by apply triple_query. Qed.
Lemma quiet_bind {A B} (m : prog W A) (f : A -> prog W B) :
  quiet v m -> (forall a, quiet v (f a)) -> quiet v (m ≫= f).
Proof.
  intros Hm Hf s. eapply triple_bind; [apply Hm| |].
  - intros a. apply Hf.
  - done.
Qed.
Lemma quiet_try {A} (p : prog W A) : quiet v p -> quiet v (try p).
Proof. intros Hp s. eapply triple_try; [apply Hp|done..]. Qed.
Lemma quiet_question {A E} (f : E -> error) (p : prog W (A + E)) : quiet v p -> quiet v (question f p).
Proof. intros Hp. apply quiet_bind; [done|]. intros [a|e]; [apply quiet_ret|apply quiet_lift]. Qed.
Lemma quiet_for_each {A} (xs : list A) (body : A -> prog W ()) :
  (forall x, quiet v (body x)) -> quiet v (for_each xs body).
Proof. intros Hb s. apply triple_for_each. intros x _. apply Hb. Qed.
Lemma quiet_run {T E} `{!Clock W} (op : prog W (RetryAction T E)) fuel policy :
  (forall d w, v (sleep d w) = v w) -> quiet v op -> quiet v (run op fuel policy).
Proof.
  intros Hs Hop s. eapply triple_post; [apply (triple_run _ _ (fun _ _ => True))|].
  - intros d w Hw. by rewrite Hs.
  - eapply triple_post; [apply Hop|]. done.
  - by intros r w [Hw _].
Qed.
Lemma quiet_retry_bridge {T} `{!Clock W} (op : prog W (T + BridgeError)) fuel policy :
  (forall d w, v (sleep d w) = v w) -> quiet v op -> quiet v (retry_bridge_network fuel policy op).
Proof.
  intros Hs Hop. apply quiet_run; [done|]. apply quiet_bind; [done|]. intros. apply quiet_ret.
Qed.
End quiet.

(** ** Assertions about the view *)
Definition closed (Phi : View -> Prop) : Prop := forall s s', agrees s s' -> Phi s -> Phi s'.

Lemma closed_and (Phi Psi : View -> Prop) : closed Phi -> closed Psi -> closed (fun s => Phi s /\ Psi s).
Proof. intros HP HQ s s' Hs [H1 H2]. split; [exact (HP _ _ Hs H1)|exact (HQ _ _ Hs H2)]. Qed.
Lemma closed_or (Phi Psi : View -> Prop) : closed Phi -> closed Psi -> closed (fun s => Phi s \/ Psi s).
Proof. intros HP HQ s s' Hs [H1|H2]; [left; exact (HP _ _ Hs H1)|right; exact (HQ _ _ Hs H2)]. Qed.

Lemma quiet_closed {W A} (v : W -> View) (p : prog W A) (Phi : View -> Prop) :
  quiet v p -> closed Phi ->
  triple (fun w => Phi (v w)) (fun w => Phi (v w)) p (fun _ w => Phi (v w)).
Proof.
  intros Hp HP w Hw. destruct (Hp (v w) w (reflexivity (R := agrees) (v w))) as [Ht Hr]. split.
  - eapply Forall_impl; [exact Ht|]. intros x Hx. exact (HP _ _ Hx Hw).
  - exact (HP _ _ Hr Hw).
Qed.

Lemma writes_closed {W A} (v : W -> View) f (p : prog W A) (Phi Psi : View -> Prop) :
  writes v f p -> closed Phi -> closed Psi -> (forall s, Phi s -> Psi (f s)) ->
  triple (fun w => Phi (v w)) (fun w => Phi (v w) \/ Psi (v w)) p
    (fun r w => match r with Ok _ => Psi (v w) | _ => Phi (v w) \/ Psi (v w) end).
Proof.
  intros Hp HP HQ Hf w Hw. destruct (Hp (v w) w (reflexivity (R := agrees) (v w))) as [Ht Hr].
  assert (forall x, agrees (v w) (v x) \/ agrees (f (v w)) (v x) -> Phi (v x) \/ Psi (v x)) as Hx.
  { intros x [Hx|Hx]; [left; exact (HP _ _ Hx Hw)|right; exact (HQ _ _ Hx (Hf _ Hw))]. }
  split; [by eapply Forall_impl|].
  destruct (result p w) as [a|e|m|]; [exact (HQ _ _ Hr (Hf _ Hw))|by apply Hx..].
Qed.

Create HintDb quiet.
#[export] Hint Resolve quiet_ret quiet_lift quiet_query quiet_try quiet_question quiet_for_each
  get_quiet mints_buffer_quiet txo_buffer_quiet process_quiet state_quiet mint_quiet account_quiet
  read_quiet write_quiet create_dir_quiet rename_quiet current_dir_quiet : quiet.
(** Proves a composed computation quiet from its parts. *)
Ltac solve_quiet :=
  repeat lazymatch goal with
  | |- quiet _ (mbind _ _) => apply quiet_bind; [|intros ?]
  | |- quiet _ (for_each _ _) => apply quiet_for_each; intros ?
  | |- quiet _ (run _ _ _) => apply quiet_run; [apply sleep_view|]
  | |- quiet _ (retry_bridge_network _ _ _) => apply quiet_retry_bridge; [apply sleep_view|]
  | |- quiet _ (question _ _) => apply quiet_question
  | |- quiet _ (try _) => apply quiet_try
  | |- quiet _ (match _ with _ => _ end) => case_match
  | |- quiet _ _ => solve [auto with quiet]
  end.

(** The default policy answers whenever its operation does. *)
Lemma run_answers {W} `{!Clock W} {T E} (op : prog W (RetryAction T E)) w :
  (forall w, exists a, result op w = Ok a) ->
  exists r, result (run op retry_fuel NetworkRetryPolicyOps.default) w = Ok r.
Proof.
  intros Hop. unfold run, retry_fuel. rewrite result_bind. cbn [query result snd].
  change (result (query (fun w0 => Ok (now w0))) w) with (Ok (now w) : outcome N). cbn iota.
  destruct (run_loop_spec op Hop (N.to_nat DEFAULT_MAX_ATTEMPTS) NetworkRetryPolicyOps.default (now w)
    DEFAULT_MAX_ATTEMPTS 1 0 w) as (sl & a & d & w' & action & _ & _ & _ & Hr & _);
    [vm_compute; discriminate|vm_compute; discriminate|done|vm_compute; done|vm_compute; discriminate|].
  exists (outcome_of action). exact Hr.
Qed.

Lemma retry_bridge_answers {W} `{!Clock W} {T} (op : prog W (T + BridgeError)) w :
  (forall w, exists a, result op w = Ok a) ->
  exists r, result (retry_bridge_network retry_fuel NetworkRetryPolicyOps.default op) w = Ok r.
Proof.
  intros Hop. apply run_answers. intros w'. destruct (Hop w') as [a Ha]. rewrite result_bind, Ha.
  by eexists.
Qed.
