(* ===== verification/Backend.v ===== *)
(** * The proof backend the pipeline uses

    [ProofBackend] of [proof_queue.rs]: one interface over the local task of
    [LocalBackend] and the Redis queue of [ProofQueue], chosen at start-up from
    the configuration.  The clients of the local task wait by letting it run;
    the Redis queue shares its database with the pipeline's checkpoints, and
    the last section shows that they do not meet: either backend is the quiet
    proof service that the pipeline's theorems assume. *)
From S2P Require Import Prelude External Instances Effects NetworkRetry Chain ProofJob.
From S2P Require Import ProofQueue LocalBackend Files Services.

(** ** The handle, the tickets *)
Inductive ProofBackend :=
| BackendLocal
| BackendRedis (keys : QueueKeys) (wait_interval : N).

Inductive Ticket :=
| TicketLocal (job : ProofJob) (index : nat)   (* the receiving end: its index in the local backend *)
| TicketRedis (job : ProofJob).

Definition proof_namespace (prefix network : string) (seed : N) : string :=
  prefix +:+ "-" +:+ network +:+ "-" +:+ decimal seed.

(** [ProofBackend::redis] *)
Definition backend_redis (namespace : string) (wait_interval : N) : ProofBackend :=
  BackendRedis (QueueKeysOps.new namespace) wait_interval.

(** A Redis script, for any database it may run on. *)
Definition Script : Type := forall D, RedisDb D -> D -> D * (Z + string).

(** [Pool::eval]: an error reply of the script is an error of the call. *)
Class ScriptClient (W : Type) := { redis_eval : Script -> prog W Z }.

(** Where the channels of the local backend, shared by every clone of its
    handle, are kept. *)
Class LocalCell (W : Type) `{!Daemon W, !DaemonJson} := {
  cell : W -> LocalProofBackend;
  set_cell : LocalProofBackend -> W -> W;
  cell_set s w : cell (set_cell s w) = s;
}.

Section backend.
Context {W : Type} `{!Daemon W, !DaemonJson, !Hex, !Sha, !LocalCell W, !QueueClient W, !ScriptClient W}.
Context `{!Json ProofRequest, !Json (ProofResult Value), !Json ProofJobState, !Json ProofJob}.

(** A round of the local task, while its client waits. *)
Definition run_task : prog W () := fun w =>
  match serve (cell w) with
  | None => ([], w, Ok ())
  | Some p =>
      let '(t, w1, r) := p w in
      match r with
      | OutOfFuel => (t, w1, OutOfFuel)
      | _ =>
          let s := match r with Ok s => s | _ => set_phase Stopped [] (cell w) end in
          (t ++ [set_cell s w1], set_cell s w1, Ok ())
      end
  end.

(** [Sender::send]: waits for room in the channel. *)
Fixpoint local_send (rounds : nat) (job : ProofJob) : prog W nat :=
  match rounds with
  | O => lift OutOfFuel
  | S rounds =>
      s ← query (fun w => Ok (cell w));
      match local_submit s job with
      | Some (s', r) => perform (fun w => (set_cell s' w, r))
      | None => run_task ;; local_send rounds job
      end
  end.

(** Awaiting the one-shot channel of a ticket, and checking the answer. *)
Fixpoint local_await (rounds : nat) (index : nat) (job : ProofJob) : prog W ProverOutput :=
  match rounds with
  | O => lift OutOfFuel
  | S rounds =>
      s ← query (fun w => Ok (cell w));
      match local_wait s index job with
      | Some r => lift r
      | None => run_task ;; local_await rounds index job
      end
  end.

Definition submit_script (keys : QueueKeys) (job_json id : string) : Script := fun D _ =>
  SUBMIT_JOB_SCRIPT (QueueKeysOps.job keys id) (QueueKeysOps.state keys id) (QueueKeysOps.attempt keys id)
    keys.(queue) job_json id.

Definition submit (rounds : nat) (self : ProofBackend) (job : ProofJob) : prog W Ticket :=
  lift (validate job) ;;
  match self with
  | BackendLocal => index ← local_send rounds job; mret (TicketLocal job index)
  | BackendRedis keys _ =>
      job_json ← lift (json_string job);
      redis_eval (submit_script keys job_json job.(job_id)) ;;
      mret (TicketRedis job)
  end.

Definition wait (rounds : nat) (self : ProofBackend) (ticket : Ticket) : prog W ProverOutput :=
  match self, ticket with
  | BackendLocal, TicketLocal job index => local_await rounds index job
  | BackendRedis keys wait_interval, TicketRedis job => wait_redis rounds keys wait_interval job
  | _, _ => lift (Err (Anyhow "proof ticket belongs to a different backend"))
  end.

Definition shutdown (self : ProofBackend) : prog W () :=
  match self with
  | BackendLocal => perform (fun w => (set_cell (local_shutdown (cell w)) w, Ok ()))
  | BackendRedis _ _ => mret ()
  end.

(** [ProofBackend::local] *)
Definition backend_local (config : BlockPipelineConfig) : prog W ProofBackend :=
  s ← local_start config.(proof_prepare_window);
  perform (fun w => (set_cell s w, Ok ())) ;;
  mret BackendLocal.

(** The choice [BlockPipeline::initialize] makes. *)
Definition proof_backend (config : BlockPipelineConfig) : prog W ProofBackend :=
  match config.(prover_backend) with
  | Local => backend_local config
  | Redis =>
      mret (backend_redis
        (proof_namespace config.(proof_queue_prefix) (as_str config.(network)) config.(redis_seed))
        config.(proof_wait_interval))
  end.

(** ** A round of the task *)

(** The daemon always comes back, with an answer, an error or a panic. *)
Class DaemonReturns : Prop := {
  start_returns w : result daemon_start w <> OutOfFuel;
  prove_returns d r w : result (daemon_prove d r) w <> OutOfFuel;
  terminate_returns d w : result (daemon_terminate d) w <> OutOfFuel;
  prepare_returns r w : result (prepare_prover_request r) w <> OutOfFuel;
}.

(** The rounds left before the task stops, if nothing is added. *)
Definition rounds_left (s : LocalProofBackend) : nat :=
  length s.(requests) + match s.(phase) with Serving => 2 | Stopping => 1 | Stopped => 0 end.

Lemma result_bind_returns {A B} (m : prog W A) (f : A -> prog W B) w :
  result m w <> OutOfFuel -> (forall a w, result (f a) w <> OutOfFuel) -> result (m ≫= f) w <> OutOfFuel.
Proof. intros Hm Hf. rewrite result_bind. destruct (result m w); try done. Qed.
Lemma result_try_returns {A} (m : prog W A) w :
  result m w <> OutOfFuel -> result (try m) w <> OutOfFuel.
Proof. unfold try, result. by destruct (m w) as [[t w1] [a|e|x|]]. Qed.

Lemma serve_returns `{!DaemonReturns} s p w : serve s = Some p -> result p w <> OutOfFuel.
Proof.
  intros E.
  assert (forall d job w, result (run_local_job d job) w <> OutOfFuel) as Hjob.
  { intros d job w'. unfold run_local_job.
    repeat first [ progress cbv zeta | done | apply start_returns | apply prove_returns | apply terminate_returns | apply prepare_returns
      | apply result_try_returns | apply result_bind_returns; [|intros ? ?] | case_match ]. }
  unfold serve in E. repeat case_match; simplify_eq; try done;
    repeat first [ done | apply terminate_returns | apply Hjob | apply result_bind_returns; [|intros ? ?] | case_match ].
Qed.

Lemma serve_progress s p w s' :
  serve s = Some p -> result p w = Ok s' -> rounds_left s' < rounds_left s.
Proof.
  unfold serve, rounds_left. intros E Er. destruct (phase s) eqn:Ep; [| |done].
  - destruct (shutdown_sent s).
    + injection E as <-. apply result_bind_Ok in Er as ([] & _ & Er).
      rewrite result_ret in Er. apply Ok_inj in Er as <-. cbn. lia.
    + destruct (requests s) as [|[t job] rest]; [done|]. injection E as <-.
      apply result_bind_Ok in Er as ([d' answer] & _ & Er). rewrite result_ret in Er.
      apply Ok_inj in Er as <-. cbn. lia.
  - injection E as <-. rewrite result_ret in Er. apply Ok_inj in Er as <-. cbn. lia.
Qed.

(** What a round does to the channels: it keeps their order, hands out no
    ticket, and brings the task closer to its end. *)
Definition ordered (s : LocalProofBackend) : Prop := exists k, in_order s k.

Lemma task_step_ordered w s w' s' : task_step (w, s) (w', s') -> ordered s -> ordered s'.
Proof.
  intros Hs [k Hi]. destruct (in_order_step _ _ _ _ k (step_task _ _ Hs) Hi) as (k' & _ & H'). by exists k'.
Qed.

Lemma run_task_step w :
  result run_task w = Ok () ->
  match serve (cell w) with
  | None => final run_task w = w
  | Some p => exists x s', task_step (x, cell w) (final p x, s') /\ final run_task w = set_cell s' (final p x)
  end.
Proof.
  unfold result, final, run_task. destruct (serve (cell w)) as [p|] eqn:Es; [|done].
  intros Hr. exists w.
  assert (forall r, result p w = r -> is_ok r = false -> task_step (w, cell w) (final p w, set_phase Stopped [] (cell w))) as Hpanic.
  { intros r <- E. by apply task_panics. }
  pose proof (fun s' => task_serves w (cell w) s' p Es) as Hserve.
  unfold result, final in *. destruct (p w) as [[t w1] [s'|e|m|]]; cbn in *; [| | |done].
  - exists s'. split; [by apply Hserve|done].
  - eexists. split; [by eapply Hpanic|done].
  - eexists. split; [by eapply Hpanic|done].
Qed.

Lemma run_task_spec w :
  ordered (cell w) -> result run_task w = Ok () ->
  ordered (cell (final run_task w)) /\
  (cell (final run_task w)).(tickets) = (cell w).(tickets) /\
  (cell (final run_task w)).(capacity) = (cell w).(capacity) /\
  (serve (cell w) <> None -> rounds_left (cell (final run_task w)) < rounds_left (cell w)).
Proof.
  intros Ho Hr. pose proof (run_task_step w Hr) as Hs. destruct (serve (cell w)) as [p|] eqn:Es.
  2: { by rewrite Hs. }
  destruct Hs as (x & s' & Hs & ->). rewrite cell_set.
  destruct (task_step_phase _ _ _ _ Hs) as (Ht & Hc & _).
  split; [by eapply task_step_ordered|]. split_and!; [done..|]. intros _.
  inversion Hs as [? ? ? q E Er|? ? q E Er]; subst.
  - by eapply serve_progress.
  - unfold rounds_left, serve in *. cbn. destruct (phase (cell w)); [lia..|done].
Qed.

Lemma run_task_returns `{!DaemonReturns} w : result run_task w = Ok ().
Proof.
  unfold result at 1, run_task. destruct (serve (cell w)) as [p|] eqn:Es; [|done].
  pose proof (serve_returns _ p w Es) as Hp. unfold result in Hp. by destruct (p w) as [[t w1] [| | |]].
Qed.

(** A sender waits only for a task that has something to do, and so does the
    holder of a ticket. *)
Lemma send_waits s job :
  0 < s.(capacity) -> local_submit s job = None -> serve s <> None.
Proof.
  unfold local_submit, serve. intros Hc E. destruct (validate job); try done.
  destruct (phase s); try done. destruct (length (requests s) <? capacity s) eqn:El; [done|].
  apply Nat.ltb_ge in El. destruct (shutdown_sent s); [done|]. by destruct (requests s) as [|[]]; [cbn in El; lia|].
Qed.

Lemma await_waits s t job :
  ordered s -> s.(tickets) !! t = Some job -> local_wait s t job = None -> serve s <> None.
Proof.
  intros [k Hi] Hj E. apply (in_order_wait _ _ _ _ Hi Hj) in E as [Hp Hin]. unfold serve.
  destruct (phase s); try done. destruct (shutdown_sent s); [done|].
  destruct (requests s) as [|[]]; [by apply not_elem_of_nil in Hin|done].
Qed.

Context `{!DaemonReturns}.

(** The answers the waiting client may be given: the reply of the task to the
    ticket's own job, or the durable result of the job. *)
Definition answer_of (self : ProofBackend) (job : ProofJob) (r : ProofResult Value) : Prop :=
  match self with
  | BackendLocal => exists d d' w, result (run_local_job d job) w = Ok (d', Ok r)
  | BackendRedis keys _ => durable keys job r
  end.

(** A ticket of the backend, for the job. *)
Definition ticket_for (self : ProofBackend) (w : W) (t : Ticket) (job : ProofJob) : Prop :=
  match self, t with
  | BackendLocal, TicketLocal j i => j = job /\ (cell w).(tickets) !! i = Some job
  | BackendRedis _ _, TicketRedis j => j = job
  | _, _ => False
  end.

Definition consistent (self : ProofBackend) (w : W) : Prop :=
  match self with BackendLocal => ordered (cell w) | BackendRedis _ _ => True end.

(** Enough rounds to wait for: every request in the channel, and two to stop. *)
Definition enough (self : ProofBackend) (rounds : nat) (w : W) : Prop :=
  match self with
  | BackendLocal => 0 < (cell w).(capacity) /\ rounds_left (cell w) < rounds
  | BackendRedis _ _ => False
  end.

Lemma validate_returns job : returns (validate job) = true.
Proof.
  unfold validate, compute_job_id, identity_bytes, validate_hex_32, decode_hex_32, hex_decode_ok,
    canonical_request_bytes, append_len_prefixed, json_string. solve_returns.
Qed.

Lemma into_prover_output_returns (r : ProofResult Value) job : returns (into_prover_output r job) = true.
Proof.
  unfold into_prover_output, validate_for, validate_daemon_response, ProofJob.decode_required_response_bytes,
    decode_hex_32, hex_decode_ok. cbn [foldr].
  pose proof (validate_returns job). solve_returns.
Qed.

Lemma run_local_job_replies d job w d' r :
  result (run_local_job d job) w = Ok (d', r) -> returns r = true.
Proof.
  unfold run_local_job, local_output_result. intros E.
  repeat (inv_prog_step || case_match || simplify_eq); done || solve_returns.
Qed.

Lemma local_submit_spec (w : W) s job s' r u :
  ordered s -> validate job = Ok u -> local_submit s job = Some (s', r) ->
  ordered s' /\ s.(tickets) `prefix_of` s'.(tickets) /\
  (forall i, r = Ok i -> s'.(tickets) !! i = Some job) /\ returns r = true.
Proof.
  intros [k Hi] Hv E. split.
  { destruct (in_order_step w s w s' k) as (k' & _ & H'); [by eapply step_submit|done|by exists k']. }
  unfold local_submit in E. rewrite Hv in E.
  repeat case_match; simplify_eq; cbn;
    (split; [by (done || apply prefix_app_r)|split; [|done]]; intros i [= <-]; by apply list_lookup_middle).
Qed.

Lemma result_get_cell {A} (f : LocalProofBackend -> prog W A) w :
  result (s ← query (fun w => Ok (cell w)); f s) w = result (f (cell w)) w.
Proof. by rewrite result_bind. Qed.
Lemma final_get_cell {A} (f : LocalProofBackend -> prog W A) w :
  final (s ← query (fun w => Ok (cell w)); f s) w = final (f (cell w)) w.
Proof. by rewrite final_bind. Qed.
Lemma result_run_task {A} (p : prog W A) w : result (run_task ;; p) w = result p (final run_task w).
Proof. by rewrite result_bind, run_task_returns. Qed.
Lemma final_run_task {A} (p : prog W A) w : final (run_task ;; p) w = final p (final run_task w).
Proof. by rewrite final_bind, run_task_returns. Qed.

Lemma local_send_spec rounds job w u :
  ordered (cell w) -> validate job = Ok u ->
  let p := local_send rounds job in
  ordered (cell (final p w)) /\ (cell w).(tickets) `prefix_of` (cell (final p w)).(tickets) /\
  (forall i, result p w = Ok i -> (cell (final p w)).(tickets) !! i = Some job) /\
  (enough BackendLocal rounds w -> returns (result p w) = true).
Proof.
  revert w. induction rounds as [|rounds IH]; intros w Ho Hv; cbn [local_send].
  { cbv zeta. rewrite final_lift, result_lift. split_and!; try done. intros [_ ?]. lia. }
  cbv zeta. rewrite final_get_cell, result_get_cell.
  destruct (local_submit (cell w) job) as [[s' r]|] eqn:E.
  - destruct (local_submit_spec w _ _ _ _ _ Ho Hv E) as (Ho' & Hp & Hi & Hr).
    unfold final, result, perform; cbn. rewrite cell_set. split_and!; auto.
  - rewrite final_run_task, result_run_task.
    destruct (run_task_spec w Ho (run_task_returns w)) as (Ho' & Ht & Hc & Hlt).
    destruct (IH _ Ho' Hv) as (Hf & Hp & Hi & Hr). rewrite Ht in Hp. split_and!; try done.
    intros [Hpos Hn]. specialize (Hlt (send_waits _ _ Hpos E)). apply Hr.
    rewrite <- Hc in Hpos. split; [exact Hpos|lia].
Qed.

Lemma local_await_spec rounds i job w :
  ordered (cell w) -> (cell w).(tickets) !! i = Some job ->
  let p := local_await rounds i job in
  ordered (cell (final p w)) /\ (cell (final p w)).(tickets) = (cell w).(tickets) /\
  (forall out, result p w = Ok out -> exists r, answer_of BackendLocal job r /\ into_prover_output r job = Ok out) /\
  (rounds_left (cell w) < rounds -> returns (result p w) = true).
Proof.
  revert w. induction rounds as [|rounds IH]; intros w Ho Hj; cbn [local_await].
  { cbv zeta. rewrite final_lift, result_lift. split_and!; try done. lia. }
  cbv zeta. rewrite final_get_cell, result_get_cell.
  destruct (local_wait (cell w) i job) as [r|] eqn:E.
  - rewrite final_lift, result_lift. split_and!; try done.
    + intros out ->. pose proof Ho as [k [_ _ _ _ Hown]]. unfold local_wait in E.
      destruct (replies (cell w) !! i) as [reply|] eqn:Er; [|by case_decide].
      injection E as E. apply bind_Ok in E as (r & -> & E). exists r. split; [|exact E].
      destruct (Hown _ _ Er) as (job' & d & d' & x & Hj' & Hrun).
      assert (job' = job) as -> by congruence. by exists d, d', x.
    + intros _. pose proof Ho as [k [_ _ _ _ Hown]]. unfold local_wait in E.
      destruct (replies (cell w) !! i) as [reply|] eqn:Er; [|by case_decide; simplify_eq].
      injection E as <-. destruct (Hown _ _ Er) as (job' & d & d' & x & _ & Hrun).
      apply bind_returns; [by eapply run_local_job_replies|]. intros. apply into_prover_output_returns.
  - rewrite final_run_task, result_run_task.
    destruct (run_task_spec w Ho (run_task_returns w)) as (Ho' & Ht & Hc & Hlt).
    pose proof (await_waits _ _ _ Ho Hj E) as Hw.
    rewrite <- Ht in Hj. destruct (IH _ Ho' Hj) as (Hf & Hp & Ha & Hr). rewrite Ht in Hp.
    split_and!; try done. intros Hn. apply Hr. specialize (Hlt Hw). lia.
Qed.

(** C31: A proof backend answers with a proof of the ticket's own job.  On either
    backend, submitting a job that does not validate is refused without effect,
    and the ticket of one that does is for that job.  Whatever [wait] returns on
    a ticket of the job is what [into_prover_output] accepts of an answer to
    that job: the reply of the local task to it, or the result the workers
    stored under its own key.  A ticket of the other backend is refused without
    effect.  On the local backend submitting and waiting keep the tickets in
    order and, if the daemon comes back, never block for more rounds than there
    are requests in the channel and two to stop: both return, with an error at
    worst. *)
Theorem backend_answers_own_job (rounds : nat) (self : ProofBackend) (job : ProofJob) (w : W) :
  consistent self w ->
  (let p := submit rounds self job in
   consistent self (final p w) /\
   (is_ok (validate job) = false -> is_ok (result p w) = false /\ final p w = w) /\
   (forall t, result p w = Ok t -> ticket_for self (final p w) t job) /\
   (enough self rounds w -> returns (result p w) = true)) /\
  (forall t, ticket_for self w t job ->
     let p := wait rounds self t in
     consistent self (final p w) /\
     (forall out, result p w = Ok out -> exists r, answer_of self job r /\ into_prover_output r job = Ok out) /\
     (enough self rounds w -> returns (result p w) = true)) /\
  (forall other t, ticket_for other w t job ->
     match self, other with BackendLocal, BackendRedis _ _ | BackendRedis _ _, BackendLocal => True | _, _ => False end ->
     is_ok (result (wait rounds self t) w) = false /\ final (wait rounds self t) w = w).
Proof.
  intros Hc. split_and!.
  - cbv zeta. unfold submit. rewrite final_bind, result_bind, result_lift, final_lift.
    pose proof (validate_returns job) as Hv. destruct (validate job) as [u|e|m|] eqn:E; [|done..].
    destruct self as [|keys wait_interval]; [|by split_and!; [done|done|intros t Ht; inv_prog; subst|done]].
    cbn [consistent] in Hc. destruct (local_send_spec rounds job w u Hc E) as (Ho & _ & Hi & Hr).
    rewrite final_bind, result_bind. destruct (result (local_send rounds job) w) as [i| | |]; cbn in *;
      (split_and!; [done|done| |by intros H'; specialize (Hr H')]); [|done..].
    intros t [= <-]. split; [done|by apply Hi].
  - intros t Ht. cbv zeta. destruct self as [|keys wait_interval], t as [j i|j]; try done; cbn [ticket_for wait] in *.
    + destruct Ht as [-> Hj]. destruct (local_await_spec rounds i job w Hc Hj) as (Ho & _ & Ha & Hr).
      split_and!; [done|exact Ha|]. intros [_ Hn]. by apply Hr.
    + subst j. split_and!; [done| |done]. intros out E. unfold wait_redis in E.
      apply result_bind_Ok in E as (r & E & Eo). rewrite result_lift in Eo.
      exists r. split; [by eapply wait_result_durable|exact Eo].
  - intros other t Ht Hne. by destruct self, other, t.
Qed.
End backend.

(** ** Beside the checkpoints, in the same database

    The commands of the queue, seen through a [view] of the plain keys: a script
    that leaves the plain keys of every database alone is quiet, and so is
    popping a list under a key that is not plain.  The local task only talks to
    the prover daemon. *)
Definition spares_plain_keys (script : Script) : Prop :=
  forall D (db : RedisDb D), RedisDbLaws D ->
    forall (d : D) k, PlainKey k -> db_get (script D db d).1 k = db_get d k.

Class BackendLaws {W} `{!Daemon W, !DaemonJson, !LocalCell W, !QueueClient W, !ScriptClient W}
    (v : W -> View) : Prop := {
  eval_quiet script : spares_plain_keys script -> quiet v (redis_eval script);
  queue_get_quiet k : quiet v (redis_get k);
  brpop_quiet k n : plain_key k = false -> quiet v (redis_brpop k n);
  pause_quiet d : quiet v (pause d);
  daemon_start_quiet : quiet v daemon_start;
  prove_quiet d r : quiet v (daemon_prove d r);
  terminate_quiet d : quiet v (daemon_terminate d);
  prepare_quiet r : quiet v (prepare_prover_request r);
  cell_view s w : v (set_cell s w) = v w;
}.

Lemma plain_key_ne k k' : PlainKey k -> plain_key k' = false -> k <> k'.
Proof. unfold PlainKey. congruence. Qed.

(** The keys of a queue hold a colon. *)
Lemma queue_keys_not_plain ns id :
  let k := QueueKeysOps.new ns in
  plain_key (QueueKeysOps.job k id) = false /\ plain_key (QueueKeysOps.state k id) = false /\
  plain_key (QueueKeysOps.attempt k id) = false /\ plain_key k.(queue) = false /\
  plain_key k.(notify) = false.
Proof.
  intros k. unfold k, QueueKeysOps.job, QueueKeysOps.state, QueueKeysOps.attempt, QueueKeysOps.new.
  cbn [namespace queue notify].
  split_and!; rewrite !plain_key_app; apply andb_false_intro2; done || by apply andb_false_intro1.
Qed.

Lemma submit_script_spares ns job_json id :
  spares_plain_keys (submit_script (QueueKeysOps.new ns) job_json id).
Proof.
  intros D db Hlaws d k Hk. destruct (queue_keys_not_plain ns id) as (Hj & Hs & Ha & Hq & _).
  unfold submit_script, SUBMIT_JOB_SCRIPT.
  destruct (db_get d _) as [existing|]; [by destruct (negb _)|]. cbn [fst].
  rewrite get_rpush, !get_set_ne by (apply not_eq_sym; by eapply plain_key_ne). done.
Qed.

Section quiet_backend.
Context {W : Type} `{!Daemon W, !DaemonJson, !Hex, !Sha, !LocalCell W, !QueueClient W, !ScriptClient W}.
Context `{!Json ProofRequest, !Json (ProofResult Value), !Json ProofJobState, !Json ProofJob}.
Context (v : W -> View) `{!BackendLaws v}.

#[local] Hint Extern 1 (quiet v _) =>
  first [apply queue_get_quiet | apply pause_quiet | apply daemon_start_quiet | apply prove_quiet
        | apply terminate_quiet | apply prepare_quiet] : quiet.

Lemma run_local_job_quiet d job : quiet v (run_local_job d job).
Proof. unfold run_local_job. cbv zeta. solve_quiet. Qed.

Lemma serve_quiet s p : serve s = Some p -> quiet v p.
Proof.
  pose proof run_local_job_quiet. unfold serve. intros E. repeat case_match; simplify_eq; solve_quiet.
Qed.

Lemma run_task_quiet : quiet v run_task.
Proof.
  intros s w Hw. unfold run_task, result, final. destruct (serve (cell w)) as [p|] eqn:E; [|by split; [constructor|]].
  destruct (serve_quiet _ _ E s w Hw) as [Ht Hf]. unfold final in Hf.
  destruct (p w) as [[t w1] [s'|e|m|]]; cbn in *; rewrite ?cell_view; split; try done;
    (apply Forall_app; split; [done|apply Forall_singleton; by rewrite cell_view]).
Qed.

Lemma set_cell_quiet {A} (f : W -> LocalProofBackend) (r : W -> outcome A) :
  quiet v (perform (fun w => (set_cell (f w) w, r w))).
Proof. intros s. apply triple_perform. intros w Hw. cbn. by rewrite cell_view. Qed.

Lemma local_send_quiet rounds job : quiet v (local_send rounds job).
Proof.
  induction rounds as [|rounds IH]; cbn [local_send]; [apply quiet_lift|].
  apply quiet_bind; [apply quiet_query|]. intros s. destruct (local_submit s job) as [[s' r]|].
  - apply set_cell_quiet.
  - apply quiet_bind; [apply run_task_quiet|]. intros _. exact IH.
Qed.

Lemma local_await_quiet rounds i job : quiet v (local_await rounds i job).
Proof.
  induction rounds as [|rounds IH]; cbn [local_await]; [apply quiet_lift|].
  apply quiet_bind; [apply quiet_query|]. intros s. destruct (local_wait s i job); [apply quiet_lift|].
  apply quiet_bind; [apply run_task_quiet|]. intros _. exact IH.
Qed.

Lemma wait_result_quiet rounds ns wait_interval job :
  quiet v (wait_result rounds (QueueKeysOps.new ns) wait_interval job).
Proof.
  assert (quiet v (wake (QueueKeysOps.new ns) wait_interval)) as Hw.
  { unfold wake. apply quiet_bind; [by apply brpop_quiet, queue_keys_not_plain|]. intros n. solve_quiet. }
  induction rounds as [|rounds IH]; cbn [wait_result]; solve_quiet.
Qed.

(** C32: The proof queue and the checkpoints share one Redis database and do not
    meet.  Whichever backend the configuration selects, starting it, submitting
    a job to it, waiting for a ticket and shutting it down change nothing that
    the pipeline's commits and recoveries rely on: the stored checkpoint and its
    journal, the header on chain and the mints.  Every key the queue writes
    holds a colon, and no checkpoint key does. *)
Theorem backend_spares_checkpoints (config : BlockPipelineConfig) (rounds : nat) (w : W) (self : ProofBackend) :
  result (proof_backend config) w = Ok self ->
  quiet v (proof_backend config) /\
  (forall job, quiet v (submit rounds self job)) /\
  (forall t, quiet v (wait rounds self t)) /\
  quiet v (shutdown self).
Proof.
  intros E.
  assert (self = BackendLocal \/ exists ns n, self = BackendRedis (QueueKeysOps.new ns) n) as Hself.
  { unfold proof_backend in E. destruct (prover_backend config); [left|right].
    - unfold backend_local in E. by inv_prog.
    - inv_prog. subst. unfold backend_redis. eauto. }
  split_and!.
  - unfold proof_backend, backend_local, local_start. destruct (prover_backend config); [|solve_quiet].
    repeat (apply quiet_bind; [|intros ?]); solve_quiet || apply set_cell_quiet.
  - intros job. unfold submit. apply quiet_bind; [apply quiet_lift|]. intros _.
    destruct Hself as [->|(ns & n & ->)].
    + apply quiet_bind; [apply local_send_quiet|]. intros i. apply quiet_ret.
    + apply quiet_bind; [apply quiet_lift|]. intros j.
      apply quiet_bind; [apply eval_quiet, submit_script_spares|]. intros _. apply quiet_ret.
  - intros t. destruct Hself as [->|(ns & n & ->)], t; cbn [wait]; try apply quiet_lift; [apply local_await_quiet|].
    unfold wait_redis. apply quiet_bind; [apply wait_result_quiet|]. intros r. apply quiet_lift.
  - destruct Hself as [->|(ns & n & ->)]; [apply set_cell_quiet|apply quiet_ret].
Qed.

(** The proof service of the pipeline, on a backend. *)
Definition backend_service (rounds : nat) (self : ProofBackend) : ProofService W := {|
  ProofTicket := Ticket;
  proof_submit := submit rounds self;
  proof_wait := wait rounds self;
|}.
End quiet_backend.

(** ** Both backends on one world *)
Module BackendInstance.
Import HexInstance ShaInstance ProofJobInstance ProofJobWitness RedisInstance.

(** A prover that always prints the response of [ProofJobWitness]. *)
#[export] Instance printing_json : DaemonJson := {|
  Value := ProverProofResponse;
  value_to_vec r := Some (string_bytes r.(kind));
  value_from_slice b := if bool_decide (b = [x01]) then Some response1 else None;
  response_from_value r := Some r;
|}.

(** A Redis database and the channels of the local backend. *)
Definition Channels : Type :=
  nat * list ProofJob * list (nat * ProofJob) * bool * Phase * option () *
    gmap nat (outcome (ProofResult ProverProofResponse)).
Record Shared := mkShared { s_db : database; s_channels : Channels; s_slept : N }.
Definition set_db (d : database) (w : Shared) : Shared := mkShared d w.(s_channels) w.(s_slept).

#[export] Instance printing : Daemon Shared := {|
  ProverDaemon := ();
  daemon_start := mret ();
  daemon_prove d r := mret (mkProverOutput [x01] [] [] [] []);
  daemon_terminate d := mret ();
  prepare_prover_request r := mret ();
|}.
#[export] Instance printing_returns : DaemonReturns (W := Shared).
Proof. by constructor. Qed.

#[export] Instance shared_cell : LocalCell Shared.
Proof.
  refine {|
    cell w := let '(c, t, r, s, p, d, a) := w.(s_channels) in mkLocal c t r s p d a;
    set_cell s w := mkShared w.(s_db) (s.(capacity), s.(tickets), s.(requests), s.(shutdown_sent), s.(phase),
      s.(slot), s.(replies)) w.(s_slept);
  |}.
  by intros [] w.
Defined.

#[export] Instance shared_queue : QueueClient Shared := {|
  redis_get k := query (fun w => Ok (db_get w.(s_db) k));
  redis_brpop k n := perform (fun w =>
    match reverse (db_list w.(s_db) k) with
    | [] => (w, Ok Elapsed)
    | id :: rest => (set_db (w.(s_db).1, <[k := reverse rest]> w.(s_db).2) w, Ok (Popped k id))
    end);
  pause d := perform (fun w => (mkShared w.(s_db) w.(s_channels) (w.(s_slept) + d), Ok ()));
|}.

#[export] Instance shared_scripts : ScriptClient Shared := {|
  redis_eval script := perform (fun w =>
    let '(d, r) := script database redis_db w.(s_db) in
    (set_db d w, match r with inl z => Ok z | inr _ => Err (External "fred") end));
|}.

(** What the pipeline sees of it: the plain keys. *)
Definition plain_db (d : database) : gmap string string :=
  filter (fun kv => plain_key kv.1 = true) d.1.
Definition plain_view (w : Shared) : View := mkView (plain_db w.(s_db)) [] [].

Lemma plain_db_eq (d d' : database) :
  (forall k, PlainKey k -> db_get d' k = db_get d k) -> plain_db d' = plain_db d.
Proof.
  intros E. apply map_eq. intros k. apply option_eq. intros v. unfold plain_db.
  rewrite !map_lookup_filter_Some. cbn. split; intros [Hk Hp]; (split; [|done]).
  - pose proof (E k Hp) as E'. cbn in E'. congruence.
  - pose proof (E k Hp) as E'. cbn in E'. congruence.
Qed.

Lemma perform_quiet_plain {A} (f : Shared -> Shared * outcome A) :
  (forall w, plain_view (f w).1 = plain_view w) -> quiet plain_view (perform f).
Proof. intros Hf s. apply triple_perform. intros w Hw. by rewrite Hf. Qed.

#[export] Instance shared_laws : BackendLaws plain_view.
Proof.
  constructor; intros; try (by apply quiet_ret); try (by apply quiet_query); try done.
  - apply perform_quiet_plain. intros w.
    destruct (script _ _ (s_db w)) as [d r] eqn:E. cbn. unfold plain_view. f_equal. apply plain_db_eq.
    intros k Hk. change d with (d, r).1. rewrite <- E. by apply H; [apply redis_db_laws|].
  - apply perform_quiet_plain. intros w. by case_match.
  - by apply perform_quiet_plain.
Qed.

(** A text per job, and the texts of the results. *)
#[export] Instance job_json : Json ProofJob := {|
  to_json j := Some j.(job_id); from_json s := None;
|}.
#[export] Instance result_json : Json (ProofResult Value) := {|
  to_json r := None;
  from_json s := match job1 with Ok j => if String.eqb s "result" then Some (success j response1 []) else None | _ => None end;
|}.
#[export] Instance state_json : Json ProofJobState := {|
  to_json s := None; from_json s := Some Queued;
|}.
End BackendInstance.

Module BackendWitness.
Import HexInstance ShaInstance ProofJobInstance ProofJobWitness RedisInstance BackendInstance ChainWitness.

Definition the_job : ProofJob :=
  match job1 with Ok j => j | _ => mkProofJob 0 "" "" 0 "" "" "" "" "" request1 end.
Definition fresh : Shared := mkShared ({[ "dsol-checkpoint" := "text" ]}, ∅) (2, [], [], false, Serving, Some (), ∅) 0.

Lemma fresh_consistent : consistent BackendLocal fresh.
Proof.
  exists 0. constructor; cbn; try (done || lia).
  intros t. rewrite lookup_empty. split; [by intros []|lia].
Qed.

Definition ticket1 : Ticket := TicketLocal the_job 0.
Abbreviation submitted := (final (submit 5 BackendLocal the_job) fresh).

Lemma backend_answers_own_job_witness :
  result (submit 5 BackendLocal the_job) fresh = Ok ticket1 /\
  exists out, result (wait 5 BackendLocal ticket1) submitted = Ok out /\ out.(out_proof) = [x01; x02] /\
    exists r, answer_of BackendLocal the_job r /\ into_prover_output r the_job = Ok out.
Proof.
  assert (result (submit 5 BackendLocal the_job) fresh = Ok ticket1) as Es by (vm_compute; reflexivity).
  assert (exists out, result (wait 5 BackendLocal ticket1) submitted = Ok out /\ out.(out_proof) = [x01; x02])
    as (out & Ew & Ho) by (eexists; split; vm_compute; reflexivity).
  split; [exact Es|]. exists out. split; [exact Ew|]. split; [exact Ho|].
  destruct (backend_answers_own_job 5 BackendLocal the_job fresh fresh_consistent) as ((Hc & _ & Ht & _) & _).
  destruct (backend_answers_own_job 5 BackendLocal the_job submitted Hc) as (_ & Hw & _).
  exact (proj1 (proj2 (Hw ticket1 (Ht _ Es))) out Ew).
Defined.

Definition redis_config : BlockPipelineConfig := {|
  network := Testnet; electrs_url := ""; redis_url := ""; sender_url := ""; sender_bearer_token := "";
  gen_proof_path := []; block_elf_path := []; expected_vk_hash := []; evidence_dir := [];
  poll_interval := 1; redis_seed := 1337; prover_backend := Redis;
  proof_prepare_window := 2; proof_queue_prefix := DEFAULT_QUEUE_PREFIX; proof_wait_interval := 5;
  start_height := None; old_state_dir := None; witness_dir := None;
  custody_script_config := ChainWitness.config.(custody_script_config);
  recipient_atas := []; required_confirmations := 1;
  config_params := []; initial_header := []; deposit_evidence_path := None;
  solana_rpc_url := ""; operator_keypair := []; payer_keypair := [];
  doge_mint := []; bridge_program := ChainWitness.program;
  pending_mint_program := ChainWitness.program; txo_buffer_program := ChainWitness.program;
|}.
Abbreviation queue_backend := (backend_redis (proof_namespace DEFAULT_QUEUE_PREFIX "testnet" 1337) 5).

Lemma backend_spares_checkpoints_witness :
  agrees (plain_view fresh) (plain_view (final (submit 5 queue_backend the_job) fresh)) /\
  db_get (final (submit 5 queue_backend the_job) fresh).(s_db)
    (QueueKeysOps.state (QueueKeysOps.new (proof_namespace DEFAULT_QUEUE_PREFIX "testnet" 1337)) the_job.(job_id))
  = Some QUEUED_JSON.
Proof.
  split; [|vm_compute; reflexivity].
  destruct (backend_spares_checkpoints plain_view redis_config 5 fresh queue_backend eq_refl) as (_ & Hs & _).
  exact (proj2 (Hs the_job (plain_view fresh) fresh (reflexivity _))).
Defined.
End BackendWitness.
