(* ===== verification/ElectrsClient.v ===== *)
(** * The Electrs client

    [doge_link_rpc_async.rs]: the requests of [DogeLinkElectrsAsyncClient] and
    the conversion of a [rust-bitcoin] block or header to the structures of the
    light client.  The codecs of the two libraries are parameters; so is the
    HTTP request.  The client is an instance of the [Electrs] interface of the
    pipeline. *)
From S2P Require Import Prelude External Instances Effects NetworkRetry Chain Checkpoint Files Services.
From Stdlib Require Import Strings.String.
From stdpp Require Import pretty.

(** ** The two libraries *)

(** [bitcoin::Block] with the auxiliary proof-of-work of Dogecoin.  Hashes are
    their bytes: [to_raw_hash().to_byte_array()] reads them. *)
Module Btc.
Record MerkleBranch := mkBranch { side_mask : N; hashes : list bytes }.
Record AuxPow (Transaction SimpleHeader : Type) := mkAuxPow {
  coinbase_tx : Transaction;
  block_hash : bytes;
  coinbase_branch : MerkleBranch;
  blockchain_branch : MerkleBranch;
  parent_block : SimpleHeader;
}.
Arguments mkAuxPow {_ _} _ _ _ _ _.
Arguments coinbase_tx {_ _} _.
Arguments block_hash {_ _} _.
Arguments coinbase_branch {_ _} _.
Arguments blockchain_branch {_ _} _.
Arguments parent_block {_ _} _.

Class Bitcoin := {
  Transaction : Type;
  SimpleHeader : Type;
  Header : Type;
  to_simple_header : Header -> SimpleHeader;
  aux_data : Header -> option (AuxPow Transaction SimpleHeader);
  serialize_transaction : Transaction -> bytes;
  serialize_simple_header : SimpleHeader -> bytes;
  deserialize_header : bytes -> option Header;
  Block : Type;
  header : Block -> Header;
  txdata : Block -> list Transaction;
  deserialize_block : bytes -> option Block;
}.
End Btc.

(** What [doge_light_client] parses, and its block structures. *)
Module Doge.
Record QMerkleBranch := mkBranch { side_mask : N; hashes : list bytes }.

Class Codecs (BTCTransaction : Type) := {
  transaction_from_bytes : bytes -> outcome BTCTransaction;
  DogeAuxPowCoinbaseTransaction : Type;
  coinbase_from_bytes : bytes -> outcome DogeAuxPowCoinbaseTransaction;
  QStandardBlockHeader : Type;
  standard_header_from_bytes : bytes -> outcome QStandardBlockHeader;
}.

Section structures.
Context {BTCTransaction : Type} `{!Codecs BTCTransaction}.
Record QAuxPow := mkAuxPow {
  coinbase_transaction : DogeAuxPowCoinbaseTransaction;
  block_hash : bytes;
  coinbase_branch : QMerkleBranch;
  blockchain_branch : QMerkleBranch;
  parent_block : QStandardBlockHeader;
}.
Record QDogeBlock := mkBlock {
  header : QStandardBlockHeader;
  transactions : list BTCTransaction;
  aux_pow : option QAuxPow;
}.
Record QDogeBlockHeader := mkHeader {
  standard_header : QStandardBlockHeader;
  header_aux_pow : option QAuxPow;
}.
End structures.
End Doge.

(** ** The conversion *)
Section conversion.
Context `{!Btc.Bitcoin} {BTCTransaction : Type} `{!Doge.Codecs BTCTransaction}.

Definition branch_to_qdoge (branch : Btc.MerkleBranch) : Doge.QMerkleBranch :=
  Doge.mkBranch branch.(Btc.side_mask) branch.(Btc.hashes).

(** The [match] on [aux_data], the same in both functions. *)
Definition aux_pow_to_qdoge (aux_data : option (Btc.AuxPow Btc.Transaction Btc.SimpleHeader))
  : outcome (option Doge.QAuxPow) :=
  match aux_data with
  | Some ap =>
      coinbase_transaction ← Doge.coinbase_from_bytes (Btc.serialize_transaction ap.(Btc.coinbase_tx));
      parent_block ← Doge.standard_header_from_bytes (Btc.serialize_simple_header ap.(Btc.parent_block));
      mret (Some (Doge.mkAuxPow coinbase_transaction ap.(Btc.block_hash)
        (branch_to_qdoge ap.(Btc.coinbase_branch)) (branch_to_qdoge ap.(Btc.blockchain_branch))
        parent_block))
  | None => mret None
  end.

Definition btc_block_to_qdoge (btc_block : Btc.Block) : outcome Doge.QDogeBlock :=
  txs ← mapM (fun x => Doge.transaction_from_bytes (Btc.serialize_transaction x)) (Btc.txdata btc_block);
  let header_bytes := Btc.serialize_simple_header (Btc.to_simple_header (Btc.header btc_block)) in
  auxp ← aux_pow_to_qdoge (Btc.aux_data (Btc.header btc_block));
  header ← Doge.standard_header_from_bytes header_bytes;
  mret (Doge.mkBlock header txs auxp).

Definition btc_block_header_to_qdoge (btc_header : Btc.Header) : outcome Doge.QDogeBlockHeader :=
  let header_bytes := Btc.serialize_simple_header (Btc.to_simple_header btc_header) in
  auxp ← aux_pow_to_qdoge (Btc.aux_data btc_header);
  header ← Doge.standard_header_from_bytes header_bytes;
  mret (Doge.mkHeader header auxp).

(** The header a block carries. *)
Definition header_of (block : Doge.QDogeBlock) : Doge.QDogeBlockHeader :=
  Doge.mkHeader block.(Doge.header) block.(Doge.aux_pow).

(** A block converts when its transactions and its header do, and then carries
    what they convert to. *)
Lemma btc_block_to_qdoge_Ok btc_block block :
  btc_block_to_qdoge btc_block = Ok block <->
  mapM (fun x => Doge.transaction_from_bytes (Btc.serialize_transaction x)) (Btc.txdata btc_block)
    = Ok block.(Doge.transactions) /\
  btc_block_header_to_qdoge (Btc.header btc_block) = Ok (header_of block).
Proof.
  unfold btc_block_to_qdoge, btc_block_header_to_qdoge, header_of. split.
  - intros E. inv_ok. cbn [Doge.transactions Doge.header Doge.aux_pow]. split; [done|].
    repeat match goal with H : _ = Ok _ |- _ => rewrite H; clear H; cbn [mbind outcome_bind] end. done.
  - intros [Ht E]. rewrite Ht. cbn [mbind outcome_bind]. inv_ok.
    destruct block as [h txs a]. cbn [Doge.transactions Doge.header Doge.aux_pow] in *. simplify_eq.
    repeat match goal with H : _ = Ok _ |- _ => rewrite H; clear H; cbn [mbind outcome_bind] end. done.
Qed.
End conversion.

(** ** Text *)

(** A continuation byte, and the validity of [String::from_utf8]. *)
Definition in_bytes (lo hi : N) (b : byte) : bool := ((lo <=? Byte.to_N b) && (Byte.to_N b <=? hi))%N.
Definition continuation : byte -> bool := in_bytes 0x80 0xBF.

Fixpoint utf8_valid (b : bytes) : bool :=
  match b with
  | [] => true
  | a :: rest =>
      if in_bytes 0 0x7F a then utf8_valid rest
      else match rest with
      | b1 :: rest =>
          if in_bytes 0xC2 0xDF a then continuation b1 && utf8_valid rest
          else match rest with
          | b2 :: rest =>
              if in_bytes 0xE0 0xEF a then
                in_bytes (if in_bytes 0xE0 0xE0 a then 0xA0 else 0x80)
                         (if in_bytes 0xED 0xED a then 0x9F else 0xBF) b1
                && continuation b2 && utf8_valid rest
              else match rest with
              | b3 :: rest =>
                  in_bytes 0xF0 0xF4 a
                  && in_bytes (if in_bytes 0xF0 0xF0 a then 0x90 else 0x80)
                              (if in_bytes 0xF4 0xF4 a then 0x8F else 0xBF) b1
                  && continuation b2 && continuation b3 && utf8_valid rest
              | [] => false
              end
          | [] => false
          end
      | [] => false
      end
  end.

Definition from_utf8 (b : bytes) : outcome string :=
  if utf8_valid b then Ok (String.string_of_list_byte b) else Err (External "string::FromUtf8Error").

(** ** The client *)
Record DogeLinkElectrsAsyncClient := mkElectrsClient {
  electrs_url : string;
  retry_policy : NetworkRetryPolicy;
}.

(** One GET of a URL; the wall clock in nanoseconds after the epoch, when it is
    after it; [serde_json::from_slice::<u32>]. *)
Class ElectrsHttp (W R : Type) := {
  http_get : string -> prog W (R + ReqwestError);
  system_now : W -> option N;
  json_u32 : bytes -> option N;
}.

(** [futures::future::join_all]: the results in the order of the futures.  The
    futures send independent GETs; they are run one after the other. *)
Fixpoint join_all {W A} (futures : list (prog W A)) : prog W (list (A + error)) :=
  match futures with
  | [] => mret []
  | future :: futures =>
      result ← try future;
      results ← join_all futures;
      mret (result :: results)
  end.

(** [start..=end] *)
Definition range_inclusive (start_ end_ : N) : list N :=
  (fun i => start_ + N.of_nat i)%N <$> seq 0 (N.to_nat (end_ + 1 - start_)).

Module DogeLinkElectrs.
Section client.
Context {W R : Type} `{!Clock W, !HttpResponse R, !ElectrsHttp W R, !Hex}.
Context `{!Btc.Bitcoin} {BTCTransaction : Type} `{!Doge.Codecs BTCTransaction}.
Implicit Type self : DogeLinkElectrsAsyncClient.

Definition new (electrs_url : string) : DogeLinkElectrsAsyncClient :=
  mkElectrsClient electrs_url NetworkRetryPolicyOps.default.

Definition get_response_bytes self (path : string) : prog W bytes :=
  let url := self.(electrs_url) +:+ "/" +:+ path in
  question id (NetworkRetry.get_response_bytes retry_fuel self.(retry_policy) (http_get url)).

Definition get_bytes self (path : string) : prog W bytes := get_response_bytes self path.
Definition get_text self (path : string) : prog W string :=
  b ← get_response_bytes self path;
  lift (from_utf8 b).
(** [get_json::<u32>] *)
Definition get_json self (path : string) : prog W N :=
  b ← get_response_bytes self path;
  lift (ok_or (json_u32 b) (External "serde_json")).

Definition get_block_height self : prog W N :=
  cache_bust ← query (fun w => ok_or (system_now w) (External "SystemTimeError"));
  get_json self ("blocks/tip/height?fresh=" +:+ decimal cache_bust).

Definition get_block self (height : N) : prog W Btc.Block :=
  hash_txt ← get_text self ("block-height/" +:+ decimal height);
  block_data ← get_bytes self ("block/" +:+ hash_txt +:+ "/raw");
  lift (ok_or (Btc.deserialize_block block_data) (External "bitcoin")).

Definition get_qd_block self (height : N) : prog W Doge.QDogeBlock :=
  block ← get_block self height;
  lift (btc_block_to_qdoge block).

Definition get_qd_block_header self (height : N) : prog W Doge.QDogeBlockHeader :=
  hash ← get_text self ("block-height/" +:+ decimal height);
  header_hex ← get_text self ("block/" +:+ hash +:+ "/header");
  b ← lift (hex_decode_ok header_hex);
  header ← lift (ok_or (Btc.deserialize_header b) (External "bitcoin"));
  lift (btc_block_header_to_qdoge header).

Definition get_qd_block_headers_range_parallel self (start_height end_height : N)
  : prog W (list Doge.QDogeBlockHeader) :=
  results ← join_all ((fun block_height => get_qd_block_header (new self.(electrs_url)) block_height)
                        <$> range_inclusive start_height end_height);
  lift (mapM (fun x => match x with inl header => Ok header | inr _ => Err (Anyhow "{:?}") end) results).
End client.
End DogeLinkElectrs.

(** ** What the client returns *)
Section served.
Context {W R : Type} `{!Clock W, !HttpResponse R, !ElectrsHttp W R, !Hex}.
Context `{!Btc.Bitcoin} {BTCTransaction : Type} `{!Doge.Codecs BTCTransaction}.

(** The body of a 2xx answer to [url] satisfies [P]. *)
Definition answers_with (url : string) (P : bytes -> Prop) : Prop :=
  forall w r b, result (http_get url) w = Ok (inl r) -> is_success (response_status r) = true ->
    response_bytes r = inl b -> P b.

(** The server at [base] serves the blocks of [chain], each under its hash. *)
Record serves (base : string) (hash_txt : N -> string) (chain : N -> option Btc.Block) : Prop := {
  serves_hash h : answers_with (base +:+ "/" +:+ "block-height/" +:+ decimal h)
    (fun b => from_utf8 b = Ok (hash_txt h));
  serves_raw h : answers_with (base +:+ "/" +:+ "block/" +:+ hash_txt h +:+ "/raw")
    (fun b => exists block, chain h = Some block /\ Btc.deserialize_block b = Some block);
  serves_header h : answers_with (base +:+ "/" +:+ "block/" +:+ hash_txt h +:+ "/header")
    (fun b => exists block text raw, chain h = Some block /\ from_utf8 b = Ok text /\
       hex_decode text = Some raw /\ Btc.deserialize_header raw = Some (Btc.header block));
}.

Lemma electrs_attempt_Success answer b :
  electrs_attempt answer = Success b ->
  exists r, answer = inl r /\ is_success (response_status r) = true /\ response_bytes r = inl b.
Proof.
  unfold electrs_attempt, transport_error.
  destruct answer as [r|e]; [|by case_match].
  destruct (is_success (response_status r)) eqn:Hs; cbn; [|by case_match].
  destruct (response_bytes r) as [b'|e] eqn:Hb; [|by case_match].
  intros [= <-]. by exists r.
Qed.

(** Whatever the retries, bytes returned are the body of a 2xx answer. *)
Lemma get_response_bytes_served self path P w b :
  answers_with (self.(electrs_url) +:+ "/" +:+ path) P ->
  result (DogeLinkElectrs.get_response_bytes self path) w = Ok b -> P b.
Proof.
  intros HP E. unfold DogeLinkElectrs.get_response_bytes in E.
  assert (triple (fun _ => True) (fun _ => True)
    (question id (NetworkRetry.get_response_bytes retry_fuel self.(retry_policy)
       (http_get (self.(electrs_url) +:+ "/" +:+ path))))
    (fun r _ => True /\ forall b, r = Ok b -> P b)) as Ht.
  { apply (triple_question _ _ _ _ (fun b _ => P b)).
    apply (triple_run _ _ (fun b _ => P b)); [done|]. intros w' _. split.
    - by apply Forall_forall.
    - split; [done|]. intros v Hv. apply result_bind_Ok in Hv as (answer & Ha & Hv).
      rewrite result_ret in Hv. apply Ok_inj in Hv.
      apply electrs_attempt_Success in Hv as (r & -> & Hs & Hb). by eapply HP. }
  by apply (Ht w I).
Qed.

Lemma get_text_served self path P w text :
  answers_with (self.(electrs_url) +:+ "/" +:+ path) (fun b => forall t, from_utf8 b = Ok t -> P t) ->
  result (DogeLinkElectrs.get_text self path) w = Ok text -> P text.
Proof.
  intros HP E. unfold DogeLinkElectrs.get_text in E. inv_prog.
  eapply get_response_bytes_served in Hstep; [|exact HP]. by apply Hstep.
Qed.

Lemma answers_with_weaken url (P Q : bytes -> Prop) :
  answers_with url P -> (forall b, P b -> Q b) -> answers_with url Q.
Proof. intros HP HPQ w r b E1 E2 E3. eapply HPQ, HP; eauto. Qed.

Section chain.
Context (base : string) (hash_txt : N -> string) (chain : N -> option Btc.Block).
Hypothesis Hserves : serves base hash_txt chain.

Lemma get_hash_served self h w t :
  self.(electrs_url) = base ->
  result (DogeLinkElectrs.get_text self ("block-height/" +:+ decimal h)) w = Ok t -> t = hash_txt h.
Proof.
  intros Hb. apply (get_text_served _ _ (fun t => t = hash_txt h)). rewrite Hb.
  eapply answers_with_weaken; [apply (serves_hash _ _ _ Hserves)|]. cbn. congruence.
Qed.

Lemma get_qd_block_served self h w q :
  self.(electrs_url) = base -> result (DogeLinkElectrs.get_qd_block self h) w = Ok q ->
  exists block, chain h = Some block /\ btc_block_to_qdoge block = Ok q.
Proof.
  intros Hb E. unfold DogeLinkElectrs.get_qd_block, DogeLinkElectrs.get_block in E.
  apply result_bind_Ok in E as (block & E & Eq). rewrite result_lift in Eq.
  inv_prog. apply get_hash_served in Hstep; [subst|done].
  eapply get_response_bytes_served in Hstep0; [|apply (serves_raw _ _ _ Hserves h)].
  destruct Hstep0 as (block' & Hc & Hd). simplify_eq. by exists block.
Qed.

Lemma get_qd_block_header_served self h w q :
  self.(electrs_url) = base -> result (DogeLinkElectrs.get_qd_block_header self h) w = Ok q ->
  exists block, chain h = Some block /\ btc_block_header_to_qdoge (Btc.header block) = Ok q.
Proof.
  intros Hb E. unfold DogeLinkElectrs.get_qd_block_header in E.
  inv_prog. apply get_hash_served in Hstep; [subst|done].
  eapply (get_text_served _ _ (fun t => exists block raw, chain h = Some block /\
    hex_decode t = Some raw /\ Btc.deserialize_header raw = Some (Btc.header block))) in Hstep0.
  - destruct Hstep0 as (block & raw & Hc & Hx & Hd). unfold hex_decode_ok in Hstep1.
    rewrite Hx in Hstep1. cbn in Hstep1. simplify_eq. by exists block.
  - eapply answers_with_weaken; [apply (serves_header _ _ _ Hserves h)|].
    intros b (block & text & raw & Hc & Ht & Hx & Hd) t Ht'. rewrite Ht in Ht'. apply Ok_inj in Ht' as <-. eauto.
Qed.

(** The range asks for one header per height, in order. *)
Lemma join_all_Ok {A} (futures : list (prog W A)) w results :
  result (join_all futures) w = Ok results ->
  Forall2 (fun future r => exists w', result (try future) w' = Ok r) futures results.
Proof.
  revert w results. induction futures as [|f fs IH]; intros w results E; cbn [join_all] in E.
  - rewrite result_ret in E. apply Ok_inj in E as <-. constructor.
  - apply result_bind_Ok in E as (r & Hr & E). apply result_bind_Ok in E as (rs & Hrs & E).
    rewrite result_ret in E. apply Ok_inj in E as <-. constructor; [by exists w|by eapply IH].
Qed.

Lemma range_served self start_ end_ w headers :
  self.(electrs_url) = base ->
  result (DogeLinkElectrs.get_qd_block_headers_range_parallel self start_ end_) w = Ok headers ->
  Forall2 (fun h q => exists block, chain h = Some block /\ btc_block_header_to_qdoge (Btc.header block) = Ok q)
    (range_inclusive start_ end_) headers.
Proof.
  intros Hb E. unfold DogeLinkElectrs.get_qd_block_headers_range_parallel in E.
  apply result_bind_Ok in E as (results & Hj & E). rewrite result_lift in E.
  apply join_all_Ok in Hj. apply Forall2_fmap_l in Hj.
  revert headers E. induction Hj as [|h r hs rs [w' Hr] _ IH]; intros headers E; cbn [mapM] in E.
  - apply Ok_inj in E as <-. constructor.
  - apply bind_Ok in E as (q & Hq & E). apply bind_Ok in E as (qs & Hqs & E). apply Ok_inj in E as <-.
    constructor; [|by apply IH]. destruct r as [q'|]; [|done]. apply Ok_inj in Hq as ->.
    apply try_Ok in Hr as [_ Hr]. by apply (get_qd_block_header_served (DogeLinkElectrs.new self.(electrs_url)) h w').
Qed.
End chain.
End served.

(** C17: The client serves the chain of its server.  Whatever is retried, a block
    it returns for a height is the conversion of the block the server has at
    that height; the headers it returns for a range are one per height of the
    range, in order, the conversions of the headers of the same blocks.  So
    the header of a block fetched later is the one the range had at its height,
    although one comes from the raw block and the other from the hex text of
    its header. *)
Theorem electrs_serves_chain {W R} `{!Clock W, !HttpResponse R, !ElectrsHttp W R, !Hex, !Btc.Bitcoin}
    {BTCTransaction : Type} `{!Doge.Codecs BTCTransaction}
    (self : DogeLinkElectrsAsyncClient) (hash_txt : N -> string) (chain : N -> option Btc.Block) :
  serves self.(electrs_url) hash_txt chain ->
  (forall height w q, result (DogeLinkElectrs.get_qd_block self height) w = Ok q ->
     exists block, chain height = Some block /\ btc_block_to_qdoge block = Ok q) /\
  (forall first last w headers,
     result (DogeLinkElectrs.get_qd_block_headers_range_parallel self first last) w = Ok headers ->
     length headers = N.to_nat (last + 1 - first) /\
     forall i h, headers !! i = Some h ->
       (exists block, chain (first + N.of_nat i)%N = Some block /\
          btc_block_header_to_qdoge (Btc.header block) = Ok h) /\
       forall w' q, result (DogeLinkElectrs.get_qd_block self (first + N.of_nat i)) w' = Ok q -> header_of q = h).
Proof.
  intros Hs. split; [intros height w q; by apply get_qd_block_served with (1 := Hs)|].
  intros first last w headers E. apply (range_served _ _ _ Hs) in E as HF; [|done]. split.
  { apply Forall2_length in HF as <-. unfold range_inclusive. by rewrite length_fmap, length_seq. }
  intros i h Hi. destruct (Forall2_lookup_r _ _ _ _ _ HF Hi) as (height & Hh & block & Hc & Ec).
  unfold range_inclusive in Hh. apply list_lookup_fmap_Some in Hh as (j & -> & [-> _]%lookup_seq).
  split; [by exists block|]. intros w' q Eq.
  apply (get_qd_block_served _ _ _ Hs) in Eq as (block' & Hc' & Eb); [|done].
  apply btc_block_to_qdoge_Ok in Eb as [_ Eb]. cbn in *. congruence.
Qed.

(** ** The interface of the pipeline *)
Section interface.
Context {W R : Type} `{!Clock W, !HttpResponse R, !ElectrsHttp W R, !Hex, !Btc.Bitcoin}.
Context `{!LightClient, !Doge.Codecs BTCTransaction} (light_header : Doge.QDogeBlockHeader -> QDogeBlockHeader).

(** The client as the pipeline sees it: a header is the standard header with
    its auxiliary proof-of-work. *)
Definition client_electrs (self : DogeLinkElectrsAsyncClient) : Electrs W := {|
  Checkpoint.get_block_height := DogeLinkElectrs.get_block_height self;
  Checkpoint.get_qd_block h :=
    q ← DogeLinkElectrs.get_qd_block self h;
    mret (mkQDogeBlock _ (light_header (header_of q)) q.(Doge.transactions));
  Checkpoint.get_qd_block_headers_range_parallel a b :=
    hs ← DogeLinkElectrs.get_qd_block_headers_range_parallel self a b;
    mret (light_header <$> hs);
|}.

Context (v : W -> View).
Hypothesis http_quiet : forall url, quiet v (http_get url).
Hypothesis sleep_quiet : forall d w, v (sleep d w) = v w.

Lemma quiet_get_response_bytes self path : quiet v (DogeLinkElectrs.get_response_bytes self path).
Proof.
  apply quiet_question, quiet_run; [done|]. apply quiet_bind; [done|]. intros. apply quiet_ret.
Qed.
Lemma quiet_get_text self path : quiet v (DogeLinkElectrs.get_text self path).
Proof. apply quiet_bind; [apply quiet_get_response_bytes|]. intros. apply quiet_lift. Qed.

Lemma quiet_join_all {A} (futures : list (prog W A)) :
  Forall (quiet v) futures -> quiet v (join_all futures).
Proof.
  induction 1 as [|f fs Hf _ IH]; cbn [join_all]; [apply quiet_ret|].
  apply quiet_bind; [by apply quiet_try|]. intros r.
  apply quiet_bind; [done|]. intros rs. apply quiet_ret.
Qed.

Local Ltac quiet_steps :=
  repeat lazymatch goal with
  | |- quiet _ (mbind _ _) => apply quiet_bind; [|intros ?]
  | |- quiet _ _ => solve [eauto using quiet_get_text, quiet_get_response_bytes, quiet_lift, quiet_ret]
  end.

(** Nothing the client does changes what the pipeline's laws speak of: the
    requirements of [PipelineLaws] on Electrs hold of it. *)
Lemma client_electrs_quiet self :
  let E := client_electrs self in
  quiet v get_block_height /\ (forall h, quiet v (get_qd_block h)) /\
  forall a b, quiet v (get_qd_block_headers_range_parallel a b).
Proof.
  intros E. split_and!.
  - apply quiet_bind; [apply quiet_query|]. intros.
    apply quiet_bind; [apply quiet_get_response_bytes|]. intros. apply quiet_lift.
  - intros h. cbn. unfold DogeLinkElectrs.get_qd_block, DogeLinkElectrs.get_block, DogeLinkElectrs.get_bytes.
    quiet_steps.
  - intros a b. cbn. apply quiet_bind; [|intros; apply quiet_ret].
    apply quiet_bind; [|intros; apply quiet_lift]. apply quiet_join_all, Forall_fmap, Forall_forall.
    intros h _. cbn. unfold DogeLinkElectrs.get_qd_block_header. quiet_steps.
Qed.
End interface.

(** ** A server to run *)
Module ElectrsWitness.
Import HexInstance.

(** Blocks are their heights; block 7 has an auxiliary proof-of-work, and its
    parent's header is that of block 3. *)
Definition parent : Btc.AuxPow bytes N :=
  Btc.mkAuxPow [x51] (replicate 32 x07) (Btc.mkBranch 1 [replicate 32 x01]) (Btc.mkBranch 0 []) 3%N.
#[local] Instance bitcoin : Btc.Bitcoin := {|
  Btc.Transaction := bytes; Btc.SimpleHeader := N; Btc.Header := N;
  Btc.to_simple_header h := h;
  Btc.aux_data h := if (h =? 7)%N then Some parent else None;
  Btc.serialize_transaction tx := tx;
  Btc.serialize_simple_header h := le_bytes 4 h;
  Btc.deserialize_header b := if (length b =? 4)%nat then Some (le_value b) else None;
  Btc.Block := N; Btc.header b := b; Btc.txdata b := [[x01; x02]; [x03]];
  Btc.deserialize_block b := if (length b =? 4)%nat then Some (le_value b) else None;
|}.
#[local] Instance codecs : Doge.Codecs bytes := {|
  Doge.transaction_from_bytes b := Ok b;
  Doge.DogeAuxPowCoinbaseTransaction := bytes; Doge.coinbase_from_bytes b := Ok b;
  Doge.QStandardBlockHeader := bytes;
  Doge.standard_header_from_bytes b :=
    if (length b =? 4)%nat then Ok b else Err (Anyhow "header length");
|}.

Definition base : string := "http://electrs".
Definition hash_txt (h : N) : string := "hash" +:+ decimal h.
Definition chain (h : N) : option Btc.Block := if (h =? 7)%N || (h =? 8)%N then Some h else None.
Definition hash_url (h : N) : string := base +:+ "/" +:+ "block-height/" +:+ decimal h.
Definition raw_url (h : N) : string := base +:+ "/" +:+ "block/" +:+ hash_txt h +:+ "/raw".
Definition header_url (h : N) : string := base +:+ "/" +:+ "block/" +:+ hash_txt h +:+ "/header".
Definition pages (h : N) : list (string * bytes) :=
  [(hash_url h, string_bytes (hash_txt h)); (raw_url h, le_bytes 4 h);
   (header_url h, string_bytes (hex_encode (le_bytes 4 h)))].
Definition table : list (string * bytes) := pages 7 ++ pages 8.

Fixpoint page (url : string) (t : list (string * bytes)) : option bytes :=
  match t with
  | [] => None
  | (u, b) :: t => if String.eqb u url then Some b else page url t
  end.

(** The number of requests; the second one meets a dropped connection. *)
#[local] Instance clock : Clock nat := {| now w := 0%N; sleep d w := w |}.
#[local] Instance response : HttpResponse (option bytes) := {|
  response_status r := match r with Some _ => 200%N | None => 404%N end;
  response_bytes r := inl (from_option id [] r);
  response_text r := inl EmptyString;
  json_ambiguous r := inl (mkAmbiguousBlockUpdateResponse "" "" "");
  json_block_update r := inl (mkBlockUpdateResponse "" "");
|}.
#[local] Instance http : ElectrsHttp nat (option bytes) := {|
  http_get url := perform (fun w => (S w,
    Ok (if (w =? 1)%nat then inr (mkReqwestError false false false true false false None []) else inl (page url table))));
  system_now w := Some 0%N; json_u32 b := None;
|}.

Lemma page_table url b : page url table = Some b -> exists h, (h = 7 \/ h = 8)%N /\ (url, b) ∈ pages h.
Proof.
  assert (forall t, page url t = Some b -> (url, b) ∈ t) as Hin.
  { induction t as [|[u x] t IH]; cbn; [done|]. destruct (String.eqb_spec u url) as [->|].
    - intros [= ->]. apply list_elem_of_here.
    - intros ?. by apply list_elem_of_further, IH. }
  intros Hp%Hin. unfold table in Hp. apply elem_of_app in Hp as [?|?]; eauto.
Qed.

Lemma served_page url (P : bytes -> Prop) :
  (forall h b, (h = 7 \/ h = 8)%N -> (url, b) ∈ pages h -> P b) -> answers_with url P.
Proof.
  intros HP w r b E Hs Hb. unfold result, http_get, http, perform in E. cbn [snd] in E.
  destruct (page url table) as [b'|] eqn:Ep; (destruct (w =? 1)%nat; [done|]); injection E as <-;
    [|by vm_compute in Hs].
  injection Hb as <-. apply page_table in Ep as (h & ? & ?). by eapply HP.
Qed.

Lemma app_last (a b : string) c d : a +:+ String c "" = b +:+ String d "" -> c = d.
Proof.
  revert b. induction a as [|x a IH]; intros [|y b] E; cbn in E.
  - by injection E.
  - injection E as _ E. by destruct b.
  - injection E as _ E. by destruct a.
  - injection E as _ E. by eapply IH.
Qed.

Lemma url_kinds h h' : hash_url h <> raw_url h' /\ hash_url h <> header_url h' /\ raw_url h <> header_url h'.
Proof.
  split_and!; intros E; try (cbn in E; discriminate E).
  assert (raw_url h = (base +:+ "/" +:+ "block/" +:+ hash_txt h +:+ "/ra") +:+ "w") as Er
    by (unfold raw_url; by rewrite !string_app_assoc).
  assert (header_url h' = (base +:+ "/" +:+ "block/" +:+ hash_txt h' +:+ "/heade") +:+ "r") as Eh
    by (unfold header_url; by rewrite !string_app_assoc).
  rewrite Er, Eh in E. by apply app_last in E.
Qed.

Lemma url_inj h h' :
  (hash_url h = hash_url h' -> h = h') /\ (raw_url h = raw_url h' -> h = h') /\
  (header_url h = header_url h' -> h = h').
Proof.
  unfold hash_url, raw_url, header_url, hash_txt.
  split_and!; intros E; repeat apply (inj (String.app _)) in E; [by apply decimal_inj in E|..];
    rewrite !string_app_assoc in E; apply (inj (String.app _)), string_app_inj_r in E;
    by apply decimal_inj in E.
Qed.

Lemma the_server_serves : serves base hash_txt chain.
Proof.
  constructor; intros h; apply served_page; intros h' b Hh' Hin;
    destruct (url_kinds h h') as (K1 & K2 & K3), (url_kinds h' h) as (K4 & K5 & K6), (url_inj h h') as (I1 & I2 & I3);
    unfold pages in Hin; rewrite !elem_of_cons, elem_of_nil in Hin;
    destruct Hin as [[E ->]%pair_eq|[[E ->]%pair_eq|[[E ->]%pair_eq|[]]]].
  - apply I1 in E as ->. by destruct Hh' as [->| ->].
  - by destruct (K1 E).
  - by destruct (K2 E).
  - symmetry in E. by destruct (K4 E).
  - apply I2 in E as ->. destruct Hh' as [->| ->]; by eexists.
  - by destruct (K3 E).
  - symmetry in E. by destruct (K5 E).
  - symmetry in E. by destruct (K6 E).
  - apply I3 in E as ->. destruct Hh' as [->| ->]; eexists _, _, _; (split; [done|]); (split; [by vm_compute|]);
      (split; [by vm_compute|done]).
Qed.

Lemma electrs_serves_chain_witness :
  let client := DogeLinkElectrs.new base in
  exists headers q, result (DogeLinkElectrs.get_qd_block_headers_range_parallel client 7 8) 0 = Ok headers /\
    result (DogeLinkElectrs.get_qd_block client 8) 9 = Ok q /\ length headers = 2 /\
    headers !! 1 = Some (header_of q).
Proof.
  intros client.
  destruct (electrs_serves_chain client hash_txt chain the_server_serves) as [_ Hrange].
  assert (is_ok (result (DogeLinkElectrs.get_qd_block_headers_range_parallel client 7 8) 0)
    && is_ok (result (DogeLinkElectrs.get_qd_block client 8) 9) = true) as Hok by (vm_compute; reflexivity).
  apply andb_prop in Hok as [[headers Hh]%is_ok_true [q Hq]%is_ok_true].
  destruct (Hrange 7%N 8%N 0 headers Hh) as [Hlen Hall]. change (length headers = 2) in Hlen.
  exists headers, q. split; [exact Hh|]. split; [exact Hq|]. split; [exact Hlen|].
  destruct (headers !! 1) as [h|] eqn:E; [|apply lookup_ge_None in E; lia].
  destruct (Hall 1 h E) as [_ Hq']. f_equal. symmetry. exact (Hq' 9 q Hq).
Defined.
End ElectrsWitness.
