(* ===== verification/Journal.v ===== *)
(** * Recovery decisions

    The decisions of the pipeline that involve no service: which in-flight
    proof may be committed, what to do with a lingering journal, and how to
    recover from a journal once the on-chain header has moved. *)
From S2P Require Import Prelude External Instances Merkle Effects NetworkRetry Chain.
From S2P Require Import ChainInstances Checkpoint Services.

(** ** Proof order *)
Inductive ProofDisposition := Preparing | Waiting | ProofFailed | Validated.

Definition commit_may_start (disposition : ProofDisposition) : bool :=
  match disposition with Validated => true | _ => false end.

Inductive SimulatedProofState := Pending | Ready | SimFailed.
Inductive OrderedProofAction := Idle | Wait (height : N) | Commit (height : N) | Fail (height : N).

Definition ordered_proof_action (committed_height : N) (inflight : gmap N SimulatedProofState)
  : OrderedProofAction :=
  match checked_add u32_max committed_height 1 with
  | None => Idle
  | Some expected =>
      match inflight !! expected with
      | None => Idle
      | Some Pending => Wait expected
      | Some Ready => Commit expected
      | Some SimFailed => Fail expected
      end
  end.

(** ** Journals *)
Definition checkpoint_journal_key (checkpoint_key : string) : string :=
  checkpoint_key +:+ "-" +:+ CHECKPOINT_JOURNAL_SUFFIX.

#[export] Instance plain_journal_key k : PlainKey k -> PlainKey (checkpoint_journal_key k).
Proof. intros. unfold checkpoint_journal_key, CHECKPOINT_JOURNAL_SUFFIX. apply _. Qed.

Lemma journal_key_ne k : checkpoint_journal_key k <> k.
Proof.
  intros E. apply (f_equal String.length) in E. unfold checkpoint_journal_key in E.
  rewrite !string_length_app in E. change (String.length "-") with 1 in E. lia.
Qed.

Inductive StaleJournalAction := StaleUpToDate | DiscardRaw.

Definition stale_journal_action (committed_matches_chain journal_present : bool) : StaleJournalAction :=
  if committed_matches_chain then
    if journal_present then DiscardRaw else StaleUpToDate
  else StaleUpToDate.

Definition mint_recovery_succeeded (result : ProcessMintsResult) : outcome () :=
  bail_when (negb result.(fully_completed))
    "mint recovery did not fully complete pending mints (BridgeClient reported fully_completed=false)".

Inductive JournalRecoveryPlan :=
| UpToDate
| DiscardStaleJournal
| PromoteCheckpoint (checkpoint : PipelineCheckpoint)
| CompleteMint (checkpoint : PipelineCheckpoint) (finalized_commitment : BlockBufferCommitment)
    (uploaded_buffers : UploadedBuffers)
| FailClosed (reason : string).

Section plan.
Context `{!Hex}.

Definition matches_chain (checkpoint : PipelineCheckpoint) (chain_header : bytes) : bool :=
  is_ok (assert_checkpoint_matches_chain checkpoint chain_header).

Definition plan_journal_recovery (checkpoint : PipelineCheckpoint) (chain_header : bytes)
    (journal : option CheckpointJournal) : JournalRecoveryPlan :=
  if matches_chain checkpoint chain_header then
    if bool_decide (is_Some journal) then DiscardStaleJournal else UpToDate
  else
    match journal with
    | None => FailClosed "on-chain bridge header advanced past Redis checkpoint height {} without a pending journal; cannot reconcile, fail closed"
    | Some journal =>
        if negb (journal.(journal_checkpoint).(height) =? saturating_add u32_max checkpoint.(height) 1)%N
        then FailClosed "checkpoint journal height {} is not exactly one above committed checkpoint height {}"
        else if negb (matches_chain journal.(journal_checkpoint) chain_header)
        then FailClosed "journal checkpoint height {} does not match the advanced on-chain bridge header"
        else match journal.(mint_progress) with
             | Some _ => PromoteCheckpoint journal.(journal_checkpoint)
             | None =>
                 match journal.(finalized_commitment), journal.(uploaded_buffers) with
                 | None, _ => FailClosed "on-chain header advanced to height {} but the journal lacks the finalized commitment; cannot idempotently complete mint, fail closed"
                 | Some _, None => FailClosed "on-chain header advanced to height {} but the journal lacks the uploaded buffer addresses; cannot complete mint, fail closed"
                 | Some finalized_commitment, Some uploaded_buffers =>
                     CompleteMint journal.(journal_checkpoint) finalized_commitment uploaded_buffers
                 end
             end
    end.

(** A checkpoint matches the chain exactly when its header is the 320 bytes
    stored on chain. *)
Lemma matches_chain_spec c h :
  matches_chain c h = true <-> hex_decode c.(header_hex) = Some h /\ length h = HEADER_SIZE.
Proof.
  unfold matches_chain. rewrite is_ok_true. unfold assert_checkpoint_matches_chain. split.
  - intros [[] Hv]. inv_ok. bool_hyps.
    match goal with E : decode_fixed _ _ = Ok _ |- _ => apply decode_fixed_Ok in E as [Hd Hl] end.
    match goal with E : ¬ (_ <> _) |- _ => apply dec_stable in E; subst end. done.
  - intros [Hd Hl]. exists (). assert (decode_fixed HEADER_SIZE c.(header_hex) = Ok h) as -> by
      by apply decode_fixed_Ok.
    cbn [mbind outcome_bind]. rewrite Hl, Nat.eqb_refl. cbn [negb bail_when mbind outcome_bind].
    by rewrite bool_decide_false by tauto.
Qed.
End plan.

(** C8: The recovery decision, in full.  Nothing is done only when the committed
    checkpoint is the one on chain (a journal is then discarded).  Otherwise a
    checkpoint is promoted only from a journal exactly one height above the
    committed one whose header is the one on chain, directly when its mints are
    recorded as done and after completing its mints, with the buffers it
    records, when they are not; in every other case recovery refuses. *)
Theorem plan_journal_recovery_spec `{!Hex} (c : PipelineCheckpoint) (h : bytes)
    (journal : option CheckpointJournal) :
  match plan_journal_recovery c h journal with
  | UpToDate => matches_chain c h = true /\ journal = None
  | DiscardStaleJournal => matches_chain c h = true /\ is_Some journal
  | PromoteCheckpoint next =>
      matches_chain c h = false /\ matches_chain next h = true /\
      next.(height) = saturating_add u32_max c.(height) 1 /\
      exists j, journal = Some j /\ j.(journal_checkpoint) = next /\ is_Some j.(mint_progress)
  | CompleteMint next finalized buffers =>
      matches_chain c h = false /\ matches_chain next h = true /\
      next.(height) = saturating_add u32_max c.(height) 1 /\
      exists j, journal = Some j /\ j.(journal_checkpoint) = next /\ j.(mint_progress) = None /\
        j.(finalized_commitment) = Some finalized /\ j.(uploaded_buffers) = Some buffers
  | FailClosed _ =>
      matches_chain c h = false /\
      match journal with
      | None => True
      | Some j =>
          j.(journal_checkpoint).(height) <> saturating_add u32_max c.(height) 1 \/
          matches_chain j.(journal_checkpoint) h = false \/
          (j.(mint_progress) = None /\
           (j.(finalized_commitment) = None \/ j.(uploaded_buffers) = None))
      end
  end.
Proof.
  unfold plan_journal_recovery. destruct (matches_chain c h) eqn:Hc.
  { case_bool_decide as Hj; [done|]. by rewrite <- eq_None_not_Some in Hj. }
  destruct journal as [j|]; [|done].
  destruct (height (journal_checkpoint j) =? _)%N eqn:Hh; bool_hyps; cbn [negb]; [|by auto].
  destruct (matches_chain (journal_checkpoint j) h) eqn:Hj; cbn [negb]; [|by auto].
  destruct (mint_progress j) eqn:Hm; [by eauto 10|].
  destruct (finalized_commitment j) eqn:Hf; [|by auto 10].
  destruct (uploaded_buffers j) eqn:Hu; [by eauto 10|by auto 10].
Qed.
