(* ===== verification/Transition.v ===== *)
(** * Preparing a block transition

    From a checkpoint and a height to the proof job, the next checkpoint and
    the buffers to upload: [prepare_height] of [block_pipeline.rs], with the
    live check of a recorded deposit. *)
From S2P Require Import Prelude External Instances Merkle Effects NetworkRetry Chain.
From S2P Require Import ChainInstances Checkpoint SolHeader Claims ProofJob Files.

Record PreparedTransition := mkPrepared {
  prep_height : N;
  next_checkpoint : PipelineCheckpoint;
  proof_job : ProofJob;
  old_state_bytes : bytes;
  witness_bytes : bytes;
  old_header : bytes;
  new_header : bytes;
  evaluation : ClaimEvaluation;
  finalized_height : N;
  finalized_buffers : BlockBufferCommitment;
  prep_idempotency_key : string;
}.

(** [QEDDogeChainStateCore::append_block] and the guest's transition function:
    third-party, on the state they would mutate. *)
Class Transitions `{!LightClient} := {
  append_block : DogeNetworkConfig -> BridgeState -> N -> QDogeBlockHeader -> bytes -> bytes -> N -> N
                 -> option BridgeState;
  prover_guest_verify_block_transition_detailed :
    DogeNetworkConfig -> ManagerCustodyProfile -> bytes -> N -> IncomingBlockWitness -> BridgeState
    -> FeeRate -> option BridgeState;
}.

(** ** The live check of a recorded deposit *)
Record DepositEvidenceDeposit := mkDepositEvidenceDeposit {
  txid : string;
  confirmation_height : option N;
  vout : N;
}.
Record DepositEvidenceCustody := mkDepositEvidenceCustody {
  original_recipient_address_hex : string;
  script_pubkey_hex : option string;
  redeem_script_hex : option string;
}.
Record DepositEvidenceDocument := mkDepositEvidence {
  doc_deposit : DepositEvidenceDeposit;
  doc_custody : DepositEvidenceCustody;
}.

(** [serde_json::from_slice] of the evidence document. *)
Class EvidenceJson := { evidence_from_slice : bytes -> option DepositEvidenceDocument }.

Section deposit_script.
Context {W : Type} `{!Files W, !Hex, !LightClient, !Custody, !EvidenceJson}.

Definition decode_dogecoin_txid (value : string) : outcome bytes :=
  reverse <$> decode_fixed 32 value.

Definition find_transaction (block : QDogeBlock) (tx_hash : bytes) : option BTCTransaction :=
  snd <$> list_find (fun transaction => get_hash transaction = tx_hash) block.(transactions).

(** The checks of a document recorded at this height. *)
Definition check_deposit_evidence (P : ManagerCustodyProfile) (evidence : DepositEvidenceDocument)
    (block : QDogeBlock) (custody_script_config : bytes) (recipient_atas : list bytes) : outcome () :=
  recipient_ata ← decode_fixed 32 evidence.(doc_custody).(original_recipient_address_hex);
  bail_when (bool_decide (recipient_ata ∉ recipient_atas))
    "deposit evidence recipient ATA {} is not configured for block auto-claim" ;;
  let expected_redeem_script := get_manager_custody_redeem_script P custody_script_config recipient_ata in
  redeem ← ok_or evidence.(doc_custody).(redeem_script_hex)
             (Anyhow "confirmed deposit evidence is missing redeem_script_hex");
  actual_redeem_script ← hex_decode_ok redeem;
  bail_when (bool_decide (actual_redeem_script <> expected_redeem_script))
    "deposit {} at height {height} redeem script does not match the exact {}-byte deterministic 5-of-7 manager custody script for recipient ATA {}" ;;
  let expected_script := get_manager_custody_output_script P custody_script_config recipient_ata in
  script_hex ← ok_or evidence.(doc_custody).(script_pubkey_hex)
                 (Anyhow "confirmed deposit evidence is missing script_pubkey_hex");
  actual_script ← hex_decode_ok script_hex;
  bail_when (bool_decide (actual_script <> expected_script))
    "deposit {} at height {height} P2SH output {} does not match manager custody output {}" ;;
  tx_hash ← decode_dogecoin_txid evidence.(doc_deposit).(txid);
  transaction ← ok_or (find_transaction block tx_hash)
    (Anyhow "deposit evidence transaction {} is absent from Electrs block {height}");
  output ← ok_or (outputs transaction !! N.to_nat evidence.(doc_deposit).(vout))
    (Anyhow "deposit evidence vout {} is absent from transaction {}");
  bail_when (bool_decide (output.(script) <> expected_script))
    "deposit evidence transaction {} vout {} does not contain the exact manager custody output".

Definition validate_live_deposit_script (P : ManagerCustodyProfile) (evidence_path : option Path)
    (height : N) (block : QDogeBlock) (custody_script_config : bytes) (recipient_atas : list bytes)
  : prog W () :=
  match evidence_path with
  | None => mret ()
  | Some path =>
      is_file ← query (fun w => Ok (fs_is_file w path));
      if negb is_file then mret ()
      else
        text ← try (fs_read path);
        match text with
        | inr _ => lift (Err (Anyhow "failed to read deposit evidence {}: {error}"))
        | inl text =>
            evidence ← lift (ok_or (evidence_from_slice text) (External "serde_json"));
            if bool_decide (evidence.(doc_deposit).(confirmation_height) <> Some height) then mret ()
            else lift (check_deposit_evidence P evidence block custody_script_config recipient_atas)
        end
  end.
End deposit_script.

(** ** The next checkpoint *)
Section next.
Context `{!Hex, !Sha, !TreeParams, !LightClient, !Custody, !ClaimHelper}.

Definition next_claim_frontier (checkpoint : PipelineCheckpoint) (claim_history : list bytes)
  : outcome MerkleFrontier :=
  match last claim_history with
  | Some last_leaf =>
      let last_index := length claim_history - 1 in
      siblings ← sparse_sha256_merkle_siblings claim_history (N.of_nat last_index)
                   AUTO_CLAIM_DEPOSITS_TREE_HEIGHT 0;
      mret (MerkleFrontierOps.new (as_u32 (N.of_nat last_index)) last_leaf siblings)
  | None => mret checkpoint.(claim_frontier)
  end.

Definition next_txo_frontier (checkpoint : PipelineCheckpoint) (height : N) (block_txo_root : bytes)
  : outcome (MerkleFrontier * list bytes) :=
  if bool_decide (checkpoint.(txo_block_history) = []) then
    txo_siblings ← sequential_next_leaf_siblings checkpoint.(txo_block_frontier) height
      TXO_TREE_INDEX_BITS_BLOCK_NUM_LENGTH TXO_BLOCK_FULL_MERKLE_TREE_HEIGHT;
    mret (MerkleFrontierOps.new height block_txo_root txo_siblings, [])
  else
    let history := checkpoint.(txo_block_history) in
    bail_when (negb (N.of_nat (length history) =? height)%N)
      "TXO block history length {} does not match next height {height}" ;;
    let history := history ++ [block_txo_root] in
    txo_siblings ← sparse_sha256_merkle_siblings history height
      TXO_TREE_INDEX_BITS_BLOCK_NUM_LENGTH TXO_BLOCK_FULL_MERKLE_TREE_HEIGHT;
    mret (MerkleFrontierOps.new height block_txo_root txo_siblings, history).

Definition next_pending_finalization (checkpoint : PipelineCheckpoint) (height : N)
    (evaluation : ClaimEvaluation) (finalized_height : N) : gmap N BlockBufferCommitment :=
  delete finalized_height (<[height := from_evaluation evaluation]> checkpoint.(pending_finalization)).

Definition build_next_checkpoint (checkpoint : PipelineCheckpoint) (height : N)
    (evaluation : ClaimEvaluation) (finalized_height : N) (new_state_bytes new_header : bytes)
  : outcome PipelineCheckpoint :=
  let claim_history := checkpoint.(claim_history) ++ evaluation.(eval_deposit_leaf_hashes) in
  claim_frontier ← next_claim_frontier checkpoint claim_history;
  '(txo_block_frontier, txo_block_history) ←
    next_txo_frontier checkpoint height evaluation.(eval_block_txo_root);
  let next := {|
    height := height;
    state_hex := hex_encode new_state_bytes;
    header_hex := hex_encode new_header;
    claim_frontier := claim_frontier;
    txo_block_frontier := txo_block_frontier;
    claim_history := claim_history;
    txo_block_history := txo_block_history;
    pending_finalization := next_pending_finalization checkpoint height evaluation finalized_height;
  |} in
  validate_checkpoint next ;;
  mret next.
End next.

Definition fee_rate (config : BlockPipelineConfig) : FeeRate :=
  mkFeeRate (deposit_flat_fee config.(config_params)) (deposit_fee_numerator config.(config_params))
    (deposit_fee_denominator config.(config_params)).

Section prepare.
Context `{!Hex, !Sha, !TreeParams, !LightClient, !Custody, !ClaimHelper, !Transitions, !EvidenceJson}.
Context {W : Type} `{!Files W, !Electrs W}.
Context `{!Json ProofRequest, !Json PipelineCheckpoint}.

(** The state, block and witness a transition starts from. *)
Definition load_old_state (config : BlockPipelineConfig) (checkpoint : PipelineCheckpoint) (height : N)
  : prog W (bytes * BridgeState) :=
  generated_state_bytes ← lift (hex_decode_ok checkpoint.(state_hex));
  old_state_bytes ← read_optional_height_artifact config.(old_state_dir) height generated_state_bytes;
  old_state ← lift (ok_or (try_from_slice old_state_bytes) (External "borsh"));
  lift (bail_when (negb (get_tip_block_number old_state =? checkpoint.(Checkpoint.height))%N)
    "helper state tip {} does not match checkpoint height {}") ;;
  lift (validate_frontiers_against_state checkpoint old_state) ;;
  mret (old_state_bytes, old_state).

Definition load_witness (config : BlockPipelineConfig) (P : ManagerCustodyProfile)
    (checkpoint : PipelineCheckpoint) (height : N) (block : QDogeBlock) : prog W (bytes * IncomingBlockWitness) :=
  generated_witness ← lift (build_deposit_claim_witness P block checkpoint
                              config.(custody_script_config) config.(recipient_atas));
  generated_witness_bytes ← lift (ok_or (witness_write_to_vec generated_witness) (External "speedy"));
  witness_bytes ← read_optional_height_artifact config.(witness_dir) height generated_witness_bytes;
  witness ← lift (ok_or (witness_read_from_buffer witness_bytes) (External "speedy"));
  lift (bail_when (bool_decide (witness.(witness_block_header) <> block.(header)))
    "witness block header does not match Electrs block {height}") ;;
  mret (witness_bytes, witness).

Definition load_finalized_block (checkpoint : PipelineCheckpoint) (finalized_height : N)
  : prog W (option QDogeBlock) :=
  match checkpoint.(pending_finalization) !! finalized_height with
  | Some _ => block ← get_qd_block finalized_height; mret (Some block)
  | None => mret None
  end.

Definition proof_request (config : BlockPipelineConfig) (height : N)
    (old_state_bytes witness_bytes old_header new_header : bytes) (finalized_witness : string)
  : ProofRequest := {|
  request_id := "block-" +:+ decimal height;
  req_old_state := hex_encode old_state_bytes;
  req_witness := hex_encode witness_bytes;
  ProofJob.finalized_witness := finalized_witness;
  req_custody_script_config := hex_encode config.(custody_script_config);
  req_required_confirmations := config.(required_confirmations);
  req_flat_fee := deposit_flat_fee config.(config_params);
  fee_num := deposit_fee_numerator config.(config_params);
  fee_den := deposit_fee_denominator config.(config_params);
  req_old_header := hex_encode old_header;
  req_new_header := hex_encode new_header;
  req_config_params := hex_encode config.(config_params);
|}.

(** The new state, computed by the light client and checked against the guest. *)
Definition transition_state (config : BlockPipelineConfig) (height : N) (old_state : BridgeState)
    (witness : IncomingBlockWitness) (evaluation : ClaimEvaluation) : outcome BridgeState :=
  let '(NC, P) := profile_of config.(network) in
  let t := evaluation.(eval_transition) in
  new_state ← ok_or (append_block NC old_state height witness.(witness_block_header)
      t.(new_claimed_txo_tree_root) t.(new_auto_claimed_deposits_tree_root)
      t.(end_auto_claimed_deposits_index) t.(transition_fees_collected)) (External "append_block");
  verified_state ← ok_or (prover_guest_verify_block_transition_detailed NC P
      config.(custody_script_config) config.(required_confirmations) witness old_state
      (fee_rate config)) (External "prover_guest_verify");
  bail_when (bool_decide (verified_state <> new_state))
    "pipeline and guest helper produced different new chain states" ;;
  mret new_state.

(** [sha256_hex(&serde_json::to_vec(checkpoint)?)] *)
Definition checkpoint_fingerprint (checkpoint : PipelineCheckpoint) : outcome string :=
  text ← json_string checkpoint;
  mret (sha256_hex (string_bytes text)).

Definition prepare_height (config : BlockPipelineConfig) (checkpoint : PipelineCheckpoint) (height : N)
  : prog W PreparedTransition :=
  let P := (profile_of config.(network)).2 in
  '(old_state_bytes, old_state) ← load_old_state config checkpoint height;
  block ← get_qd_block height;
  lift (bail_when (bool_decide (previous_block_hash block.(header) <> get_tip_block_hash old_state))
    "block {height} does not extend checkpoint tip {}; reorg handling is out of scope") ;;
  validate_live_deposit_script P config.(deposit_evidence_path) height block
    config.(custody_script_config) config.(recipient_atas) ;;
  '(witness_bytes, witness) ← load_witness config P checkpoint height block;
  evaluation ← lift (evaluate_claim_witness P height witness.(claim_witness)
    (merkle_root witness.(witness_block_header)) config.(custody_script_config) (fee_rate config));
  finalized_height ← lift (ok_or (checked_sub height config.(required_confirmations))
    (Anyhow "finalized height underflow"));
  finalized_block ← load_finalized_block checkpoint finalized_height;
  '(finalized_buffers, finalized_witness) ← lift (resolve_finalized_buffers P finalized_block
    (checkpoint.(pending_finalization) !! finalized_height) config.(custody_script_config)
    config.(recipient_atas) (fee_rate config));
  new_state ← lift (transition_state config height old_state witness evaluation);
  old_header ← lift (decode_fixed HEADER_SIZE checkpoint.(header_hex));
  mints_hash ← lift (commitment_pending_mints_hash finalized_buffers);
  txo_hash ← lift (commitment_txo_output_list_hash finalized_buffers);
  new_header ← lift (build_new_solana_header old_header new_state config.(required_confirmations)
    mints_hash txo_hash);
  new_state_bytes ← lift (ok_or (borsh_to_vec new_state) (External "borsh"));
  next_checkpoint ← lift (build_next_checkpoint checkpoint height evaluation finalized_height
    new_state_bytes new_header);
  fingerprint ← lift (checkpoint_fingerprint checkpoint);
  elf_sha256 ← file_sha256_hex config.(block_elf_path);
  proof_job ← lift (new_job (as_str config.(network)) height fingerprint (guest_id config.(network))
    elf_sha256 (hex_encode config.(expected_vk_hash))
    (proof_request config height old_state_bytes witness_bytes old_header new_header finalized_witness));
  mret {|
    prep_height := height;
    next_checkpoint := next_checkpoint;
    proof_job := proof_job;
    old_state_bytes := old_state_bytes;
    witness_bytes := witness_bytes;
    old_header := old_header;
    new_header := new_header;
    evaluation := evaluation;
    finalized_height := finalized_height;
    finalized_buffers := finalized_buffers;
    prep_idempotency_key :=
      "doge-block-" +:+ decimal height +:+ "-" +:+ hex_encode (header_hash witness.(witness_block_header));
  |}.
End prepare.

(** ** What preparation establishes *)
Section prepare_theory.
Context `{!Hex, !Sha, !TreeParams, !LightClient, !Custody, !ClaimHelper, !Transitions, !EvidenceJson}.
Context {W : Type} `{!Files W, !Electrs W}.
Context `{!Json ProofRequest, !Json PipelineCheckpoint}.

Lemma load_old_state_Ok config c h w b state :
  result (load_old_state config c h) w = Ok (b, state) ->
  try_from_slice b = Some state /\ get_tip_block_number state = c.(Checkpoint.height) /\
  validate_frontiers_against_state c state = Ok () /\
  (config.(old_state_dir) = None -> hex_decode c.(state_hex) = Some b).
Proof.
  intros Hr. unfold load_old_state in Hr. inv_prog. simplify_eq. bool_hyps. split_and!; [done..|].
  intros Hdir. unfold read_optional_height_artifact in *. rewrite Hdir in *. inv_prog. subst.
  match goal with E : hex_decode_ok _ = Ok _ |- _ => unfold hex_decode_ok in E; inv_ok end. done.
Qed.

Lemma load_witness_Ok config P c h block w b witness :
  result (load_witness config P c h block) w = Ok (b, witness) ->
  witness_read_from_buffer b = Some witness /\ witness.(witness_block_header) = block.(header).
Proof.
  intros Hr. unfold load_witness in Hr. inv_prog. simplify_eq. bool_hyps.
  by match goal with E : ¬ (_ <> _) |- _ => apply dec_stable in E end.
Qed.

Lemma transition_state_Ok config h state witness ev state' :
  transition_state config h state witness ev = Ok state' ->
  let NC := (profile_of config.(network)).1 in let P := (profile_of config.(network)).2 in
  let t := ev.(eval_transition) in
  append_block NC state h witness.(witness_block_header) t.(new_claimed_txo_tree_root)
    t.(new_auto_claimed_deposits_tree_root) t.(end_auto_claimed_deposits_index)
    t.(transition_fees_collected) = Some state' /\
  prover_guest_verify_block_transition_detailed NC P config.(custody_script_config)
    config.(required_confirmations) witness state (fee_rate config) = Some state'.
Proof.
  unfold transition_state. destruct (profile_of (network config)) as [NC P]. intros Hr. inv_ok. bool_hyps.
  match goal with E : ¬ (_ <> _) |- _ => apply dec_stable in E; subst end. done.
Qed.

(** The next checkpoint, field by field. *)
Lemma build_next_checkpoint_Ok c h ev fh state_bytes new_header next :
  build_next_checkpoint c h ev fh state_bytes new_header = Ok next ->
  validate_checkpoint next = Ok () /\ next.(Checkpoint.height) = h /\
  next.(state_hex) = hex_encode state_bytes /\ next.(header_hex) = hex_encode new_header /\
  next.(claim_history) = c.(claim_history) ++ ev.(eval_deposit_leaf_hashes) /\
  next.(pending_finalization) = next_pending_finalization c h ev fh /\
  next.(txo_block_history)
  = (if bool_decide (c.(txo_block_history) = []) then []
     else c.(txo_block_history) ++ [ev.(eval_block_txo_root)]).
Proof.
  unfold build_next_checkpoint. intros Hr. apply bind_Ok in Hr as (cf & Hcf & Hr).
  apply bind_Ok in Hr as ([tf th] & Htf & Hr). apply bind_Ok in Hr as ([] & Hv & Hr).
  apply Ok_inj in Hr. subst next. split_and!; [done..|]. cbn [txo_block_history].
  unfold next_txo_frontier in Htf. case_bool_decide; inv_ok; done.
Qed.

Lemma next_pending_lookup c h ev fh i :
  next_pending_finalization c h ev fh !! i
  = if decide (i = fh) then None
    else if decide (i = h) then Some (from_evaluation ev) else c.(pending_finalization) !! i.
Proof.
  unfold next_pending_finalization. destruct (decide (i = fh)) as [->|Hf]; [apply lookup_delete_eq|].
  rewrite lookup_delete_ne by done. destruct (decide (i = h)) as [->|Hh]; [apply lookup_insert_eq|].
  by rewrite lookup_insert_ne.
Qed.

(** Without confirmations a block finalizes its own height, and the deposits it
    claimed leave [pending_finalization] before any block looks them up. *)
Lemma no_confirmations_drop_deposits c h ev sb nh next :
  checked_sub h 0 = Some h /\
  (build_next_checkpoint c h ev h sb nh = Ok next -> next.(pending_finalization) !! h = None).
Proof.
  split; [by apply checked_sub_Some|].
  intros E. apply build_next_checkpoint_Ok in E as (_ & _ & _ & _ & _ & -> & _).
  rewrite next_pending_lookup. by rewrite decide_True.
Qed.
End prepare_theory.

Lemma prepare_height_Ok
    `{!Hex, !HexLaws, !Sha, !TreeParams, !LightClient, !Custody, !ClaimHelper, !Transitions, !EvidenceJson}
    {W} `{!Files W, !Electrs W, !Json ProofRequest, !JsonLaws ProofRequest, !Json PipelineCheckpoint}
    (config : BlockPipelineConfig) (c : PipelineCheckpoint) (h : N) (w : W) (p : PreparedTransition) :
  result (prepare_height config c h) w = Ok p ->
  let next := p.(next_checkpoint) in
  (exists w1 block state state' witness,
     result (get_qd_block h) w1 = Ok block /\
     previous_block_hash block.(header) = get_tip_block_hash state /\
     try_from_slice p.(old_state_bytes) = Some state /\
     get_tip_block_number state = c.(Checkpoint.height) /\
     (config.(old_state_dir) = None -> hex_decode c.(state_hex) = Some p.(old_state_bytes)) /\
     witness_read_from_buffer p.(witness_bytes) = Some witness /\
     witness.(witness_block_header) = block.(header) /\
     transition_state config h state witness p.(evaluation) = Ok state' /\
     hex_decode next.(state_hex) = borsh_to_vec state') /\
  p.(prep_height) = h /\ next.(Checkpoint.height) = h /\ validate_checkpoint next = Ok () /\
  hex_decode c.(header_hex) = Some p.(old_header) /\
  hex_decode next.(header_hex) = Some p.(new_header) /\
  next.(claim_history) = c.(claim_history) ++ p.(evaluation).(eval_deposit_leaf_hashes) /\
  (p.(finalized_height) + config.(required_confirmations) = h)%N /\
  (forall i, next.(pending_finalization) !! i
     = if decide (i = p.(finalized_height)) then None
       else if decide (i = h) then Some (from_evaluation p.(evaluation))
       else c.(pending_finalization) !! i) /\
  validate p.(proof_job) = Ok () /\ p.(proof_job).(job_height) = h /\
  p.(proof_job).(job_network) = as_str config.(network) /\
  p.(proof_job).(job_vkey_hash) = hex_encode config.(expected_vk_hash) /\
  p.(proof_job).(request).(req_old_header) = hex_encode p.(old_header) /\
  p.(proof_job).(request).(req_new_header) = hex_encode p.(new_header) /\
  checkpoint_fingerprint c = Ok p.(proof_job).(parent_checkpoint_sha256).
Proof.
  intros Hr. unfold prepare_height in Hr. inv_prog. subst p.
  cbn [next_checkpoint prep_height proof_job old_state_bytes witness_bytes old_header new_header
    evaluation Transition.finalized_height finalized_buffers].
  repeat match goal with
  | E : result (load_old_state _ _ _) _ = Ok _ |- _ => apply load_old_state_Ok in E as (? & ? & ? & ?)
  | E : result (load_witness _ _ _ _ _) _ = Ok _ |- _ => apply load_witness_Ok in E as (? & ?)
  | E : build_next_checkpoint _ _ _ _ _ _ = Ok _ |- _ =>
      apply build_next_checkpoint_Ok in E as (? & ? & Es & Eh & ? & Ep & ?)
  | E : new_job _ _ _ _ _ _ _ = Ok _ |- _ =>
      apply new_job_Ok in E as (? & ? & ? & Efp & ? & ? & ? & Er)
  | E : decode_fixed _ _ = Ok _ |- _ => apply decode_fixed_Ok in E as [? ?]
  | E : checked_sub _ _ = Some _ |- _ => apply checked_sub_Some in E
  end.
  bool_hyps. repeat match goal with E : ¬ (_ <> _) |- _ => apply dec_stable in E end.
  split.
  - eexists _, _, _, _, _. split_and!; try eassumption.
    rewrite Es, hex_decode_encode. by symmetry.
  - rewrite Er, Efp, Eh, hex_decode_encode. split_and!; try done; [lia|].
    intros k. rewrite Ep. apply next_pending_lookup.
Qed.

(** C9: What a prepared transition is.  When [prepare_height] returns, the block
    fetched for that height extends the tip of the old state, whose height is
    the checkpoint's; the light client and the guest's own transition function
    agree on the new state; and the next checkpoint passes [validate_checkpoint],
    is at that height, serializes the new state, carries the new header and
    extends the claim history by the block's deposit leaves.  The deposits of the
    block are recorded for finalization under its height, except when zero
    confirmations are required, and those of the height being finalized are
    taken out.  The proof job is valid, for this height, network and key, and is
    bound to the checkpoint it started from by its fingerprint. *)
Theorem prepare_height_spec
    `{!Hex, !HexLaws, !Sha, !TreeParams, !LightClient, !Custody, !ClaimHelper, !Transitions, !EvidenceJson}
    {W} `{!Files W, !Electrs W, !Json ProofRequest, !JsonLaws ProofRequest, !Json PipelineCheckpoint}
    (config : BlockPipelineConfig) (c : PipelineCheckpoint) (h : N) (w : W) (p : PreparedTransition) :
  result (prepare_height config c h) w = Ok p ->
  let next := p.(next_checkpoint) in
  (exists w1 block state state' witness,
     result (get_qd_block h) w1 = Ok block /\
     previous_block_hash block.(header) = get_tip_block_hash state /\
     try_from_slice p.(old_state_bytes) = Some state /\
     get_tip_block_number state = c.(Checkpoint.height) /\
     (config.(old_state_dir) = None -> hex_decode c.(state_hex) = Some p.(old_state_bytes)) /\
     witness_read_from_buffer p.(witness_bytes) = Some witness /\
     witness.(witness_block_header) = block.(header) /\
     transition_state config h state witness p.(evaluation) = Ok state' /\
     hex_decode next.(state_hex) = borsh_to_vec state') /\
  p.(prep_height) = h /\ next.(Checkpoint.height) = h /\ validate_checkpoint next = Ok () /\
  hex_decode c.(header_hex) = Some p.(old_header) /\
  hex_decode next.(header_hex) = Some p.(new_header) /\
  next.(claim_history) = c.(claim_history) ++ p.(evaluation).(eval_deposit_leaf_hashes) /\
  (p.(finalized_height) + config.(required_confirmations) = h)%N /\
  (forall i, next.(pending_finalization) !! i
     = if decide (i = p.(finalized_height)) then None
       else if decide (i = h) then Some (from_evaluation p.(evaluation))
       else c.(pending_finalization) !! i) /\
  validate p.(proof_job) = Ok () /\ p.(proof_job).(job_height) = h /\
  p.(proof_job).(job_network) = as_str config.(network) /\
  p.(proof_job).(job_vkey_hash) = hex_encode config.(expected_vk_hash) /\
  p.(proof_job).(request).(req_old_header) = hex_encode p.(old_header) /\
  p.(proof_job).(request).(req_new_header) = hex_encode p.(new_header) /\
  checkpoint_fingerprint c = Ok p.(proof_job).(parent_checkpoint_sha256).
Proof. apply prepare_height_Ok. Qed.
