(* ===== verification/Evidence.v ===== *)
(** * Evidence

    The archive of a proven block: the artifact files, the hash that binds
    them, the self-hashed manifest, and the atomic replacement of the pointer
    to the latest one. *)
From S2P Require Import Prelude External Instances Effects NetworkRetry Chain Checkpoint.
From S2P Require Import SolHeader Claims ProofJob Services Files.

Definition EVIDENCE_SCHEMA_VERSION : N := 2.

Record EvidenceArtifact := mkArtifact {
  art_path : string;
  art_sha256 : string;
  art_size : N;
}.

Record BlockProofEvidence := mkEvidence {
  ev_schema_version : N;
  ev_status : string;
  ev_height : N;
  ev_block_hash : string;
  finalized_source_height : N;
  source_witness_height : N;
  witness_deposit_count : N;
  witness_minted_amount_sats : N;
  ev_deposit_count : N;
  ev_minted_amount_sats : N;
  ev_auto_claim_start_index : N;
  ev_auto_claim_end_index : N;
  ev_fees_collected : N;
  content_sha256 : string;
  manifest_sha256 : string;
  ev_evidence_dir : string;
  manifest_path : string;
  latest_path : string;
  ev_idempotency_key : string;
  ev_mint_buffer : option string;
  ev_mint_buffer_bump : option N;
  ev_txo_buffer : option string;
  ev_txo_buffer_bump : option N;
  buffer_upload_completed : bool;
  ev_submission_signature : option string;
  mint_group_signatures : list string;
  mint_groups_processed : nat;
  ev_total_mints_processed : nat;
  ev_vk_hash : string;
  elf_sha256 : string;
  artifacts : gmap string EvidenceArtifact;
}.

Record ProverInputsEvidence := mkInputs {
  in_schema_version : N;
  in_height : N;
  in_block_hash : string;
  in_custody_script_config : string;
  in_recipient_atas : list string;
  in_required_confirmations : N;
  in_flat_fee : N;
  in_fee_num : N;
  in_fee_den : N;
  in_config_params : string;
  in_custodian_hash : string;
  in_expected_vk_hash : string;
  in_gen_proof_path : string;
  in_block_elf_source_path : string;
  old_state_sha256 : string;
  witness_sha256 : string;
  old_header_sha256 : string;
  new_header_sha256 : string;
}.

Record MintProcessingEvidence := mkMintProcessing {
  mp_signatures : list string;
  mp_groups_processed : nat;
  mp_total_mints_processed : nat;
}.

(** [MintProgressRecord::from] *)
Definition mint_progress_of (e : MintProcessingEvidence) : MintProgressRecord :=
  mkMintProgress e.(mp_signatures) e.(mp_groups_processed) e.(mp_total_mints_processed).

(** [manifest.manifest_sha256 = value] *)
Definition set_manifest_sha256 (m : BlockProofEvidence) (value : string) : BlockProofEvidence :=
  mkEvidence m.(ev_schema_version) m.(ev_status) m.(ev_height) m.(ev_block_hash)
    m.(finalized_source_height) m.(source_witness_height) m.(witness_deposit_count)
    m.(witness_minted_amount_sats) m.(ev_deposit_count) m.(ev_minted_amount_sats)
    m.(ev_auto_claim_start_index) m.(ev_auto_claim_end_index) m.(ev_fees_collected)
    m.(content_sha256) value m.(ev_evidence_dir) m.(manifest_path) m.(latest_path)
    m.(ev_idempotency_key) m.(ev_mint_buffer) m.(ev_mint_buffer_bump) m.(ev_txo_buffer)
    m.(ev_txo_buffer_bump) m.(buffer_upload_completed) m.(ev_submission_signature)
    m.(mint_group_signatures) m.(mint_groups_processed) m.(ev_total_mints_processed)
    m.(ev_vk_hash) m.(elf_sha256) m.(artifacts).

(** The five assignments after a commit. *)
Definition set_minted (m : BlockProofEvidence) (signature : string) (p : MintProcessingEvidence)
  : BlockProofEvidence :=
  mkEvidence m.(ev_schema_version) "minted" m.(ev_height) m.(ev_block_hash)
    m.(finalized_source_height) m.(source_witness_height) m.(witness_deposit_count)
    m.(witness_minted_amount_sats) m.(ev_deposit_count) m.(ev_minted_amount_sats)
    m.(ev_auto_claim_start_index) m.(ev_auto_claim_end_index) m.(ev_fees_collected)
    m.(content_sha256) m.(manifest_sha256) m.(ev_evidence_dir) m.(manifest_path) m.(latest_path)
    m.(ev_idempotency_key) m.(ev_mint_buffer) m.(ev_mint_buffer_bump) m.(ev_txo_buffer)
    m.(ev_txo_buffer_bump) m.(buffer_upload_completed) (Some signature)
    p.(mp_signatures) p.(mp_groups_processed) p.(mp_total_mints_processed)
    m.(ev_vk_hash) m.(elf_sha256) m.(artifacts).

(** [serde_json] on the evidence types. *)
Class EvidenceOut := {
  inputs_to_vec_pretty : ProverInputsEvidence -> option bytes;
  mints_to_vec_pretty : list PendingMintPayload -> option bytes;
  txos_to_vec_pretty : list N -> option bytes;
  manifest_to_vec : BlockProofEvidence -> option bytes;
  manifest_to_vec_pretty : BlockProofEvidence -> option bytes;
}.

(** [trim_end_matches(suffix)] *)
Fixpoint trim_end_matches_rev (fuel : nat) (suffix s : list Ascii.ascii) : list Ascii.ascii :=
  match fuel with
  | O => s
  | S fuel =>
      if bool_decide (take (length suffix) s = suffix)
      then trim_end_matches_rev fuel suffix (drop (length suffix) s) else s
  end.
Definition trim_end_matches (suffix s : string) : string :=
  let r := reverse (String.list_ascii_of_string s) in
  String.string_of_list_ascii
    (reverse (trim_end_matches_rev (length r) (reverse (String.list_ascii_of_string suffix)) r)).

(** The manifest key of an artifact file. *)
Definition artifact_key (filename : string) : string :=
  if String.eqb filename "pending_mints.bin" then "pending_mints"
  else if String.eqb filename "pending_mints.json" then "pending_mints_json"
  else if String.eqb filename "txo_indices.bin" then "txo_indices"
  else if String.eqb filename "txo_indices.json" then "txo_indices_json"
  else trim_end_matches ".json" (trim_end_matches ".txt" (trim_end_matches ".bin" filename)).

Section evidence.
Context `{!Hex, !Sha}.

(** [(x.len() as u32).to_le_bytes()] and [as u64]. *)
Definition bundle_entry (artifact : string * bytes) : bytes :=
  le_bytes 4 (N.of_nat (length (string_bytes artifact.1))) ++ string_bytes artifact.1
  ++ le_bytes 8 (N.of_nat (length artifact.2)) ++ hash_impl_sha256_bytes artifact.2.

Definition bundle_bytes (artifacts : list (string * bytes)) : bytes := concat (bundle_entry <$> artifacts).

Definition artifact_bundle_sha256 (artifacts : list (string * bytes)) : string :=
  sha256_hex (bundle_bytes artifacts).

Context {W : Type} `{!Files W, !EvidenceOut}.

Definition write_atomic (path : Path) (b : bytes) : prog W () :=
  match parent path with
  | Some p => fs_create_dir_all p
  | None => mret ()
  end ;;
  let temporary := with_extension path ("tmp-" +:+ decimal process_id) in
  fs_write temporary b ;;
  fs_rename temporary path.

(** Returns the manifest it updated in place. *)
Definition write_evidence_manifest (manifest : BlockProofEvidence) : prog W BlockProofEvidence :=
  let manifest := set_manifest_sha256 manifest EmptyString in
  payload ← lift (ok_or (manifest_to_vec manifest) (External "serde_json"));
  let manifest := set_manifest_sha256 manifest (sha256_hex payload) in
  b ← lift (ok_or (manifest_to_vec_pretty manifest) (External "serde_json"));
  let path := path_from manifest.(manifest_path) in
  let latest := path_from manifest.(latest_path) in
  fs_write path b ;;
  write_atomic latest b ;;
  mret manifest.

(** The loop over the artifacts. *)
Fixpoint write_artifacts (dir : Path) (artifact_bytes : list (string * bytes))
    (artifacts : gmap string EvidenceArtifact) : prog W (gmap string EvidenceArtifact) :=
  match artifact_bytes with
  | [] => mret artifacts
  | (filename, b) :: rest =>
      let path := dir ++ [filename] in
      fs_write path b ;;
      write_artifacts dir rest
        (<[artifact_key filename :=
             mkArtifact (path_display path) (sha256_hex b) (N.of_nat (length b))]> artifacts)
  end.

Context `{!LightClient, !Custody}.

(** The artifacts of a proof, in the order they are bound and written. *)
Definition evidence_files (old_state witness old_header new_header proof public_values elf inputs_json
    pending_mints_json txo_indices_json : bytes) (prover_output : ProverOutput)
    (finalized : BlockBufferCommitment) : list (string * bytes) :=
  [("old_state.bin", old_state); ("witness.bin", witness);
   ("old_header.bin", old_header); ("new_header.bin", new_header);
   ("proof.bin", proof); ("public_values.bin", public_values);
   ("prover_stdout.txt", prover_output.(stdout)); ("prover_stderr.txt", prover_output.(stderr));
   ("vk.bin", prover_output.(ProofJob.vk_hash)); ("elf.bin", elf);
   ("inputs.json", inputs_json);
   ("pending_mints.bin", serialize_pending_mint_payloads finalized.(pending_mints));
   ("pending_mints.json", pending_mints_json);
   ("txo_indices.bin", serialize_txo_indices finalized.(txo_indices));
   ("txo_indices.json", txo_indices_json)].

Definition prover_inputs (config : BlockPipelineConfig) (height : N)
    (old_state witness old_header new_header : bytes) (gen_proof elf_path : Path)
  : ProverInputsEvidence := {|
  in_schema_version := EVIDENCE_SCHEMA_VERSION;
  in_height := height;
  in_block_hash := hex_encode (field SOL_TIP_BLOCK_HASH new_header);
  in_custody_script_config := hex_encode config.(custody_script_config);
  in_recipient_atas := hex_encode <$> config.(recipient_atas);
  in_required_confirmations := config.(required_confirmations);
  in_flat_fee := deposit_flat_fee config.(config_params);
  in_fee_num := deposit_fee_numerator config.(config_params);
  in_fee_den := deposit_fee_denominator config.(config_params);
  in_config_params := hex_encode config.(config_params);
  in_custodian_hash := hex_encode (custodian_hash config.(network) config.(custody_script_config));
  in_expected_vk_hash := hex_encode config.(expected_vk_hash);
  in_gen_proof_path := path_display gen_proof;
  in_block_elf_source_path := path_display elf_path;
  old_state_sha256 := sha256_hex old_state;
  witness_sha256 := sha256_hex witness;
  old_header_sha256 := sha256_hex old_header;
  new_header_sha256 := sha256_hex new_header;
|}.

Definition evidence_status (mint_processing : option MintProcessingEvidence)
    (submission_signature : option string) (uploaded : option UploadedBuffers) : string :=
  match mint_processing, submission_signature, uploaded with
  | Some _, _, _ => "minted"
  | None, Some _, _ => "submitted"
  | None, None, Some _ => "buffers_uploaded"
  | None, None, None => "proof_generated"
  end.

Definition persist_evidence `{!BridgeClient W} (config : BlockPipelineConfig) (height source_height : N)
    (key : string) (old_state witness old_header new_header proof public_values : bytes)
    (prover_output : ProverOutput) (evaluation : ClaimEvaluation) (finalized : BlockBufferCommitment)
    (uploaded : option UploadedBuffers) (submission_signature : option string)
    (mint_processing : option MintProcessingEvidence) : prog W BlockProofEvidence :=
  elf ← fs_read config.(block_elf_path);
  lift (bail_when (bool_decide (elf = [])) "block-transition ELF is empty") ;;
  let block_hash := field SOL_TIP_BLOCK_HASH new_header in
  gen_proof ← absolute_path config.(gen_proof_path);
  elf_path ← absolute_path config.(block_elf_path);
  inputs_json ← lift (ok_or (inputs_to_vec_pretty (prover_inputs config height old_state witness
    old_header new_header gen_proof elf_path)) (External "serde_json"));
  pending_mints_json ← lift (ok_or (mints_to_vec_pretty finalized.(pending_mints)) (External "serde_json"));
  txo_indices_json ← lift (ok_or (txos_to_vec_pretty finalized.(txo_indices)) (External "serde_json"));
  let artifact_bytes := evidence_files old_state witness old_header new_header proof public_values elf
    inputs_json pending_mints_json txo_indices_json prover_output finalized in
  let content := artifact_bundle_sha256 artifact_bytes in
  root ← absolute_path config.(evidence_dir);
  let dir := root ++ ["height-" +:+ decimal height; content] in
  fs_create_dir_all dir ;;
  artifacts ← write_artifacts dir artifact_bytes ∅;
  write_evidence_manifest {|
    ev_schema_version := EVIDENCE_SCHEMA_VERSION;
    ev_status := evidence_status mint_processing submission_signature uploaded;
    ev_height := height;
    ev_block_hash := hex_encode block_hash;
    finalized_source_height := source_height;
    source_witness_height := height;
    witness_deposit_count := evaluation.(eval_deposit_count);
    witness_minted_amount_sats := evaluation.(eval_minted_amount_sats);
    ev_deposit_count := finalized.(deposit_count);
    ev_minted_amount_sats := finalized.(minted_amount_sats);
    ev_auto_claim_start_index := finalized.(auto_claim_start_index);
    ev_auto_claim_end_index := finalized.(auto_claim_end_index);
    ev_fees_collected := finalized.(fees_collected);
    content_sha256 := content;
    manifest_sha256 := EmptyString;
    ev_evidence_dir := path_display dir;
    manifest_path := path_display (dir ++ ["manifest.json"]);
    latest_path := path_display (root ++ ["latest.json"]);
    ev_idempotency_key := key;
    ev_mint_buffer := (fun b => pubkey_to_string b.(mint_buffer)) <$> uploaded;
    ev_mint_buffer_bump := mint_buffer_bump <$> uploaded;
    ev_txo_buffer := (fun b => pubkey_to_string b.(txo_buffer)) <$> uploaded;
    ev_txo_buffer_bump := txo_buffer_bump <$> uploaded;
    buffer_upload_completed := bool_decide (is_Some uploaded);
    ev_submission_signature := submission_signature;
    mint_group_signatures := from_option mp_signatures [] mint_processing;
    mint_groups_processed := from_option mp_groups_processed 0 mint_processing;
    ev_total_mints_processed := from_option mp_total_mints_processed 0 mint_processing;
    ev_vk_hash := hex_encode prover_output.(ProofJob.vk_hash);
    elf_sha256 := sha256_hex elf;
    artifacts := artifacts;
  |}.
End evidence.

(** ** The bundle hash binds its artifacts *)
Section bundle.
Context `{!Sha, !ShaLaws}.

(** The widths a bundle is serialized at. *)
Definition bundle_wf (artifacts : list (string * bytes)) : Prop :=
  Forall (fun a => N.of_nat (length (string_bytes a.1)) < 2 ^ 32 /\ N.of_nat (length a.2) < 2 ^ 64)%N
    artifacts.

Lemma app_inj_length {A} (a b c d : list A) : length a = length b -> a ++ c = b ++ d -> a = b /\ c = d.
Proof. intros Hl E. by apply app_inj_1. Qed.

Lemma bundle_entry_nonempty x : bundle_entry x <> [].
Proof.
  unfold bundle_entry. intros E. apply app_eq_nil in E as [E _]. apply (f_equal length) in E.
  by rewrite le_bytes_length in E.
Qed.

Lemma bundle_bytes_cons x a : bundle_bytes (x :: a) = bundle_entry x ++ bundle_bytes a.
Proof. done. Qed.

(** Equal serializations: the same names and the same content hashes. *)
Lemma bundle_bytes_inj (a b : list (string * bytes)) :
  bundle_wf a -> bundle_wf b -> bundle_bytes a = bundle_bytes b ->
  Forall2 (fun x y => x.1 = y.1 /\ length x.2 = length y.2 /\
                      hash_impl_sha256_bytes x.2 = hash_impl_sha256_bytes y.2) a b.
Proof.
  intros Ha. revert b. induction Ha as [|x a [Hx1 Hx2] Ha IH]; intros b Hb E.
  - destruct b as [|y b]; [constructor|]. rewrite bundle_bytes_cons in E.
    symmetry in E. apply app_eq_nil in E as [E _]. by apply bundle_entry_nonempty in E.
  - destruct Hb as [|y b [Hy1 Hy2] Hb].
    { rewrite bundle_bytes_cons in E. apply app_eq_nil in E as [E _]. by apply bundle_entry_nonempty in E. }
    rewrite !bundle_bytes_cons in E. unfold bundle_entry in E.
    rewrite <- !app_assoc in E.
    apply app_inj_length in E as [E1 E]; [|by rewrite !le_bytes_length].
    apply le_bytes_inj in E1; [|exact Hx1|exact Hy1]. apply Nat2N.inj in E1.
    apply app_inj_length in E as [E2 E]; [|done].
    apply app_inj_length in E as [E3 E]; [|by rewrite !le_bytes_length].
    apply le_bytes_inj in E3; [|exact Hx2|exact Hy2]. apply Nat2N.inj in E3.
    apply app_inj_length in E as [E4 E]; [|by rewrite !sha256_length].
    constructor; [|by apply IH]. split; [|done]. by apply string_bytes_inj.
Qed.

Lemma bundle_equal_or_collision (a b : list (string * bytes)) :
  Forall2 (fun x y => x.1 = y.1 /\ length x.2 = length y.2 /\
                      hash_impl_sha256_bytes x.2 = hash_impl_sha256_bytes y.2) a b ->
  a = b \/ collision.
Proof.
  induction 1 as [|[n x] [m y] a b (E1 & _ & E2) _ IH]; [by left|].
  cbn in *. subst. destruct IH as [->|?]; [|by right].
  destruct (decide (x = y)) as [->|Hne]; [by left|]. right. by exists x, y.
Qed.
End bundle.

(** C11: The archive directory's name determines its content.  Two bundles of
    artifacts with the same [content_sha256] have the same files, with the same
    names in the same order and the same bytes, unless a SHA-256 collision has
    been found. *)
Theorem artifact_bundle_binds `{!Hex, !HexLaws, !Sha, !ShaLaws} (a b : list (string * bytes)) :
  bundle_wf a -> bundle_wf b -> artifact_bundle_sha256 a = artifact_bundle_sha256 b ->
  a = b \/ collision.
Proof.
  intros Ha Hb E. unfold artifact_bundle_sha256, sha256_hex in E. apply hex_encode_inj in E.
  destruct (decide (bundle_bytes a = bundle_bytes b)) as [E'|Hne].
  - by apply bundle_equal_or_collision, bundle_bytes_inj.
  - right. by exists (bundle_bytes a), (bundle_bytes b).
Qed.

(** ** The pointer to the latest manifest *)
Section manifest.
Context `{!Hex, !Sha, !EvidenceOut} {W : Type} `{!Files W, !FilesLaws W}.
Implicit Types (f : gmap Path bytes).

Lemma triple_fs_write (P : W -> Prop) (p : Path) (b : bytes) (Q : outcome () -> W -> Prop)
    (C : W -> Prop) :
  (forall w w', P w -> (forall q, q <> p -> files w' !! q = files w !! q) -> C w') ->
  (forall w w' r, P w -> (forall q, q <> p -> files w' !! q = files w !! q) ->
     (is_ok r = true -> files w' !! p = Some b) -> Q r w') ->
  triple P C (fs_write p b) Q.
Proof.
  intros HC HQ w Hw. destruct (write_local p b w) as (Ht & Hl & Hok). split.
  - eapply Forall_impl; [exact Ht|]. intros w' Hq. by eapply HC.
  - eapply HQ; [done..|]. intros E. apply is_ok_true in E as [u E]. by apply (Hok u).
Qed.

Lemma triple_create_dir (P : W -> Prop) (p : Path) (C : W -> Prop) :
  (forall w w', P w -> files w' = files w -> P w' /\ C w') ->
  triple P C (fs_create_dir_all p) (fun _ w => P w).
Proof.
  intros HP w Hw. destruct (create_dir_keeps p w) as [Ht Hf]. split.
  - eapply Forall_impl; [exact Ht|]. intros w' Hq. by eapply HP.
  - by eapply HP.
Qed.

Lemma triple_fs_rename (P : W -> Prop) (p q : Path) (b : bytes) (Q : outcome () -> W -> Prop)
    (C : W -> Prop) :
  p <> q -> (forall w, P w -> files w !! p = Some b) ->
  (forall w w', P w -> files w' = files w \/ files w' = <[q := b]> (delete p (files w)) -> C w') ->
  (forall w w' r, P w -> files w' = files w \/ files w' = <[q := b]> (delete p (files w)) ->
     (is_ok r = true -> files w' = <[q := b]> (delete p (files w))) -> Q r w') ->
  triple P C (fs_rename p q) Q.
Proof.
  intros Hne Hp HC HQ w Hw. destruct (rename_atomic p q w b Hne (Hp w Hw)) as [Ht Hr]. split.
  - eapply Forall_impl; [exact Ht|]. intros w' Hq. by eapply HC.
  - eapply HQ; [done|..].
    + destruct (result _ _); auto.
    + intros E. by destruct (result _ _).
Qed.

Lemma with_extension_app (root : Path) (name ext : string) :
  with_extension (root ++ [name]) ext = root ++ [file_stem name +:+ "." +:+ ext].
Proof. unfold with_extension. by rewrite last_snoc, removelast_last. Qed.

(** Replacing a file: at every point it holds its old content or the new. *)
Lemma write_atomic_triple (root : Path) (name : string) (b : bytes) (old : option bytes)
    (other : Path) (kept : bytes) :
  let path := root ++ [name] in
  let temporary := with_extension path ("tmp-" +:+ decimal process_id) in
  temporary <> path -> other <> path -> other <> temporary ->
  triple (fun w => files w !! path = old /\ files w !! other = Some kept)
    (fun w => files w !! path = old \/ files w !! path = Some b)
    (write_atomic path b)
    (fun r w => (files w !! path = old \/ files w !! path = Some b) /\
       (is_ok r = true -> files w !! path = Some b /\ files w !! other = Some kept)).
Proof.
  intros path temporary Htp Hop Hot. unfold write_atomic. fold temporary.
  set (P := fun w => files w !! path = old /\ files w !! other = Some kept).
  set (C := fun w => files w !! path = old \/ files w !! path = Some b).
  eapply triple_bind with (R := fun _ => P).
  - destruct (parent path) as [p|]; [|by apply triple_ret].
    apply triple_create_dir. unfold P, C. intros w w' [Hw Hw'] ->. auto.
  - intros []. cbn zeta. eapply triple_bind.
    + apply (triple_fs_write P temporary b
        (fun r w => P w /\ (is_ok r = true -> files w !! temporary = Some b))); unfold P, C.
      * intros w w' [Hw _] Hq. left. by rewrite Hq by congruence.
      * intros w w' r [Hw Ho] Hq Hok. by rewrite !Hq by congruence.
    + intros []. eapply triple_pre with (P' := fun w => P w /\ files w !! temporary = Some b).
      2: { intros w [Hw Hok]. split; [done|]. by apply Hok. }
      apply (triple_fs_rename _ temporary path b); [done|by intros w []|..]; unfold P, C.
      * intros w w' [[Hw _] _] [->| ->]; [by left|]. right. apply lookup_insert_eq.
      * intros w w' r [[Hw Ho] _] Hf Hok. split.
        -- destruct Hf as [->| ->]; [by left|]. right. apply lookup_insert_eq.
        -- intros E. rewrite (Hok E). rewrite lookup_insert_eq, lookup_insert_ne by done.
           by rewrite lookup_delete_ne by done.
    + intros r r' w [[Hw _] _] Hf. split; [by left|]. destruct r; cbn in Hf; by simplify_eq.
  - intros r r' w [Hw _] Hf. split; [by left|]. destruct r; cbn in Hf; by simplify_eq.
Qed.
End manifest.

(** A manifest [m'] that updates [m], verifies against its own hash, and is
    written as [b]. *)
Definition seals `{!Hex, !Sha, !EvidenceOut} (m m' : BlockProofEvidence) (b : bytes) : Prop :=
  exists payload,
    manifest_to_vec (set_manifest_sha256 m' EmptyString) = Some payload /\
    m' = set_manifest_sha256 m (sha256_hex payload) /\ manifest_to_vec_pretty m' = Some b.

Lemma temporary_ne {W} `{!Files W} (root : Path) :
  with_extension (root ++ ["latest.json"]) ("tmp-" +:+ decimal process_id) <> root ++ ["latest.json"].
Proof.
  rewrite with_extension_app. intros E. apply app_inj_2 in E as [_ E]; [|done].
  apply (f_equal head) in E. cbn in E. discriminate.
Qed.

Lemma manifest_ne {W} `{!Files W} (root dir : Path) :
  dir ++ ["manifest.json"] <> root ++ ["latest.json"] /\
  dir ++ ["manifest.json"] <> with_extension (root ++ ["latest.json"]) ("tmp-" +:+ decimal process_id).
Proof.
  rewrite with_extension_app. split; intros E; apply app_inj_2 in E as [_ E]; try done;
    apply (f_equal head) in E; cbn in E; discriminate.
Qed.

(** C10: The pointer to the latest evidence is never torn.  While
    [write_evidence_manifest] runs, however it is interrupted, [latest.json]
    holds either what it held before or a complete manifest that updates the
    given one and whose [manifest_sha256] is the hash of the manifest with that
    field empty; when it returns, both [latest.json] and the manifest file of
    the block's directory hold that manifest. *)
Theorem write_evidence_manifest_atomic
    `{!Hex, !Sha, !EvidenceOut} {W} `{!Files W, !FilesLaws W}
    (m : BlockProofEvidence) (root dir : Path) (w : W) :
  m.(latest_path) = path_display (root ++ ["latest.json"]) ->
  m.(manifest_path) = path_display (dir ++ ["manifest.json"]) ->
  let latest := root ++ ["latest.json"] in
  (forall x, x ∈ crash_points (write_evidence_manifest m) w ->
     files x !! latest = files w !! latest \/
     exists m' b, seals m m' b /\ files x !! latest = Some b) /\
  (forall m', result (write_evidence_manifest m) w = Ok m' ->
     exists b, seals m m' b /\
       files (final (write_evidence_manifest m) w) !! latest = Some b /\
       files (final (write_evidence_manifest m) w) !! (dir ++ ["manifest.json"]) = Some b).
Proof.
  intros Hlp Hmp latest. set (old := files w !! latest).
  destruct (manifest_ne (W := W) root dir) as [Hne1 Hne2]. pose proof (temporary_ne (W := W) root) as Hne3.
  set (C := fun x => files x !! latest = old \/ exists m' b, seals m m' b /\ files x !! latest = Some b).
  assert (triple (fun x => files x !! latest = old) C (write_evidence_manifest m)
    (fun r x => forall m', r = Ok m' -> exists b, seals m m' b /\
       files x !! latest = Some b /\ files x !! (dir ++ ["manifest.json"]) = Some b)) as Ht.
  2: { split; [|by apply (triple_use _ _ _ _ w Ht)]. intros x Hx.
       apply (triple_crash _ _ _ _ w x Ht); [done|by left|done]. }
  unfold write_evidence_manifest. eapply triple_bind with (R := fun r x => files x !! latest = old /\
    forall p, r = Ok p -> manifest_to_vec (set_manifest_sha256 m EmptyString) = Some p).
  { apply triple_lift. intros x Hx. split; [done|]. intros p E. by apply ok_or_Ok in E. }
  2: { intros r r' x _ Hf. by destruct r; cbn in Hf; simplify_eq. }
  intros payload. set (sealed := set_manifest_sha256 (set_manifest_sha256 m EmptyString) (sha256_hex payload)).
  eapply triple_bind with (R := fun r x => files x !! latest = old /\
    forall b, r = Ok b -> seals m sealed b).
  { apply triple_lift. intros x [Hx Hp]. split; [done|]. intros b E. apply ok_or_Ok in E.
    exists payload. split_and!; [|done..]. by apply Hp. }
  2: { intros r r' x _ Hf. by destruct r; cbn in Hf; simplify_eq. }
  intros b. change (manifest_path sealed) with (manifest_path m).
  change (latest_path sealed) with (latest_path m). rewrite Hlp, Hmp, !path_round_trip. fold latest.
  apply triple_pre with (P' := fun x => files x !! latest = old /\ seals m sealed b).
  2: { intros x [Hx Hs]. auto. }
  eapply triple_bind.
  { apply (triple_fs_write _ _ b (fun r x => files x !! latest = old /\ seals m sealed b /\
      (is_ok r = true -> files x !! (dir ++ ["manifest.json"]) = Some b))).
    - intros x x' [Hx _] Hq. left. by rewrite Hq by exact (not_eq_sym Hne1).
    - intros x x' r [Hx Hs] Hq Hok. split_and!; [by rewrite Hq by exact (not_eq_sym Hne1)|done|done]. }
  2: { intros r r' x _ Hf. by destruct r; cbn in Hf; simplify_eq. }
  intros [].
  apply triple_pre with (P' := fun x => (files x !! latest = old /\
    files x !! (dir ++ ["manifest.json"]) = Some b) /\ seals m sealed b).
  2: { intros x (Hx & Hs & Hok). auto. }
  apply triple_pure. intros Hs. eapply triple_bind.
  - eapply triple_conseq; [apply (write_atomic_triple root "latest.json" b old (dir ++ ["manifest.json"]) b);
      [exact Hne3|exact Hne1|exact Hne2]|done| |intros r y Hy; exact Hy].
    intros y [Hy|Hy]; [by left|]. right. by exists sealed, b.
  - intros []. apply triple_ret. intros y [_ Hy] m' [= <-]. destruct (Hy eq_refl). eauto.
  - intros r r' y _ Hf. by destruct r; cbn in Hf; simplify_eq.
Qed.
