(* ===== verification/Commit.v ===== *)
(** * Committing a proven block, and recovering from a crash

    [commit_prepared] drives the sender and the bridge program and moves the
    checkpoint stored in Redis; [reconcile_checkpoint_journal] runs at start-up
    and decides what an interrupted commit left behind. *)
From S2P Require Import Prelude External Instances Merkle Effects NetworkRetry Chain.
From S2P Require Import ChainInstances Checkpoint SolHeader Claims ProofJob Files Services.
From S2P Require Import Journal Transition Evidence.

Import NetworkRetryPolicyOps.

(** ** The pipeline's own state *)
Record InflightProof {W} `{!ProofService W} := mkInflight {
  prepared : PreparedTransition;
  ticket : ProofTicket;
}.

Record BlockPipeline {W} `{!ProofService W} := mkPipeline {
  config : BlockPipelineConfig;
  checkpoint_key : string;
  checkpoint : PipelineCheckpoint;
  planned_checkpoint : PipelineCheckpoint;
  inflight : gmap N InflightProof;
  network_retry : NetworkRetryPolicy;
}.

(** A method runs in the world next to the object it is called on: [&mut self]
    is the second component, and a crash point records both. *)
Section methods.
Context {W S : Type}.

Definition call {A} (p : prog W A) : prog (W * S) A := fun n =>
  let '(t, w, r) := p n.1 in ((fun x => (x, n.2)) <$> t, (w, n.2), r).
Definition get_self : prog (W * S) S := fun n => ([], n, Ok n.2).
Definition modify_self (f : S -> S) : prog (W * S) () := fun n => ([], (n.1, f n.2), Ok ()).

Lemma call_eq {A} (p : prog W A) n :
  call p n = ((fun x => (x, n.2)) <$> (p n.1).1.1, (final p n.1, n.2), result p n.1).
Proof. unfold call, final, result. by destruct (p n.1) as [[t w] r]. Qed.

Lemma result_call {A} (p : prog W A) n : result (call p) n = result p n.1.
Proof. unfold result at 1. by rewrite call_eq. Qed.
Lemma final_call {A} (p : prog W A) n : final (call p) n = (final p n.1, n.2).
Proof. unfold final at 1. by rewrite call_eq. Qed.

(** A property of the world carries over; [self] stays what it was. *)
Lemma triple_call {A} (P C : W -> Prop) (p : prog W A) (Q : outcome A -> W -> Prop) (self : S) :
  triple P C p Q ->
  triple (fun n => P n.1 /\ n.2 = self) (fun n => C n.1) (call p) (fun r n => Q r n.1 /\ n.2 = self).
Proof.
  intros Hp n [Hn <-]. destruct (Hp n.1 Hn) as [Ht Hr].
  rewrite result_call, final_call. rewrite call_eq. cbn. split; [|by split].
  apply Forall_fmap. by eapply Forall_impl.
Qed.
End methods.

Section commit.
Context `{!Hex, !Sha, !TreeParams, !LightClient, !Custody, !ClaimHelper, !EvidenceOut}.
Context {W R : Type} `{!Clock W, !Files W, !Store W, !BridgeClient W, !Sender W R, !HttpResponse R}.
Context `{!ProofService W, !Json PipelineCheckpoint, !Json CheckpointJournal}.

Abbreviation Node := (W * BlockPipeline)%type.

Definition bridge_error (e : BridgeError) : error := External "doge_bridge_client".

Definition set_checkpoint (self : BlockPipeline) (c : PipelineCheckpoint) : BlockPipeline :=
  mkPipeline _ _ self.(config) self.(checkpoint_key) c self.(planned_checkpoint) self.(inflight)
    self.(network_retry).

(** ** Buffers and mints *)

Definition recipient_account_attempt (answer : () + ClientErrorKind) : RetryAction () error :=
  match answer with
  | inl _ => Success ()
  | inr e =>
      if is_retryable_solana_client_error e then Retry (External "solana_client")
      else Fatal (Anyhow "configured recipient ATA {recipient} does not exist; create it before starting the block pipeline")
  end.

Definition ensure_recipient_token_accounts (self : BlockPipeline) (pending_mints : list PendingMint)
  : prog W () :=
  for_each pending_mints (fun mint =>
    lift (bail_when (bool_decide (mint.1 ∉ self.(config).(recipient_atas)))
      "pending mint recipient {recipient} is not a configured recipient ATA") ;;
    question id (run (answer ← get_account mint.1; mret (recipient_account_attempt answer))
      retry_fuel self.(network_retry))).

Definition upload_finalized_buffers (self : BlockPipeline) (finalized_height : N)
    (finalized : BlockBufferCommitment) : prog W UploadedBuffers :=
  let pending_mints := to_bridge_mint <$> finalized.(pending_mints) in
  lift (validate_buffer_payload finalized pending_mints) ;;
  ensure_recipient_token_accounts self pending_mints ;;
  '(mint_buffer, mint_buffer_bump) ← question bridge_error (retry_bridge_network retry_fuel
    self.(network_retry) (setup_pending_mints_buffer finalized_height pending_mints));
  '(txo_buffer, txo_buffer_bump) ← question bridge_error (retry_bridge_network retry_fuel
    self.(network_retry) (setup_txo_buffer finalized_height finalized.(txo_indices)));
  mret (mkUploadedBuffers mint_buffer mint_buffer_bump txo_buffer txo_buffer_bump).

Definition process_mints (policy : NetworkRetryPolicy) (finalized : BlockBufferCommitment)
    (buffers : UploadedBuffers) : prog W ProcessMintsResult :=
  question bridge_error (retry_bridge_network retry_fuel policy
    (process_remaining_pending_mints_groups (to_bridge_mint <$> finalized.(pending_mints))
       buffers.(mint_buffer) buffers.(mint_buffer_bump))).

Definition process_finalized_mints (self : BlockPipeline) (finalized : BlockBufferCommitment)
    (buffers : UploadedBuffers) : prog W MintProcessingEvidence :=
  let pending_mints := to_bridge_mint <$> finalized.(pending_mints) in
  result ← process_mints self.(network_retry) finalized buffers;
  lift (bail_when (negb result.(fully_completed)
                   || negb (result.(res_total_mints_processed) =? length pending_mints)%nat)
    "mint processing completed={} and processed {} of {} pending mints") ;;
  mret (mkMintProcessing result.(res_signatures) result.(res_groups_processed)
          result.(res_total_mints_processed)).

(** ** Commit *)

(** The public values a proof of the prepared transition must have. *)
Definition expected_public_values (config : BlockPipelineConfig) (old_header new_header : bytes) : bytes :=
  let old_header_hash := hash_impl_sha256_bytes old_header in
  let new_header_hash := hash_impl_sha256_bytes new_header in
  let config_hash := hash_impl_sha256_bytes config.(config_params) in
  let custodian := custodian_hash config.(network) config.(custody_script_config) in
  let transition_hash := hash_impl_sha256_two_to_one_bytes old_header_hash new_header_hash in
  hash_impl_sha256_bytes (transition_hash ++ config_hash ++ custodian).

(** The checks before the first effect. *)
Definition check_prepared (self : BlockPipeline) (p : PreparedTransition) (output : ProverOutput)
  : outcome () :=
  expected_height ← ok_or (checked_add u32_max self.(checkpoint).(height) 1)
                      (Anyhow "checkpoint height overflow");
  bail_when (negb (p.(prep_height) =? expected_height)%N
             || negb (p.(next_checkpoint).(height) =? expected_height)%N)
    "prepared height {} is not the next committed height {expected_height}" ;;
  expected_parent ← checkpoint_fingerprint self.(checkpoint);
  bail_when (negb (String.eqb p.(proof_job).(parent_checkpoint_sha256) expected_parent))
    "prepared height {} parent checkpoint fingerprint no longer matches committed tip" ;;
  ensure_length output.(out_proof) PROOF_SIZE ;;
  ensure_length output.(out_public_values) PUBLIC_VALUES_SIZE ;;
  bail_when (forallb (Byte.eqb x00) output.(out_proof)) "SP1 proof is an all-zero placeholder" ;;
  bail_when (bool_decide (output.(out_public_values)
      <> expected_public_values self.(config) p.(old_header) p.(new_header)))
    "SP1 public values do not bind the prepared transition at height {height}".

(** [redis.set(key, serde_json::to_string(&value)?).await?] *)
Definition store_json {A} `{!Json A} (key : string) (value : A) : prog W () :=
  text ← lift (json_string value);
  store_set key text.

Definition block_update_body (p : PreparedTransition) (output : ProverOutput) (u : UploadedBuffers)
  : BlockUpdateRequestBody := {|
  idempotency_key := p.(prep_idempotency_key);
  proof_hex := hex_encode output.(out_proof);
  body_header_hex := hex_encode p.(new_header);
  body_mint_buffer := pubkey_to_string u.(mint_buffer);
  body_txo_buffer := pubkey_to_string u.(txo_buffer);
  body_mint_buffer_bump := u.(mint_buffer_bump);
  body_txo_buffer_bump := u.(txo_buffer_bump);
|}.

Definition submit_block_update (self : BlockPipeline) (p : PreparedTransition) (output : ProverOutput)
    (u : UploadedBuffers) : prog W BlockUpdateResponse :=
  response ← question id (block_update retry_fuel NetworkRetryPolicyOps.default
    self.(config).(sender_bearer_token) (post_block_update (block_update_body p output u)));
  lift (bail_when (negb (String.eqb response.(resp_idempotency_key) p.(prep_idempotency_key)))
    "sender returned idempotency key '{}' for request '{}'") ;;
  mret response.

(** Everything before [self.checkpoint] moves: the three journals, the buffers,
    the evidence, the submission and the mints. *)
Definition commit_effects (self : BlockPipeline) (p : PreparedTransition) (output : ProverOutput)
  : prog W (BlockProofEvidence * BlockUpdateResponse * MintProcessingEvidence) :=
  let next := p.(next_checkpoint) in
  let finalized := p.(finalized_buffers) in
  let journal_key := checkpoint_journal_key self.(checkpoint_key) in
  store_json journal_key (mkJournal next None (Some finalized) None None) ;;
  uploaded ← upload_finalized_buffers self p.(finalized_height) finalized;
  store_json journal_key (mkJournal next (Some uploaded) (Some finalized) None None) ;;
  evidence ← persist_evidence self.(config) p.(prep_height) p.(finalized_height)
    p.(prep_idempotency_key) p.(old_state_bytes) p.(witness_bytes) p.(old_header) p.(new_header)
    output.(out_proof) output.(out_public_values) output p.(evaluation) finalized (Some uploaded)
    None None;
  response ← submit_block_update self p output uploaded;
  store_json journal_key
    (mkJournal next (Some uploaded) (Some finalized) (Some response.(resp_signature)) None) ;;
  mint_processing ← process_finalized_mints self finalized uploaded;
  store_json journal_key
    (mkJournal next (Some uploaded) (Some finalized) (Some response.(resp_signature))
       (Some (mint_progress_of mint_processing))) ;;
  mret (evidence, response, mint_processing).

(** The checkpoint, the journal and the final manifest. *)
Definition finish_commit (key : string) (next : PipelineCheckpoint) (evidence : BlockProofEvidence)
    (signature : string) (mint_processing : MintProcessingEvidence) : prog W () :=
  store_json key next ;;
  store_del (checkpoint_journal_key key) ;;
  evidence ← write_evidence_manifest (set_minted evidence signature mint_processing);
  lift (ok_or (manifest_to_vec evidence) (External "serde_json")) ;;
  mret ().

Definition commit_prepared (p : PreparedTransition) (output : ProverOutput) : prog Node () :=
  self ← get_self;
  lift (check_prepared self p output) ;;
  '(evidence, response, mint_processing) ← call (commit_effects self p output);
  modify_self (fun self => set_checkpoint self p.(next_checkpoint)) ;;
  call (finish_commit self.(checkpoint_key) p.(next_checkpoint) evidence response.(resp_signature)
          mint_processing).

(** ** Recovery *)

(** [redis.set(checkpoint); redis.del(journal)]: the promotion of a journal. *)
Definition promote (key : string) (c : PipelineCheckpoint) : prog W PipelineCheckpoint :=
  store_json key c ;;
  store_del (checkpoint_journal_key key) ;;
  mret c.

Definition complete_mint (policy : NetworkRetryPolicy) (finalized : BlockBufferCommitment)
    (buffers : UploadedBuffers) : prog W () :=
  if bool_decide (finalized.(pending_mints) = []) then mret ()
  else
    result ← process_mints policy finalized buffers;
    lift (mint_recovery_succeeded result).

Definition reconcile_checkpoint_journal (key : string) (c : PipelineCheckpoint) (chain_header : bytes)
    (policy : NetworkRetryPolicy) : prog W PipelineCheckpoint :=
  let journal_key := checkpoint_journal_key key in
  if matches_chain c chain_header then
    present ← store_get journal_key;
    match stale_journal_action true (bool_decide (is_Some present)) with
    | DiscardRaw => store_del journal_key
    | StaleUpToDate => mret ()
    end ;;
    mret c
  else
    journal_json ← store_get journal_key;
    journal_json ← lift (ok_or journal_json (Anyhow "on-chain bridge header advanced past Redis checkpoint height {} without a pending journal; cannot reconcile, fail closed"));
    journal ← lift (json_parse (A := CheckpointJournal) journal_json);
    lift (validate_checkpoint journal.(journal_checkpoint)) ;;
    match plan_journal_recovery c chain_header (Some journal) with
    | UpToDate | DiscardStaleJournal => mret c
    | PromoteCheckpoint next =>
        lift (validate_checkpoint next) ;;
        promote key next
    | CompleteMint next finalized buffers =>
        lift (validate_checkpoint next) ;;
        complete_mint policy finalized buffers ;;
        promote key next
    | FailClosed reason => lift (Err (Anyhow reason))
    end.
End commit.

(** ** What an interrupted commit leaves behind *)
Section recovery.
Context `{!Hex, !HexLaws, !Sha, !TreeParams, !LightClient, !Custody, !ClaimHelper, !EvidenceOut}.
Context {W R : Type} `{!Clock W, !Files W, !Store W, !BridgeClient W, !Sender W R, !HttpResponse R}.
Context `{!ServiceLaws W R, !ProofService W}.
Context `{!Json PipelineCheckpoint, !JsonLaws PipelineCheckpoint, !Json CheckpointJournal, !JsonLaws CheckpointJournal}.

(** A value is stored as JSON under a key. *)
Definition stored {A} `{!Json A} (key : string) (a : A) (s : View) : Prop :=
  exists text, to_json a = Some text /\ s.(v_db) !! key = Some text.

(** The mints of the finalized height are all processed. *)
Definition mints_done (finalized : BlockBufferCommitment) (buffers : UploadedBuffers) (s : View) : Prop :=
  finalized.(pending_mints) = [] \/
  (buffers.(mint_buffer), to_bridge_mint <$> finalized.(pending_mints)) ∈ s.(v_minted).

(** The checkpoint a start-up would load: the stored one or, when none is
    stored yet, the [init] that [initialize_checkpoint] would build. *)
Definition held (init : option PipelineCheckpoint) (key : string) (c : PipelineCheckpoint) (s : View) : Prop :=
  stored key c s \/ (s.(v_db) !! key = None /\ init = Some c).

Variables (init : option PipelineCheckpoint) (key : string).
Context `{!PlainKey key}.
Variables (c next : PipelineCheckpoint) (finalized : BlockBufferCommitment).

(** A journal from which the commit can be completed. *)
Definition usable_journal (j : CheckpointJournal) (s : View) : Prop :=
  j.(journal_checkpoint) = next /\ j.(finalized_commitment) = Some finalized /\
  exists buffers, j.(uploaded_buffers) = Some buffers /\
    (is_Some j.(mint_progress) -> mints_done finalized buffers s).

(** The three kinds of state a commit of [next] on top of [c] passes through:
    not submitted; submitted, with a journal to finish from; committed. *)
Inductive recoverable (s : View) : Prop :=
| rec_before : held init key c s -> matches_chain c s.(v_header) = true -> recoverable s
| rec_submitted j :
    held init key c s -> matches_chain next s.(v_header) = true ->
    stored (checkpoint_journal_key key) j s -> usable_journal j s -> recoverable s
| rec_after buffers :
    stored key next s -> matches_chain next s.(v_header) = true -> mints_done finalized buffers s ->
    recoverable s.

Lemma stored_closed {A} `{!Json A} k (a : A) : closed (stored k a).
Proof. intros s s' (E & _ & _) (t & Ht & Hs). exists t. rewrite E. done. Qed.
Lemma held_closed c1 : closed (held init key c1).
Proof.
  intros s s' Hs [Hh|[Hn E]]; [left; exact (stored_closed _ _ _ _ Hs Hh)|right].
  destruct Hs as (-> & _). by split.
Qed.
Lemma header_closed (P : bytes -> Prop) : closed (fun s => P s.(v_header)).
Proof. intros s s' (_ & E & _). by rewrite E. Qed.
Lemma mints_done_closed buffers : closed (mints_done finalized buffers).
Proof. intros s s' (_ & _ & Hm) [|Hin]; [by left|right]. by apply Hm. Qed.
Lemma usable_journal_closed j : closed (usable_journal j).
Proof.
  intros s s' Hs (? & ? & b & ? & Hm). split_and!; [done..|]. exists b. split; [done|].
  intros Hp. eapply mints_done_closed; eauto.
Qed.
Hint Resolve stored_closed header_closed mints_done_closed usable_journal_closed : core.

Lemma recoverable_closed : closed recoverable.
Proof.
  intros s s' Hs Hr. pose proof (header_closed (fun h => h = v_header s) s s' Hs eq_refl) as Eh.
  destruct Hr as [Hst Hm|j Hst Hm Hj Hu|b Hst Hm Hd].
  - apply rec_before; [exact (held_closed _ _ _ Hs Hst)|by rewrite Eh].
  - apply (rec_submitted _ j); [exact (held_closed _ _ _ Hs Hst)|by rewrite Eh| |].
    + exact (stored_closed _ _ _ _ Hs Hj).
    + exact (usable_journal_closed _ _ _ Hs Hu).
  - apply (rec_after _ b); [exact (stored_closed _ _ _ _ Hs Hst)|by rewrite Eh|].
    exact (mints_done_closed _ _ _ Hs Hd).
Qed.

Lemma stored_other {A B} `{!Json A, !Json B} k k' (a : A) t s :
  k <> k' -> stored k a s -> stored k a (with_key k' t s).
Proof. intros Hk (u & Hu & Hs). exists u. split; [done|]. cbn. by rewrite lookup_insert_ne. Qed.
Lemma held_other k' c1 t s : key <> k' -> held init key c1 s -> held init key c1 (with_key k' t s).
Proof.
  intros Hk [Hs|[Hn E]]; [left; by apply stored_other|right]. split; [|done]. cbn.
  by rewrite lookup_insert_ne.
Qed.
Lemma stored_same {A} `{!Json A} k (a : A) t s : to_json a = Some t -> stored k a (with_key k t s).
Proof. intros Ht. exists t. split; [done|]. cbn. apply lookup_insert_eq. Qed.

(** Writing a value: from [Phi], to [Psi] once it returns. *)
Lemma triple_store_json {A} `{!Json A} k `{!PlainKey k} (a : A) (Phi Psi : View -> Prop) (C : W -> Prop) :
  closed Phi -> closed Psi ->
  (forall s t, to_json a = Some t -> Phi s -> Psi (with_key k t s)) ->
  (forall w, Phi (view w) -> C w) -> (forall w, Psi (view w) -> C w) ->
  triple (fun w => Phi (view w)) C (store_json k a)
    (fun r w => match r with Ok _ => Psi (view w) | _ => Phi (view w) \/ Psi (view w) end).
Proof.
  intros HP HQ Hset HC HC'. unfold store_json, json_string. destruct (to_json a) as [t|] eqn:Et.
  - eapply triple_bind with (R := fun r w => Phi (view w) /\ r = Ok t).
    + by apply triple_lift.
    + intros t'. apply triple_pure. intros [= ->].
      eapply triple_conseq; [apply (writes_closed view _ _ Phi Psi (set_writes k t))|..]; eauto.
      intros w [|]; eauto.
    + intros r r' w [_ ->] Hf. by cbn in Hf.
  - eapply triple_bind with (R := fun r w => Phi (view w) /\ r = Err (External "serde_json")).
    + by apply triple_lift.
    + intros t'. apply triple_pure. done.
    + intros r r' w [Hw ->] Hf. cbn in Hf. simplify_eq. by left.
Qed.

Definition header_in (s : View) : Prop :=
  matches_chain c s.(v_header) = true \/ matches_chain next s.(v_header) = true.

(** Not submitted yet. *)
Definition before (s : View) : Prop := held init key c s /\ matches_chain c s.(v_header) = true.
(** Ready to submit, or submitted: the journal [j] is enough to finish. *)
Definition pend (j : CheckpointJournal) (s : View) : Prop :=
  held init key c s /\ stored (checkpoint_journal_key key) j s /\ usable_journal j s /\ header_in s.

Lemma header_in_closed : closed header_in.
Proof. apply (header_closed (fun h => matches_chain c h = true \/ matches_chain next h = true)). Qed.
Lemma before_closed : closed before.
Proof. apply closed_and; [apply held_closed|apply (header_closed (fun h => matches_chain c h = true))]. Qed.
Lemma pend_closed j : closed (pend j).
Proof.
  apply closed_and; [apply held_closed|]. apply closed_and; [apply stored_closed|].
  apply closed_and; [apply usable_journal_closed|apply header_in_closed].
Qed.
Hint Resolve header_in_closed before_closed pend_closed recoverable_closed : core.

Lemma before_recoverable s : before s -> recoverable s.
Proof. intros []. by apply rec_before. Qed.
Lemma pend_recoverable j s : pend j s -> recoverable s.
Proof. intros (? & ? & ? & [?|?]); [by apply rec_before|by eapply rec_submitted]. Qed.
Hint Resolve before_recoverable pend_recoverable : core.

Definition committed_header (s : View) : Prop := matches_chain next s.(v_header) = true.
Lemma committed_header_closed : closed committed_header.
Proof. apply (header_closed (fun h => matches_chain next h = true)). Qed.
Hint Resolve committed_header_closed : core.

Lemma block_update_attempt_success (answer : R + ReqwestError) v :
  block_update_attempt answer = Success v ->
  exists response, answer = inl response /\ is_success (response_status response) = true /\
    response_status response <> ACCEPTED.
Proof.
  unfold block_update_attempt, transport_error. intros E. repeat case_match; simplify_eq.
  bool_hyps. eauto.
Qed.

(** The submission keeps the journal usable; a reported success means the new
    header is on chain. *)
Lemma triple_submit j (self : BlockPipeline) p output u :
  matches_chain next p.(new_header) = true ->
  triple (fun w => pend j (view w)) (fun w => pend j (view w)) (submit_block_update self p output u)
    (fun r w => pend j (view w) /\ forall a, r = Ok a -> committed_header (view w)).
Proof.
  intros Hnext. apply triple_at. intros w0 Hw0. set (s := view w0).
  set (I := fun w => agrees s (view w) \/ agrees (with_header p.(new_header) s) (view w)).
  assert (forall w, I w -> pend j (view w)) as HI.
  { intros w [Hw|Hw]; [exact (pend_closed _ _ _ Hw Hw0)|]. refine (pend_closed _ _ _ Hw _).
    destruct Hw0 as (? & ? & Hu & _). split_and!; [done|done|exact Hu|by right]. }
  apply triple_pre with (P' := I). 2: { intros w ->. left. reflexivity. }
  set (Q := fun (_ : BlockUpdateResponse) w => committed_header (view w)).
  eapply triple_conseq with (C' := I) (P' := I)
    (Q' := fun r w => I w /\ forall a, r = Ok a -> Q a w); [|done|exact HI|].
  2: { intros r w [Hw Hr]. split; [by apply HI|exact Hr]. }
  unfold submit_block_update. eapply triple_bind.
  - apply (triple_question I I id _ Q I). unfold block_update. apply triple_run.
    { intros d w Hw. unfold I. rewrite sleep_view. done. }
    eapply triple_bind with (R := fun r w => I w /\ forall response, r = Ok (inl response) ->
      is_success (response_status response) = true -> response_status response <> ACCEPTED ->
      committed_header (view w)).
    + apply triple_at. intros w1 Hw1.
      assert (exists s1, agrees s1 (view w1) /\ (s1 = s \/ s1 = with_header p.(new_header) s)) as (s1 & Ha & Hs1).
      { destruct Hw1; eauto. }
      eapply triple_conseq; [apply (post_writes _ _ p.(new_header) s1); apply hex_decode_encode|..].
      * intros w ->. done.
      * unfold I. intros w [Hw|Hw]; destruct Hs1 as [->| ->]; auto.
      * cbn beta. intros r w [Hw Hok]. split; [unfold I; destruct Hw, Hs1 as [->| ->]; auto|].
        intros response E Hs Hne. refine (committed_header_closed _ _ (Hok response E Hs Hne) _).
        exact Hnext.
    + intros answer. apply triple_ret. intros w [Hw Hr]. split; [done|]. intros v [= E].
      apply block_update_attempt_success in E as (response & -> & Hs & Hne). by eapply Hr.
    + intros r r' w [Hw _] Hf. split; [done|]. destruct r; cbn in Hf; by simplify_eq.
  - intros response. eapply triple_bind with (R := fun _ w => I w /\ Q response w).
    + apply triple_lift. intros w [Hw Hr]. split; [done|by apply Hr].
    + intros []. apply triple_ret. intros w [Hw Hq]. split; [done|]. by intros a [= <-].
    + intros r r' w [Hw _] Hf. split; [done|]. destruct r; cbn in Hf; by simplify_eq.
  - intros r r' w [Hw _] Hf. split; [done|]. destruct r; cbn in Hf; by simplify_eq.
Qed.

(** The mints: when they return, all are processed. *)
(** A call that completes the groups an earlier one left is refused, since it
    counts the mints of this run only; recovery accepts it. *)
Lemma resumed_mints_refused (self : BlockPipeline) fb u w r :
  result (process_mints self.(network_retry) fb u) w = Ok r ->
  r.(fully_completed) = true -> r.(res_total_mints_processed) <> length fb.(pending_mints) ->
  result (process_finalized_mints self fb u) w =
    Err (Anyhow "mint processing completed={} and processed {} of {} pending mints") /\
  mint_recovery_succeeded r = Ok ().
Proof.
  intros Hr Hf Hn. unfold process_finalized_mints. rewrite result_bind, Hr, Hf, length_fmap.
  apply Nat.eqb_neq in Hn. rewrite Hn. split; [done|]. unfold mint_recovery_succeeded. by rewrite Hf.
Qed.

Lemma triple_process_mints policy u (Phi : View -> Prop) :
  closed Phi ->
  triple (fun w => Phi (view w)) (fun w => Phi (view w)) (process_mints policy finalized u)
    (fun r w => Phi (view w) /\ forall v, r = Ok v -> v.(fully_completed) = true ->
                  mints_done finalized u (view w)).
Proof.
  intros HP. set (I := fun w => Phi (view w)).
  set (Q := fun (v : ProcessMintsResult) w => v.(fully_completed) = true -> mints_done finalized u (view w)).
  apply (triple_question I I bridge_error _ Q I). apply triple_retry_bridge.
  { intros d w Hw. unfold I. by rewrite sleep_view. }
  intros w Hw. destruct (quiet_closed view _ Phi (process_quiet (to_bridge_mint <$> pending_mints finalized)
    u.(mint_buffer) u.(mint_buffer_bump)) HP w Hw) as [Ht Hr]. split; [exact Ht|]. split; [exact Hr|].
  intros v E Hf. right. by eapply process_completes.
Qed.

Lemma write_evidence_manifest_quiet m : quiet view (write_evidence_manifest m).
Proof. unfold write_evidence_manifest, write_atomic. solve_quiet. Qed.

Lemma write_artifacts_quiet dir l m : quiet view (write_artifacts dir l m).
Proof. revert m. induction l as [|[f b] l IH]; intros m; cbn [write_artifacts]; solve_quiet. Qed.
Hint Resolve write_evidence_manifest_quiet write_artifacts_quiet : quiet.

Lemma persist_evidence_quiet config h fh k os w oh nh pr pv o ev fb u sg mp :
  quiet view (persist_evidence config h fh k os w oh nh pr pv o ev fb u sg mp).
Proof. unfold persist_evidence, absolute_path. solve_quiet. Qed.

Lemma upload_quiet (self : BlockPipeline) fh fb : quiet view (upload_finalized_buffers self fh fb).
Proof. unfold upload_finalized_buffers, ensure_recipient_token_accounts. solve_quiet. Qed.
Hint Resolve persist_evidence_quiet upload_quiet : quiet.

Lemma triple_quiet {A} (p : prog W A) (Phi : View -> Prop) (C : W -> Prop) :
  quiet view p -> closed Phi -> (forall w, Phi (view w) -> C w) ->
  triple (fun w => Phi (view w)) C p (fun _ w => Phi (view w)).
Proof. intros Hp HP HC. eapply triple_conseq; [by apply quiet_closed|done|exact HC|done]. Qed.

(** A step of a commit: it may stop with the state still recoverable, or go on
    with what it established. *)
Lemma commit_step {A B} (P : W -> Prop) (m : prog W A) (f : A -> prog W B) (M : A -> W -> Prop)
    (Q : outcome B -> W -> Prop) :
  triple P (fun w => recoverable (view w)) m
    (fun r w => match r with Ok a => M a w | _ => recoverable (view w) end) ->
  (forall a, triple (M a) (fun w => recoverable (view w)) (f a) Q) ->
  (forall r w, is_ok r = false -> recoverable (view w) -> Q r w) ->
  triple P (fun w => recoverable (view w)) (m ≫= f) Q.
Proof.
  intros Hm Hf Hfail. eapply triple_bind; [exact Hm|exact Hf|].
  intros r r' w Hr E. destruct r; cbn in E; simplify_eq; by apply Hfail.
Qed.

(** Journal [j] replaces whatever was under the journal key. *)
Lemma triple_write_journal (j : CheckpointJournal) (Phi Psi : View -> Prop) :
  closed Phi -> closed Psi -> (forall s, Phi s -> recoverable s) -> (forall s, Psi s -> recoverable s) ->
  (forall s t, to_json j = Some t -> Phi s -> Psi (with_key (checkpoint_journal_key key) t s)) ->
  triple (fun w => Phi (view w)) (fun w => recoverable (view w)) (store_json (checkpoint_journal_key key) j)
    (fun r w => match r with Ok _ => Psi (view w) | _ => recoverable (view w) end).
Proof.
  intros HP HQ HPr HQr Hset. eapply triple_post; [apply (triple_store_json _ _ Phi Psi); auto|].
  intros [a|e|m|] w Hw; [done|destruct Hw; auto..].
Qed.

(** What holds when the effects of a commit are done. *)
Definition ready (s : View) : Prop :=
  committed_header s /\ exists j u, pend j s /\ mints_done finalized u s.
Lemma ready_closed : closed ready.
Proof.
  apply closed_and; [apply committed_header_closed|]. intros s s' Hs (j & u & Hp & Hd). exists j, u.
  split; [exact (pend_closed _ _ _ Hs Hp)|exact (mints_done_closed _ _ _ Hs Hd)].
Qed.
Hint Resolve ready_closed : core.

Lemma pend_set_journal (j' : CheckpointJournal) s t :
  to_json j' = Some t -> held init key c s -> header_in s -> usable_journal j' s ->
  pend j' (with_key (checkpoint_journal_key key) t s).
Proof.
  intros Ht Hs Hh Hu. split; [apply held_other; [|done]|].
  - intros E. by apply (journal_key_ne key).
  - split; [by apply stored_same|]. by split.
Qed.

Lemma triple_commit_effects (self : BlockPipeline) p output :
  self.(checkpoint_key) = key -> p.(next_checkpoint) = next -> p.(finalized_buffers) = finalized ->
  matches_chain next p.(new_header) = true ->
  triple (fun w => before (view w)) (fun w => recoverable (view w)) (commit_effects self p output)
    (fun r w => match r with Ok _ => ready (view w) | _ => recoverable (view w) end).
Proof.
  intros Hk Hn Hf Hh. unfold commit_effects. rewrite Hk, Hn, Hf.
  assert (forall (r : outcome (BlockProofEvidence * BlockUpdateResponse * MintProcessingEvidence)) w,
    is_ok r = false -> recoverable (view w) ->
    match r with Ok _ => ready (view w) | _ => recoverable (view w) end) as Hfail.
  { by intros [] w. }
  eapply commit_step with (M := fun _ w => before (view w)); [|intros []|apply Hfail].
  { apply triple_write_journal; auto. intros s t _ [Hs Hm]. split; [|exact Hm].
    apply held_other; [|exact Hs]. intros E. by apply (journal_key_ne key). }
  eapply commit_step with (M := fun _ w => before (view w)); [|intros u|apply Hfail].
  { eapply triple_post; [apply (triple_quiet _ before); auto with quiet|]. intros [] w; auto. }
  set (j2 := mkJournal next (Some u) (Some finalized) None None).
  eapply commit_step with (M := fun _ w => pend j2 (view w)); [|intros []|apply Hfail].
  { apply triple_write_journal; eauto. intros s t Ht [Hs Hm]. eapply pend_set_journal; [done..|by left|].
    split_and!; [done|done|]. exists u. split; [done|]. by intros []. }
  eapply commit_step with (M := fun _ w => pend j2 (view w)); [|intros evidence|apply Hfail].
  { eapply triple_post; [apply (triple_quiet _ (pend j2)); eauto with quiet|]. intros [] w; eauto. }
  eapply commit_step with (M := fun _ w => pend j2 (view w) /\ committed_header (view w));
    [|intros response|apply Hfail].
  { eapply triple_conseq; [by apply (triple_submit j2)|intros w Hw; exact Hw|intros w Hw; exact (pend_recoverable _ _ Hw)|].
    cbn beta. intros [a|e|m|] w [Hw Hr]; [split; [done|by eapply Hr]|by eapply pend_recoverable..]. }
  set (j3 := mkJournal next (Some u) (Some finalized) (Some (resp_signature response)) None).
  eapply commit_step with (M := fun _ w => pend j3 (view w) /\ committed_header (view w));
    [|intros []|apply Hfail].
  { apply (triple_write_journal _ (fun s => pend j2 s /\ committed_header s)
      (fun s => pend j3 s /\ committed_header s)).
    - by apply closed_and.
    - by apply closed_and.
    - intros s [Hs _]. exact (pend_recoverable _ _ Hs).
    - intros s [Hs _]. exact (pend_recoverable _ _ Hs).
    - intros s t Ht [(Hs & _ & _ & Hi) Hc]. split; [|exact Hc]. eapply pend_set_journal; [done..|].
      split_and!; [done|done|]. exists u. split; [done|]. by intros []. }
  eapply commit_step with (M := fun _ w => (pend j3 (view w) /\ committed_header (view w)) /\
    mints_done finalized u (view w)); [|intros mp|apply Hfail].
  { unfold process_finalized_mints. eapply triple_bind.
    - eapply triple_conseq; [apply (triple_process_mints self.(network_retry) u
        (fun s => pend j3 s /\ committed_header s)); by apply closed_and|done| |intros r w Hw; exact Hw].
      intros w [Hw _]. exact (pend_recoverable _ _ Hw).
    - intros r. eapply triple_bind with (R := fun o w => (pend j3 (view w) /\ committed_header (view w)) /\
        (is_ok o = true -> mints_done finalized u (view w))).
      + apply triple_lift. intros w [Hw Hr]. split; [done|]. intros E. apply is_ok_true in E as [? E].
        apply bail_when_Ok in E. bool_hyps. by eapply Hr.
      + intros []. apply triple_ret. intros w [Hw Hr]. split; [done|]. by apply Hr.
      + intros o r' w [[Hw _] _] E. destruct o; cbn in E; simplify_eq; eauto.
    - intros o r' w [[Hw _] _] E. destruct o; cbn in E; simplify_eq; eauto. }
  set (j4 := mkJournal next (Some u) (Some finalized) (Some (resp_signature response))
    (Some (mint_progress_of mp))).
  eapply commit_step with (M := fun _ w => ready (view w)); [|intros []|apply Hfail].
  { apply (triple_write_journal _ (fun s => (pend j3 s /\ committed_header s) /\ mints_done finalized u s) ready).
    - apply closed_and; [by apply closed_and|apply mints_done_closed].
    - done.
    - intros s [[Hs _] _]. exact (pend_recoverable _ _ Hs).
    - intros s (_ & j & u' & Hp & _). exact (pend_recoverable _ _ Hp).
    - intros s t Ht [[(Hs & _ & _ & Hi) Hc] Hd]. split; [exact Hc|]. exists j4, u. split; [|exact Hd].
      eapply pend_set_journal; [done..|]. split_and!; [done|done|]. by exists u. }
  by apply triple_ret.
Qed.

(** Committed: the stored checkpoint is the one on chain, its mints are done. *)
Definition after_commit (s : View) : Prop :=
  stored key next s /\ committed_header s /\ exists u, mints_done finalized u s.
Lemma after_commit_closed : closed after_commit.
Proof.
  apply closed_and; [apply stored_closed|]. apply closed_and; [apply committed_header_closed|].
  intros s s' Hs (u & Hd). exists u. exact (mints_done_closed _ _ _ Hs Hd).
Qed.
Hint Resolve after_commit_closed : core.
Lemma after_recoverable s : after_commit s -> recoverable s.
Proof. intros (Hs & Hh & u & Hd). exact (rec_after _ u Hs Hh Hd). Qed.
Lemma ready_recoverable s : ready s -> recoverable s.
Proof. intros (_ & j & u & Hp & _). exact (pend_recoverable _ _ Hp). Qed.

Lemma triple_store_next :
  triple (fun w => ready (view w)) (fun w => recoverable (view w)) (store_json key next)
    (fun r w => match r with Ok _ => after_commit (view w) | _ => recoverable (view w) end).
Proof.
  eapply triple_post; [apply (triple_store_json _ _ ready after_commit); auto|].
  - intros s t Ht (Hh & j & u & Hp & Hd). split; [by apply stored_same|]. split; [exact Hh|].
    exists u. exact Hd.
  - intros w Hw. exact (ready_recoverable _ Hw).
  - intros w Hw. exact (after_recoverable _ Hw).
  - intros [a|e|m|] w Hw; [exact Hw|..];
      (destruct Hw as [Hw|Hw]; [exact (ready_recoverable _ Hw)|exact (after_recoverable _ Hw)]).
Qed.

(** A predicate on the checkpoint and the header survives the deletion of the
    journal. *)
Lemma triple_del_journal (Phi : View -> Prop) (C : W -> Prop) :
  closed Phi -> (forall s, Phi s -> Phi (without_key (checkpoint_journal_key key) s)) ->
  (forall w, Phi (view w) -> C w) ->
  triple (fun w => Phi (view w)) C (store_del (checkpoint_journal_key key)) (fun _ w => Phi (view w)).
Proof.
  intros HP Hdel HC. eapply triple_conseq; [apply (writes_closed view _ _ Phi Phi (del_writes _)); auto|done|..].
  - intros w [Hw|Hw]; by apply HC.
  - by intros [a|e|m|] w Hw; [|destruct Hw..].
Qed.

Lemma stored_del {A} `{!Json A} (a : A) s :
  stored key a s -> stored key a (without_key (checkpoint_journal_key key) s).
Proof.
  intros (t & Ht & Hs). exists t. split; [done|]. cbn. rewrite lookup_delete_ne; [done|apply journal_key_ne].
Qed.

Lemma held_del c1 s :
  held init key c1 s -> held init key c1 (without_key (checkpoint_journal_key key) s).
Proof.
  intros [Hs|[Hn E]]; [left; by apply stored_del|right]. split; [|done]. cbn.
  rewrite lookup_delete_ne; [done|apply journal_key_ne].
Qed.

Lemma after_commit_del s : after_commit s -> after_commit (without_key (checkpoint_journal_key key) s).
Proof. intros (Hs & Hh & u & Hd). split; [by apply stored_del|]. split; [exact Hh|]. by exists u. Qed.

Lemma triple_finish_commit evidence signature mp :
  triple (fun w => ready (view w)) (fun w => recoverable (view w))
    (finish_commit key next evidence signature mp)
    (fun r w => match r with Ok _ => after_commit (view w) | _ => recoverable (view w) end).
Proof.
  assert (forall (r : outcome ()) w, is_ok r = false -> recoverable (view w) ->
    match r with Ok _ => after_commit (view w) | _ => recoverable (view w) end) as Hfail by by intros [] w.
  unfold finish_commit.
  eapply commit_step with (M := fun _ w => after_commit (view w)); [apply triple_store_next| |exact Hfail].
  intros []. eapply commit_step with (M := fun _ w => after_commit (view w)); [| |exact Hfail].
  { eapply triple_post; [apply (triple_del_journal after_commit); auto using after_commit_del|].
    - intros w Hw. exact (after_recoverable _ Hw).
    - intros [] w Hw; [exact Hw|exact (after_recoverable _ Hw)..]. }
  intros []. eapply triple_post with (Q' := fun _ w => after_commit (view w)).
  2: { intros [] w Hw; [exact Hw|exact (after_recoverable _ Hw)..]. }
  apply triple_quiet; [|auto|intros w Hw; exact (after_recoverable _ Hw)].
  apply quiet_bind; [apply write_evidence_manifest_quiet|]. intros m. solve_quiet.
Qed.
End recovery.

(** The whole commit, as one triple. *)
Lemma triple_commit
    `{!Hex, !HexLaws, !Sha, !TreeParams, !LightClient, !Custody, !ClaimHelper, !EvidenceOut}
    {W R} `{!Clock W, !Files W, !Store W, !BridgeClient W, !Sender W R, !HttpResponse R}
    `{!ServiceLaws W R, !ProofService W}
    `{!Json PipelineCheckpoint, !Json CheckpointJournal}
    (init : option PipelineCheckpoint) (self : BlockPipeline) (p : PreparedTransition)
    (output : ProverOutput) `{!PlainKey self.(checkpoint_key)} :
  let key := self.(checkpoint_key) in
  let c := self.(checkpoint) in
  let next := p.(next_checkpoint) in
  let finalized := p.(finalized_buffers) in
  matches_chain next p.(new_header) = true ->
  triple (fun m : W * BlockPipeline => before init key c (view m.1) /\ m.2 = self)
    (fun m => recoverable init key c next finalized (view m.1))
    (commit_prepared p output)
    (fun r m => recoverable init key c next finalized (view m.1) /\
       (r = Ok () -> next.(height) = (c.(height) + 1)%N /\
          m.2 = set_checkpoint self next /\ after_commit key next finalized (view m.1))).
Proof.
  intros key c next finalized Hn. assert (PlainKey key) by done. set (rec := recoverable init key c next finalized).
  unfold commit_prepared.
    assert (forall m : W * BlockPipeline, before init key c (view m.1) -> rec (view m.1)) as Hbr.
    { intros m Hb. by apply before_recoverable. }
    eapply triple_bind with (R := fun r m => (before init key c (view m.1) /\ m.2 = self) /\ r = Ok self).
    { intros m [Hb <-]. by split. }
    2: { intros r r' m [_ ->] E. done. }
    intros self'. apply triple_pure. intros [= ->].
    eapply triple_bind with (R := fun r m => (before init key c (view m.1) /\ m.2 = self) /\
      (r = Ok () -> next.(height) = (c.(height) + 1)%N)).
    { apply triple_lift. intros m Hb. split; [exact Hb|]. intros E. unfold check_prepared in E. inv_ok.
      bool_hyps. repeat match goal with E : checked_add _ _ _ = Some _ |- _ =>
        apply checked_add_Some in E as [? ?] end. unfold next, c. congruence. }
    2: { intros r r' m [[Hb _] _] E. split; [by apply Hbr|]. destruct r; cbn in E; by simplify_eq. }
    intros []. apply triple_pre with (P' := fun m => (before init key c (view m.1) /\ m.2 = self) /\
      next.(height) = (c.(height) + 1)%N); [|intros m [Hb Hh]; split; [exact Hb|by apply Hh]].
    apply triple_pure. intros Hh. eapply triple_bind.
    { apply (triple_call _ _ _ _ self (triple_commit_effects init key c next finalized self p output
        eq_refl eq_refl eq_refl Hn)). }
    2: { intros r r' m [Hb _] E. destruct r; cbn in E; simplify_eq; by split. }
    intros [[evidence response] mp]. cbn beta iota. eapply triple_bind with
      (R := fun r m => ready init key c next finalized (view m.1) /\ m.2 = set_checkpoint self next /\ r = Ok ()).
    { intros m [Hr E]. unfold modify_self. cbn. rewrite E. split; [constructor|]. by split. }
    2: { intros r r' m (_ & _ & ->) E. done. }
    intros []. apply triple_pre with (P' := fun m => ready init key c next finalized (view m.1) /\
      m.2 = set_checkpoint self next); [|by intros m (? & ? & _)].
    eapply triple_conseq; [apply (triple_call _ _ _ _ (set_checkpoint self next)
      (triple_finish_commit init key c next finalized evidence response.(resp_signature) mp))|done|done|].
    cbn beta. intros r m [Hr Es]. destruct r as [[]|e|s|]; [|by split..].
    split; [by apply after_recoverable|]. done.
Qed.

(** C4: A crash during a commit loses nothing.  From a world in which a
    start-up would load the pipeline's checkpoint, and that checkpoint is the
    one on chain, at every point between
    two effects of [commit_prepared], and wherever it fails, the world is
    recoverable: either the old checkpoint would be loaded and is on chain; or it
    would be loaded, the new header is on chain, and the journal holds the next
    checkpoint with the buffers and the commitment to finish its mints; or the
    next checkpoint is stored and on chain and the mints of the finalized
    height are done.  When it returns, the last is the case, the in-memory
    checkpoint is the next one, and its height is one above the old. *)
Theorem commit_crash_recoverable
    `{!Hex, !HexLaws, !Sha, !TreeParams, !LightClient, !Custody, !ClaimHelper, !EvidenceOut}
    {W R} `{!Clock W, !Files W, !Store W, !BridgeClient W, !Sender W R, !HttpResponse R}
    `{!ServiceLaws W R, !ProofService W}
    `{!Json PipelineCheckpoint, !Json CheckpointJournal}
    (init : option PipelineCheckpoint) (self : BlockPipeline) (p : PreparedTransition) (output : ProverOutput) (w : W)
    `{!PlainKey self.(checkpoint_key)} :
  let key := self.(checkpoint_key) in
  let c := self.(checkpoint) in
  let next := p.(next_checkpoint) in
  let finalized := p.(finalized_buffers) in
  held init key c (view w) -> matches_chain c (view w).(v_header) = true ->
  matches_chain next p.(new_header) = true ->
  let n := final (commit_prepared p output) (w, self) in
  (forall x, x ∈ crash_points (commit_prepared p output) (w, self) ->
     recoverable init key c next finalized (view x.1)) /\
  recoverable init key c next finalized (view n.1) /\
  (result (commit_prepared p output) (w, self) = Ok () ->
   next.(height) = (c.(height) + 1)%N /\ n.2 = set_checkpoint self next /\
   stored key next (view n.1) /\ matches_chain next (view n.1).(v_header) = true /\
   exists u, mints_done finalized u (view n.1)).
Proof.
  intros key c next finalized Hst Hm Hn n.
  pose proof (triple_commit (W := W) (R := R) init self p output Hn) as Ht. cbn zeta in Ht. fold key c next finalized in Ht.
  assert (before init key c (view w)) as Hb by by split.
  destruct (triple_use _ _ _ _ (w, self) Ht (conj Hb eq_refl)) as [Hrec Hok].
  split_and!.
  - intros x Hx. apply (triple_crash _ _ _ _ (w, self) x Ht); [by split| |exact Hx]. by apply before_recoverable.
  - exact Hrec.
  - intros E. destruct (Hok E) as (Hh & Es & Hs & Hc & u & Hd). split_and!; [done..|]. by exists u.
Qed.
