(* ===== verification/Recover.v ===== *)
(** * Recovery at start-up

    [reconcile_checkpoint_journal] brings every state an interrupted commit can
    leave behind to a stored checkpoint that is the one on chain. *)
From S2P Require Import Prelude External Instances Merkle Effects NetworkRetry Chain.
From S2P Require Import ChainInstances Checkpoint SolHeader Claims ProofJob Files Services.
From S2P Require Import Journal Transition Evidence Commit.
Import NetworkRetryPolicyOps.

(** The failures recovery may end with: a service that did not answer, or mints
    that are still incomplete. *)
Definition allowed {A} (r : outcome A) : bool :=
  match r with
  | Ok _ | Err (External _) => true
  | Err (Anyhow site) =>
      String.eqb site "mint recovery did not fully complete pending mints (BridgeClient reported fully_completed=false)"
  | _ => false
  end.

Lemma answers_allowed {A} (r : outcome A) : answers r = true -> allowed r = true.
Proof. by destruct r as [|[]| |]. Qed.

Section reconcile.
Context `{!Hex, !HexLaws, !Sha, !TreeParams, !LightClient, !Custody, !ClaimHelper, !EvidenceOut}.
Context {W R : Type} `{!Clock W, !Files W, !Store W, !BridgeClient W, !Sender W R, !HttpResponse R}.
Context `{!ServiceLaws W R, !ProofService W}.
Context `{!Json PipelineCheckpoint, !JsonLaws PipelineCheckpoint, !Json CheckpointJournal, !JsonLaws CheckpointJournal}.
Variables (init : option PipelineCheckpoint) (key : string).
Context `{!PlainKey key}.
Variables (c next : PipelineCheckpoint) (finalized : BlockBufferCommitment).
Abbreviation rec := (recoverable init key c next finalized).

(** What recovery ends with when it returns [c1]. *)
Definition settled (c1 : PipelineCheckpoint) (s : View) : Prop :=
  matches_chain c1 s.(v_header) = true /\
  ((c1 = c /\ held init key c s) \/
   (c1 = next /\ stored key next s /\ exists u, mints_done finalized u s)).

Lemma settled_closed c1 : closed (settled c1).
Proof.
  apply closed_and; [apply (header_closed (fun h => matches_chain c1 h = true))|].
  intros s s' Hs [[-> Hh]|(-> & Hst & u & Hd)]; [left|right]; split_and!; try done.
  - exact (held_closed _ _ _ _ _ Hs Hh).
  - exact (stored_closed _ _ _ _ Hs Hst).
  - exists u. exact (mints_done_closed _ _ _ _ Hs Hd).
Qed.

Lemma settled_recoverable c1 s : settled c1 s -> rec s.
Proof.
  intros (Hm & [[-> Hh]|(-> & Hst & u & Hd)]); [by apply rec_before|]. exact (rec_after _ _ _ _ _ _ u Hst Hm Hd).
Qed.

Lemma settled_del c1 s : settled c1 s -> settled c1 (without_key (checkpoint_journal_key key) s).
Proof.
  intros (Hm & [[-> Hh]|(-> & Hst & u & Hd)]); (split; [exact Hm|]); [left|right]; split_and!; try done.
  - by apply held_del.
  - by apply stored_del.
  - by exists u.
Qed.

Lemma store_json_answers {A} `{!Json A} k (a : A) w : answers (result (store_json k a) w) = true.
Proof.
  unfold store_json, json_string. rewrite result_bind, result_lift.
  destruct (to_json a); cbn [ok_or]; [|done]. rewrite final_lift. apply set_answers.
Qed.

Lemma process_mints_answers fb u w :
  answers (result (process_mints NetworkRetryPolicyOps.default fb u) w) = true.
Proof.
  unfold process_mints, question. rewrite result_bind.
  destruct (retry_bridge_answers (process_remaining_pending_mints_groups
    (to_bridge_mint <$> pending_mints fb) u.(mint_buffer) u.(mint_buffer_bump)) w) as [[v|e] ->];
    [intros x; apply process_answers|done..].
Qed.

Definition good (r : outcome PipelineCheckpoint) (w : W) : Prop :=
  rec (view w) /\ allowed r = true /\ forall c1, r = Ok c1 -> settled c1 (view w).

(** A step of recovery. *)
Lemma rec_step {A} (P : W -> Prop) (m : prog W A) (f : A -> prog W PipelineCheckpoint)
    (M : A -> W -> Prop) :
  triple P (fun w => rec (view w)) m
    (fun r w => match r with Ok a => M a w | _ => rec (view w) /\ allowed r = true end) ->
  (forall a, triple (M a) (fun w => rec (view w)) (f a) good) ->
  triple P (fun w => rec (view w)) (m ≫= f) good.
Proof.
  intros Hm Hf. eapply triple_bind; [exact Hm|exact Hf|].
  intros [a|e|s|] r' w Hw E; cbn in E; simplify_eq; (destruct Hw as [Hw Ha]; by split_and!).
Qed.

Lemma triple_del_journal_good c1 :
  triple (fun w => settled c1 (view w)) (fun w => rec (view w))
    (store_del (checkpoint_journal_key key) ;; mret c1) good.
Proof.
  eapply rec_step with (M := fun _ w => settled c1 (view w)).
  - eapply triple_post.
    + eapply (triple_result _ _ _ _ (fun r => answers r = true)); [apply del_answers|].
      apply triple_del_journal; [exact _|apply settled_closed|apply settled_del|].
      intros w Hw. exact (settled_recoverable _ _ Hw).
    + intros r w [Hw Ha]. apply answers_allowed in Ha.
      destruct r; [done|by split; [exact (settled_recoverable _ _ Hw)|]..].
  - intros []. apply triple_ret. intros w Hw. split; [exact (settled_recoverable _ _ Hw)|].
    split; [done|]. by intros c2 [= <-].
Qed.

Lemma triple_promote :
  triple (fun w => ready init key c next finalized (view w)) (fun w => rec (view w)) (promote key next) good.
Proof.
  unfold promote. eapply rec_step with (M := fun _ w => settled next (view w)).
  - eapply triple_post.
    + eapply (triple_result _ _ _ _ (fun r => answers r = true)); [apply store_json_answers|].
      by apply triple_store_next.
    + intros r w [Hw Ha]. apply answers_allowed in Ha. destruct r; [|by split..].
      destruct Hw as (Hs & Hh & Hd). split; [done|]. by right.
  - intros []. by apply triple_del_journal_good.
Qed.

Lemma triple_complete_mint j u :
  j.(uploaded_buffers) = Some u -> j.(mint_progress) = None ->
  triple (fun w => pend init key c next finalized j (view w) /\ committed_header next (view w))
    (fun w => rec (view w)) (complete_mint NetworkRetryPolicyOps.default finalized u)
    (fun r w => match r with Ok _ => ready init key c next finalized (view w)
                | _ => rec (view w) /\ allowed r = true end).
Proof.
  intros Hu Hp. set (Phi := fun s => pend init key c next finalized j s /\ committed_header next s).
  assert (closed Phi) as HP by (apply closed_and; [apply pend_closed|apply committed_header_closed]).
  assert (forall w, Phi (view w) -> rec (view w)) as HPr.
  { intros w [Hw _]. exact (pend_recoverable _ _ _ _ _ _ _ Hw). }
  assert (forall w, Phi (view w) -> mints_done finalized u (view w) -> ready init key c next finalized (view w)) as Hrd.
  { intros w [Hw Hc] Hd. split; [exact Hc|]. by exists j, u. }
  unfold complete_mint. case_bool_decide as Hm.
  { apply triple_ret. intros w Hw. apply Hrd; [exact Hw|by left]. }
  eapply triple_bind with (R := fun r w => (Phi (view w) /\ forall v, r = Ok v ->
    v.(fully_completed) = true -> mints_done finalized u (view w)) /\ answers r = true).
  - eapply (triple_result _ _ _ _ (fun r => answers r = true)); [apply process_mints_answers|].
    eapply triple_conseq; [by apply (triple_process_mints finalized NetworkRetryPolicyOps.default u Phi)|done|exact HPr|done].
  - intros r. apply triple_lift. intros w [[Hw Hd] _]. unfold mint_recovery_succeeded.
    destruct (fully_completed r) eqn:Hf; [apply Hrd; [exact Hw|by apply (Hd r)]|]. by split; [apply HPr|].
  - intros r r' w [[Hw _] Ha] E. apply answers_allowed in Ha.
    destruct r as [|[]| |]; cbn in E; simplify_eq; by split; [apply HPr|].
Qed.
End reconcile.

Section reconcile_theorem.
Context `{!Hex, !HexLaws, !Sha, !TreeParams, !LightClient, !Custody, !ClaimHelper, !EvidenceOut}.
Context {W R : Type} `{!Clock W, !Files W, !Store W, !BridgeClient W, !Sender W R, !HttpResponse R}.
Context `{!ServiceLaws W R, !ProofService W}.
Context `{!Json PipelineCheckpoint, !JsonLaws PipelineCheckpoint, !Json CheckpointJournal, !JsonLaws CheckpointJournal}.
Variables (init : option PipelineCheckpoint) (key : string).
Context `{!PlainKey key}.
Variables (c next : PipelineCheckpoint) (finalized : BlockBufferCommitment).
Abbreviation rec := (recoverable init key c next finalized).

(** What a start-up reads: the stored checkpoint, or a fresh one. *)
Definition loads (s : View) (c0 : PipelineCheckpoint) : Prop :=
  match s.(v_db) !! key with
  | Some text => from_json text = Some c0
  | None => init = Some c0
  end.

Lemma stored_loads c1 c0 s : stored key c1 s -> loads s c0 -> c1 = c0.
Proof.
  intros (t & Ht & Hs) Hl. unfold loads in Hl. rewrite Hs in Hl. apply json_round_trip in Ht. congruence.
Qed.
Lemma held_loads c1 c0 s : held init key c1 s -> loads s c0 -> c1 = c0.
Proof.
  intros [Hs|[Hn E]] Hl; [by eapply stored_loads|]. unfold loads in Hl. rewrite Hn in Hl. congruence.
Qed.

(** The committed checkpoint is the one on chain: the journal is discarded. *)
Lemma triple_reconcile_stale c0 h policy :
  matches_chain c0 h = true ->
  triple (fun w => settled init key c next finalized c0 (view w)) (fun w => rec (view w))
    (reconcile_checkpoint_journal key c0 h policy) (good init key c next finalized).
Proof.
  intros Hm. unfold reconcile_checkpoint_journal. rewrite Hm.
  assert (forall w, settled init key c next finalized c0 (view w) -> rec (view w)) as Hsr.
  { intros w Hw. exact (settled_recoverable _ _ _ _ _ _ _ Hw). }
  eapply rec_step with (M := fun _ w => settled init key c next finalized c0 (view w)).
  { eapply triple_post.
    - eapply (triple_result _ _ _ _ (fun r => answers r = true)); [apply get_answers|].
      apply (triple_quiet _ (settled init key c next finalized c0)); [apply get_quiet|apply settled_closed|exact Hsr].
    - intros r w [Hw Ha]. apply answers_allowed in Ha. destruct r; [done|by split; [apply Hsr|]..]. }
  intros present. unfold stale_journal_action. case_bool_decide; [by apply triple_del_journal_good|].
  eapply rec_step with (M := fun _ w => settled init key c next finalized c0 (view w)); [by apply triple_ret|].
  intros []. apply triple_ret. intros w Hw. split; [by apply Hsr|]. split; [done|]. by intros c1 [= <-].
Qed.

(** The header moved: the journal decides. *)
Lemma triple_reconcile_advanced h j :
  matches_chain c h = false -> matches_chain next h = true ->
  validate_checkpoint next = Ok () -> next.(height) = saturating_add u32_max c.(height) 1 ->
  triple (fun w => (pend init key c next finalized j (view w) /\ committed_header next (view w)) /\
                   usable_journal next finalized j (view w))
    (fun w => rec (view w)) (reconcile_checkpoint_journal key c h NetworkRetryPolicyOps.default)
    (good init key c next finalized).
Proof.
  intros Hc Hn Hv Hh. unfold reconcile_checkpoint_journal. rewrite Hc.
  set (Phi := fun s => (pend init key c next finalized j s /\ committed_header next s) /\
                       usable_journal next finalized j s).
  assert (closed Phi) as HP.
  { apply (closed_and (fun s => pend init key c next finalized j s /\ committed_header next s));
      [apply closed_and; [apply pend_closed|apply committed_header_closed]|apply usable_journal_closed]. }
  assert (forall w, Phi (view w) -> rec (view w)) as HPr.
  { intros w [[Hw _] _]. exact (pend_recoverable _ _ _ _ _ _ _ Hw). }
  eapply rec_step with (M := fun v w => Phi (view w) /\ v = (view w).(v_db) !! checkpoint_journal_key key).
  { apply triple_at. intros w Hw x ->.
    destruct (get_quiet (checkpoint_journal_key key) (view w) w) as [Ht Hr]; [reflexivity|].
    pose proof (get_answers (W := W) (R := R) (checkpoint_journal_key key) w) as Ha.
    pose proof (fun v => get_reads (W := W) (R := R) (checkpoint_journal_key key) w v) as Hrd.
    split; [eapply Forall_impl; [exact Ht|]; intros x Hx; apply HPr; exact (HP _ _ Hx Hw)|].
    pose proof (HP _ _ Hr Hw) as HPf. destruct (result (store_get _) w) as [v|e|s|];
      [|apply answers_allowed in Ha; by split; [apply HPr|]..].
    split; [exact HPf|]. destruct Hr as (-> & _). by apply Hrd. }
  intros v. eapply rec_step with (M := fun text w => Phi (view w) /\ to_json j = Some text).
  { apply triple_lift. intros w [Hw ->]. destruct Hw as [[Hp Hcm] Hu].
    pose proof Hp as (_ & (t & Ht & ->) & _). cbn [ok_or]. by split_and!. }
  intros text. eapply rec_step with (M := fun j' w => Phi (view w) /\ j' = j).
  { apply triple_lift. intros w [Hw Ht]. unfold json_parse. by rewrite (json_round_trip _ _ Ht). }
  intros j'. apply triple_at. intros w0 [Hw0 ->]. destruct Hw0 as [[Hp Hcm] Hu].
  pose proof Hu as (Ej & Ef & u & Eu & Hd). rewrite Ej.
  assert (Phi (view w0)) as Hw0 by done. clear Hp Hcm.
  eapply rec_step with (M := fun _ w => w = w0).
  { rewrite Hv. apply triple_lift. by intros w ->. }
  intros []. unfold plan_journal_recovery. rewrite Hc, Ej, Hh, N.eqb_refl, Hn, Ef, Eu.
  cbn [negb]. destruct (mint_progress j) as [mp|] eqn:Emp.
  - eapply rec_step with (M := fun _ w => w = w0). { rewrite Hv. apply triple_lift. by intros w ->. }
    intros []. eapply triple_pre; [by apply triple_promote|]. intros w ->. destruct Hw0 as [[Hp Hcm] _].
    split; [exact Hcm|]. exists j, u. split; [exact Hp|]. by apply Hd.
  - eapply rec_step with (M := fun _ w => w = w0). { rewrite Hv. apply triple_lift. by intros w ->. }
    intros []. eapply rec_step with (M := fun _ w => ready init key c next finalized (view w)).
    + eapply triple_pre; [by apply (triple_complete_mint _ _ _ _ _ j u)|]. by intros w ->; destruct Hw0.
    + intros []. by apply triple_promote.
Qed.
End reconcile_theorem.

Lemma reconcile_good
    `{!Hex, !HexLaws, !Sha, !TreeParams, !LightClient, !Custody, !ClaimHelper, !EvidenceOut}
    {W R} `{!Clock W, !Files W, !Store W, !BridgeClient W, !Sender W R, !HttpResponse R}
    `{!ServiceLaws W R, !ProofService W}
    `{!Json PipelineCheckpoint, !JsonLaws PipelineCheckpoint, !Json CheckpointJournal, !JsonLaws CheckpointJournal}
    (init : option PipelineCheckpoint) (key : string) `{!PlainKey key} (c next c0 : PipelineCheckpoint)
    (finalized : BlockBufferCommitment) (w : W) :
  recoverable init key c next finalized (view w) ->
  validate_checkpoint next = Ok () -> next.(height) = saturating_add u32_max c.(height) 1 ->
  loads init key (view w) c0 ->
  let p := reconcile_checkpoint_journal key c0 (view w).(v_header) NetworkRetryPolicyOps.default in
  (forall x, x ∈ crash_points p w -> recoverable init key c next finalized (view x)) /\
  recoverable init key c next finalized (view (final p w)) /\
  allowed (result p w) = true /\
  (forall c1, result p w = Ok c1 ->
     matches_chain c1 (view (final p w)).(v_header) = true /\
     ((c1 = c /\ held init key c (view (final p w))) \/
      (c1 = next /\ stored key next (view (final p w)) /\
       exists u, mints_done finalized u (view (final p w))))).
Proof.
  intros Hrec Hv Hh Hl p. set (h := v_header (view w)) in *.
  assert (exists P, P w /\ triple P (fun x => recoverable init key c next finalized (view x)) p
    (good init key c next finalized)) as (P & HP & Ht).
  { assert (settled init key c next finalized c0 (view w) ->
      exists P, P w /\ triple P (fun x => recoverable init key c next finalized (view x)) p
        (good init key c next finalized)) as Hstale.
    { intros Hs. exists (fun x => settled init key c next finalized c0 (view x)). split; [done|].
      apply triple_reconcile_stale; [done|]. by destruct Hs. }
    pose proof Hrec as [Hs Hm|j Hs Hm Hjs Hu|u Hs Hm Hd].
    - pose proof (held_loads _ _ _ _ _ Hs Hl) as <-. apply Hstale. split; [done|by left].
    - pose proof (held_loads _ _ _ _ _ Hs Hl) as <-.
      destruct (matches_chain c h) eqn:Hc; [apply Hstale; split; [done|by left]|].
      eexists. split; [|by apply (triple_reconcile_advanced init key c next finalized h j)].
      cbn beta. split; [split|]; [|exact Hm|exact Hu]. split_and!; [done|done|exact Hu|by right].
    - pose proof (stored_loads _ _ _ _ _ Hs Hl) as <-. apply Hstale. split; [done|]. right.
      split_and!; [done|done|by exists u]. }
  destruct (triple_use _ _ _ _ w Ht HP) as (Hr & Ha & Hok).
  split_and!; [|exact Hr|exact Ha|exact Hok].
  intros x Hx. by apply (triple_crash _ _ _ _ w x Ht).
Qed.

(** C5: Recovery always ends with the checkpoint that is on chain.  Started on
    any state an interrupted commit can leave, with the checkpoint [c0] a
    start-up loads and the header on chain, [reconcile_checkpoint_journal]
    returns a checkpoint that matches the chain: the old one, which the next
    start-up would load again, or the next one, which is then stored and whose
    finalized mints are done.  It fails only when a service does not answer or
    mints stay incomplete, never with one of its fail-closed errors; and the
    state stays recoverable at every point, so a crash during recovery can be
    recovered from in turn. *)
Theorem reconcile_recovers
    `{!Hex, !HexLaws, !Sha, !TreeParams, !LightClient, !Custody, !ClaimHelper, !EvidenceOut}
    {W R} `{!Clock W, !Files W, !Store W, !BridgeClient W, !Sender W R, !HttpResponse R}
    `{!ServiceLaws W R, !ProofService W}
    `{!Json PipelineCheckpoint, !JsonLaws PipelineCheckpoint, !Json CheckpointJournal, !JsonLaws CheckpointJournal}
    (init : option PipelineCheckpoint) (key : string) `{!PlainKey key} (c next c0 : PipelineCheckpoint)
    (finalized : BlockBufferCommitment) (w : W) :
  recoverable init key c next finalized (view w) ->
  validate_checkpoint next = Ok () -> next.(height) = saturating_add u32_max c.(height) 1 ->
  loads init key (view w) c0 ->
  let p := reconcile_checkpoint_journal key c0 (view w).(v_header) NetworkRetryPolicyOps.default in
  (forall x, x ∈ crash_points p w -> recoverable init key c next finalized (view x)) /\
  recoverable init key c next finalized (view (final p w)) /\
  allowed (result p w) = true /\
  (forall c1, result p w = Ok c1 ->
     matches_chain c1 (view (final p w)).(v_header) = true /\
     ((c1 = c /\ held init key c (view (final p w))) \/
      (c1 = next /\ stored key next (view (final p w)) /\
       exists u, mints_done finalized u (view (final p w))))).
Proof. by apply reconcile_good. Qed.
