(* ===== verification/Pipeline.v ===== *)
(** * The pipeline loop

    [poll_once] prepares blocks ahead of the committed checkpoint, keeps their
    proofs in flight and commits them in order; [initialize] is the start-up
    that recovers first; [run] polls until a signal or an error. *)
From S2P Require Import Prelude External Instances Merkle Effects NetworkRetry Chain.
From S2P Require Import ChainInstances Checkpoint SolHeader Claims ProofJob Prover Files.
From S2P Require Import Services Journal Transition Evidence Commit Recover.
Import NetworkRetryPolicyOps.

(** [REDIS_INIT_DEADLINE] and [REDIS_CHECKPOINT_DEADLINE] *)
Definition REDIS_INIT_DEADLINE : N := from_secs 30.
Definition REDIS_CHECKPOINT_DEADLINE : N := from_secs 30.

(** What start-up calls besides: [tokio::time::timeout], which drops the inner
    computation when the deadline passes, and the connections to the services. *)
Class Startup (W : Type) := {
  timeout : forall A, N -> prog W A -> prog W (option A);
  redis_connect : prog W ();
  bridge_connect : BlockPipelineConfig -> prog W ();
  proof_start : BlockPipelineConfig -> prog W ();
  sender_connect : BlockPipelineConfig -> prog W ();
}.
Arguments timeout {_ _ _} _ _.

Section pipeline.
Context `{!Hex, !Sha, !TreeParams, !LightClient, !Custody, !ClaimHelper, !EvidenceOut}.
Context `{!Transitions, !EvidenceJson, !Host}.
Context {W R : Type} `{!Clock W, !Files W, !Store W, !BridgeClient W, !Sender W R, !HttpResponse R}.
Context `{!ProofService W, !Electrs W, !Startup W}.
Context `{!Json ProofRequest, !Json PipelineCheckpoint, !Json CheckpointJournal}.

Abbreviation Node := (W * BlockPipeline)%type.

Definition set_planned (self : BlockPipeline) (c : PipelineCheckpoint) : BlockPipeline :=
  mkPipeline _ _ self.(config) self.(checkpoint_key) self.(checkpoint) c self.(inflight)
    self.(network_retry).
Definition set_inflight (self : BlockPipeline) (m : gmap N InflightProof) : BlockPipeline :=
  mkPipeline _ _ self.(config) self.(checkpoint_key) self.(checkpoint) self.(planned_checkpoint) m
    self.(network_retry).

(** [while self.inflight.len() < window && self.planned_checkpoint.height < tip] *)
Fixpoint prepare_ahead (fuel : nat) (finalized_tip : N) (did_work : bool) : prog Node bool :=
  match fuel with
  | O => lift OutOfFuel
  | S fuel =>
      self ← get_self;
      if (size self.(inflight) <? self.(config).(proof_prepare_window))%nat
         && (self.(planned_checkpoint).(height) <? finalized_tip)%N
      then
        next ← lift (ok_or (checked_add u32_max self.(planned_checkpoint).(height) 1)
          (Anyhow "planned checkpoint height overflow"));
        prepared ← call (prepare_height self.(config) self.(planned_checkpoint) next);
        ticket ← call (proof_submit prepared.(proof_job));
        modify_self (fun self => set_planned self prepared.(next_checkpoint)) ;;
        self ← get_self;
        modify_self (fun self => set_inflight self (<[next := mkInflight _ _ prepared ticket]> self.(inflight))) ;;
        lift (bail_when (bool_decide (is_Some (self.(inflight) !! next)))
          "duplicate in-flight proof height {height}") ;;
        prepare_ahead fuel finalized_tip true
      else mret did_work
  end.

Definition poll_body : prog Node bool :=
  electrs_tip ← call get_block_height;
  self ← get_self;
  let finalized_tip := saturating_sub electrs_tip self.(config).(required_confirmations) in
  did_work ← prepare_ahead (S self.(config).(proof_prepare_window)) finalized_tip false;
  self ← get_self;
  expected_height ← lift (ok_or (checked_add u32_max self.(checkpoint).(height) 1)
    (Anyhow "checkpoint height overflow"));
  match self.(inflight) !! expected_height with
  | Some flight =>
      modify_self (fun self => set_inflight self (delete expected_height self.(inflight))) ;;
      proof ← try (call (proof_wait flight.(ticket)));
      proof ← lift match proof with
                   | inl proof => Ok proof
                   | inr _ => Err (Anyhow "proof for ordered height {expected_height} failed; suffix will not be committed: {error:#}")
                   end;
      commit_prepared flight.(prepared) proof ;;
      mret true
  | None => mret did_work
  end.

(** The watchdog drops the body at one of its awaits: [cut] is the number of
    effects done by then, [None] when the body finishes first. *)
Definition with_watchdog (cut : option nat) (body : prog Node bool) : prog Node bool := fun n =>
  let '(t, n', r) := body n in
  match cut with
  | None => (t, n', r)
  | Some k =>
      match t !! k with
      | Some m => (take (S k) t, m,
          Err (Anyhow "block pipeline poll_once watchdog exceeded {POLL_ONCE_WATCHDOG:?} at height {height} phase {phase_name}"))
      | None => (t, n', r)
      end
  end.

Definition poll_once (cut : option nat) : prog Node bool := with_watchdog cut poll_body.

(** [run]: what happens at each turn of the loop.  A signal that arrives while
    a poll is running drops it, like the watchdog does. *)
Inductive RunEvent :=
| Polled (cut : option nat)      (* the poll finished, or its watchdog fired *)
| SignalDuringPoll (done : nat)  (* SIGINT or SIGTERM while polling *)
| SignalAsleep.                  (* SIGINT or SIGTERM during the poll interval *)

Definition dropped_at (k : nat) (body : prog Node bool) : prog Node () := fun n =>
  let t := (body n).1.1 in
  match t !! k with
  | Some m => (take (S k) t, m, Ok ())
  | None => (t, (body n).1.2, Ok ())
  end.

Fixpoint run_pipeline (events : list RunEvent) : prog Node () :=
  match events with
  | [] => mret ()
  | Polled cut :: events => poll_once cut ;; run_pipeline events
  | SignalDuringPoll k :: _ => dropped_at k poll_body
  | SignalAsleep :: _ => mret ()
  end.

(** ** Start-up *)
Definition within {A} (deadline : N) (site : string) (p : prog W A) : prog W A :=
  r ← timeout deadline p;
  lift (ok_or r (Anyhow site)).

(** The key of the checkpoint of a network and seed. *)
Definition checkpoint_key_of (config : BlockPipelineConfig) : string :=
  CHECKPOINT_PREFIX +:+ "-" +:+ as_str config.(network) +:+ "-" +:+ decimal config.(redis_seed).

Definition load_checkpoint (config : BlockPipelineConfig) : prog W PipelineCheckpoint :=
  value ← within REDIS_CHECKPOINT_DEADLINE "redis checkpoint load exceeded {REDIS_CHECKPOINT_DEADLINE:?}"
    (store_get (checkpoint_key_of config));
  match value with
  | Some value => lift (json_parse (A := PipelineCheckpoint) value)
  | None => initialize_checkpoint config
  end.

Definition check_chain_state (config : BlockPipelineConfig) (operator : bytes)
    (chain_state : BridgeChainState) : outcome () :=
  bail_when (bool_decide (chain_state.(operator_pubkey) <> operator))
    "configured operator {operator_pubkey} does not match on-chain operator {}" ;;
  bail_when (bool_decide (chain_state.(custodian_wallet_config_hash)
      <> custodian_hash config.(network) config.(custody_script_config)))
    "on-chain custodian wallet config hash {} does not match manager custody script config hash {}".

Definition initialize (config : BlockPipelineConfig) : prog W BlockPipeline :=
  lift (validate_config config) ;;
  within REDIS_INIT_DEADLINE "redis init exceeded {REDIS_INIT_DEADLINE:?}" redis_connect ;;
  operator ← lift (read_pipeline_keypair config.(operator_keypair));
  lift (read_pipeline_keypair config.(payer_keypair)) ;;
  bridge_connect config ;;
  let network_retry := NetworkRetryPolicyOps.default in
  chain_state ← question bridge_error
    (retry_bridge_network retry_fuel network_retry get_current_bridge_state);
  lift (check_chain_state config operator chain_state) ;;
  chain_doge_mint ← question bridge_error get_doge_mint;
  lift (bail_when (bool_decide (chain_doge_mint <> config.(doge_mint)))
    "configured DOGE mint {} does not match on-chain mint {chain_doge_mint}") ;;
  let checkpoint_key := checkpoint_key_of config in
  checkpoint ← load_checkpoint config;
  checkpoint ← reconcile_checkpoint_journal checkpoint_key checkpoint chain_state.(bridge_header)
    network_retry;
  lift (assert_checkpoint_matches_chain checkpoint chain_state.(bridge_header)) ;;
  proof_start config ;;
  sender_connect config ;;
  mret (mkPipeline _ _ config checkpoint_key checkpoint checkpoint ∅ network_retry).
End pipeline.

(** The rest of what the loop calls leaves the view alone. *)
Class PipelineLaws (W R : Type) `{ServiceLaws W R} `{!LightClient, !ProofService W, !Electrs W, !Startup W} := {
  block_height_quiet : quiet view get_block_height;
  qd_block_quiet h : quiet view (get_qd_block h);
  headers_quiet a b : quiet view (get_qd_block_headers_range_parallel a b);
  read_to_string_quiet p : quiet view (fs_read_to_string p);
  submit_quiet job : quiet view (proof_submit job);
  wait_quiet t : quiet view (proof_wait t);
  timeout_quiet {A} d (p : prog W A) : quiet view p -> quiet view (timeout d p);
  timeout_result {A} d (p : prog W A) w a :
    result (timeout d p) w = Ok (Some a) -> result p w = Ok a /\ final (timeout d p) w = final p w;
  redis_connect_quiet : quiet view redis_connect;
  bridge_connect_quiet c : quiet view (bridge_connect c);
  proof_start_quiet c : quiet view (proof_start c);
  sender_connect_quiet c : quiet view (sender_connect c);
}.
#[export] Hint Extern 3 (quiet _ get_block_height) => apply block_height_quiet : quiet.
#[export] Hint Extern 3 (quiet _ (get_qd_block _)) => apply qd_block_quiet : quiet.
#[export] Hint Extern 3 (quiet _ (get_qd_block_headers_range_parallel _ _)) => apply headers_quiet : quiet.
#[export] Hint Extern 3 (quiet _ (fs_read_to_string _)) => apply read_to_string_quiet : quiet.
#[export] Hint Extern 3 (quiet _ redis_connect) => apply redis_connect_quiet : quiet.
#[export] Hint Extern 3 (quiet _ (bridge_connect _)) => apply bridge_connect_quiet : quiet.
#[export] Hint Extern 3 (quiet _ (proof_start _)) => apply proof_start_quiet : quiet.
#[export] Hint Extern 3 (quiet _ (sender_connect _)) => apply sender_connect_quiet : quiet.

(** ** Between two polls *)
Section loop.
Context `{!Hex, !HexLaws, !Sha, !TreeParams, !LightClient, !Custody, !ClaimHelper, !EvidenceOut}.
Context `{!Transitions, !EvidenceJson, !Host}.
Context {W R : Type} `{!Clock W, !Files W, !Store W, !BridgeClient W, !Sender W R, !HttpResponse R}.
Context `{!ServiceLaws W R, !ProofService W, !Electrs W, !Startup W, !PipelineLaws W R}.
Context `{!Json ProofRequest, !JsonLaws ProofRequest, !Json PipelineCheckpoint, !JsonLaws PipelineCheckpoint}.
Context `{!Json CheckpointJournal, !JsonLaws CheckpointJournal}.
Abbreviation Node := (W * BlockPipeline)%type.

Definition valid_next (c next : PipelineCheckpoint) : Prop :=
  validate_checkpoint next = Ok () /\ next.(height) = saturating_add u32_max c.(height) 1.

(** A state a crash may leave: nothing of the next height was submitted, or a
    commit of a valid next checkpoint was under way. *)
Definition crash_safe (init : option PipelineCheckpoint) (key : string) (c : PipelineCheckpoint)
    (s : View) : Prop :=
  before init key c s \/
  exists next finalized, valid_next c next /\ recoverable init key c next finalized s.

Lemma crash_safe_closed init key c : closed (crash_safe init key c).
Proof.
  intros s s' Ha [Hb|(nx & fb & Hv & Hr)]; [left; by eapply before_closed|right].
  exists nx, fb. split; [done|]. by eapply recoverable_closed.
Qed.

Definition flight_ok (h : N) (p : PreparedTransition) : Prop :=
  p.(prep_height) = h /\ p.(next_checkpoint).(height) = h /\
  validate_checkpoint p.(next_checkpoint) = Ok () /\
  matches_chain p.(next_checkpoint) p.(new_header) = true.

(** The in-flight heights are the ones after the committed checkpoint up to the
    planned one, each with a transition of its height, at most a window of them. *)
Record good_self (self : BlockPipeline) : Prop := {
  flights_ok h fl : self.(inflight) !! h = Some fl -> flight_ok h fl.(prepared);
  flights_range h : is_Some (self.(inflight) !! h) <->
    (self.(checkpoint).(height) < h <= self.(planned_checkpoint).(height))%N;
  heights_ordered : (self.(checkpoint).(height) <= self.(planned_checkpoint).(height) <= u32_max)%N;
  planned_last fl : self.(inflight) !! self.(planned_checkpoint).(height) = Some fl ->
    fl.(prepared).(next_checkpoint) = self.(planned_checkpoint);
  planned_none : self.(planned_checkpoint).(height) = self.(checkpoint).(height) ->
    self.(planned_checkpoint) = self.(checkpoint);
  flights_window : size self.(inflight) <= self.(config).(proof_prepare_window);
}.

Definition loop_inv (init : option PipelineCheckpoint) (n : Node) : Prop :=
  good_self n.2 /\ before init n.2.(checkpoint_key) n.2.(checkpoint) (view n.1).

Lemma validate_header c :
  validate_checkpoint c = Ok () -> exists h, hex_decode c.(header_hex) = Some h /\ length h = HEADER_SIZE.
Proof.
  unfold validate_checkpoint, ensure_length, hex_decode_ok. intros E. inv_ok. bool_hyps. eauto.
Qed.

Lemma prepared_flight_ok cfg c h (w : W) p : result (prepare_height cfg c h) w = Ok p -> flight_ok h p.
Proof.
  intros E. destruct (prepare_height_Ok cfg c h w p E) as (_ & Hp & Hn & Hv & _ & Hd & _).
  split_and!; [done..|]. apply matches_chain_spec. split; [done|].
  destruct (validate_header _ Hv) as (h' & Hh & Hl). congruence.
Qed.

Lemma prepare_height_quiet cfg c h : quiet view (prepare_height cfg c h).
Proof.
  unfold prepare_height, load_old_state, load_witness, validate_live_deposit_script,
    load_finalized_block, read_optional_height_artifact, file_sha256_hex. solve_quiet.
Qed.

(** A pipeline that has just started. *)
Lemma good_self_fresh (cfg : BlockPipelineConfig) key (c : PipelineCheckpoint) policy :
  (c.(height) <= u32_max)%N -> good_self (mkPipeline _ _ cfg key c c ∅ policy).
Proof.
  intros Hmax.
  constructor; cbn [inflight checkpoint planned_checkpoint config].
  - intros h fl E. by apply lookup_empty_Some in E.
  - intros h. split; [intros E; by apply lookup_empty_is_Some in E|lia].
  - lia.
  - intros fl E. by apply lookup_empty_Some in E.
  - done.
  - rewrite map_size_empty. lia.
Qed.

(** Adding the next height to the ones in flight. *)
Lemma good_self_insert (self : BlockPipeline) (p : PreparedTransition) (t : ProofTicket) (h : N) :
  good_self self -> size self.(inflight) < self.(config).(proof_prepare_window) ->
  checked_add u32_max self.(planned_checkpoint).(height) 1 = Some h -> flight_ok h p ->
  self.(inflight) !! h = None /\
  good_self (set_inflight (set_planned self p.(next_checkpoint))
    (<[h := mkInflight _ _ p t]> self.(inflight))).
Proof.
  intros [Hok Hrange Hord Hlast Hnone Hwin] Hsize Hh Hp. apply checked_add_Some in Hh as [Hh Hmax].
  assert (inflight self !! h = None) as Hfresh.
  { apply eq_None_not_Some. intros E. apply Hrange in E. lia. }
  split; [done|]. destruct Hp as (Hp1 & Hp2 & Hp3 & Hp4).
  constructor; cbn [inflight checkpoint planned_checkpoint config set_inflight set_planned]; rewrite ?Hp2.
  - intros k fl E. apply lookup_insert_Some in E as [[<- <-]|[_ E]]; [done|by apply Hok].
  - intros k. rewrite lookup_insert_is_Some. rewrite Hrange. split.
    + intros [<-|[_ Hk]]; lia.
    + intros Hk. destruct (decide (h = k)) as [->|Hne]; [by left|]. right. split; [done|]. lia.
  - lia.
  - intros fl E. rewrite lookup_insert_eq in E. by injection E as <-.
  - lia.
  - rewrite map_size_insert_None by done. lia.
Qed.

(** What preparing ahead keeps. *)
Lemma triple_prepare_ahead init fuel tip did (c : PipelineCheckpoint) key :
  triple (fun n => loop_inv init n /\ n.2.(checkpoint) = c /\ n.2.(checkpoint_key) = key)
    (fun n => before init key c (view n.1))
    (prepare_ahead fuel tip did)
    (fun r n => before init key c (view n.1) /\
       (is_ok r = true -> loop_inv init n /\ n.2.(checkpoint) = c /\ n.2.(checkpoint_key) = key)).
Proof.
  set (K := fun n : Node => loop_inv init n /\ n.2.(checkpoint) = c /\ n.2.(checkpoint_key) = key).
  set (B := fun n : Node => before init key c (view n.1)).
  assert (forall n, K n -> B n) as HKB.
  { intros n ((_ & Hb) & <- & <-). exact Hb. }
  revert did. induction fuel as [|fuel IH]; intros did; cbn [prepare_ahead].
  { apply triple_lift. intros n Hn. split; [by apply HKB|done]. }
  apply triple_at. intros n0 Hn0. pose proof Hn0 as ((Hgood & Hb) & Hc & Hk).
  eapply triple_bind with (R := fun r n => n = n0 /\ r = Ok n0.2). { by intros n ->. }
  2: { intros r r' n [_ ->] E. done. }
  intros self. apply triple_pure. intros [= ->]. case_match eqn:Hguard.
  2: { apply triple_ret. intros n ->. split; [by apply HKB|done]. }
  bool_hyps. eapply triple_bind with (R := fun r n => n = n0 /\
    forall h, r = Ok h -> checked_add u32_max n0.2.(planned_checkpoint).(height) 1 = Some h).
  { apply triple_lift. intros n ->. split; [done|]. intros h E. by apply ok_or_Ok in E. }
  2: { intros r r' n [-> _] E. split; [by apply HKB|]. destruct r; cbn in E; by simplify_eq. }
  intros h. apply triple_pre with (P' := fun n => n = n0 /\
    checked_add u32_max n0.2.(planned_checkpoint).(height) 1 = Some h); [|intros n [-> E]; auto].
  apply triple_pure. intros Hh.
  eapply triple_bind with (R := fun r n => (B n /\ n.2 = n0.2) /\
    forall p, r = Ok p -> flight_ok h p).
  { intros n ->. pose proof (quiet_closed view _ (before init key c)
      (prepare_height_quiet n0.2.(config) n0.2.(planned_checkpoint) h) (before_closed _ _ _)) as Ht.
    destruct (triple_call _ _ _ _ n0.2 Ht n0) as [Ht1 Ht2]; [split; [by apply HKB|done]|].
    split; [exact Ht1|]. split; [exact Ht2|]. intros p E. rewrite result_call in E.
    by eapply prepared_flight_ok. }
  2: { intros r r' n [[Hn _] _] E. split; [done|]. destruct r; cbn in E; by simplify_eq. }
  intros p. apply triple_pre with (P' := fun n => (B n /\ n.2 = n0.2) /\ flight_ok h p);
    [|intros n [Hn E]; auto]. apply triple_pure. intros Hp.
  eapply triple_bind with (R := fun r n => B n /\ n.2 = n0.2).
  { pose proof (quiet_closed view _ (before init key c) (submit_quiet p.(proof_job))
      (before_closed _ _ _)) as Ht. apply (triple_call _ _ _ _ n0.2 Ht). }
  2: { intros r r' n [Hn _] E. split; [done|]. destruct r; cbn in E; by simplify_eq. }
  intros t. destruct (good_self_insert n0.2 p t h Hgood) as [Hfresh Hgood']; [lia|done|done|].
  eapply triple_bind with (R := fun r n => B n /\ n.2 = set_planned n0.2 p.(next_checkpoint)).
  { intros n [Hn E]. unfold modify_self. cbn. rewrite E. split; [constructor|]. by split. }
  2: { intros r r' n [Hn _] E. split; [done|]. destruct r; cbn in E; by simplify_eq. }
  intros []. eapply triple_bind with (R := fun r n => (B n /\ n.2 = set_planned n0.2 p.(next_checkpoint)) /\
    r = Ok (set_planned n0.2 p.(next_checkpoint))).
  { intros n [Hn E]. unfold get_self. cbn. rewrite E. split; [constructor|]. by split. }
  2: { intros r r' n [_ ->] E. done. }
  intros self. apply triple_pure. intros [= ->].
  eapply triple_bind with (R := fun r n => K n).
  { intros n [Hn E]. unfold modify_self. split; [constructor|]. cbn. rewrite E.
    split; [|by rewrite <- Hc, <- Hk]. split; [exact Hgood'|]. cbn. rewrite Hc, Hk. exact Hn. }
  2: { intros r r' n Hn E. split; [by apply HKB|]. destruct r; cbn in E; by simplify_eq. }
  intros []. eapply triple_bind with (R := fun r n => K n /\ r = Ok ()).
  { apply triple_lift. intros n Hn. split; [done|]. cbn [inflight set_planned].
    rewrite Hfresh. by rewrite bool_decide_false by (by intros []). }
  2: { intros r r' n [_ ->] E. done. }
  intros []. eapply triple_pre; [apply IH|]. by intros n [Hn _].
Qed.

(** Committing the first height in flight. *)
Lemma good_self_commit (self : BlockPipeline) (fl : InflightProof) (h : N) :
  good_self self -> checked_add u32_max self.(checkpoint).(height) 1 = Some h ->
  self.(inflight) !! h = Some fl ->
  good_self (set_checkpoint (set_inflight self (delete h self.(inflight))) fl.(prepared).(next_checkpoint)).
Proof.
  intros [Hok Hrange Hord Hlast Hnone Hwin] Hh Hfl. apply checked_add_Some in Hh as [Hh Hmax].
  destruct (Hok _ _ Hfl) as (Hp1 & Hp2 & Hp3 & Hp4).
  assert (height (checkpoint self) < h <= height (planned_checkpoint self))%N as Hin
    by (apply Hrange; by eexists).
  constructor; cbn [inflight checkpoint planned_checkpoint config set_inflight set_checkpoint]; rewrite ?Hp2.
  - intros k fl' E. apply lookup_delete_Some in E as [_ E]. by apply Hok.
  - intros k. rewrite lookup_delete_is_Some, Hrange. lia.
  - lia.
  - intros fl' E. apply lookup_delete_Some in E as [_ E]. by apply Hlast.
  - intros E. symmetry. apply Hlast. by rewrite E.
  - etrans; [|exact Hwin]. rewrite map_size_delete, Hfl. lia.
Qed.

(** What a poll ends with. *)
Definition polled (init : option PipelineCheckpoint) (c : PipelineCheckpoint) (n : Node) : Prop :=
  loop_inv init n /\
  (n.2.(checkpoint) = c \/ n.2.(checkpoint).(height) = (c.(height) + 1)%N).

Lemma triple_poll init (c : PipelineCheckpoint) key `{!PlainKey key} :
  triple (fun n => loop_inv init n /\ n.2.(checkpoint) = c /\ n.2.(checkpoint_key) = key)
    (fun n => crash_safe init key c (view n.1)) poll_body
    (fun r n => crash_safe init key c (view n.1) /\
       (is_ok r = true -> polled init c n /\ n.2.(checkpoint_key) = key)).
Proof.
  set (K := fun n : Node => loop_inv init n /\ n.2.(checkpoint) = c /\ n.2.(checkpoint_key) = key).
  set (C := fun n : Node => crash_safe init key c (view n.1)).
  assert (forall n : Node, before init key c (view n.1) -> C n) as HBC by (intros n Hn; by left).
  assert (forall n, K n -> C n) as HKC.
  { intros n ((_ & Hb) & <- & <-). by apply HBC. }
  unfold poll_body. eapply triple_bind with (R := fun _ n => K n).
  { apply triple_at. intros n0 Hn0. pose proof Hn0 as ((Hg & Hb) & Hc & Hk).
    pose proof (quiet_closed view _ (before init key c) block_height_quiet (before_closed _ _ _)) as Ht.
    eapply triple_conseq; [apply (triple_call _ _ _ _ n0.2 Ht)| |by intros n Hn; apply HBC|].
    - intros n ->. rewrite Hc, Hk in Hb. by split.
    - cbn beta. intros r n [Hn E]. unfold K, loop_inv. rewrite E, Hc, Hk. by split_and!. }
  2: { intros r r' n Hn E. split; [by apply HKC|]. destruct r; cbn in E; by simplify_eq. }
  intros tip. eapply triple_bind with (R := fun r n => K n). { intros n Hn. by split; [constructor|]. }
  2: { intros r r' n Hn E. split; [by apply HKC|]. destruct r; cbn in E; by simplify_eq. }
  intros self0. eapply triple_bind with (R := fun r n => C n /\ (is_ok r = true -> K n)).
  { eapply triple_conseq; [apply (triple_prepare_ahead init _ _ false c key)|done|exact HBC|].
    intros r n [Hb Hok]. split; [by apply HBC|exact Hok]. }
  2: { intros r r' n [Hn _] E. split; [done|]. destruct r; cbn in E; by simplify_eq. }
  intros did. apply triple_pre with (P' := K); [|intros n [_ Hn]; by apply Hn].
  apply triple_at. intros n0 Hn0. pose proof Hn0 as ((Hg & Hb) & Hc & Hk).
  eapply triple_bind with (R := fun r n => n = n0 /\ r = Ok n0.2). { by intros n ->. }
  2: { intros r r' n [_ ->] E. done. }
  intros self. apply triple_pure. intros [= ->].
  eapply triple_bind with (R := fun r n => n = n0 /\
    forall h, r = Ok h -> checked_add u32_max n0.2.(checkpoint).(height) 1 = Some h).
  { apply triple_lift. intros n ->. split; [done|]. intros h E. by apply ok_or_Ok in E. }
  2: { intros r r' n [-> _] E. split; [by apply HKC|]. destruct r; cbn in E; by simplify_eq. }
  intros h. apply triple_pre with (P' := fun n => n = n0 /\
    checked_add u32_max n0.2.(checkpoint).(height) 1 = Some h); [|intros n [-> E]; auto].
  apply triple_pure. intros Hh. case_match eqn:Hfl.
  2: { apply triple_ret. intros n ->. split; [by apply HKC|]. intros _. unfold polled.
       split; [|done]. split; [by destruct Hn0|by left]. }
  match goal with E : _ = Some ?x |- _ => rename x into fl end.
  set (self1 := set_inflight n0.2 (delete h n0.2.(inflight))).
  rewrite Hc, Hk in Hb.
  eapply triple_bind with (R := fun r n => before init key c (view n.1) /\ n.2 = self1).
  { intros n ->. unfold modify_self. split; [constructor|]. by split. }
  2: { intros r r' n [Hn _] E. split; [by apply HBC|]. destruct r; cbn in E; by simplify_eq. }
  intros []. eapply triple_bind with (R := fun r n => before init key c (view n.1) /\ n.2 = self1).
  { eapply triple_try.
    - pose proof (quiet_closed view _ (before init key c) (wait_quiet fl.(ticket)) (before_closed _ _ _)) as Ht.
      eapply triple_conseq; [apply (triple_call _ _ _ _ self1 Ht)|done|exact HBC|].
      intros r n Hn. exact Hn.
    - done. - done. - done. - done. }
  2: { intros r r' n [Hn _] E. split; [by apply HBC|]. destruct r; cbn in E; by simplify_eq. }
  intros answer. eapply triple_bind with (R := fun r n => before init key c (view n.1) /\ n.2 = self1).
  { apply triple_lift. done. }
  2: { intros r r' n [Hn _] E. split; [by apply HBC|]. destruct r; cbn in E; by simplify_eq. }
  intros proof. destruct (flights_ok _ Hg _ _ Hfl) as (Hp1 & Hp2 & Hp3 & Hp4).
  assert (valid_next c fl.(prepared).(next_checkpoint)) as Hvn.
  { split; [exact Hp3|]. apply checked_add_Some in Hh as [Hh Hmax]. rewrite Hp2, <- Hc.
    unfold saturating_add. lia. }
  assert (forall s, recoverable init key c fl.(prepared).(next_checkpoint) fl.(prepared).(finalized_buffers) s ->
    crash_safe init key c s) as HRC by (intros s Hs; right; eauto).
  eapply triple_bind with (R := fun r n => C n /\ (r = Ok () ->
    polled init c n /\ n.2.(checkpoint_key) = key)).
  - intros n [Hn E]. destruct n as [x self2]. cbn in Hn, E. subst self2.
    assert (checkpoint self1 = c) as Hc1 by exact Hc.
    assert (checkpoint_key self1 = key) as Hk1 by exact Hk.
    assert (PlainKey (checkpoint_key self1)) as Hplain by (by rewrite Hk1).
    pose proof (triple_commit init self1 fl.(prepared) proof Hp4) as Ht.
    rewrite Hc1, Hk1 in Ht. destruct (Ht (x, self1) (conj Hn eq_refl)) as [Ht1 [Ht2 Ht3]].
    split; [eapply Forall_impl; [exact Ht1|]; intros y Hy; by apply HRC|].
    split; [by apply HRC|]. intros Eok. destruct (Ht3 Eok) as (Hheight & Es & Hs & Hm & _).
    rewrite Es. split; [|exact Hk1]. split.
    + split; [rewrite Es; by apply good_self_commit|]. rewrite Es.
      change (checkpoint_key (set_checkpoint self1 fl.(prepared).(next_checkpoint))) with (checkpoint_key self1).
      rewrite Hk1. split; [left; exact Hs|exact Hm].
    + right. rewrite Es. exact Hheight.
  - intros []. apply triple_ret. intros n [Hn Hok]. split; [exact Hn|]. intros _. by apply Hok.
  - intros r r' n [Hn _] E. split; [done|]. destruct r; cbn in E; by simplify_eq.
Qed.

(** The window bounds the loop: more fuel changes nothing. *)
Lemma prepare_ahead_fuel fuel k tip did (n : Node) :
  n.2.(config).(proof_prepare_window) - size n.2.(inflight) < fuel ->
  prepare_ahead (fuel + k) tip did n = prepare_ahead fuel tip did n.
Proof.
  revert did n. induction fuel as [|fuel IH]; intros did n Hf; [lia|].
  cbn [Nat.add prepare_ahead]. apply prog_bind_ext. intros self [= <-].
  change (final get_self n) with n. case_match eqn:Hg; [|done]. bool_hyps.
  apply prog_bind_ext. intros h Hh. rewrite final_lift in *.
  apply prog_bind_ext. intros p Hp. apply prog_bind_ext. intros t Ht.
  rewrite !final_call. cbn [fst snd]. apply prog_bind_ext. intros [] _.
  apply prog_bind_ext. intros self [= <-]. apply prog_bind_ext. intros [] _.
  apply prog_bind_ext. intros [] Hb. rewrite result_lift in Hb. apply bail_when_Ok in Hb.
  rewrite final_lift. apply IH. cbn in Hb |- *. apply bool_decide_eq_false in Hb.
  rewrite <- eq_None_not_Some in Hb. rewrite map_size_insert_None by done. lia.
Qed.

Lemma with_watchdog_points cut (body : prog Node bool) n x :
  x ∈ crash_points (with_watchdog cut body) n -> x ∈ crash_points body n.
Proof.
  unfold crash_points, with_watchdog. destruct (body n) as [[t n'] r].
  destruct cut as [k|]; [|done]. destruct (t !! k) eqn:E; [|done]. cbn [fst].
  rewrite !elem_of_cons. intros [->|Hx]; [by left|right]. apply elem_of_take in Hx as (i & Hi & _).
  by apply list_elem_of_lookup_2 in Hi.
Qed.

(** ** A whole run, and the next start-up *)
Definition run_safe (init : option PipelineCheckpoint) (key : string) (h0 : N) (n : Node) : Prop :=
  exists c, (h0 <= c.(height) <= u32_max)%N /\ crash_safe init key c (view n.1).

Lemma loop_inv_height init n : loop_inv init n -> (n.2.(checkpoint).(height) <= u32_max)%N.
Proof. intros [[? ? Hord ? ? ?] _]. lia. Qed.

Lemma triple_run_pipeline init key `{!PlainKey key} h0 events :
  triple (fun n => loop_inv init n /\ n.2.(checkpoint_key) = key /\ (h0 <= n.2.(checkpoint).(height))%N)
    (run_safe init key h0) (run_pipeline events) (fun _ n => run_safe init key h0 n).
Proof.
  assert (forall n, loop_inv init n /\ n.2.(checkpoint_key) = key /\ (h0 <= n.2.(checkpoint).(height))%N ->
    run_safe init key h0 n) as Hpre.
  { intros n (Hi & Hk & Hh). exists n.2.(checkpoint). split.
    - split; [done|by eapply loop_inv_height].
    - left. destruct Hi as [_ Hb]. by rewrite Hk in Hb. }
  induction events as [|[cut|k|] events IH]; cbn [run_pipeline].
  - apply triple_ret. exact Hpre.
  - apply triple_at. intros n0 Hn0. pose proof Hn0 as (Hi & Hk & Hh).
    pose proof (triple_poll init n0.2.(checkpoint) key) as Ht.
    assert (forall x, crash_safe init key n0.2.(checkpoint) (view x.1) -> run_safe init key h0 x) as Hrs.
    { intros x Hx. exists n0.2.(checkpoint). split; [|exact Hx]. split; [done|by eapply loop_inv_height]. }
    eapply triple_bind with (R := fun r n => run_safe init key h0 n /\ (is_ok r = true ->
      loop_inv init n /\ n.2.(checkpoint_key) = key /\ (h0 <= n.2.(checkpoint).(height))%N)).
    + intros n ->. destruct (Ht n0 (conj Hi (conj eq_refl Hk))) as [Hpts [Hfin Hok]].
      unfold poll_once, with_watchdog, result, final in *.
      destruct (poll_body n0) as [[t n'] r]. cbn in Hpts, Hfin, Hok.
      assert (Forall (run_safe init key h0) t) as Hpts' by (eapply Forall_impl; [exact Hpts|]; eauto).
      assert (run_safe init key h0 n' /\ (is_ok r = true ->
        loop_inv init n' /\ n'.2.(checkpoint_key) = key /\ (h0 <= n'.2.(checkpoint).(height))%N)) as Hend.
      { split; [by apply Hrs|]. intros E. destruct (Hok E) as [[Hi' Hc'] Hk']. split; [done|].
        split; [done|]. destruct Hc' as [->|Hc']; [done|lia]. }
      destruct cut as [k|]; [|by split]. destruct (t !! k) as [m|] eqn:Em; [|by split].
      split; [by apply Forall_take|]. cbn. split; [|done].
      rewrite Forall_lookup in Hpts'. by eapply Hpts'.
    + intros b. eapply triple_pre; [apply IH|]. intros n [_ Hn]. by apply Hn.
    + intros r r' n [Hn _] _. exact Hn.
  - intros n Hn. pose proof Hn as (Hi & Hk & Hh).
    destruct (triple_poll init n.2.(checkpoint) key n (conj Hi (conj eq_refl Hk))) as [Hpts [Hfin _]].
    assert (forall x, crash_safe init key n.2.(checkpoint) (view x.1) -> run_safe init key h0 x) as Hrs.
    { intros x Hx. exists n.2.(checkpoint). split; [|exact Hx]. split; [done|by eapply loop_inv_height]. }
    assert (Forall (run_safe init key h0) (poll_body n).1.1) as Hpts' by (eapply Forall_impl; [exact Hpts|]; eauto).
    unfold dropped_at, result, final. destruct ((poll_body n).1.1 !! k) as [m|] eqn:Em.
    + split; [by apply Forall_take|]. cbn. rewrite Forall_lookup in Hpts'. by eapply Hpts'.
    + split; [exact Hpts'|]. by apply Hrs.
  - apply triple_ret. exact Hpre.
Qed.

(** Recovery from a crash-safe state. *)
Lemma reconcile_crash_safe init key `{!PlainKey key} c c0 w :
  crash_safe init key c (view w) -> loads init key (view w) c0 ->
  let p := reconcile_checkpoint_journal key c0 (view w).(v_header) NetworkRetryPolicyOps.default in
  Forall (fun x => crash_safe init key c (view x)) (p w).1.1 /\
  crash_safe init key c (view (final p w)) /\
  (forall c1, result p w = Ok c1 ->
     before init key c1 (view (final p w)) /\
     (c1 = c \/ c1.(height) = saturating_add u32_max c.(height) 1)).
Proof.
  intros [Hb|(next & fb & Hv & Hrec)] Hl p.
  - destruct Hb as [Hheld Hm]. pose proof (held_loads _ _ _ _ _ Hheld Hl) as <-.
    set (fb := mkBlockBufferCommitment EmptyString EmptyString [] [] 0 0 0 0 0).
    pose proof (triple_reconcile_stale init key c c fb c (v_header (view w)) NetworkRetryPolicyOps.default Hm) as Ht.
    destruct (Ht w) as (Hpts & Hfin & _ & Hok). { split; [done|by left]. }
    assert (forall s, recoverable init key c c fb s -> before init key c s) as Hcc.
    { intros s [Hs Hms|j Hs Hms _ _|u Hs Hms _]; split; try done. by left. }
    split; [eapply Forall_impl; [exact Hpts|]; intros x Hx; left; by apply Hcc|].
    split; [left; by apply Hcc|]. intros c1 E. destruct (Hok c1 E) as (Hm1 & [[-> Hh]|(-> & Hs & _)]).
    + split; [by split|by left].
    + split; [split; [by left|done]|by left].
  - destruct Hv as [Hv Hh].
    destruct (reconcile_good init key c next c0 fb w Hrec Hv Hh Hl) as (Hpts & Hfin & _ & Hok).
    assert (forall s, recoverable init key c next fb s -> crash_safe init key c s) as HRC.
    { intros s Hs. right. exists next, fb. by split. }
    split.
    + apply Forall_forall. intros x Hx. apply HRC, Hpts. unfold crash_points. by apply list_elem_of_further.
    + split; [by apply HRC|]. intros c1 E. destruct (Hok c1 E) as (Hm1 & [[-> Hheld]|(-> & Hs & _)]).
      * split; [by split|by left].
      * split; [split; [by left|done]|by right].
Qed.

Lemma within_quiet {A} d site (p : prog W A) : quiet view p -> quiet view (within d site p).
Proof. intros Hp. unfold within. apply quiet_bind; [by apply timeout_quiet|]. intros r. solve_quiet. Qed.

Lemma initialize_checkpoint_quiet cfg : quiet view (initialize_checkpoint cfg).
Proof. unfold initialize_checkpoint. solve_quiet. Qed.

Lemma load_checkpoint_quiet cfg : quiet view (load_checkpoint cfg).
Proof.
  unfold load_checkpoint. apply quiet_bind; [apply within_quiet, get_quiet|].
  intros [v|]; [apply quiet_lift|apply initialize_checkpoint_quiet].
Qed.

(** What [initialize_checkpoint] builds, when there is nothing stored. *)
Definition fresh_is (init : option PipelineCheckpoint) (cfg : BlockPipelineConfig) (s : View) : Prop :=
  s.(v_db) !! checkpoint_key_of cfg = None ->
  forall w c, result (initialize_checkpoint cfg) w = Ok c -> init = Some c.

#[export] Instance plain_checkpoint_key config : PlainKey (checkpoint_key_of config).
Proof.
  unfold checkpoint_key_of, CHECKPOINT_PREFIX. assert (PlainKey (as_str (network config))) by (by destruct (network config)).
  apply _.
Qed.

Lemma load_checkpoint_loads init cfg s w c0 :
  agrees s (view w) -> fresh_is init cfg s -> result (load_checkpoint cfg) w = Ok c0 ->
  loads init (checkpoint_key_of cfg) s c0.
Proof.
  intros (Hdb & _ & _) Hf E. unfold load_checkpoint, within in E.
  apply result_bind_Ok in E as (v & Ev & E). apply result_bind_Ok in Ev as (r & Er & Ev).
  rewrite result_lift in Ev. apply ok_or_Ok in Ev. subst r.
  destruct (timeout_result _ _ _ _ Er) as [Er' _]. apply get_reads in Er'; [|apply _]. rewrite Hdb in Er'.
  unfold loads. rewrite <- Er'. destruct v as [text|].
  - rewrite result_lift in E. unfold json_parse in E. by apply ok_or_Ok in E.
  - by eapply Hf.
Qed.

Lemma bridge_state_header s (w : W) c :
  agrees s (view w) ->
  result (question bridge_error (retry_bridge_network retry_fuel NetworkRetryPolicyOps.default
    get_current_bridge_state)) w = Ok c ->
  c.(bridge_header) = s.(v_header).
Proof.
  intros Hs. assert (triple (fun w => agrees s (view w)) (fun w => agrees s (view w))
    (question bridge_error (retry_bridge_network retry_fuel NetworkRetryPolicyOps.default
      get_current_bridge_state))
    (fun r w => agrees s (view w) /\ forall c, r = Ok c -> c.(bridge_header) = s.(v_header))) as Ht.
  { apply (triple_question _ _ _ _ (fun (c : BridgeChainState) _ => c.(bridge_header) = s.(v_header))).
    apply (triple_retry_bridge _ _ (fun (c : BridgeChainState) _ => c.(bridge_header) = s.(v_header))).
    - intros d x Hx. by rewrite sleep_view.
    - intros x Hx. destruct (state_quiet s x Hx) as [Hpts Hfin]. split; [exact Hpts|]. split; [exact Hfin|].
      intros v E. rewrite (state_reads _ _ E). by destruct Hx as (_ & -> & _). }
  intros E. destruct (triple_use _ _ _ _ w Ht Hs) as [_ Hc]. by apply Hc.
Qed.

(** Start-up, from what a crash may have left. *)
Lemma triple_initialize init cfg c s :
  let key := checkpoint_key_of cfg in
  crash_safe init key c s -> fresh_is init cfg s -> (c.(height) <= u32_max)%N ->
  triple (fun w => agrees s (view w)) (fun w => crash_safe init key c (view w)) (initialize cfg)
    (fun r w => crash_safe init key c (view w) /\ forall self, r = Ok self ->
       loop_inv init (w, self) /\ self.(checkpoint_key) = key /\
       (self.(checkpoint) = c \/ self.(checkpoint).(height) = saturating_add u32_max c.(height) 1)).
Proof.
  intros key Hsafe Hfresh Hmax.
  pose proof (crash_safe_closed init key c) as Hclosed.
  set (A := fun w => agrees s (view w)). set (C := fun w => crash_safe init key c (view w)).
  assert (forall w, A w -> C w) as HAC by (intros w Hw; exact (Hclosed _ _ Hw Hsafe)).
  assert (forall X (m : prog W X), quiet view m -> triple A C m (fun _ => A)) as HQ.
  { intros X m Hm. eapply triple_conseq; [apply Hm|done|exact HAC|done]. }
  assert (forall X Y (Q : outcome Y -> W -> Prop) (m : prog W X) (f : X -> prog W Y),
    (forall r w, is_ok r = false -> A w -> Q r w) ->
    quiet view m -> (forall a, triple A C (f a) Q) -> triple A C (m ≫= f) Q) as HB.
  { intros X Y Q m f Hfail Hm Hf. eapply triple_bind; [by apply HQ|exact Hf|].
    intros r r' w Hw E. apply Hfail; [|done]. by destruct r; cbn in E; simplify_eq. }
  set (Q := fun (r : outcome BlockPipeline) w => C w /\ forall self, r = Ok self ->
    loop_inv init (w, self) /\ self.(checkpoint_key) = key /\
    (self.(checkpoint) = c \/ self.(checkpoint).(height) = saturating_add u32_max c.(height) 1)).
  assert (forall r w, is_ok r = false -> A w -> Q r w) as Hfail.
  { intros r w Hr Hw. split; [by apply HAC|]. by intros self ->. }
  unfold initialize.
  apply HB; [exact Hfail|apply quiet_lift|intros []].
  apply HB; [exact Hfail|apply within_quiet, redis_connect_quiet|intros []].
  apply HB; [exact Hfail|apply quiet_lift|intros operator].
  apply HB; [exact Hfail|apply quiet_lift|intros _].
  apply HB; [exact Hfail|apply bridge_connect_quiet|intros []].
  assert (quiet view (question bridge_error (retry_bridge_network retry_fuel
    NetworkRetryPolicyOps.default get_current_bridge_state))) as Hst by solve_quiet.
  eapply triple_bind with (R := fun r w => A w /\ forall x, r = Ok x -> x.(bridge_header) = s.(v_header)).
  { intros w Hw. destruct (HQ _ _ Hst w Hw) as [Hpts Hfin]. split; [exact Hpts|]. split; [exact Hfin|].
    intros x E. exact (bridge_state_header s w x Hw E). }
  2: { intros r r' w [Hw _] E. apply Hfail; [|done]. by destruct r; cbn in E; simplify_eq. }
  intros cs. apply triple_pre with (P' := fun w => A w /\ cs.(bridge_header) = s.(v_header));
    [|intros w [Hw E]; auto]. apply triple_pure. intros Hcs. rewrite Hcs.
  apply HB; [exact Hfail|apply quiet_lift|intros []].
  apply HB; [exact Hfail|apply quiet_question, mint_quiet|intros mint].
  apply HB; [exact Hfail|apply quiet_lift|intros []].
  eapply triple_bind with (R := fun r w => A w /\ forall x, r = Ok x -> loads init key s x).
  { intros w Hw. destruct (HQ _ _ (load_checkpoint_quiet cfg) w Hw) as [Hpts Hfin].
    split; [exact Hpts|]. split; [exact Hfin|]. intros x E.
    exact (load_checkpoint_loads init cfg s w x Hw Hfresh E). }
  2: { intros r r' w [Hw _] E. apply Hfail; [|done]. by destruct r; cbn in E; simplify_eq. }
  intros c0. apply triple_pre with (P' := fun w => A w /\ loads init key s c0);
    [|intros w [Hw E]; auto]. apply triple_pure. intros Hl.
  set (good1 := fun c1 w => before init key c1 (view w) /\
    (c1 = c \/ c1.(height) = saturating_add u32_max c.(height) 1)).
  eapply triple_bind with (R := fun r w => C w /\ forall c1, r = Ok c1 -> good1 c1 w).
  { intros w Hw. pose proof Hw as (Hdb & Hh & _).
    destruct (reconcile_crash_safe init key c c0 w) as (Hpts & Hfin & Hok).
    - by apply HAC.
    - unfold loads in *. by rewrite Hdb.
    - rewrite Hh in Hpts, Hfin, Hok. split; [exact Hpts|]. split; [exact Hfin|exact Hok]. }
  2: { intros r r' w [Hw _] E. split; [done|]. intros self ->. by destruct r; cbn in E; simplify_eq. }
  intros c1. apply triple_pre with (P' := fun w => C w /\ good1 c1 w); [|intros w [Hw E]; auto].
  set (G := fun v => crash_safe init key c v /\ before init key c1 v).
  assert (closed G) as HG by (apply closed_and; [exact Hclosed|apply before_closed]).
  assert (forall X (m : prog W X) Y (f : X -> prog W Y) (Q : outcome Y -> W -> Prop),
    quiet view m -> (forall a, triple (fun w => G (view w)) C (f a) Q) ->
    (forall r w, is_ok r = false -> G (view w) -> Q r w) ->
    triple (fun w => G (view w)) C (m ≫= f) Q) as HB2.
  { intros X m Y f Q' Hm Hf Hfl. eapply triple_bind; [apply (triple_quiet m G C Hm HG)|exact Hf|].
    - by intros w [Hw _].
    - intros r r' w Hw E. apply Hfl; [|done]. by destruct r; cbn in E; simplify_eq. }
  apply triple_pre with (P' := fun w => G (view w) /\
    (c1 = c \/ c1.(height) = saturating_add u32_max c.(height) 1)).
  2: { intros w [Hw [Hb Hc]]. by split. }
  apply triple_pure. intros Hc1.
  assert (forall r w, is_ok r = false -> G (view w) -> Q r w) as Hfail2.
  { intros r w Hr [Hw _]. split; [done|]. by intros self ->. }
  apply HB2; [apply quiet_lift| |exact Hfail2]. intros [].
  apply HB2; [apply proof_start_quiet| |exact Hfail2]. intros [].
  apply HB2; [apply sender_connect_quiet| |exact Hfail2]. intros [].
  apply triple_ret. intros w [Hw Hb]. split; [exact Hw|]. intros self [= <-].
  split; [|by split]. split; [|exact Hb].
  assert (height c1 <= u32_max)%N as Hm1.
  { destruct Hc1 as [->| ->]; [done|]. unfold saturating_add. lia. }
  by apply good_self_fresh.
Qed.
End loop.

(** C6: Blocks are committed one at a time and in order.  Between polls the
    heights with a proof in flight are exactly those after the committed
    checkpoint up to the planned one, at most a window of them, and a start-up
    would load the committed checkpoint, which is the one on chain.  A poll that
    returns keeps this and leaves the committed checkpoint unchanged or one
    height up; at every point of a poll, the watchdog's included, a crash
    leaves the old checkpoint untouched or a recoverable commit of a valid next
    one; and the loop that prepares ahead stops by itself, within the window. *)
Theorem poll_once_in_order
    `{!Hex, !HexLaws, !Sha, !TreeParams, !LightClient, !Custody, !ClaimHelper, !EvidenceOut}
    `{!Transitions, !EvidenceJson}
    {W R} `{!Clock W, !Files W, !Store W, !BridgeClient W, !Sender W R, !HttpResponse R}
    `{!ServiceLaws W R, !ProofService W, !Electrs W, !Startup W, !PipelineLaws W R}
    `{!Json ProofRequest, !JsonLaws ProofRequest, !Json PipelineCheckpoint, !Json CheckpointJournal}
    (init : option PipelineCheckpoint) (n : W * BlockPipeline) `{!PlainKey n.2.(checkpoint_key)}
    (cut : option nat) :
  loop_inv init n ->
  let key := n.2.(checkpoint_key) in
  let c := n.2.(checkpoint) in
  (forall x, x ∈ crash_points (poll_once cut) n -> crash_safe init key c (view x.1)) /\
  (forall did, result (poll_once cut) n = Ok did ->
     let n' := final (poll_once cut) n in
     loop_inv init n' /\ n'.2.(checkpoint_key) = key /\
     (n'.2.(checkpoint) = c \/ n'.2.(checkpoint).(height) = (c.(height) + 1)%N)) /\
  (forall m tip did k,
     prepare_ahead (S m.2.(config).(proof_prepare_window) + k) tip did m
     = prepare_ahead (S m.2.(config).(proof_prepare_window)) tip did m).
Proof.
  intros Hi key c. pose proof (triple_poll (W := W) (R := R) init c key) as Ht.
  split_and!.
  - intros x Hx. apply with_watchdog_points in Hx.
    apply (triple_crash _ _ _ _ n x Ht); [done| |exact Hx]. left. by destruct Hi.
  - intros did. destruct (Ht n) as [_ [_ Hok]]; [done|].
    unfold poll_once, with_watchdog, result, final in *. destruct (poll_body n) as [[t n'] r].
    destruct cut as [k|]; [destruct (t !! k)|]; cbn; intros E; try done; subst r;
      destruct (Hok eq_refl) as [[? ?] ?]; by split_and!.
  - intros m tip did k. apply prepare_ahead_fuel. lia.
Qed.

(** C1: Whatever stops the pipeline, the next start-up resumes it.  Run the loop
    through any sequence of polls, watchdog expiries and signals, stop it at any
    point, and start it again: if [initialize] returns, it returns a pipeline
    whose committed checkpoint is on chain, is the one the following start-up
    would load, and is at least as high as when the run began, so that the run
    can go on from there.  If nothing had been committed yet, this assumes that
    [initialize_checkpoint] builds the same first checkpoint again. *)
Theorem restart_resumes
    `{!Hex, !HexLaws, !Sha, !TreeParams, !LightClient, !Custody, !ClaimHelper, !EvidenceOut}
    `{!Transitions, !EvidenceJson, !Host}
    {W R} `{!Clock W, !Files W, !Store W, !BridgeClient W, !Sender W R, !HttpResponse R}
    `{!ServiceLaws W R, !ProofService W, !Electrs W, !Startup W, !PipelineLaws W R}
    `{!Json ProofRequest, !JsonLaws ProofRequest, !Json PipelineCheckpoint, !JsonLaws PipelineCheckpoint}
    `{!Json CheckpointJournal, !JsonLaws CheckpointJournal}
    (init : option PipelineCheckpoint) (cfg : BlockPipelineConfig) (n x : W * BlockPipeline)
    (events : list RunEvent) (self : BlockPipeline) :
  loop_inv init n -> n.2.(checkpoint_key) = checkpoint_key_of cfg ->
  x ∈ crash_points (run_pipeline events) n -> fresh_is init cfg (view x.1) ->
  result (initialize cfg) x.1 = Ok self ->
  loop_inv init (final (initialize cfg) x.1, self) /\
  self.(checkpoint_key) = checkpoint_key_of cfg /\
  (n.2.(checkpoint).(height) <= self.(checkpoint).(height))%N.
Proof.
  intros Hi Hk Hx Hf E. set (h0 := n.2.(checkpoint).(height)).
  pose proof (triple_run_pipeline (W := W) (R := R) init (checkpoint_key_of cfg) h0 events) as Ht.
  assert (run_safe init (checkpoint_key_of cfg) h0 x) as (c & Hc & Hsafe).
  { apply (triple_crash _ _ _ _ n x Ht); [done| |exact Hx].
    exists n.2.(checkpoint). split; [split; [done|by eapply loop_inv_height]|].
    left. destruct Hi as [_ Hb]. by rewrite Hk in Hb. }
  pose proof (triple_initialize (W := W) (R := R) init cfg c (view x.1) Hsafe Hf) as Hinit.
  destruct (triple_use _ _ _ _ x.1 (Hinit ltac:(lia))) as [_ Hok]; [reflexivity|].
  destruct (Hok self E) as (Hinv & Hkey & Hh). split; [exact Hinv|]. split; [exact Hkey|].
  destruct Hh as [->| ->]; [lia|]. unfold saturating_add. lia.
Qed.
