(* ===== verification/Progress.v ===== *)
(** * Progress when the services answer

    The other theorems of the pipeline say that what happens is safe, whatever
    the services do.  Here the services answer: Redis and the bridge program
    return, calls come back within their deadlines, files can be written.  Then
    a commit whose checks pass, and whose mints are unclaimed, returns with its
    block committed and its mints processed, and a start-up after a crash at any
    point returns a pipeline. *)
From S2P Require Import Prelude External Instances Merkle Effects NetworkRetry Chain.
From S2P Require Import ChainInstances Checkpoint SolHeader Claims ProofJob Files Services.
From S2P Require Import Journal Transition Evidence Commit Recover Pipeline.
Import NetworkRetryPolicyOps.

(** ** Total correctness

    From a world of [P], the computation returns a value, and [Q] holds of the
    value and the world it ends in. *)
Definition total {W A} (P : W -> Prop) (p : prog W A) (Q : A -> W -> Prop) : Prop :=
  forall w, P w -> exists a, result p w = Ok a /\ Q a (final p w).

Section total.
Context {W : Type}.
Implicit Types (P up : W -> Prop).

Lemma total_ret {A} P (a : A) (Q : A -> W -> Prop) : (forall w, P w -> Q a w) -> total P (mret a) Q.
Proof. intros HQ w Hw. exists a. split; [done|]. by apply HQ. Qed.

Lemma total_lift {A} P (m : outcome A) a (Q : A -> W -> Prop) :
  m = Ok a -> (forall w, P w -> Q a w) -> total P (lift m) Q.
Proof. intros -> HQ w Hw. exists a. split; [done|]. by apply HQ. Qed.

Lemma total_query {A} P (f : W -> outcome A) (Q : A -> W -> Prop) :
  (forall w, P w -> exists a, f w = Ok a /\ Q a w) -> total P (query f) Q.
Proof. intros HQ w Hw. exact (HQ w Hw). Qed.

Lemma total_bind {A B} P (m : prog W A) (f : A -> prog W B) R (Q : B -> W -> Prop) :
  total P m R -> (forall a, total (R a) (f a) Q) -> total P (m ≫= f) Q.
Proof.
  intros Hm Hf w Hw. destruct (Hm w Hw) as (a & Ea & Ra). destruct (Hf a _ Ra) as (b & Eb & Qb).
  exists b. by rewrite result_bind, final_bind, Ea.
Qed.

Lemma total_conseq {A} P P' (p : prog W A) (Q Q' : A -> W -> Prop) :
  total P' p Q' -> (forall w, P w -> P' w) -> (forall a w, Q' a w -> Q a w) -> total P p Q.
Proof. intros Hp HP HQ w Hw. destruct (Hp w (HP w Hw)) as (a & Ea & Qa). exists a. eauto. Qed.

Lemma total_pre {A} P P' (p : prog W A) (Q : A -> W -> Prop) :
  total P' p Q -> (forall w, P w -> P' w) -> total P p Q.
Proof. intros Hp HP w Hw. by apply Hp, HP. Qed.

Lemma total_pure {A} (phi : Prop) P (p : prog W A) (Q : A -> W -> Prop) :
  (phi -> total P p Q) -> total (fun w => P w /\ phi) p Q.
Proof. intros Hp w [Hw Hphi]. by apply Hp. Qed.

(** A quiet computation also keeps what is known of the view. *)
Lemma total_quiet {A} (v : W -> View) up (p : prog W A) (Q : A -> Prop) (Phi : View -> Prop) :
  quiet v p -> closed Phi -> total up p (fun a w => up w /\ Q a) ->
  total (fun w => up w /\ Phi (v w)) p (fun a w => (up w /\ Phi (v w)) /\ Q a).
Proof.
  intros Hq HP Hp w [Hw Hv]. destruct (Hp w Hw) as (a & Ea & Hu & Qa). exists a. split; [done|].
  destruct (quiet_closed v p Phi Hq HP w Hv) as [_ Hf]. by split_and!.
Qed.

Lemma total_for_each {A} up (xs : list A) (body : A -> prog W ()) :
  (forall x, x ∈ xs -> total up (body x) (fun _ => up)) -> total up (for_each xs body) (fun _ => up).
Proof.
  induction xs as [|x xs IH]; intros Hb; [by apply total_ret|]. cbn [for_each].
  eapply total_bind; [apply Hb; set_solver|]. intros []. apply IH. intros y Hy. apply Hb. set_solver.
Qed.

Lemma total_ask {A E} P (f : E -> error) (p : prog W (A + E)) (Q : A -> W -> Prop) :
  total P p (fun r w => exists a, r = inl a /\ Q a w) -> total P (question f p) Q.
Proof. intros Hp. eapply total_bind; [exact Hp|]. intros r w (a & -> & HQ). by exists a. Qed.

(** The first attempt succeeds. *)
Lemma total_first `{!Clock W} {T E} P (op : prog W (RetryAction T E)) policy (Q : T -> W -> Prop) :
  total P op (fun r w => exists v, r = Success v /\ Q v w) ->
  total P (run op retry_fuel policy) (fun r w => exists v, r = inl v /\ Q v w).
Proof.
  intros Hop. assert (exists k, retry_fuel = S k) as [k ->] by (by eexists; vm_compute).
  unfold run. eapply total_bind with (R := fun _ => P); [by apply total_query; eauto|].
  intros start. cbn [run_loop]. eapply total_bind; [exact Hop|].
  intros r w (v & -> & HQ). exists (inl v). eauto.
Qed.

(** [retry_bridge_network(..).await?] whose first attempt succeeds. *)
Lemma total_ask_bridge `{!Clock W} {T} P (op : prog W (T + BridgeError)) policy (Q : T -> W -> Prop) :
  total P op (fun r w => exists v, r = inl v /\ Q v w) ->
  total P (question bridge_error (retry_bridge_network retry_fuel policy op)) Q.
Proof.
  intros Hop. apply total_ask, total_first. eapply total_bind; [exact Hop|].
  intros r w (v & -> & HQ). exists (Success v). eauto.
Qed.

Lemma total_call {S A} (P : W -> Prop) (p : prog W A) (Q : A -> W -> Prop) (self : S) :
  total P p Q ->
  total (fun n => P n.1 /\ n.2 = self) (call p) (fun a n => Q a n.1 /\ n.2 = self).
Proof.
  intros Hp n [Hn <-]. destruct (Hp n.1 Hn) as (a & Ea & Qa). exists a.
  rewrite result_call, final_call. by split_and!.
Qed.

Lemma total_get_self {S} (P : W -> Prop) (self : S) :
  total (fun n => P n.1 /\ n.2 = self) get_self (fun s n => (P n.1 /\ n.2 = self) /\ s = self).
Proof. intros n [Hn E]. exists n.2. by split_and!. Qed.

Lemma total_modify {S} (P : W -> Prop) (self : S) (f : S -> S) :
  total (fun n => P n.1 /\ n.2 = self) (modify_self f) (fun _ n => P n.1 /\ n.2 = f self).
Proof. intros n [Hn E]. exists (). split; [done|]. split; [exact Hn|]. cbn. by rewrite E. Qed.

(** A precondition that speaks of the object. *)
Lemma total_object {S A} (P : W -> Prop) (phi : S -> Prop) (p : prog (W * S) A) Q :
  (forall self, phi self -> total (fun n => P n.1 /\ n.2 = self) p Q) ->
  total (fun n => P n.1 /\ phi n.2) p Q.
Proof. intros Hp n [Hn Hphi]. by apply (Hp n.2). Qed.

(** What is known of every value a computation returns joins its postcondition. *)
Lemma total_result {A} (P : W -> Prop) (p : prog W A) (Q : A -> W -> Prop) (Good : A -> Prop) :
  (forall w a, P w -> result p w = Ok a -> Good a) -> total P p Q -> total P p (fun a w => Q a w /\ Good a).
Proof. intros HS Hp w Hw. destruct (Hp w Hw) as (a & Ea & Qa). exists a. split_and!; eauto. Qed.
End total.

(** ** Services that answer *)
Section services.
Context `{!Hex, !Sha, !TreeParams, !LightClient, !Custody, !ClaimHelper, !EvidenceOut}.
Context `{!Transitions, !EvidenceJson, !Host}.
Context {W R : Type} `{!Clock W, !Files W, !Store W, !BridgeClient W, !Sender W R, !HttpResponse R}.
Context `{!ProofService W, !Electrs W, !Startup W}.
Context `{!Json PipelineCheckpoint, !Json CheckpointJournal}.

(** A call that returns a value of [Q] and leaves the services up. *)
Definition answered {A} (up : W -> Prop) (p : prog W A) (Q : A -> Prop) : Prop :=
  total up p (fun a w => up w /\ Q a).

(** What a start-up calls: deadlines are met, and the operator, custody
    configuration and mint on chain are the configured ones. *)
Record starts_up (up : W -> Prop) (cfg : BlockPipelineConfig) : Prop := {
  up_get k : answered up (store_get k) (fun _ => True);
  up_set k v `{!PlainKey k} : answered up (store_set k v) (fun _ => True);
  up_del k `{!PlainKey k} : answered up (store_del k) (fun _ => True);
  up_connect : answered up redis_connect (fun _ => True);
  up_in_time {A} d (p : prog W A) (P : W -> Prop) (Q : A -> W -> Prop) :
    (forall w, P w -> up w) -> total P p Q ->
    total P (timeout d p) (fun r w => exists a, r = Some a /\ Q a w);
  up_bridge : answered up (bridge_connect cfg) (fun _ => True);
  up_state operator : read_pipeline_keypair cfg.(operator_keypair) = Ok operator ->
    answered up get_current_bridge_state
      (fun r => exists cs, r = inl cs /\ check_chain_state cfg operator cs = Ok ());
  up_mint : answered up get_doge_mint (fun r => r = inl cfg.(doge_mint));
  up_proof_start : answered up (proof_start cfg) (fun _ => True);
  up_sender_connect : answered up (sender_connect cfg) (fun _ => True);
}.

(** Anything below the directory can be written; a file just written can be
    renamed. *)
Record writable_root (up : W -> Prop) (root : Path) : Prop := {
  root_write rest b : answered up (fs_write (root ++ rest) b) (fun _ => True);
  root_replace rest rest' b :
    answered up (fs_write (root ++ rest) b ;; fs_rename (root ++ rest) (root ++ rest')) (fun _ => True);
  root_create rest : answered up (fs_create_dir_all (root ++ rest)) (fun _ => True);
}.

(** A journal whose checkpoint is already on chain can be finished: the bridge
    program completes the mints of the buffer the journal names.  How many it
    counts is left open, since the groups claimed before are skipped. *)
Definition finishes (up : W -> Prop) (key : string) (s : View) : Prop :=
  forall (j : CheckpointJournal) finalized u, stored (checkpoint_journal_key key) j s ->
    matches_chain j.(journal_checkpoint) s.(v_header) = true ->
    j.(finalized_commitment) = Some finalized -> j.(uploaded_buffers) = Some u ->
    finalized.(pending_mints) <> [] ->
    answered up (process_remaining_pending_mints_groups (to_bridge_mint <$> finalized.(pending_mints))
      u.(mint_buffer) u.(mint_buffer_bump)) (fun r => exists v, r = inl v /\ v.(fully_completed) = true).

(** It can while the header on chain stays. *)
Definition resumes `{!ServiceLaws W R} (up : W -> Prop) (cfg : BlockPipelineConfig) (s : View) : Prop :=
  finishes (fun w => up w /\ (view w).(v_header) = s.(v_header)) (checkpoint_key_of cfg) s.

(** What a commit calls, the mints apart: the recipients' accounts exist, the
    sender accepts block updates, and the evidence directory is [root], which is
    writable. *)
Record commits_up (up : W -> Prop) (cfg : BlockPipelineConfig) (root : Path) : Prop := {
  up_put k v `{!PlainKey k} : answered up (store_set k v) (fun _ => True);
  up_remove k `{!PlainKey k} : answered up (store_del k) (fun _ => True);
  up_account a : a ∈ cfg.(recipient_atas) -> answered up (get_account a) (fun r => r = inl ());
  up_txo_buffer h txos : answered up (setup_txo_buffer h txos) (fun r => exists b, r = inl b);
  up_post body auth : is_Some (hex_decode body.(body_header_hex)) ->
    answered up (post_block_update body auth) (fun r => exists response v, r = inl response /\
      is_success (response_status response) = true /\ response_status response <> ACCEPTED /\
      json_block_update response = inl v /\ v.(resp_idempotency_key) = body.(idempotency_key));
  up_elf : answered up (fs_read cfg.(block_elf_path)) (fun b => b <> []);
  up_current_dir : answered up current_dir (fun _ => True);
  up_root : answered up (absolute_path cfg.(evidence_dir)) (fun r => r = root);
  up_writable : writable_root up root;
}.

(** The mints of the bridge program.  [unpaid f]: no mint of a block from height
    [f] on has been claimed.  [unclaimed f b mints]: besides, [b] is the buffer
    with the mints of the block of height [f].  Setting up the buffer of such a
    block succeeds; processing it claims its mints and counts each of them, so
    that the blocks after it are the ones left.  A buffer whose mints, or some of
    them, are claimed is not spoken of.  The other calls of a commit claim no
    mint. *)
Record mints_up (up : W -> Prop) (unpaid : N -> W -> Prop)
    (unclaimed : N -> bytes -> list PendingMint -> W -> Prop) (cfg : BlockPipelineConfig) (root : Path) : Prop := {
  mints_setup f mints : total (fun w => up w /\ unpaid f w) (setup_pending_mints_buffer f mints)
    (fun r w => exists b bump, r = inl (b, bump) /\ up w /\ unclaimed f b mints w);
  mints_process f mints b bump : total (fun w => up w /\ unclaimed f b mints w)
    (process_remaining_pending_mints_groups mints b bump)
    (fun r w => exists v, r = inl v /\ v.(fully_completed) = true /\
       v.(res_total_mints_processed) = length mints /\ up w /\ unpaid (f + 1)%N w);
  unpaid_commits f : commits_up (fun w => up w /\ unpaid f w) cfg root;
  unclaimed_commits f b mints : commits_up (fun w => up w /\ unclaimed f b mints w) cfg root;
}.

(** Serialization does not fail. *)
Record writable : Prop := {
  checkpoint_writable (c : PipelineCheckpoint) : is_Some (to_json c);
  journal_writable (j : CheckpointJournal) : is_Some (to_json j);
  inputs_writable i : is_Some (inputs_to_vec_pretty i);
  mints_writable l : is_Some (mints_to_vec_pretty l);
  txos_writable l : is_Some (txos_to_vec_pretty l);
  manifest_writable m : is_Some (manifest_to_vec m) /\ is_Some (manifest_to_vec_pretty m);
}.

(** The configuration is accepted and its key pairs can be read. *)
Definition configured (cfg : BlockPipelineConfig) : Prop :=
  validate_config cfg = Ok () /\ is_ok (read_pipeline_keypair cfg.(operator_keypair)) = true /\
  is_ok (read_pipeline_keypair cfg.(payer_keypair)) = true.
End services.

(** ** Storing *)
Section storing.
Context {W : Type} `{!Store W}.
Variables (up : W -> Prop).

Lemma total_store_json {A} `{!Json A} k (a : A) :
  (forall v, answered up (store_set k v) (fun _ => True)) -> is_Some (to_json a) ->
  total up (store_json k a) (fun _ => up).
Proof.
  intros Hset [t Ht]. unfold store_json. eapply total_bind with (R := fun _ => up).
  - eapply total_lift; [unfold json_string; by rewrite Ht|done].
  - intros t'. eapply total_conseq; [apply Hset|done|]. by intros [] w [].
Qed.

Lemma total_unit (p : prog W ()) : answered up p (fun _ => True) -> total up p (fun _ => up).
Proof. intros Hp. eapply total_conseq; [exact Hp|done|]. by intros [] w []. Qed.
End storing.

(** ** Start-up *)
Section restart.
Context `{!Hex, !HexLaws, !Sha, !TreeParams, !LightClient, !Custody, !ClaimHelper, !EvidenceOut}.
Context `{!Transitions, !EvidenceJson, !Host}.
Context {W R : Type} `{!Clock W, !Files W, !Store W, !BridgeClient W, !Sender W R, !HttpResponse R}.
Context `{!ServiceLaws W R, !ProofService W, !Electrs W, !Startup W, !PipelineLaws W R}.
Context `{!Json PipelineCheckpoint, !JsonLaws PipelineCheckpoint, !Json CheckpointJournal, !JsonLaws CheckpointJournal}.
Variables (up : W -> Prop) (cfg : BlockPipelineConfig).
Hypotheses (Hup : starts_up up cfg) (Hwrite : writable).

Lemma total_promote key `{!PlainKey key} c : total up (promote key c) (fun _ => up).
Proof.
  unfold promote. eapply total_bind.
  { apply total_store_json; [intros v; by apply (up_set _ _ Hup)|apply checkpoint_writable, Hwrite]. }
  intros []. eapply total_bind; [apply total_unit, (up_del _ _ Hup); apply _|]. intros []. by apply total_ret.
Qed.

Lemma total_complete_mint policy finalized u :
  (finalized.(pending_mints) <> [] ->
   answered up (process_remaining_pending_mints_groups (to_bridge_mint <$> finalized.(pending_mints))
     u.(mint_buffer) u.(mint_buffer_bump)) (fun r => exists v, r = inl v /\ v.(fully_completed) = true)) ->
  total up (complete_mint policy finalized u) (fun _ => up).
Proof.
  intros Hp. unfold complete_mint. case_bool_decide; [by apply total_ret|].
  eapply total_bind with (R := fun r w => up w /\ r.(fully_completed) = true).
  - apply total_ask_bridge. eapply total_conseq; [by apply Hp|done|]. intros r w (Hw & v & -> & Hf). eauto.
  - intros r. apply total_pure. intros Hf. eapply total_lift; [|done].
    unfold mint_recovery_succeeded. by rewrite Hf.
Qed.

(** The loaded checkpoint is the one on chain. *)
Lemma total_reconcile_stale key `{!PlainKey key} c0 h policy :
  matches_chain c0 h = true -> total up (reconcile_checkpoint_journal key c0 h policy) (fun _ => up).
Proof.
  intros Hm. unfold reconcile_checkpoint_journal. rewrite Hm.
  eapply total_bind; [apply (up_get _ _ Hup)|]. intros v.
  eapply total_bind with (R := fun _ => up); [|by intros []; apply total_ret].
  eapply total_conseq with (P' := up) (Q' := fun _ => up); [|by intros w []|done].
  unfold stale_journal_action. case_bool_decide; [|by apply total_ret].
  apply total_unit, (up_del _ _ Hup). apply _.
Qed.

(** The chain is one block ahead, and the journal says how to follow it. *)
Lemma total_reconcile_advanced key c next finalized j policy s `{!PlainKey key} :
  let h := s.(v_header) in
  matches_chain c h = false -> matches_chain next h = true -> valid_next c next ->
  stored (checkpoint_journal_key key) j s -> usable_journal next finalized j s ->
  finishes up key s ->
  total (fun w => up w /\ agrees s (view w)) (reconcile_checkpoint_journal key c h policy) (fun _ => up).
Proof.
  intros h Hc Hn [Hv Hh] (text & Ht & Hs) (Ej & Ef & u & Eu & _) Hfin.
  assert (finalized.(pending_mints) <> [] -> answered up (process_remaining_pending_mints_groups
    (to_bridge_mint <$> finalized.(pending_mints)) u.(mint_buffer) u.(mint_buffer_bump))
    (fun r => exists v, r = inl v /\ v.(fully_completed) = true)) as Hmint.
  { apply (Hfin j finalized u); [by exists text|by rewrite Ej|done|done]. }
  unfold reconcile_checkpoint_journal. rewrite Hc.
  eapply total_bind with (R := fun v w => up w /\ v = Some text).
  { intros w [Hw (Hdb & _)]. destruct (up_get _ _ Hup (checkpoint_journal_key key) w Hw) as (v & Ev & Hu & _).
    exists v. split; [done|]. split; [exact Hu|].
    rewrite (get_reads (W := W) (R := R) _ _ _ Ev), Hdb. exact Hs. }
  intros v. apply total_pure. intros ->.
  eapply total_bind with (R := fun t w => up w /\ t = text); [by eapply total_lift; [done|]|].
  intros t. apply total_pure. intros ->.
  eapply total_bind with (R := fun j' w => up w /\ j' = j).
  { eapply total_lift; [unfold json_parse; by rewrite (json_round_trip _ _ Ht)|by intros]. }
  intros j'. apply total_pure. intros ->. rewrite Ej.
  eapply total_bind with (R := fun _ => up); [by eapply total_lift|]. intros [].
  unfold plan_journal_recovery. rewrite Hc, Ej, Hh, N.eqb_refl, Hn, Ef, Eu. cbn [negb].
  destruct (mint_progress j);
    (eapply total_bind with (R := fun _ => up); [by eapply total_lift|]); intros [].
  - by apply total_promote.
  - eapply total_bind; [by apply total_complete_mint|]. intros []. by apply total_promote.
Qed.

Lemma total_reconcile init key c c0 s `{!PlainKey key} :
  crash_safe init key c s -> loads init key s c0 -> finishes up key s ->
  total (fun w => up w /\ agrees s (view w))
    (reconcile_checkpoint_journal key c0 s.(v_header) NetworkRetryPolicyOps.default) (fun _ => up).
Proof.
  assert (forall c1, matches_chain c1 s.(v_header) = true ->
    total (fun w => up w /\ agrees s (view w))
      (reconcile_checkpoint_journal key c1 s.(v_header) NetworkRetryPolicyOps.default) (fun _ => up)) as Hstale.
  { intros c1 Hm. eapply total_conseq; [by apply total_reconcile_stale|by intros w []|done]. }
  intros [[Hs Hm]|(next & fb & Hv & [Hs Hm|j Hs Hm Hj Hu|u Hs Hm _])] Hl Hfin.
  - rewrite <- (held_loads _ _ _ _ _ Hs Hl). by apply Hstale.
  - rewrite <- (held_loads _ _ _ _ _ Hs Hl). by apply Hstale.
  - rewrite <- (held_loads _ _ _ _ _ Hs Hl). destruct (matches_chain c s.(v_header)) eqn:Hc;
      [by apply Hstale|]. by eapply total_reconcile_advanced.
  - rewrite <- (stored_loads _ _ _ _ _ Hs Hl). by apply Hstale.
Qed.
End restart.

Section initialize.
Context `{!Hex, !HexLaws, !Sha, !TreeParams, !LightClient, !Custody, !ClaimHelper, !EvidenceOut}.
Context `{!Transitions, !EvidenceJson, !Host}.
Context {W R : Type} `{!Clock W, !Files W, !Store W, !BridgeClient W, !Sender W R, !HttpResponse R}.
Context `{!ServiceLaws W R, !ProofService W, !Electrs W, !Startup W, !PipelineLaws W R}.
Context `{!Json PipelineCheckpoint, !JsonLaws PipelineCheckpoint, !Json CheckpointJournal, !JsonLaws CheckpointJournal}.
Variables (up : W -> Prop) (cfg : BlockPipelineConfig).
Hypotheses (Hup : starts_up up cfg) (Hwrite : writable) (Hcfg : configured cfg).

(** The calls of a start-up leave the header on chain where it is. *)
Lemma starts_up_header h : starts_up (fun w => up w /\ (view w).(v_header) = h) cfg.
Proof.
  assert (closed (fun s => s.(v_header) = h)) as Hh by (intros s s' (_ & -> & _); done).
  assert (forall A (p : prog W A) (Q : A -> Prop), quiet view p -> answered up p Q ->
    answered (fun w => up w /\ (view w).(v_header) = h) p Q) as HQ.
  { intros A p Q Hq Hp. exact (total_quiet view up p Q (fun s => s.(v_header) = h) Hq Hh Hp). }
  assert (forall A (p : prog W A) f, writes view f p -> (forall s, v_header (f s) = v_header s) ->
    answered up p (fun _ => True) -> answered (fun w => up w /\ (view w).(v_header) = h) p (fun _ => True)) as HW.
  { intros A p f Hw Hf Hp w [Hu Hv]. destruct (Hp w Hu) as (a & Ea & Hu' & _). exists a.
    split; [done|]. split; [|done]. split; [exact Hu'|].
    destruct (writes_closed view f p _ _ Hw Hh Hh) with (w := w) as [_ Hr];
      [intros s Es; cbn beta; by rewrite Hf|exact Hv|]. by rewrite Ea in Hr. }
  constructor.
  - intros k. apply HQ; [apply get_quiet|apply (up_get _ _ Hup)].
  - intros k v Hk. eapply HW; [by apply set_writes|done|by apply (up_set _ _ Hup)].
  - intros k Hk. eapply HW; [by apply del_writes|done|by apply (up_del _ _ Hup)].
  - apply HQ; [apply redis_connect_quiet|apply (up_connect _ _ Hup)].
  - intros A d p P Q HP Hp. apply (up_in_time _ _ Hup); [|exact Hp]. intros w Hw. by destruct (HP w Hw).
  - apply HQ; [apply bridge_connect_quiet|apply (up_bridge _ _ Hup)].
  - intros operator E. apply HQ; [apply state_quiet|by apply (up_state _ _ Hup)].
  - apply HQ; [apply mint_quiet|apply (up_mint _ _ Hup)].
  - apply HQ; [apply proof_start_quiet|apply (up_proof_start _ _ Hup)].
  - apply HQ; [apply sender_connect_quiet|apply (up_sender_connect _ _ Hup)].
Qed.

Lemma total_within {A} d site (p : prog W A) P (Q : A -> W -> Prop) :
  (forall w, P w -> up w) -> total P p Q -> total P (within d site p) Q.
Proof.
  intros HP Hp. unfold within. eapply total_bind; [by apply (up_in_time _ _ Hup)|].
  intros r w (a & -> & HQ). exists a. by split.
Qed.

(** Nothing is stored yet only when the first checkpoint can be built. *)
Definition first_checkpoint (init : option PipelineCheckpoint) : Prop :=
  match init with
  | None => True
  | Some c => total up (initialize_checkpoint cfg) (fun c' w => up w /\ c' = c)
  end.

Lemma crash_safe_loadable init key c s :
  crash_safe init key c s ->
  (s.(v_db) !! key = None /\ init = Some c) \/
  exists (c1 : PipelineCheckpoint) text, s.(v_db) !! key = Some text /\ from_json text = Some c1.
Proof.
  intros Hs. assert (held init key c s \/ exists c1 : PipelineCheckpoint, stored key c1 s) as [[(t & Ht & E)|]|(c1 & t & Ht & E)].
  { destruct Hs as [[Hh _]|(next & fb & _ & [Hh _|j Hh _ _ _|u Hh _ _])];
      [by left|by left|by left|right; by exists next]. }
  - right. exists c, t. split; [done|]. by apply json_round_trip.
  - by left.
  - right. exists c1, t. split; [done|]. by apply json_round_trip.
Qed.

Lemma total_load_checkpoint init c s :
  crash_safe init (checkpoint_key_of cfg) c s -> first_checkpoint init ->
  total (fun w => up w /\ agrees s (view w)) (load_checkpoint cfg)
    (fun c0 w => (up w /\ agrees s (view w)) /\ loads init (checkpoint_key_of cfg) s c0).
Proof.
  intros Hs Hfirst. unfold load_checkpoint.
  assert (closed (agrees s)) as Ha by (intros s1 s2 Hss Hs1; by etrans).
  eapply total_bind with (R := fun v w => (up w /\ agrees s (view w)) /\ v = s.(v_db) !! checkpoint_key_of cfg).
  { apply total_within; [by intros w []|]. intros w [Hw Hv].
    destruct (total_quiet view up _ _ (agrees s) (get_quiet (checkpoint_key_of cfg)) Ha
      (up_get _ _ Hup (checkpoint_key_of cfg)) w) as (v & Ev & Hf & _); [by split|].
    exists v. split; [done|]. split; [exact Hf|]. rewrite (get_reads (W := W) (R := R) _ _ _ Ev).
    by destruct Hv as (-> & _). }
  intros v. apply total_pure. intros ->. unfold loads.
  destruct (crash_safe_loadable _ _ _ _ Hs) as [[-> ->]|(c1 & text & -> & Hp)].
  - eapply total_conseq; [apply (total_quiet view up _ (fun c' => c' = c) (agrees s))|done|].
    + apply initialize_checkpoint_quiet.
    + exact Ha.
    + exact Hfirst.
    + by intros c0 w [Hw ->].
  - eapply total_lift; [unfold json_parse; by rewrite Hp|]. intros w Hw. by split.
Qed.

(** The bridge state read is the configured one, with the header on chain. *)
Lemma total_chain_state s operator :
  read_pipeline_keypair cfg.(operator_keypair) = Ok operator ->
  total (fun w => up w /\ agrees s (view w))
    (question bridge_error (retry_bridge_network retry_fuel NetworkRetryPolicyOps.default get_current_bridge_state))
    (fun cs w => (up w /\ agrees s (view w)) /\
       (check_chain_state cfg operator cs = Ok () /\ cs.(bridge_header) = s.(v_header))).
Proof.
  intros Hop. set (p := question _ _).
  assert (quiet view p) as Hq by (subst p; solve_quiet).
  assert (total up p (fun cs w => up w /\ check_chain_state cfg operator cs = Ok ())) as Hp.
  { apply total_ask_bridge. eapply total_conseq; [apply (up_state _ _ Hup operator Hop)|done|].
    intros r w (Hw & cs & -> & Hc). by exists cs. }
  intros w [Hw Hv]. destruct (Hp w Hw) as (cs & Ecs & Hu & Hc). exists cs. split; [done|].
  split; [split; [exact Hu|]|split; [exact Hc|by eapply bridge_state_header]].
  destruct (Hq s w Hv) as [_ Hf]. exact Hf.
Qed.

(** Start-up returns from whatever a crash left. *)
Lemma total_initialize init c s :
  crash_safe init (checkpoint_key_of cfg) c s -> first_checkpoint init -> resumes up cfg s ->
  total (fun w => up w /\ agrees s (view w)) (initialize cfg) (fun _ => up).
Proof.
  intros Hs Hfirst Hfin. assert (closed (agrees s)) as Ha by (intros s1 s2 Hss Hs1; by etrans).
  set (P := fun w => up w /\ agrees s (view w)).
  assert (forall A (p : prog W A) (Q : A -> Prop), quiet view p -> answered up p Q ->
    total P p (fun a w => P w /\ Q a)) as HQ.
  { intros A p Q Hq Hp. exact (total_quiet view up p Q (agrees s) Hq Ha Hp). }
  assert (forall A (m : prog W A) (Q : A -> Prop) B (f : A -> prog W B) (Q' : B -> W -> Prop),
    quiet view m -> answered up m Q -> (forall a, Q a -> total P (f a) Q') -> total P (m ≫= f) Q') as HB.
  { intros A m Q B f Q' Hq Hm Hf. eapply total_bind; [by apply HQ|]. intros a. apply total_pure, Hf. }
  assert (forall A (m : outcome A) a B (f : A -> prog W B) (Q' : B -> W -> Prop) P',
    m = Ok a -> total P' (f a) Q' -> total P' (lift m ≫= f) Q') as HL.
  { intros A m a B f Q' P' E Hf. eapply total_bind with (R := fun a' w => P' w /\ a' = a);
      [by eapply total_lift|]. intros a'. apply total_pure. by intros ->. }
  destruct Hcfg as (Hv & Hop & Hpay). apply is_ok_true in Hop as [operator Hop], Hpay as [payer Hpay].
  unfold initialize. eapply HL; [exact Hv|].
  eapply total_bind with (R := fun _ => P).
  { apply total_within; [by intros w []|].
    eapply total_conseq; [apply (HQ _ _ _ redis_connect_quiet (up_connect _ _ Hup))|done|by intros a w []]. }
  intros []. eapply HL; [exact Hop|]. eapply HL; [exact Hpay|].
  eapply HB; [apply bridge_connect_quiet|apply (up_bridge _ _ Hup)|intros [] _].
  eapply total_bind; [apply (total_chain_state s operator); exact Hop|].
  intros cs. apply total_pure. intros [Hcs Hh]. rewrite Hh. eapply HL; [exact Hcs|].
  apply (HB _ _ (fun m => m = cfg.(doge_mint))); [apply quiet_question, mint_quiet| |intros mint ->].
  { apply total_ask. eapply total_conseq; [apply (up_mint _ _ Hup)|done|]. intros a w [Hw ->]. eauto. }
  eapply HL; [by rewrite bool_decide_false by tauto|].
  eapply total_bind; [by apply (total_load_checkpoint init c)|].
  intros c0. apply total_pure. intros Hl.
  set (U := fun w => up w /\ (view w).(v_header) = s.(v_header)).
  eapply total_bind with (R := fun c1 w => U w /\ matches_chain c1 s.(v_header) = true).
  { intros w [Hw Hv'].
    destruct (total_reconcile U cfg (starts_up_header _) Hwrite init (checkpoint_key_of cfg) c c0 s Hs Hl Hfin w)
      as (c1 & Ec1 & HU); [by destruct Hv' as (? & Eh & ?)|].
    exists c1. split; [exact Ec1|]. split; [exact HU|].
    destruct (reconcile_crash_safe init (checkpoint_key_of cfg) c c0 w) as (_ & _ & Hok).
    - exact (crash_safe_closed _ _ _ _ _ Hv' Hs).
    - unfold loads in *. by destruct Hv' as (-> & _).
    - destruct Hv' as (_ & Eh & _). rewrite Eh in Hok. destruct (Hok c1 Ec1) as ((_ & Hm) & _).
      destruct HU as [_ HU]. by rewrite HU in Hm. }
  intros c1. apply total_pure. intros Hm.
  assert (assert_checkpoint_matches_chain c1 s.(v_header) = Ok ()) as Hok
    by (unfold matches_chain in Hm; by apply is_ok_true in Hm as [[] ?]).
  eapply HL; [exact Hok|].
  eapply total_bind with (R := fun _ => up).
  { eapply total_conseq; [apply (up_proof_start _ _ Hup)|by intros w []|by intros a w []]. }
  intros []. eapply total_bind with (R := fun _ => up).
  { eapply total_conseq; [apply (up_sender_connect _ _ Hup)|done|by intros a w []]. }
  intros []. by apply total_ret.
Qed.
End initialize.

(** ** A commit *)
Section commit_progress.
Context `{!Hex, !HexLaws, !Sha, !TreeParams, !LightClient, !Custody, !ClaimHelper, !EvidenceOut, !Host}.
Context {W R : Type} `{!Clock W, !Files W, !FilesLaws W, !Store W, !BridgeClient W, !Sender W R, !HttpResponse R}.
Context `{!ProofService W, !Electrs W, !Startup W}.
Context `{!Json PipelineCheckpoint, !Json CheckpointJournal}.
Abbreviation Node := (W * BlockPipeline)%type.
(** *** The calls that claim no mint *)
Section calls.
Variables (up : W -> Prop) (cfg : BlockPipelineConfig) (root : Path).
Hypotheses (Hcommit : commits_up up cfg root) (Hwrite : writable).

Lemma total_journal key j `{!PlainKey key} : total up (store_json (checkpoint_journal_key key) j) (fun _ => up).
Proof.
  apply total_store_json; [intros v; apply (up_put _ _ _ Hcommit), _|apply journal_writable, Hwrite].
Qed.

(** The recipients of the mints are configured. *)
Lemma total_accounts self mints :
  self.(config) = cfg -> (forall mint, mint ∈ mints -> mint.1 ∈ cfg.(recipient_atas)) ->
  total up (ensure_recipient_token_accounts self mints) (fun _ => up).
Proof.
  intros Ec Hm. unfold ensure_recipient_token_accounts. rewrite Ec. apply total_for_each. intros mint Hin.
  pose proof (Hm mint Hin) as Hr. eapply total_bind with (R := fun _ => up).
  { eapply total_lift; [by rewrite bool_decide_false by tauto|done]. }
  intros []. apply total_ask, total_first.
  eapply total_bind; [by apply (up_account _ _ _ Hcommit)|]. intros r. apply total_pure. intros ->.
  apply total_ret. eauto.
Qed.

(** A manifest whose files are below a writable directory. *)
Definition located (m : BlockProofEvidence) : Prop :=
  m.(latest_path) = path_display (root ++ ["latest.json"]) /\
  exists rest, m.(manifest_path) = path_display (root ++ rest).

Lemma total_write_atomic name b :
  root ++ [name] <> [ROOT_DIR] -> total up (write_atomic (root ++ [name]) b) (fun _ => up).
Proof.
  intros Hne. pose proof (up_writable _ _ _ Hcommit) as Hr. unfold write_atomic. eapply total_bind with (R := fun _ => up).
  { assert (parent (root ++ [name]) = Some (root ++ [])) as ->.
    { unfold parent. destruct (root ++ [name]) eqn:E; [by destruct root|]. rewrite <- E in *.
      by rewrite bool_decide_false, removelast_last, app_nil_r. }
    eapply total_conseq; [apply (root_create _ _ Hr)|done|by intros a w []]. }
  intros []. rewrite with_extension_app.
  eapply total_conseq; [apply (root_replace _ _ Hr)|done|by intros a w []].
Qed.

Lemma total_manifest m :
  located m -> total up (write_evidence_manifest m) (fun m' w => up w /\ located m').
Proof.
  intros (El & rest & Em). pose proof (up_writable _ _ _ Hcommit) as Hr. unfold write_evidence_manifest.
  set (m0 := set_manifest_sha256 m EmptyString).
  destruct (manifest_writable Hwrite m0) as [[payload Hp] _].
  eapply total_bind with (R := fun x w => up w /\ x = payload).
  { eapply total_lift; [by rewrite Hp|done]. }
  intros x. apply total_pure. intros ->. set (m1 := set_manifest_sha256 m0 (sha256_hex payload)).
  destruct (manifest_writable Hwrite m1) as [_ [b Hb]].
  eapply total_bind with (R := fun x w => up w /\ x = b).
  { eapply total_lift; [by rewrite Hb|done]. }
  intros x. apply total_pure. intros ->.
  change (manifest_path m1) with (manifest_path m). change (latest_path m1) with (latest_path m).
  rewrite El, Em, !path_round_trip.
  eapply total_bind with (R := fun _ => up).
  { eapply total_conseq; [apply (root_write _ _ Hr)|done|by intros a w []]. }
  intros []. eapply total_bind with (R := fun _ => up).
  { apply total_write_atomic. by destruct root as [|? []]. }
  intros []. apply total_ret. intros w Hw. split; [exact Hw|]. split; [exact El|by exists rest].
Qed.

Lemma total_artifacts dir l m : total up (write_artifacts (root ++ dir) l m) (fun _ => up).
Proof.
  pose proof (up_writable _ _ _ Hcommit) as Hr. revert m. induction l as [|[f b] l IH]; intros m; cbn [write_artifacts]; [by apply total_ret|].
  eapply total_bind with (R := fun _ => up); [|intros []; apply IH]. rewrite <- app_assoc.
  eapply total_conseq; [apply (root_write _ _ Hr)|done|by intros a w []].
Qed.

Lemma total_absolute p : total up (absolute_path p) (fun _ => up).
Proof.
  unfold absolute_path. case_match; [by apply total_ret|].
  eapply total_bind with (R := fun _ => up); [|intros d; by apply total_ret].
  eapply total_conseq; [apply (up_current_dir _ _ _ Hcommit)|done|by intros a w []].
Qed.

Lemma total_persist h sh key a b c d e f output ev finalized u sig mp :
  total up (persist_evidence cfg h sh key a b c d e f output ev finalized u sig mp)
    (fun m w => up w /\ located m).
Proof.
  assert (forall A B (Q : B -> W -> Prop) (m : prog W A) (k : A -> prog W B), total up m (fun _ => up) ->
    (forall x, total up (k x) Q) -> total up (m ≫= k) Q) as HB.
  { intros A B Q m k Hm Hk. eapply total_bind; [exact Hm|exact Hk]. }
  assert (forall A (o : option A) er, is_Some o -> total up (lift (ok_or o er)) (fun _ => up)) as HO.
  { intros A o er [x ->]. by eapply total_lift. }
  unfold persist_evidence. eapply total_bind; [apply (up_elf _ _ _ Hcommit)|].
  intros elf. apply total_pure. intros Helf.
  apply HB; [eapply total_lift; [by rewrite bool_decide_false|done]|intros []].
  apply HB; [apply total_absolute|intros gen_proof]. apply HB; [apply total_absolute|intros elf_path].
  apply HB; [apply HO, inputs_writable, Hwrite|intros i].
  apply HB; [apply HO, mints_writable, Hwrite|intros mints].
  apply HB; [apply HO, txos_writable, Hwrite|intros txos].
  eapply total_bind; [apply (up_root _ _ _ Hcommit)|intros r]. apply total_pure. intros ->.
  pose proof (up_writable _ _ _ Hcommit) as Hr.
  apply HB; [eapply total_conseq; [apply (root_create _ _ Hr)|done|by intros [] w []]|intros []].
  apply HB; [by apply total_artifacts|intros artifacts]. apply total_manifest.
  split; [reflexivity|]. eexists. cbn [manifest_path]. by rewrite <- app_assoc.
Qed.

Lemma total_submit self p output u :
  total up (submit_block_update self p output u) (fun _ => up).
Proof.
  unfold submit_block_update. set (body := block_update_body p output u).
  eapply total_bind with (R := fun response w => up w /\
    response.(resp_idempotency_key) = p.(prep_idempotency_key)).
  { unfold block_update. apply total_ask, total_first.
    eapply total_bind; [apply (up_post _ _ _ Hcommit body)|].
    { exists p.(new_header). apply hex_decode_encode. }
    intros r. apply total_pure. intros (response & v & -> & Hs & Ha & Hj & Hk). apply total_ret.
    intros w Hw. exists v. split; [|by split].
    unfold block_update_attempt. apply N.eqb_neq in Ha. by rewrite Ha, Hs, Hj. }
  intros response. apply total_pure. intros Hk.
  eapply total_bind with (R := fun _ => up); [|intros []; by apply total_ret].
  eapply total_lift; [|done]. by rewrite Hk, String.eqb_refl.
Qed.

Lemma total_finish key c ev sig mp `{!PlainKey key} :
  located ev -> total up (finish_commit key c ev sig mp) (fun _ => up).
Proof.
  intros Hev. unfold finish_commit. eapply total_bind.
  { apply total_store_json; [intros v; by apply (up_put _ _ _ Hcommit)|apply checkpoint_writable, Hwrite]. }
  intros []. eapply total_bind; [apply total_unit, (up_remove _ _ _ Hcommit); apply _|intros []].
  eapply total_bind; [by apply total_manifest|intros m].
  destruct (manifest_writable Hwrite m) as [[b Hb] _].
  eapply total_bind with (R := fun _ => up); [|intros x; by apply total_ret].
  eapply total_lift; [by rewrite Hb|by intros w []].
Qed.
End calls.

(** *** The mints *)
Section mints.
Variables (up : W -> Prop) (unpaid : N -> W -> Prop) (unclaimed : N -> bytes -> list PendingMint -> W -> Prop).
Variables (cfg : BlockPipelineConfig) (root : Path).
Hypotheses (Hmints : mints_up up unpaid unclaimed cfg root) (Hwrite : writable).

(** The recorded payload of a finalized block hashes to its commitment, and its
    recipients are configured. *)
Definition payable (finalized : BlockBufferCommitment) : Prop :=
  let mints := to_bridge_mint <$> finalized.(pending_mints) in
  validate_buffer_payload finalized mints = Ok () /\
  (forall mint, mint ∈ mints -> mint.1 ∈ cfg.(recipient_atas)).

Lemma total_upload self f finalized :
  self.(config) = cfg -> payable finalized ->
  total (fun w => up w /\ unpaid f w) (upload_finalized_buffers self f finalized)
    (fun u w => up w /\ unclaimed f u.(mint_buffer) (to_bridge_mint <$> finalized.(pending_mints)) w).
Proof.
  intros Ec (Hv & Hm). unfold upload_finalized_buffers. set (mints := to_bridge_mint <$> _) in *.
  eapply total_bind with (R := fun _ w => up w /\ unpaid f w); [by eapply total_lift|]. intros [].
  eapply total_bind; [by apply (total_accounts _ _ _ (unpaid_commits _ _ _ _ _ Hmints f))|intros []].
  eapply total_bind with (R := fun '(b, _) w => up w /\ unclaimed f b mints w).
  { apply total_ask_bridge. eapply total_conseq; [apply (mints_setup _ _ _ _ _ Hmints)|done|].
    intros r w (b & bump & -> & Hw). by exists (b, bump). }
  intros [b bump]. eapply total_bind with (R := fun _ w => up w /\ unclaimed f b mints w).
  { apply total_ask_bridge.
    eapply total_conseq; [apply (up_txo_buffer _ _ _ (unclaimed_commits _ _ _ _ _ Hmints f b mints))|done|].
    intros r w (Hw & t & ->). eauto. }
  intros [t n]. by apply total_ret.
Qed.

Lemma total_process self f finalized u :
  total (fun w => up w /\ unclaimed f u.(mint_buffer) (to_bridge_mint <$> finalized.(pending_mints)) w)
    (process_finalized_mints self finalized u) (fun _ w => up w /\ unpaid (f + 1)%N w).
Proof.
  unfold process_finalized_mints, process_mints. set (mints := to_bridge_mint <$> _).
  eapply total_bind with (R := fun v w => (up w /\ unpaid (f + 1)%N w) /\
    v.(fully_completed) = true /\ v.(res_total_mints_processed) = length mints).
  { apply total_ask_bridge. eapply total_conseq; [apply (mints_process _ _ _ _ _ Hmints f)|done|].
    intros r w (v & -> & Hf & Hl & Hu & Hp). by exists v. }
  intros v. apply total_pure. intros [Hf Hl].
  eapply total_bind with (R := fun _ w => up w /\ unpaid (f + 1)%N w); [|intros []; by apply total_ret].
  eapply total_lift; [|done]. by rewrite Hf, Hl, Nat.eqb_refl.
Qed.

Lemma total_commit_effects self p output `{!PlainKey self.(checkpoint_key)} :
  self.(config) = cfg -> payable p.(finalized_buffers) ->
  total (fun w => up w /\ unpaid p.(finalized_height) w) (commit_effects self p output)
    (fun r w => (up w /\ unpaid (p.(finalized_height) + 1)%N w) /\ located root r.1.1).
Proof.
  intros Ec Hp. unfold commit_effects. rewrite Ec. set (f := p.(finalized_height)).
  pose proof (unpaid_commits _ _ _ _ _ Hmints) as Hunpaid.
  eapply total_bind; [by apply (total_journal _ _ _ (Hunpaid f))|intros []].
  eapply total_bind; [by apply total_upload|intros u].
  pose proof (unclaimed_commits _ _ _ _ _ Hmints f u.(mint_buffer)
    (to_bridge_mint <$> p.(finalized_buffers).(pending_mints))) as Hunclaimed.
  eapply total_bind; [by apply (total_journal _ _ _ Hunclaimed)|intros []].
  eapply total_bind; [by apply (total_persist _ _ _ Hunclaimed)|intros ev]. apply total_pure. intros Hev.
  eapply total_bind; [by apply (total_submit _ _ _ Hunclaimed)|intros r].
  eapply total_bind; [by apply (total_journal _ _ _ Hunclaimed)|intros []].
  eapply total_bind; [by apply total_process|intros mp].
  eapply total_bind; [by apply (total_journal _ _ _ (Hunpaid (f + 1)%N))|intros []]. by apply total_ret.
Qed.

(** A commit whose checks pass returns, with the next checkpoint committed; the
    mints left are those of the blocks after the one it finalizes. *)
Lemma total_commit self p output `{!PlainKey self.(checkpoint_key)} :
  self.(config) = cfg -> payable p.(finalized_buffers) -> check_prepared self p output = Ok () ->
  total (fun n : Node => (up n.1 /\ unpaid p.(finalized_height) n.1) /\ n.2 = self) (commit_prepared p output)
    (fun _ n => (up n.1 /\ unpaid (p.(finalized_height) + 1)%N n.1) /\
       n.2 = set_checkpoint self p.(next_checkpoint)).
Proof.
  intros Ec Hp Hc. unfold commit_prepared. set (now w := up w /\ unpaid p.(finalized_height) w).
  set (later w := up w /\ unpaid (p.(finalized_height) + 1)%N w).
  eapply total_bind; [apply (total_get_self now)|]. intros s. apply total_pure. intros ->.
  eapply total_bind with (R := fun _ n => now n.1 /\ n.2 = self); [by eapply total_lift|intros []].
  eapply total_bind; [apply total_call; by apply total_commit_effects|]. intros [[ev response] mp].
  apply total_pre with (P' := fun n => (later n.1 /\ n.2 = self) /\ located root ev); [|by intros n [[Hn Hl] E]].
  apply total_pure. intros Hev.
  eapply total_bind; [apply (total_modify later)|]. intros [].
  apply (total_call later _ (fun _ => later)).
  by apply (total_finish _ _ _ (unpaid_commits _ _ _ _ _ Hmints (p.(finalized_height) + 1)%N)).
Qed.
End mints.
End commit_progress.
