(* ===== verification/CatchUp.v ===== *)
(** * The pipeline catches up with the chain

    When the services answer and the blocks of the finalized chain can be
    prepared and proved one after the other, every poll commits a block, so that
    the checkpoint reaches the finalized tip; and a pipeline that a crash stopped
    anywhere starts again and does the same. *)
From S2P Require Import Prelude External Instances Merkle Effects NetworkRetry Chain.
From S2P Require Import ChainInstances Checkpoint SolHeader Claims ProofJob Files Services.
From S2P Require Import Journal Transition Evidence Commit Recover Pipeline Progress.
Import NetworkRetryPolicyOps.

(** The window of an accepted configuration is not empty. *)
Lemma validate_config_window `{!Sha, !TreeParams, !LightClient, !Custody, !Host} cfg :
  validate_config cfg = Ok () -> 0 < cfg.(proof_prepare_window).
Proof.
  unfold validate_config. intros E. inv_ok. bool_hyps. lia.
Qed.

Section catch_up.
Context `{!Hex, !HexLaws, !Sha, !TreeParams, !LightClient, !Custody, !ClaimHelper, !EvidenceOut, !Host}.
Context `{!Transitions, !EvidenceJson}.
Context {W R : Type} `{!Clock W, !Files W, !FilesLaws W, !Store W, !BridgeClient W, !Sender W R, !HttpResponse R}.
Context `{!ServiceLaws W R, !ProofService W, !Electrs W, !Startup W, !PipelineLaws W R}.
Context `{!Json ProofRequest, !JsonLaws ProofRequest, !Json PipelineCheckpoint, !JsonLaws PipelineCheckpoint}.
Context `{!Json CheckpointJournal, !JsonLaws CheckpointJournal}.
Abbreviation Node := (W * BlockPipeline)%type.
Variables (up : W -> Prop) (unpaid : N -> W -> Prop) (unclaimed : N -> bytes -> list PendingMint -> W -> Prop).
Variables (cfg : BlockPipelineConfig) (root : Path).

(** A full window holds the next height. *)
Lemma next_in_flight (self : BlockPipeline) :
  good_self self -> 0 < size self.(inflight) ->
  exists fl, self.(inflight) !! (self.(checkpoint).(height) + 1)%N = Some fl /\
    checked_add u32_max self.(checkpoint).(height) 1 = Some (self.(checkpoint).(height) + 1)%N.
Proof.
  intros [_ Hr Ho _ _ _] Hs. destruct (map_choose self.(inflight)) as (h & fl & E).
  { intros E. rewrite E, map_size_empty in Hs. lia. }
  assert (is_Some (self.(inflight) !! h)) as Hh by eauto. apply Hr in Hh.
  assert (is_Some (self.(inflight) !! (self.(checkpoint).(height) + 1)%N)) as [fl' E'] by (apply Hr; lia).
  exists fl'. split; [done|]. unfold checked_add. by rewrite (proj2 (N.leb_le _ _)) by lia.
Qed.

(** ** The chain ahead *)

(** The checks of a proof that [commit_prepared] makes against the transition. *)
Definition proves (p : PreparedTransition) (output : ProverOutput) : Prop :=
  length output.(out_proof) = PROOF_SIZE /\ length output.(out_public_values) = PUBLIC_VALUES_SIZE /\
  forallb (Byte.eqb x00) output.(out_proof) = false /\
  output.(out_public_values) = expected_public_values cfg p.(old_header) p.(new_header).

(** The services answer and no mint of a block from height [f] on is claimed. *)
Definition serving (f : N) (w : W) : Prop := up w /\ unpaid f w.

(** A call that returns a value of [Q] and claims no mint. *)
Definition answers {A} (p : prog W A) (Q : A -> Prop) : Prop := forall f, answered (serving f) p Q.

(** The block the commit after checkpoint [c] finalizes. *)
Definition due (c : PipelineCheckpoint) : N := (c.(height) + 1 - cfg.(required_confirmations))%N.

(** The finalized tip the node reports is between [target] and [limit].  From
    every checkpoint of [good] below [limit] the next block can be prepared, which
    gives another checkpoint of [good] and mints the bridge can pay; the prover
    takes the job and answers its ticket with a proof of the transition. *)
Record feed (good : PipelineCheckpoint -> Prop) (target limit : N) : Prop := {
  feed_tip : answers get_block_height (fun tip =>
    (target <= saturating_sub tip cfg.(required_confirmations) <= limit)%N);
  feed_limit : (limit <= u32_max)%N;
  feed_prepare c : good c -> (c.(height) < limit)%N ->
    answers (prepare_height cfg c (c.(height) + 1)) (fun p =>
      good p.(next_checkpoint) /\ payable cfg p.(finalized_buffers) /\
      answers (proof_submit p.(proof_job)) (fun t => answers (proof_wait t) (proves p)));
}.

(** The checkpoint the transition at height [h] starts from. *)
Definition parent_of (self : BlockPipeline) (h : N) : PipelineCheckpoint :=
  match self.(inflight) !! (h - 1)%N with
  | Some fl => fl.(prepared).(next_checkpoint)
  | None => self.(checkpoint)
  end.

(** What a prepared transition records of the checkpoint it starts from and of
    the block it finalizes. *)
Definition follows (parent : PipelineCheckpoint) (p : PreparedTransition) : Prop :=
  checkpoint_fingerprint parent = Ok p.(proof_job).(parent_checkpoint_sha256) /\
  (p.(finalized_height) + cfg.(required_confirmations))%N = p.(prep_height).

Lemma prepared_follows c h (w : W) p : result (prepare_height cfg c h) w = Ok p -> follows c p.
Proof.
  intros E. apply prepare_height_Ok in E.
  destruct E as (_ & Hp & _ & _ & _ & _ & _ & Hf & _ & _ & _ & _ & _ & _ & _ & Hc).
  split; [exact Hc|]. by rewrite Hp.
Qed.

Lemma follows_due (c : PipelineCheckpoint) p :
  follows c p -> p.(prep_height) = (c.(height) + 1)%N -> p.(next_checkpoint).(height) = (c.(height) + 1)%N ->
  p.(finalized_height) = due c /\ due p.(next_checkpoint) = (p.(finalized_height) + 1)%N.
Proof. unfold due. intros [_ Hf] Hp ->. lia. Qed.

(** Every transition in flight can be committed once its predecessors are. *)
Definition ready (parent : PipelineCheckpoint) (fl : InflightProof) : Prop :=
  payable cfg fl.(prepared).(finalized_buffers) /\
  follows parent fl.(prepared) /\ answers (proof_wait fl.(ticket)) (proves fl.(prepared)).

Record fed (good : PipelineCheckpoint -> Prop) (self : BlockPipeline) : Prop := {
  fed_config : self.(config) = cfg;
  fed_planned : good self.(planned_checkpoint);
  fed_flight h fl : self.(inflight) !! h = Some fl -> ready (parent_of self h) fl;
}.

Lemma planned_parent (self : BlockPipeline) :
  good_self self -> parent_of self (self.(planned_checkpoint).(height) + 1) = self.(planned_checkpoint).
Proof.
  intros Hg. unfold parent_of. rewrite N.add_sub. destruct (inflight self !! _) as [fl|] eqn:E.
  - by apply (planned_last _ Hg).
  - symmetry. apply (planned_none _ Hg). pose proof (heights_ordered _ Hg).
    destruct (decide (self.(checkpoint).(height) < self.(planned_checkpoint).(height))%N) as [Hlt|]; [|lia].
    assert (is_Some (self.(inflight) !! self.(planned_checkpoint).(height))) as [fl Efl]
      by (apply (flights_range _ Hg); lia). congruence.
Qed.

(** Preparing the next block keeps the pipeline fed. *)
Lemma fed_insert good (self : BlockPipeline) p t h :
  good_self self -> fed good self -> h = (self.(planned_checkpoint).(height) + 1)%N ->
  good p.(next_checkpoint) -> ready self.(planned_checkpoint) (mkInflight _ _ p t) ->
  fed good (set_inflight (set_planned self p.(next_checkpoint)) (<[h := mkInflight _ _ p t]> self.(inflight))).
Proof.
  intros Hg [Hc Hp Hf] -> Hn Hr. constructor; [exact Hc|exact Hn|].
  set (h := (self.(planned_checkpoint).(height) + 1)%N).
  intros k fl E. cbn [inflight set_inflight] in E.
  assert (forall x, x <> h -> parent_of (set_inflight (set_planned self p.(next_checkpoint))
    (<[h := mkInflight _ _ p t]> self.(inflight))) (x + 1) = parent_of self (x + 1)) as Hne.
  { intros x Hx. unfold parent_of. cbn [inflight set_inflight checkpoint set_planned].
    by rewrite N.add_sub, lookup_insert_ne. }
  assert (k = h \/ (self.(checkpoint).(height) < k <= self.(planned_checkpoint).(height))%N) as Hk.
  { destruct (decide (k = h)) as [|Hkn]; [by left|right]. rewrite lookup_insert_ne in E by done.
    apply (flights_range _ Hg). by exists fl. }
  replace k with ((k - 1) + 1)%N by lia. rewrite Hne by lia.
  apply lookup_insert_Some in E as [[<- <-]|[Hkn E]].
  - unfold h. rewrite N.add_sub. by rewrite planned_parent.
  - replace (k - 1 + 1)%N with k by lia. by apply Hf.
Qed.

(** Committing the first block keeps the others fed. *)
Lemma fed_commit good (self : BlockPipeline) fl h :
  good_self self -> fed good self -> h = (self.(checkpoint).(height) + 1)%N ->
  self.(inflight) !! h = Some fl ->
  fed good (set_checkpoint (set_inflight self (delete h self.(inflight))) fl.(prepared).(next_checkpoint)).
Proof.
  intros Hg [Hc Hp Hf] Hh Hfl. constructor; [exact Hc|exact Hp|].
  intros k fl' E. cbn [inflight set_inflight set_checkpoint] in E. apply lookup_delete_Some in E as [Hk E].
  pose proof (Hf _ _ E) as Hr. assert (is_Some (self.(inflight) !! k)) as Hin by eauto.
  apply (flights_range _ Hg) in Hin.
  assert (parent_of (set_checkpoint (set_inflight self (delete h self.(inflight))) fl.(prepared).(next_checkpoint)) k
          = parent_of self k) as ->; [|exact Hr].
  unfold parent_of. cbn [inflight set_inflight checkpoint set_checkpoint].
  destruct (decide (k - 1 = h)%N) as [->|Hne].
  - by rewrite lookup_delete_eq, Hfl.
  - rewrite lookup_delete_ne by done. assert (is_Some (self.(inflight) !! (k - 1)%N)) as [x ->]; [|done].
    apply (flights_range _ Hg). lia.
Qed.

Lemma first_parent (self : BlockPipeline) :
  good_self self -> parent_of self (self.(checkpoint).(height) + 1) = self.(checkpoint).
Proof.
  intros Hg. unfold parent_of. rewrite N.add_sub.
  assert (self.(inflight) !! self.(checkpoint).(height) = None) as ->; [|done].
  apply eq_None_not_Some. intros E. apply (flights_range _ Hg) in E. lia.
Qed.

(** A transition in flight right after the committed checkpoint passes the
    checks of its commit. *)
Lemma ready_checks (self : BlockPipeline) fl output :
  good_self self -> self.(config) = cfg ->
  self.(inflight) !! (self.(checkpoint).(height) + 1)%N = Some fl ->
  ready (parent_of self (self.(checkpoint).(height) + 1)) fl -> proves fl.(prepared) output ->
  check_prepared self fl.(prepared) output = Ok ().
Proof.
  intros Hg Hc Hfl (_ & [Hp _] & _) (Hproof & Hvalues & Hzero & Hpv).
  rewrite first_parent in Hp by done.
  destruct (flights_ok _ Hg _ _ Hfl) as (Hph & Hnh & _ & _).
  assert (is_Some (self.(inflight) !! (self.(checkpoint).(height) + 1)%N)) as Hin by eauto.
  apply (flights_range _ Hg) in Hin. pose proof (heights_ordered _ Hg).
  unfold check_prepared, checked_add. rewrite (proj2 (N.leb_le _ _)) by lia.
  cbn [ok_or mbind outcome_bind]. rewrite Hph, Hnh, N.eqb_refl. cbn [negb orb bail_when mbind outcome_bind].
  rewrite Hp. cbn [mbind outcome_bind]. rewrite String.eqb_refl. cbn [negb bail_when mbind outcome_bind].
  unfold ensure_length. rewrite Hproof, Hvalues, Hzero, Hpv, Hc, !Nat.eqb_refl. cbn [negb bail_when mbind outcome_bind].
  by rewrite bool_decide_false by tauto.
Qed.

(** ** A poll *)
Hypotheses (Hmints : mints_up up unpaid unclaimed cfg root) (Hwrite : writable).
Hypotheses (Hwindow : 0 < cfg.(proof_prepare_window)).
Variables (good : PipelineCheckpoint -> Prop) (target limit : N).
Hypotheses (Hfeed : feed good target limit).

(** Preparing the next block and submitting its proof, then going on with [k]. *)
Lemma total_prepare_next {A} f (self : BlockPipeline) h (k : PreparedTransition -> ProofTicket -> prog Node A) Q :
  good_self self -> fed good self -> (self.(planned_checkpoint).(height) < limit)%N ->
  h = (self.(planned_checkpoint).(height) + 1)%N ->
  (forall p t, flight_ok h p -> good p.(next_checkpoint) ->
     ready self.(planned_checkpoint) (mkInflight _ _ p t) ->
     total (fun n : Node => serving f n.1 /\ n.2 = self) (k p t) Q) ->
  total (fun n : Node => serving f n.1 /\ n.2 = self)
    (p ← call (prepare_height self.(config) self.(planned_checkpoint) h);
     t ← call (proof_submit p.(proof_job)); k p t) Q.
Proof.
  intros Hg Hf Hlim -> Hk. rewrite (fed_config _ _ Hf). set (h := (self.(planned_checkpoint).(height) + 1)%N) in *.
  pose proof (feed_prepare _ _ _ Hfeed _ (fed_planned _ _ Hf) Hlim) as Hp.
  eapply total_bind.
  { eapply total_call, (total_result (serving f) _ _ (fun p => flight_ok h p /\ follows self.(planned_checkpoint) p)), Hp.
    intros w p _ E. split; [by eapply prepared_flight_ok|by eapply prepared_follows]. }
  intros p. apply total_pre with (P' := fun n => (serving f n.1 /\ n.2 = self) /\
    ((good p.(next_checkpoint) /\ payable cfg p.(finalized_buffers) /\
      answers (proof_submit p.(proof_job)) (fun t => answers (proof_wait t) (proves p))) /\
     flight_ok h p /\ follows self.(planned_checkpoint) p));
    [|by intros n [[[Hn Hq] Hr] E]].
  apply total_pure. intros ((Hgood & Hpay & Hsub) & Hok & Hfp).
  eapply total_bind; [apply total_call, Hsub|]. intros t.
  apply total_pre with (P' := fun n => (serving f n.1 /\ n.2 = self) /\ answers (proof_wait t) (proves p));
    [|by intros n [[Hn Hw] E]].
  apply total_pure. intros Hw. by apply Hk.
Qed.

(** What preparing ahead ends with: the committed checkpoint has not moved, and
    a height above it is in flight unless the finalized tip is committed. *)
Definition prepared_to (self : BlockPipeline) (tip : N) (self' : BlockPipeline) : Prop :=
  good_self self' /\ fed good self' /\ self'.(checkpoint) = self.(checkpoint) /\
  self'.(checkpoint_key) = self.(checkpoint_key) /\
  ((self.(checkpoint).(height) < tip)%N -> 0 < size self'.(inflight)).

Lemma total_prepare_ahead f fuel tip did (self : BlockPipeline) :
  good_self self -> fed good self -> (tip <= limit)%N ->
  cfg.(proof_prepare_window) - size self.(inflight) < fuel ->
  total (fun n : Node => serving f n.1 /\ n.2 = self) (prepare_ahead fuel tip did)
    (fun _ n => serving f n.1 /\ prepared_to self tip n.2).
Proof.
  intros Hg Hf Htip. revert did self Hg Hf. induction fuel as [|fuel IH]; intros did self Hg Hf Hfuel; [lia|].
  cbn [prepare_ahead]. eapply total_bind; [apply total_get_self|]. intros s. apply total_pure. intros ->.
  rewrite (fed_config _ _ Hf). case_match eqn:Hguard.
  2: { apply total_ret. intros n [Hn ->]. split; [exact Hn|]. split_and!; [done..|]. intros Hlt.
       apply andb_false_iff in Hguard as [Hs|Hs]; bool_hyps; [lia|].
       assert (is_Some (self.(inflight) !! (self.(checkpoint).(height) + 1)%N)) as [fl Efl]
         by (apply (flights_range _ Hg); lia).
       apply Nat.neq_0_lt_0. intros E%map_size_empty_iff. by rewrite E, lookup_empty in Efl. }
  bool_hyps. set (h := (self.(planned_checkpoint).(height) + 1)%N).
  assert (checked_add u32_max self.(planned_checkpoint).(height) 1 = Some h) as Eh.
  { unfold checked_add. pose proof (feed_limit _ _ _ Hfeed). by rewrite (proj2 (N.leb_le _ _)) by lia. }
  eapply total_bind with (R := fun x n => (serving f n.1 /\ n.2 = self) /\ x = h).
  { eapply total_lift; [by rewrite Eh|done]. }
  intros x. apply total_pure. intros ->. rewrite <- (fed_config _ _ Hf).
  apply total_prepare_next; [done|done|lia|done|]. intros p t Hok Hgood Hr.
  destruct (good_self_insert self p t h Hg) as [Hfresh Hg']; [rewrite (fed_config _ _ Hf); lia|done|done|].
  eapply total_bind; [apply total_modify|intros []]. eapply total_bind; [apply total_get_self|].
  intros s. apply total_pure. intros ->. eapply total_bind; [apply total_modify|intros []].
  eapply total_bind with (R := fun _ n => serving f n.1 /\ n.2 =
    set_inflight (set_planned self p.(next_checkpoint)) (<[h := mkInflight _ _ p t]> self.(inflight))).
  { eapply total_lift; [|done]. cbn [inflight set_planned]. rewrite Hfresh.
    by rewrite bool_decide_false by (by intros []). }
  intros []. eapply total_conseq; [apply (IH true _ Hg')|intros n Hn; exact Hn|].
  - by apply fed_insert.
  - cbn [inflight set_inflight]. rewrite map_size_insert_None by done. lia.
  - intros r n [Hn Hp]. by split.
Qed.

(** What a poll that commits ends with. *)
Definition committed_next (self : BlockPipeline) (did : bool) (n : Node) : Prop :=
  did = true /\ serving (due n.2.(checkpoint)) n.1 /\ fed good n.2 /\ n.2.(checkpoint_key) = self.(checkpoint_key) /\
  n.2.(checkpoint).(height) = (self.(checkpoint).(height) + 1)%N.

(** Committing the first block in flight: the part of a poll after
    [prepare_ahead]. *)
Lemma total_commit_first (self : BlockPipeline) did `{!PlainKey self.(checkpoint_key)} :
  good_self self -> fed good self -> 0 < size self.(inflight) ->
  total (fun n : Node => serving (due self.(checkpoint)) n.1 /\ n.2 = self)
    (self ← get_self;
     expected_height ← lift (ok_or (checked_add u32_max self.(checkpoint).(height) 1)
       (Anyhow "checkpoint height overflow"));
     match self.(inflight) !! expected_height with
     | Some flight =>
         modify_self (fun self => set_inflight self (delete expected_height self.(inflight))) ;;
         proof ← try (call (proof_wait flight.(ticket)));
         proof ← lift match proof with
                      | inl proof => Ok proof
                      | inr _ => Err (Anyhow "proof for ordered height {expected_height} failed; suffix will not be committed: {error:#}")
                      end;
         commit_prepared flight.(prepared) proof ;;
         mret true
     | None => mret did
     end) (committed_next self).
Proof.
  intros Hg Hf Hsize. destruct (next_in_flight self Hg Hsize) as (fl & Efl & Eh).
  set (h := (self.(checkpoint).(height) + 1)%N) in *.
  destruct (flights_ok _ Hg _ _ Efl) as (Hprep & Hheight & _).
  pose proof (fed_flight _ _ Hf _ _ Efl) as Hr. pose proof Hr as (Hpay & Hfollows & Hwait).
  unfold h in Hfollows. rewrite first_parent in Hfollows by done. fold h in Hfollows.
  set (here := serving (due self.(checkpoint))). destruct (follows_due _ _ Hfollows Hprep Hheight) as [Hdue Hnext].
  eapply total_bind; [apply total_get_self|]. intros s. apply total_pure. intros ->.
  eapply total_bind with (R := fun x n => (here n.1 /\ n.2 = self) /\ x = h).
  { eapply total_lift; [by rewrite Eh|done]. }
  intros x. apply total_pure. intros ->. rewrite Efl.
  set (self1 := set_inflight self (delete h self.(inflight))).
  eapply total_bind; [apply total_modify|intros []]. fold self1.
  eapply total_bind with (R := fun r n => (here n.1 /\ n.2 = self1) /\
    exists output, r = inl output /\ proves fl.(prepared) output).
  { intros n Hn. destruct (total_call _ _ _ self1 (Hwait _) n Hn) as (output & Eo & [Hu Hc] & E).
    exists (inl output). unfold try, result, final in *. destruct (call (proof_wait _) n) as [[t n'] r].
    cbn in *. subst r. split; [done|]. split; [done|]. eauto. }
  intros r. apply total_pure. intros (output & -> & Hproves).
  eapply total_bind with (R := fun o n => (here n.1 /\ n.2 = self1) /\ o = output); [by eapply total_lift|].
  intros o. apply total_pure. intros ->.
  pose proof (ready_checks self fl output Hg (fed_config _ _ Hf) Efl Hr Hproves) as Hchecks.
  unfold here. rewrite <- Hdue. eapply total_bind;
    [apply (total_commit up unpaid unclaimed cfg root Hmints Hwrite self1 fl.(prepared) output);
     [exact (fed_config _ _ Hf)|exact Hpay|exact Hchecks]|].
  intros []. apply total_ret. intros n [Hn E]. unfold committed_next. rewrite E.
  cbn [checkpoint set_checkpoint]. rewrite Hnext.
  split_and!; [done|exact Hn| |done|exact Hheight]. by apply fed_commit.
Qed.

Lemma total_poll (self : BlockPipeline) `{!PlainKey self.(checkpoint_key)} :
  good_self self -> fed good self -> (self.(checkpoint).(height) < target)%N ->
  total (fun n : Node => serving (due self.(checkpoint)) n.1 /\ n.2 = self) poll_body (committed_next self).
Proof.
  intros Hg Hf Hlt. unfold poll_body.
  eapply total_bind; [apply total_call, (feed_tip _ _ _ Hfeed)|intros tip].
  apply total_pre with (P' := fun n => (serving (due self.(checkpoint)) n.1 /\ n.2 = self) /\
    (target <= saturating_sub tip cfg.(required_confirmations) <= limit)%N); [|by intros n [[Hn Ht] E]].
  apply total_pure. intros Htip. eapply total_bind; [apply total_get_self|].
  intros s. apply total_pure. intros ->. rewrite (fed_config _ _ Hf).
  eapply total_bind; [apply (total_prepare_ahead _ _ _ _ self Hg Hf); lia|]. intros did.
  apply total_object. intros self' (Hg' & Hf' & Hc' & Hk' & Hsize).
  assert (PlainKey self'.(checkpoint_key)) as Hplain by (by rewrite Hk').
  unfold committed_next. rewrite <- Hc', <- Hk'.
  apply (total_commit_first self' did Hg' Hf'), Hsize. lia.
Qed.

(** One poll. *)
Lemma poll_commits init (n : Node) `{!PlainKey n.2.(checkpoint_key)} :
  loop_inv init n -> serving (due n.2.(checkpoint)) n.1 -> fed good n.2 -> (n.2.(checkpoint).(height) < target)%N ->
  result (poll_once None) n = Ok true /\
  let n' := final (poll_once None) n in
  loop_inv init n' /\ serving (due n'.2.(checkpoint)) n'.1 /\ fed good n'.2 /\ n'.2.(checkpoint_key) = n.2.(checkpoint_key) /\
  n'.2.(checkpoint).(height) = (n.2.(checkpoint).(height) + 1)%N.
Proof.
  intros Hi Hn Hf Hlt. assert (poll_once None n = poll_body n) as Ep.
  { unfold poll_once, with_watchdog. by destruct (poll_body n) as [[t n'] r]. }
  destruct (total_poll n.2 (proj1 Hi) Hf Hlt n) as (did & E & -> & Hu & Hf' & Hk & Hh); [done|].
  destruct (triple_poll (W := W) (R := R) init n.2.(checkpoint) n.2.(checkpoint_key) n) as [_ [_ Hok]]; [done|].
  unfold result, final in *. rewrite Ep, E in *. split; [done|]. destruct (Hok eq_refl) as [[? _] _].
  by split_and!.
Qed.

(** As many polls as there are blocks up to the target. *)
Lemma polls_commit init k (n : Node) :
  PlainKey n.2.(checkpoint_key) -> loop_inv init n -> serving (due n.2.(checkpoint)) n.1 -> fed good n.2 -> (n.2.(checkpoint).(height) + N.of_nat k <= target)%N ->
  let polls := run_pipeline (replicate k (Polled None)) in
  result polls n = Ok () /\ loop_inv init (final polls n) /\ serving (due (final polls n).2.(checkpoint)) (final polls n).1 /\
  (final polls n).2.(checkpoint).(height) = (n.2.(checkpoint).(height) + N.of_nat k)%N.
Proof.
  revert n. induction k as [|k IH]; intros n Hplain Hi Hn Hf Hk; cbn zeta.
  { cbn [replicate run_pipeline]. split_and!; [done..|]. change (n.2.(checkpoint).(height) = n.2.(checkpoint).(height) + 0)%N. lia. }
  destruct (poll_commits init n Hi Hn Hf) as (E & Hi' & Hn' & Hf' & Ekey & Hh); [lia|].
  assert (PlainKey (final (poll_once None) n).2.(checkpoint_key)) as Hplain' by (by rewrite Ekey).
  destruct (IH (final (poll_once None) n) Hplain' Hi' Hn' Hf') as (Er & Hi2 & Hn2 & Hh2); [lia|].
  cbn [replicate run_pipeline]. rewrite result_bind, final_bind, E. split_and!; [done..|]. lia.
Qed.

(** A pipeline that has just started is fed when its checkpoint is. *)
Lemma initialize_fresh w self :
  result (initialize cfg) w = Ok self ->
  self = mkPipeline _ _ cfg (checkpoint_key_of cfg) self.(checkpoint) self.(checkpoint) ∅ NetworkRetryPolicyOps.default.
Proof.
  unfold initialize. intros E.
  repeat match type of E with result (mbind _ _) _ = Ok _ => apply result_bind_Ok in E as (? & _ & E) end.
  by injection E as <-.
Qed.

Lemma fed_fresh key c policy : good c -> fed good (mkPipeline _ _ cfg key c c ∅ policy).
Proof. intros Hc. constructor; [done|done|]. intros h fl E. cbn in E. by apply lookup_empty_Some in E. Qed.
End catch_up.

(** C2: The pipeline catches up with the finalized chain when the services
    answer.  Suppose the calls of a start-up and of a commit answer,
    serialization does not fail and the configuration is accepted.  Suppose that
    the buffer of a block whose mints are all unclaimed can be set up, and that
    processing it claims its mints and counts each; nothing is asked of a buffer
    that is partly or wholly claimed, which the bridge program skips.  Suppose
    also that the node's finalized tip is between a target and a limit, and that
    from each checkpoint of a set, which holds the planned one, the next block up
    to the limit can be prepared, leads to a checkpoint of the set, can be paid
    out and gets a valid proof.  Then, from a state in which the mints of the
    blocks still to be finalized are unclaimed, every poll commits one block,
    whatever part of the window is in flight, so that as many polls as there are
    blocks up to the target return and end with the target committed.  And after
    a crash at any point of any run, a start-up returns a pipeline at the height
    the run began with or above, whose checkpoint is the one on chain, if the
    bridge program completes the buffer of a journal whose block is on chain.
    That pipeline catches up in the same way if its checkpoint is of the set and
    the mints of the blocks after it are unclaimed.  If nothing was stored yet,
    the first checkpoint is assumed to be built as before. *)
Theorem pipeline_catches_up
    `{!Hex, !HexLaws, !Sha, !TreeParams, !LightClient, !Custody, !ClaimHelper, !EvidenceOut, !Host}
    `{!Transitions, !EvidenceJson}
    {W R} `{!Clock W, !Files W, !FilesLaws W, !Store W, !BridgeClient W, !Sender W R, !HttpResponse R}
    `{!ServiceLaws W R, !ProofService W, !Electrs W, !Startup W, !PipelineLaws W R}
    `{!Json ProofRequest, !JsonLaws ProofRequest, !Json PipelineCheckpoint, !JsonLaws PipelineCheckpoint}
    `{!Json CheckpointJournal, !JsonLaws CheckpointJournal}
    (up : W -> Prop) (unpaid : N -> W -> Prop) (unclaimed : N -> bytes -> list PendingMint -> W -> Prop)
    (cfg : BlockPipelineConfig) (root : Path) (init : option PipelineCheckpoint) (n : W * BlockPipeline)
    (good : PipelineCheckpoint -> Prop) (target limit : N) :
  starts_up up cfg -> mints_up up unpaid unclaimed cfg root -> writable -> configured cfg ->
  feed up unpaid cfg good target limit ->
  loop_inv init n -> n.2.(checkpoint_key) = checkpoint_key_of cfg ->
  (serving up unpaid (due cfg n.2.(checkpoint)) n.1 -> fed up unpaid cfg good n.2 -> forall k, (n.2.(checkpoint).(height) + N.of_nat k <= target)%N ->
   let polls := run_pipeline (replicate k (Polled None)) in
   result polls n = Ok () /\ loop_inv init (final polls n) /\
   serving up unpaid (due cfg (final polls n).2.(checkpoint)) (final polls n).1 /\
   (final polls n).2.(checkpoint).(height) = (n.2.(checkpoint).(height) + N.of_nat k)%N) /\
  (forall events x, x ∈ crash_points (run_pipeline events) n -> up x.1 ->
   fresh_is init cfg (view x.1) -> first_checkpoint up cfg init -> resumes up cfg (view x.1) ->
   exists self, result (initialize cfg) x.1 = Ok self /\
     let start := (final (initialize cfg) x.1, self) in
     up start.1 /\ loop_inv init start /\ (n.2.(checkpoint).(height) <= self.(checkpoint).(height))%N /\
     (good self.(checkpoint) -> unpaid (due cfg self.(checkpoint)) start.1 -> forall k, (self.(checkpoint).(height) + N.of_nat k <= target)%N ->
      let polls := run_pipeline (replicate k (Polled None)) in
      result polls start = Ok () /\ loop_inv init (final polls start) /\
      (final polls start).2.(checkpoint).(height) = (self.(checkpoint).(height) + N.of_nat k)%N)).
Proof.
  intros Hup Hmints Hwrite Hcfg Hfeed Hi Hk. pose proof (validate_config_window _ (proj1 Hcfg)) as Hwin. split.
  - intros Hn Hf k Hle. assert (PlainKey n.2.(checkpoint_key)) as Hplain by (rewrite Hk; apply _).
    by eapply polls_commit.
  - intros events x Hx Hxu Hf Hfirst Hfin. set (h0 := n.2.(checkpoint).(height)).
    pose proof (triple_run_pipeline (W := W) (R := R) init (checkpoint_key_of cfg) h0 events) as Ht.
    assert (run_safe init (checkpoint_key_of cfg) h0 x) as (c & Hc & Hsafe).
    { apply (triple_crash _ _ _ _ n x Ht); [done| |exact Hx].
      exists n.2.(checkpoint). split; [split; [done|by eapply loop_inv_height]|].
      left. destruct Hi as [_ Hb]. by rewrite Hk in Hb. }
    destruct (total_initialize up cfg Hup Hwrite Hcfg init c (view x.1) Hsafe Hfirst Hfin x.1) as (self & E & Hu);
      [split; [done|reflexivity]|].
    pose proof (triple_initialize (W := W) (R := R) init cfg c (view x.1) Hsafe Hf) as Hinit.
    destruct (triple_use _ _ _ _ x.1 (Hinit ltac:(lia))) as [_ Hok]; [reflexivity|].
    destruct (Hok self E) as (Hinv & Hkey & Hh). exists self. split; [exact E|]. cbn zeta.
    split_and!; [exact Hu|exact Hinv| |].
    + destruct Hh as [->| ->]; [lia|]. unfold saturating_add. lia.
    + intros Hgood Hun k Hle. assert (PlainKey self.(checkpoint_key)) as Hplain by (rewrite Hkey; apply _).
      destruct (polls_commit up unpaid unclaimed cfg root Hmints Hwrite Hwin good target limit Hfeed init k
        (final (initialize cfg) x.1, self)) as (Er & Hl & _ & Hend); [done|done|done| |done|by split_and!].
      rewrite (initialize_fresh cfg _ _ E). by apply fed_fresh.
Qed.
