(* ===== verification/Archive.v ===== *)
(** * Recovery from a proof archive

    [recover_checkpoint_from_proof_archive] of [block_pipeline.rs], the
    [recover] command: it rebuilds the next checkpoint from an archived
    transition, checks it against the archive and the chain, and stores it.
    And [read_fixed] of the binary, which reads its fixed-width arguments. *)
From S2P Require Import Prelude External Instances Merkle Effects NetworkRetry Chain.
From S2P Require Import ChainInstances Checkpoint SolHeader Claims ProofJob Files.
From S2P Require Import Services Journal Transition Evidence Commit Recover Pipeline.
Import NetworkRetryPolicyOps.

Section archive.
Context `{!Hex, !Sha, !TreeParams, !LightClient, !Custody, !ClaimHelper}.
Context `{!Transitions, !Host}.
Context {W : Type} `{!Clock W, !Files W, !Store W, !BridgeClient W, !Electrs W, !Startup W}.
Context `{!Json PipelineCheckpoint}.

(** A file of the archive directory. *)
Definition read_archive (proof_archive_dir : Path) (name : string) : prog W bytes :=
  fs_read (proof_archive_dir ++ [name]).

(** The checkpoint in Redis, which must be there. *)
Definition load_current_checkpoint (config : BlockPipelineConfig) : prog W PipelineCheckpoint :=
  value ← within REDIS_CHECKPOINT_DEADLINE "redis checkpoint load exceeded {REDIS_CHECKPOINT_DEADLINE:?}"
    (store_get (checkpoint_key_of config));
  checkpoint_json ← lift (ok_or value (Anyhow "current Redis checkpoint is missing"));
  checkpoint ← lift (json_parse (A := PipelineCheckpoint) checkpoint_json);
  lift (validate_checkpoint checkpoint) ;;
  mret checkpoint.

(** The archive must start from that checkpoint. *)
Definition load_archived_start (checkpoint : PipelineCheckpoint) (proof_archive_dir : Path) : prog W bytes :=
  old_state_bytes ← read_archive proof_archive_dir "old_state.bin";
  old_header ← read_archive proof_archive_dir "old_header.bin";
  state ← lift (hex_decode_ok checkpoint.(state_hex));
  lift (bail_when (bool_decide (old_state_bytes <> state))
    "proof archive old state does not match the current Redis checkpoint") ;;
  header ← lift (hex_decode_ok checkpoint.(header_hex));
  lift (bail_when (bool_decide (old_header <> header))
    "proof archive old header does not match the current Redis checkpoint") ;;
  mret old_state_bytes.

(** The transition of the archived witness, replayed up to the archived header. *)
Definition replay_transition (config : BlockPipelineConfig) (checkpoint : PipelineCheckpoint) (height : N)
    (proof_archive_dir : Path) : prog W PipelineCheckpoint :=
  let '(NC, P) := profile_of config.(network) in
  old_state_bytes ← load_archived_start checkpoint proof_archive_dir;
  witness_bytes ← read_archive proof_archive_dir "witness.bin";
  witness ← lift (ok_or (witness_read_from_buffer witness_bytes) (External "speedy"));
  evaluation ← lift (evaluate_claim_witness P height witness.(claim_witness)
    (merkle_root witness.(witness_block_header)) config.(custody_script_config) (fee_rate config));
  old_state ← lift (ok_or (try_from_slice old_state_bytes) (External "borsh"));
  let t := evaluation.(eval_transition) in
  new_state ← lift (ok_or (append_block NC old_state height witness.(witness_block_header)
    t.(new_claimed_txo_tree_root) t.(new_auto_claimed_deposits_tree_root)
    t.(end_auto_claimed_deposits_index) t.(transition_fees_collected)) (External "append_block"));
  finalized_height ← lift (ok_or (checked_sub height config.(required_confirmations))
    (Anyhow "finalized height underflow"));
  finalized_block ← load_finalized_block checkpoint finalized_height;
  '(finalized_buffers, _) ← lift (resolve_finalized_buffers P finalized_block
    (checkpoint.(pending_finalization) !! finalized_height) config.(custody_script_config)
    config.(recipient_atas) (fee_rate config));
  old_header ← lift (decode_fixed HEADER_SIZE checkpoint.(header_hex));
  mints_hash ← lift (commitment_pending_mints_hash finalized_buffers);
  txo_hash ← lift (commitment_txo_output_list_hash finalized_buffers);
  new_header ← lift (build_new_solana_header old_header new_state config.(required_confirmations)
    mints_hash txo_hash);
  archived_header ← read_archive proof_archive_dir "new_header.bin";
  lift (bail_when (bool_decide (archived_header <> new_header))
    "reconstructed header does not match the proven archived header") ;;
  new_state_bytes ← lift (ok_or (borsh_to_vec new_state) (External "borsh"));
  lift (build_next_checkpoint checkpoint height evaluation finalized_height new_state_bytes new_header).

Definition recover_checkpoint_from_proof_archive (config : BlockPipelineConfig) (proof_archive_dir : Path)
  : prog W N :=
  lift (validate_config config) ;;
  within REDIS_INIT_DEADLINE "redis init exceeded {REDIS_INIT_DEADLINE:?}" redis_connect ;;
  checkpoint ← load_current_checkpoint config;
  height ← lift (ok_or (checked_add u32_max checkpoint.(Checkpoint.height) 1)
    (Anyhow "checkpoint height overflow"));
  recovered ← replay_transition config checkpoint height proof_archive_dir;
  lift (read_pipeline_keypair config.(operator_keypair)) ;;
  lift (read_pipeline_keypair config.(payer_keypair)) ;;
  bridge_connect config ;;
  chain_state ← question bridge_error get_current_bridge_state;
  lift (assert_checkpoint_matches_chain recovered chain_state.(bridge_header)) ;;
  store_json (checkpoint_key_of config) recovered ;;
  mret height.

(** The text of an argument: [@path], the name of a file, or the argument itself. *)
Definition argument_text (path_of : chars -> Path) (value : chars) : prog W chars :=
  let read (path : chars) : prog W chars :=
    text ← try (fs_read_to_string (path_of path));
    match text with
    | inl text => mret text
    | inr _ => lift (Err (Anyhow "failed to read {name} from {path}"))
    end in
  match value with
  | 64%N :: path => read path
  | _ =>
      is_file ← query (fun w => Ok (fs_is_file w (path_of value)));
      if (is_file : bool) then read value else mret value
  end.

Definition read_fixed (path_of : chars -> Path) (size : nat) (value : chars) : prog W bytes :=
  text ← argument_text path_of value;
  b ← lift (ok_or (hex_decode_chars (normalize_artifact text)) (Anyhow "invalid {name} hex"));
  lift (bail_when (negb (length b =? size)) "{name} must decode to {N} bytes, got {}") ;;
  mret b.
End archive.

Section archive_theory.
Context `{!Hex, !HexLaws, !Sha, !TreeParams, !LightClient, !Custody, !ClaimHelper}.
Context `{!Transitions, !Host}.
Context {W R : Type} `{!Clock W, !Files W, !Store W, !BridgeClient W, !Sender W R, !HttpResponse R}.
Context `{!ServiceLaws W R, !ProofService W, !Electrs W, !Startup W, !PipelineLaws W R}.
Context `{!Json PipelineCheckpoint}.

Lemma load_current_checkpoint_quiet config : quiet view (load_current_checkpoint config).
Proof.
  unfold load_current_checkpoint. apply quiet_bind; [apply within_quiet, get_quiet|]. intros v. solve_quiet.
Qed.

Lemma replay_transition_quiet config c h dir : quiet view (replay_transition config c h dir).
Proof.
  unfold replay_transition, load_archived_start, read_archive, load_finalized_block.
  destruct (profile_of (network config)) as [NC P]. solve_quiet.
Qed.

(** What is loaded is what is stored, and it is valid. *)
Lemma load_current_checkpoint_Ok config s w c :
  agrees s (view w) -> result (load_current_checkpoint config) w = Ok c ->
  (exists text, s.(v_db) !! checkpoint_key_of config = Some text /\ json_parse text = Ok c) /\
  validate_checkpoint c = Ok ().
Proof.
  intros (Hdb & _ & _) E. unfold load_current_checkpoint in E.
  apply result_bind_Ok in E as (v & Ev & E). unfold within in Ev.
  apply result_bind_Ok in Ev as (r & Er & Ev). rewrite result_lift in Ev. apply ok_or_Ok in Ev. subst r.
  destruct (timeout_result _ _ _ _ Er) as [Er' _]. apply get_reads in Er'; [|apply _]. rewrite Hdb in Er'.
  inv_prog. subst. split; [|done]. eexists. split; [by symmetry|done].
Qed.

(** The replayed checkpoint is the validated successor whose header is the archived one. *)
Lemma replay_transition_Ok config c h dir w next :
  result (replay_transition config c h dir) w = Ok next ->
  validate_checkpoint next = Ok () /\ next.(Checkpoint.height) = h.
Proof.
  unfold replay_transition. destruct (profile_of (network config)) as [NC P]. intros E. inv_prog.
  match goal with H : build_next_checkpoint _ _ _ _ _ _ = Ok _ |- _ => apply build_next_checkpoint_Ok in H end.
  tauto.
Qed.

(** The view after the stored checkpoint [c] was replaced by its recovered successor. *)
Definition promoted config (c : PipelineCheckpoint) (s s' : View) : Prop :=
  (exists old, s.(v_db) !! checkpoint_key_of config = Some old /\ json_parse old = Ok c) /\
  exists next text, to_json next = Some text /\ agrees (with_key (checkpoint_key_of config) text s) s' /\
    validate_checkpoint next = Ok () /\ checked_add u32_max c.(Checkpoint.height) 1 = Some next.(Checkpoint.height) /\
    matches_chain next s.(v_header) = true.

(** A step that keeps the view, before the rest of a program. *)
Lemma quiet_then {X Y} s (C : W -> Prop) (Q : outcome Y -> W -> Prop) (m : prog W X) (f : X -> prog W Y) :
  (forall w, agrees s (view w) -> C w) ->
  (forall r w, is_ok r = false -> agrees s (view w) -> Q r w) -> quiet view m ->
  (forall a w, agrees s (view w) /\ result m w = Ok a -> triple (fun w => agrees s (view w)) C (f a) Q) ->
  triple (fun w => agrees s (view w)) C (m ≫= f) Q.
Proof.
  intros HC Hfail Hm Hf. apply triple_at. intros w0 Hw0.
  eapply triple_bind with (R := fun r w => agrees s (view w) /\ r = result m w0).
  - intros w ->. destruct (Hm s w0 Hw0) as [Ht Hr]. split; [|by split].
    eapply Forall_impl; [exact Ht|]. auto.
  - intros a. apply triple_pure. intros E. by apply (Hf a w0).
  - intros r r' w [Hw _] E. apply Hfail; [|done]. by destruct r; cbn in E; simplify_eq.
Qed.

Lemma chain_state_header s w c :
  agrees s (view w) -> result (question bridge_error get_current_bridge_state) w = Ok c ->
  c.(bridge_header) = s.(v_header).
Proof.
  intros (_ & Hh & _) E. unfold question in E. apply result_bind_Ok in E as (x & Ex & E).
  destruct x as [v|e]; [|by rewrite result_lift in E]. cbn in E. simplify_eq.
  by rewrite (state_reads _ _ Ex).
Qed.

(** The stored checkpoint of [s] was valid, and its successor of height [h] is stored. *)
Definition recovered_to config (s : View) (h : N) (s' : View) : Prop :=
  exists c text, s.(v_db) !! checkpoint_key_of config = Some text /\ json_parse text = Ok c /\
    validate_checkpoint c = Ok () /\ checked_add u32_max c.(Checkpoint.height) 1 = Some h /\
    promoted config c s s'.

Lemma triple_recover_archive config dir s :
  triple (fun w => agrees s (view w))
    (fun w => agrees s (view w) \/ exists c, promoted config c s (view w))
    (recover_checkpoint_from_proof_archive config dir)
    (fun r w => (agrees s (view w) \/ exists c, promoted config c s (view w)) /\
       forall h, r = Ok h -> recovered_to config s h (view w)).
Proof.
  set (A := fun w => agrees s (view w)).
  set (C := fun w => agrees s (view w) \/ exists c, promoted config c s (view w)).
  set (Q := fun (r : outcome N) w => C w /\ forall h, r = Ok h -> recovered_to config s h (view w)).
  assert (forall r w, is_ok r = false -> A w -> Q r w) as Hfail.
  { intros r w Hr Hw. split; [by left|]. by intros h ->. }
  unfold recover_checkpoint_from_proof_archive.
  apply (quiet_then s C Q); [by left|exact Hfail|apply quiet_lift|intros [] _ _].
  apply (quiet_then s C Q); [by left|exact Hfail|apply within_quiet, redis_connect_quiet|intros [] _ _].
  apply (quiet_then s C Q); [by left|exact Hfail|apply load_current_checkpoint_quiet|intros c w1 [Hw1 E1]].
  destruct (load_current_checkpoint_Ok _ _ _ _ Hw1 E1) as [(text & Hdb & Hparse) Hv].
  apply (quiet_then s C Q); [by left|exact Hfail|apply quiet_lift|intros h w2 [_ E2]].
  rewrite result_lift in E2. apply ok_or_Ok in E2.
  apply (quiet_then s C Q); [by left|exact Hfail|apply replay_transition_quiet|intros next w3 [_ E3]].
  destruct (replay_transition_Ok _ _ _ _ _ _ E3) as [Hvn Hh].
  apply (quiet_then s C Q); [by left|exact Hfail|apply quiet_lift|intros operator _ _].
  apply (quiet_then s C Q); [by left|exact Hfail|apply quiet_lift|intros payer _ _].
  apply (quiet_then s C Q); [by left|exact Hfail|apply bridge_connect_quiet|intros [] _ _].
  apply (quiet_then s C Q); [by left|exact Hfail|apply quiet_question, state_quiet|intros cs w4 [Hw4 E4]].
  apply chain_state_header with (s := s) in E4; [|done].
  apply (quiet_then s C Q); [by left|exact Hfail|apply quiet_lift|intros [] w5 [_ E5]].
  rewrite result_lift, E4 in E5.
  assert (matches_chain next s.(v_header) = true) as Hm by (unfold matches_chain; by rewrite E5).
  eapply triple_bind; [apply (triple_store_json _ _ (agrees s) (promoted config c s) C)|..].
  - intros s1 s2 Ha Hs. by transitivity s1.
  - intros s1 s2 Hs (Ho & nx & t & Ht & Ha & Hr). split; [exact Ho|]. exists nx, t. split; [done|]. split; [by transitivity s1|done].
  - intros s1 t Ht Ha. split; [by eexists|]. exists next, t. split; [done|]. split; [by apply agrees_with_key|].
    split; [done|]. split; [by rewrite Hh|done].
  - by left.
  - intros w Hw. right. by exists c.
  - intros []. apply triple_ret. intros w Hw. split; [right; by exists c|]. intros h' [= <-].
    by exists c, text.
  - intros r r' w Hw Hr. destruct r; cbn in Hr; simplify_eq; cbn in Hw; split; try done;
      destruct Hw as [Hw|Hw]; (by left) || (right; by exists c).
Qed.

Lemma changed_other config s s' k :
  k <> checkpoint_key_of config -> agrees s s' \/ (exists c, promoted config c s s') ->
  s'.(v_db) !! k = s.(v_db) !! k.
Proof.
  intros Hk [(-> & _)|(c & _ & nx & t & _ & (Hdb & _) & _)]; [done|].
  rewrite Hdb. cbn. by rewrite lookup_insert_ne.
Qed.

(** C7: Recovery from an archive replaces the stored checkpoint in one step.
    Wherever it stops, Redis holds what it held or the same with the stored
    checkpoint [c] replaced by a valid checkpoint one height up whose header is
    the one on chain; every other key, the commit journal among them, is
    untouched.  When it returns [h], the stored checkpoint was valid, [h] is one
    above it, and the replacement is done. *)
Theorem recover_archive_spec config dir w :
  let p := recover_checkpoint_from_proof_archive config dir in
  (forall x, x ∈ crash_points p w ->
     (agrees (view w) (view x) \/ exists c, promoted config c (view w) (view x)) /\
     forall k, k <> checkpoint_key_of config -> (view x).(v_db) !! k = (view w).(v_db) !! k) /\
  (forall h, result p w = Ok h -> recovered_to config (view w) h (view (final p w))).
Proof.
  intros p. pose proof (triple_recover_archive config dir (view w)) as Ht. split.
  - intros x Hx. assert (agrees (view w) (view x) \/ exists c, promoted config c (view w) (view x)) as Hc.
    { by apply (triple_crash _ _ _ _ w x Ht); [|left|]. }
    split; [exact Hc|]. intros k Hk. by eapply changed_other.
  - intros h E. by apply (triple_use _ _ _ _ w Ht).
Qed.

(** An argument that is accepted has the width asked for. *)
Lemma read_fixed_width path_of size value w b :
  result (read_fixed path_of size value) w = Ok b -> length b = size.
Proof.
  unfold read_fixed. intros E. inv_prog. subst. by apply Nat.eqb_eq, negb_false_iff.
Qed.

(** Hex digits that name no file stand for themselves. *)
Lemma argument_text_inline path_of value w :
  fs_is_file w (path_of value) = false -> head value <> Some 64%N ->
  argument_text path_of value w = ([], w, Ok value).
Proof.
  intros Hf Hat. unfold argument_text.
  assert (forall m : prog W chars,
    (is_file ← query (fun w => Ok (fs_is_file w (path_of value)));
     if (is_file : bool) then m else mret value) w = ([], w, Ok value)) as H'.
  { intros m. unfold mbind, prog_bind, query. by rewrite Hf. }
  destruct value as [|c value]; [apply H'|].
  destruct (decide (c = 64%N)) as [->|Hc]; [done|].
  repeat (case_match; try done; try apply H').
Qed.

Lemma read_fixed_inline path_of size value w :
  fs_is_file w (path_of value) = false -> head value <> Some 64%N ->
  result (read_fixed path_of size value) w =
    match hex_decode_chars (normalize_artifact value) with
    | None => Err (Anyhow "invalid {name} hex")
    | Some b => if length b =? size then Ok b
                else Err (Anyhow "{name} must decode to {N} bytes, got {}")
    end.
Proof.
  intros Hf Hat. unfold read_fixed.
  rewrite result_bind. unfold result at 1, final. rewrite (argument_text_inline _ _ _ Hf Hat).
  cbn [fst snd]. rewrite result_bind, result_lift. destruct (hex_decode_chars _) as [b|]; [|done].
  cbn [ok_or]. rewrite result_bind, result_lift, final_lift. by destruct (length b =? size).
Qed.
End archive_theory.
