(* ===== verification/PipelineInstances.v ===== *)
(** * A small world

    Instances of every interface the pipeline uses, with their laws: an
    in-memory Redis, bridge program, sender, prover, file system and Dogecoin
    node, and the codecs of the stored types.  The witnesses of the pipeline's
    properties run the code in this world. *)
From S2P Require Import Prelude External Codec Instances Merkle Effects NetworkRetry Chain.
From S2P Require Import ChainInstances Checkpoint SolHeader Claims ProofJob Files Services.
From S2P Require Import Journal Transition Evidence Commit Recover Pipeline Archive.
Import HexInstance ShaInstance.
#[export] Existing Instance ClaimsInstance.custody.

(** ** Codecs of the stored types *)
#[export] Instance codec_frontier : Codec MerkleFrontier.
Proof.
  refine (codec_via (fun m => (mf_index m, mf_value_hex m, mf_siblings_hex m))
    (fun '(i, v, s) => mkMerkleFrontier i v s) _). by intros [].
Defined.

#[export] Instance codec_payload : Codec PendingMintPayload.
Proof.
  refine (codec_via (fun p => (recipient p, amount p)) (fun '(r, a) => mkPendingMintPayload r a) _).
  by intros [].
Defined.

#[export] Instance codec_commitment : Codec BlockBufferCommitment.
Proof.
  refine (codec_via
    (fun c => (pending_mints_hash_hex c, txo_output_list_hash_hex c, pending_mints c, txo_indices c,
               deposit_count c, minted_amount_sats c, auto_claim_start_index c, auto_claim_end_index c,
               fees_collected c))
    (fun '(a, b, c, d, e, f, g, h, i) => mkBlockBufferCommitment a b c d e f g h i) _). by intros [].
Defined.

#[export] Instance codec_checkpoint : Codec PipelineCheckpoint.
Proof.
  refine (codec_via
    (fun c => (Checkpoint.height c, state_hex c, header_hex c, claim_frontier c, txo_block_frontier c,
               claim_history c, txo_block_history c, pending_finalization c))
    (fun '(a, b, c, d, e, f, g, h) => mkCheckpoint a b c d e f g h) _). by intros [].
Defined.

#[export] Instance codec_buffers : Codec UploadedBuffers.
Proof.
  refine (codec_via (fun u => (mint_buffer u, mint_buffer_bump u, txo_buffer u, txo_buffer_bump u))
    (fun '(a, b, c, d) => mkUploadedBuffers a b c d) _). by intros [].
Defined.

#[export] Instance codec_progress : Codec MintProgressRecord.
Proof.
  refine (codec_via (fun m => (signatures m, groups_processed m, total_mints_processed m))
    (fun '(a, b, c) => mkMintProgress a b c) _). by intros [].
Defined.

#[export] Instance codec_journal : Codec CheckpointJournal.
Proof.
  refine (codec_via
    (fun j => (journal_checkpoint j, uploaded_buffers j, finalized_commitment j, submission_signature j,
               mint_progress j))
    (fun '(a, b, c, d, e) => mkJournal a b c d e) _). by intros [].
Defined.

#[export] Instance codec_request : Codec ProofRequest.
Proof.
  refine (codec_via
    (fun r => (request_id r, req_old_state r, req_witness r, ProofJob.finalized_witness r,
               req_custody_script_config r, req_required_confirmations r, req_flat_fee r, fee_num r,
               fee_den r, req_old_header r, req_new_header r, req_config_params r))
    (fun '(a, b, c, d, e, f, g, h, i, j, k, l) => mkProofRequest a b c d e f g h i j k l) _). by intros [].
Defined.

#[export] Instance checkpoint_json : Json PipelineCheckpoint := json_of_codec.
#[export] Instance checkpoint_json_laws : JsonLaws PipelineCheckpoint := json_of_codec_laws.
#[export] Instance journal_json : Json CheckpointJournal := json_of_codec.
#[export] Instance journal_json_laws : JsonLaws CheckpointJournal := json_of_codec_laws.
#[export] Instance proof_request_json : Json ProofRequest := json_of_codec.
#[export] Instance proof_request_json_laws : JsonLaws ProofRequest := json_of_codec_laws.

(** ** Witness codecs and transitions *)
#[export] Instance codec_item : Codec PsyBridgeClaimDepositItem.
Proof.
  refine (codec_via (fun d => (output_index d, public_key_index d)) (fun '(a, b) => mkDepositItem a b) _).
  by intros [].
Defined.
#[export] Instance codec_output : Codec TxOutput.
Proof. refine (codec_via (fun o => (value o, script o)) (fun '(a, b) => mkTxOutput a b) _). by intros []. Defined.
#[export] Instance codec_tx_witness : Codec TransactionWitness.
Proof.
  refine (codec_via (B := N * list bytes * list PsyBridgeClaimDepositItem * (bytes * list TxOutput))
    (fun t => (transaction_index t, merkle_siblings t, deposit_outputs t, transaction t))
    (fun '(a, b, c, d) => mkTransactionWitness _ a b c d) _). by intros [].
Defined.
#[export] Instance codec_witness_header : Codec ClaimWitnessHeader.
Proof.
  refine (codec_via
    (fun h => (txo_tree_block_siblings h, last_auto_claimed_deposits_siblings h, total_outputs_hint h,
               claim_deposits_last_index h, claim_deposits_last_value h))
    (fun '(a, b, c, d, e) => mkClaimWitnessHeader a b c d e) _). by intros [].
Defined.
#[export] Instance codec_claim_witness : Codec ClaimBlockWitness.
Proof.
  refine (codec_via (fun w => (claim_header w, deposit_solana_public_keys w, deposit_transactions w))
    (fun '(a, b, c) => mkClaimBlockWitness _ a b c) _). by intros [].
Defined.
#[export] Instance codec_incoming : Codec IncomingBlockWitness.
Proof.
  refine (codec_via (B := ToyHeader * ClaimBlockWitness * N * N)
    (fun w => (witness_block_header w, claim_witness w, previous_header_last_rollback_at_secs w,
               previous_header_paused_until_secs w))
    (fun '(a, b, c, d) => mkIncomingBlockWitness _ a b c d) _). by intros [].
Defined.

(** The claim transition of a block without deposits, with its real roots. *)
Definition toy_finalize (height : N) (h : ClaimWitnessHeader) : ClaimTransition :=
  let root i leaf siblings := (fold_path hash_impl_sha256_two_to_one_bytes i leaf siblings).2 in
  let next :=
    if (h.(claim_deposits_last_index) =? 0)%N
       && bool_decide (h.(claim_deposits_last_value) = replicate 32 x00)
    then 0%N else (h.(claim_deposits_last_index) + 1)%N in
  mkClaimTransition (root height (replicate 32 x09) h.(txo_tree_block_siblings))
    (root h.(claim_deposits_last_index) h.(claim_deposits_last_value)
       h.(last_auto_claimed_deposits_siblings)) next next 0.

#[export] Instance pipeline_helper : ClaimHelper := {|
  Builder := N;
  new_from_siblings P h fees custody keys := Some 0%N;
  verify_and_add_to_transition_builder tw b root := Some (b + 1)%N;
  builder_finalize b height h fees := Some (b, toy_finalize height h);
  claimed_txs_root b := replicate 32 x09;
  total_deposit_amount b := 0%N;
  calcuate_fee amount fees := Some ((amount - ClaimsInstance.net_of amount fees)%N, ClaimsInstance.net_of amount fees);
  combined_txo_index i j := Some (i * 65536 + j)%N;
  hash_deposit_leaf h i key amount := ShaInstance.hash (h ++ le_bytes 4 i ++ key ++ le_bytes 8 amount);
  pending_mint_and_txo_hashes_from_claim_witness P w root custody fees :=
    Some (ShaInstance.hash (ClaimsInstance.encode_mints (ClaimsInstance.payload_of w fees).*1),
          ShaInstance.hash (concat ((fun e => le_bytes 4 e.2) <$> ClaimsInstance.payload_of w fees)));
  pending_mints_groups_hash l := Some (ShaInstance.hash (ClaimsInstance.encode_mints l));
  witness_write_to_vec w := Some (encode_bytes w);
  witness_read_from_buffer b := decode_bytes b;
|}.

Definition toy_append (s : ToyState) (height : N) (txo_root deposits_root : bytes) (index : N)
  : option ToyState := Some (mkToyState height deposits_root index txo_root).

#[export] Instance transitions : Transitions := {|
  append_block NC s h header txo_root deposits_root index fees := toy_append s h txo_root deposits_root index;
  prover_guest_verify_block_transition_detailed NC P custody confirmations w s fees :=
    let h := (get_tip_block_number s + 1)%N in
    let t := toy_finalize h w.(claim_witness).(claim_header) in
    toy_append s h t.(new_claimed_txo_tree_root) t.(new_auto_claimed_deposits_tree_root)
      t.(end_auto_claimed_deposits_index);
|}.

#[export] Instance evidence_json : EvidenceJson := {| evidence_from_slice b := None |}.
#[export] Instance evidence_out : EvidenceOut := {|
  inputs_to_vec_pretty i := Some (string_bytes i.(in_block_hash));
  mints_to_vec_pretty l := Some (encode_bytes l);
  txos_to_vec_pretty l := Some (encode_bytes l);
  manifest_to_vec m := Some (string_bytes m.(manifest_sha256) ++ string_bytes m.(content_sha256));
  manifest_to_vec_pretty m := Some (string_bytes m.(manifest_sha256) ++ string_bytes m.(content_sha256));
|}.

(** ** The world *)
Record World := mkWorld {
  w_view : View;
  w_files : gmap Path bytes;
  w_clock : N;
}.

Definition set_view (v : View) (w : World) : World := mkWorld v w.(w_files) w.(w_clock).
Definition set_files (f : gmap Path bytes) (w : World) : World := mkWorld w.(w_view) f w.(w_clock).

#[export] Instance world_clock : Clock World := {|
  now := w_clock;
  sleep d w := mkWorld w.(w_view) w.(w_files) (w.(w_clock) + d);
|}.

#[export] Instance world_files : Files World := {|
  fs_is_file w p := bool_decide (is_Some (w.(w_files) !! p));
  fs_read p := query (fun w => ok_or (w.(w_files) !! p) (External "std::fs"));
  fs_read_to_string p := query (fun w =>
    match w.(w_files) !! p with
    | Some b => Ok (map Byte.to_N b)
    | None => Err (External "std::fs")
    end);
  fs_write p b := perform (fun w => (set_files (<[p := b]> w.(w_files)) w, Ok ()));
  fs_create_dir_all p := mret ();
  fs_rename p q := perform (fun w =>
    match w.(w_files) !! p with
    | Some b => (set_files (<[q := b]> (delete p w.(w_files))) w, Ok ())
    | None => (w, Err (External "std::fs"))
    end);
  current_dir := mret [ROOT_DIR; "srv"];
  process_id := 7;
  path_display p := text_of p;
  path_from s := from_option id [] (of_text s);
|}.

#[export] Instance world_store : Store World := {|
  store_get k := query (fun w => Ok (w.(w_view).(v_db) !! k));
  store_set k v := perform (fun w => (set_view (with_key k v w.(w_view)) w, Ok ()));
  store_del k := perform (fun w => (set_view (without_key k w.(w_view)) w, Ok ()));
|}.

(** The bridge program has a buffer per finalized height.  A buffer that is
    claimed is skipped when it is processed again: complete, with nothing
    counted. *)
Definition mint_buffer_of (h : N) : bytes := x21 :: encode_bytes h.
Definition claimed (w : World) (b : bytes) : bool := bool_decide (b ∈ w.(w_view).(v_minted).*1).
Definition process_buffer (w : World) (b : bytes) (mints : list PendingMint) : ProcessMintsResult :=
  if claimed w b then mkProcessMintsResult [] 0 0 true
  else mkProcessMintsResult ["mint-group-0"] 1 (length mints) true.

#[export] Instance world_bridge : BridgeClient World := {|
  pubkey_to_string b := hex_encode b;
  setup_pending_mints_buffer h mints := mret (inl (mint_buffer_of h, 251%N));
  setup_txo_buffer h txos := mret (inl (replicate 32 x22, 252%N));
  process_remaining_pending_mints_groups mints b bump := perform (fun w =>
    (set_view (mkView w.(w_view).(v_db) w.(w_view).(v_header) (w.(w_view).(v_minted) ++ [(b, mints)])) w,
     Ok (inl (process_buffer w b mints))));
  get_current_bridge_state := query (fun w =>
    Ok (inl (mkBridgeChainState (replicate 32 x07) (ShaInstance.hash (ChainWitness.config.(custody_script_config)))
      w.(w_view).(v_header))));
  get_doge_mint := mret (inl ChainWitness.config.(doge_mint));
  get_account a := mret (inl ());
|}.

(** A sender that submits and answers with the idempotency key it was given. *)
#[export] Instance toy_response : HttpResponse BlockUpdateResponse := {|
  response_status r := 200%N;
  response_bytes r := inl [];
  response_text r := inl "";
  json_ambiguous r := inl (mkAmbiguousBlockUpdateResponse "" "" "");
  json_block_update r := inl r;
|}.
#[export] Instance world_sender : Sender World BlockUpdateResponse := {|
  post_block_update body auth := perform (fun w =>
    match hex_decode body.(body_header_hex) with
    | Some h => (set_view (with_header h w.(w_view)) w,
                 Ok (inl (mkBlockUpdateResponse "signature" body.(idempotency_key))))
    | None => (w, Err (External "reqwest"))
    end);
|}.

Lemma perform_quiet {A} (f : World -> World * outcome A) :
  (forall w, agrees w.(w_view) (f w).1.(w_view)) -> quiet w_view (perform f).
Proof. intros Hf s. apply triple_perform. intros w Hw. by split; rewrite Hw. Qed.

Lemma perform_writes g (f : World -> World) :
  (forall w, (f w).(w_view) = g w.(w_view)) -> (forall s s', agrees s s' -> agrees (g s) (g s')) ->
  writes w_view g (perform (fun w => (f w, Ok ()))).
Proof.
  intros Hf Hg s. apply triple_perform. intros w Hw. cbn. rewrite Hf.
  split; [right|]; by apply Hg.
Qed.

#[export] Instance world_service_laws : ServiceLaws World BlockUpdateResponse.
Proof.
  refine {| view := w_view |}; intros; try (by apply quiet_ret); try (by apply quiet_query); try done.
  - by match goal with E : result _ _ = Ok _ |- _ => injection E as <- end.
  - apply perform_writes; [done|auto with view].
  - apply perform_writes; [done|auto with view].
  - apply perform_quiet. intros w. split_and!; [done..|]. cbn. set_solver.
  - by eexists.
  - cbn. set_solver.
  - by match goal with E : result _ _ = Ok _ |- _ => injection E as <- end.
  - by apply perform_quiet.
  - apply perform_quiet. intros w. by case_match.
  - apply triple_perform. intros w Hw.
    match goal with E : hex_decode _ = Some _ |- _ => rewrite E end. cbn.
    split; [right; by apply agrees_with_header|]. split; [right; by apply agrees_with_header|].
    intros. by apply agrees_with_header.
Defined.

#[export] Instance world_files_laws : FilesLaws World.
Proof.
  refine {| files := w_files |}; intros; try done.
  - match goal with |- path_from (path_display ?p) = _ =>
      change (from_option id [] (of_text (text_of p)) = p); by rewrite of_text_of end.
  - cbn in *. unfold query, result in *. cbn in *.
    by match goal with E : ok_or _ _ = Ok _ |- _ => apply ok_or_Ok in E end.
  - cbn. split_and!.
    + apply Forall_singleton. intros q Hq. cbn. by rewrite lookup_insert_ne by done.
    + intros q Hq. cbn. by rewrite lookup_insert_ne by done.
    + intros _ _. cbn. apply lookup_insert_eq.
  - unfold result, final. cbn. unfold perform.
    match goal with E : w_files _ !! _ = Some _ |- _ => rewrite E end. cbn.
    split; [apply Forall_singleton; by right|done].
Defined.

(** ** A pipeline to run *)
Definition params : bytes :=
  le_bytes 8 1 ++ le_bytes 8 100 ++ replicate 16 x00 ++ le_bytes 8 1 ++ replicate 8 x00.

Definition pipeline_config : BlockPipelineConfig := {|
  network := Testnet; electrs_url := "http://electrs"; redis_url := "redis://localhost";
  sender_url := "http://sender"; sender_bearer_token := "token";
  gen_proof_path := ["target"; "release"; "gen-proof"];
  block_elf_path := ["elf"; "release"; "block-transition-testnet"];
  expected_vk_hash := TESTNET_BLOCK_VK_HASH; evidence_dir := ["archive"];
  poll_interval := from_secs 1; redis_seed := 1337; prover_backend := Local;
  proof_prepare_window := 2; proof_queue_prefix := "queue"; proof_wait_interval := from_secs 1;
  start_height := None; old_state_dir := None; witness_dir := None;
  custody_script_config := ChainWitness.config.(custody_script_config);
  recipient_atas := [ClaimsWitness.ata]; required_confirmations := 1;
  config_params := params; initial_header := replicate 320 x00; deposit_evidence_path := None;
  solana_rpc_url := "http://solana"; operator_keypair := ["op.json"]; payer_keypair := ["payer.json"];
  doge_mint := replicate 32 x05; bridge_program := ChainWitness.program;
  pending_mint_program := ChainWitness.program; txo_buffer_program := ChainWitness.program;
|}.

#[export] Instance pipeline_host : Host := ChainWitness.host.

(** Height 2 has the deposits of [ClaimsWitness]; the others pay elsewhere. *)
Definition block_at (h : N) : QDogeBlock :=
  if (h =? 2)%N then ClaimsWitness.block
  else
    let txs := [(ShaInstance.hash (le_bytes 4 h), [mkTxOutput 5 (replicate 23 x0b)])] in
    let root := from_option id [] (match bitcoin_merkle_root (get_hash <$> txs) with Ok r => r | _ => None end) in
    mkQDogeBlock _ (ShaInstance.hash (le_bytes 5 h), ShaInstance.hash (le_bytes 8 (h - 1)), root) txs.

#[export] Instance world_electrs : Electrs World := {|
  get_block_height := mret 5%N;
  get_qd_block h := mret (block_at h);
  get_qd_block_headers_range_parallel a b :=
    mret ((fun i => header (block_at (a + N.of_nat i))) <$> seq 0 (N.to_nat (b + 1 - a)));
|}.

(** A prover that proves what it is asked to. *)
Definition toy_proof (job : ProofJob) : ProverOutput :=
  let hex s := from_option id [] (hex_decode s) in
  mkProverOutput [] [] (replicate 32 x01) (replicate 356 x01)
    (expected_public_values pipeline_config (hex job.(request).(req_old_header))
       (hex job.(request).(req_new_header))).

#[export] Instance world_prover : ProofService World := {|
  ProofTicket := ProofJob;
  proof_submit job := mret job;
  proof_wait job := mret (toy_proof job);
|}.

#[export] Instance world_startup : Startup World := {|
  timeout A d p := (a ← p; mret (Some a));
  redis_connect := mret ();
  bridge_connect c := mret ();
  proof_start c := mret ();
  sender_connect c := mret ();
|}.

#[export] Instance world_pipeline_laws : PipelineLaws World BlockUpdateResponse.
Proof.
  constructor; intros; try (by apply quiet_ret); try (by apply quiet_query).
  - apply quiet_bind; [done|]. intros. apply quiet_ret.
  - cbn in *. match goal with E : result (_ ≫= _) _ = Ok _ |- _ => apply result_bind_Ok in E as (x & Ex & E) end.
    match goal with E : result (mret _) _ = Ok _ |- _ => injection E as <- end.
    split; [done|]. by rewrite final_bind, Ex.
Qed.

(** The checkpoint after height 2, whose deposit is still to be minted. *)
Definition checkpoint2 : PipelineCheckpoint := {|
  Checkpoint.height := 2;
  state_hex := CheckpointWitness.checkpoint.(state_hex);
  header_hex := CheckpointWitness.checkpoint.(header_hex);
  claim_frontier := CheckpointWitness.checkpoint.(claim_frontier);
  txo_block_frontier := CheckpointWitness.checkpoint.(txo_block_frontier);
  claim_history := CheckpointWitness.checkpoint.(claim_history);
  txo_block_history := CheckpointWitness.checkpoint.(txo_block_history);
  pending_finalization := {[ 2%N := ClaimsWitness.recorded ]};
|}.

Definition key : string := checkpoint_key_of pipeline_config.

Definition world2 : World :=
  mkWorld (mkView {[ key := text_of checkpoint2 ]} (replicate 320 x01) [])
    {[ pipeline_config.(block_elf_path) := [x7f] ]} 0.

Definition self2 : BlockPipeline :=
  mkPipeline _ _ pipeline_config key checkpoint2 checkpoint2 ∅ NetworkRetryPolicyOps.default.

(** ** Witnesses *)
Module PipelineWitness.

Lemma matches2 : matches_chain checkpoint2 (replicate 320 x01) = true.
Proof. vm_compute. reflexivity. Qed.

Lemma before2 : before None key checkpoint2 (view world2).
Proof.
  split; [left|exact matches2]. exists (text_of checkpoint2).
  split; [reflexivity|]. apply lookup_singleton_eq.
Qed.

Lemma inv2 : loop_inv None (world2, self2).
Proof. split; [by apply good_self_fresh|exact before2]. Qed.

Abbreviation prepared3 := (result (prepare_height pipeline_config checkpoint2 3) world2).

Lemma prepare_height_spec_witness :
  exists p, prepared3 = Ok p /\ p.(next_checkpoint).(Checkpoint.height) = 3%N /\
    validate_checkpoint p.(next_checkpoint) = Ok () /\
    p.(next_checkpoint).(pending_finalization) !! 2%N = None /\
    p.(next_checkpoint).(pending_finalization) !! 3%N = Some (from_evaluation p.(evaluation)).
Proof.
  assert (is_ok prepared3 = true) as Hok by (vm_compute; reflexivity).
  apply is_ok_true in Hok as [p E]. exists p. split; [exact E|].
  destruct (prepare_height_spec pipeline_config checkpoint2 3 world2 p E)
    as (_ & _ & Hh & Hv & _ & _ & _ & Hf & Hp & _).
  assert (p.(Transition.finalized_height) = 2)%N as Hf2 by (cbn [required_confirmations pipeline_config] in Hf; lia).
  split; [exact Hh|]. split; [exact Hv|]. rewrite !Hp, Hf2. split; reflexivity.
Defined.

Definition output_of (p : PreparedTransition) : ProverOutput := toy_proof p.(proof_job).

Lemma prepared3_next p :
  prepared3 = Ok p -> matches_chain p.(next_checkpoint) p.(new_header) = true /\
    validate_checkpoint p.(next_checkpoint) = Ok () /\ p.(next_checkpoint).(Checkpoint.height) = 3%N.
Proof.
  intros E. destruct (prepared_flight_ok _ _ _ _ _ E) as (_ & Hh & Hv & Hm). by split_and!.
Qed.

Abbreviation committed3 :=
  (p ← prepared3; u ← result (commit_prepared p (output_of p)) (world2, self2); mret (p, u)).

Lemma commit_crash_recoverable_witness :
  exists p, prepared3 = Ok p /\ result (commit_prepared p (output_of p)) (world2, self2) = Ok () /\
    (forall x, x ∈ crash_points (commit_prepared p (output_of p)) (world2, self2) ->
       recoverable None key checkpoint2 p.(next_checkpoint) p.(finalized_buffers) (view x.1)) /\
    stored key p.(next_checkpoint) (view (final (commit_prepared p (output_of p)) (world2, self2)).1).
Proof.
  assert (is_ok committed3 = true) as Hok by (vm_compute; reflexivity).
  apply is_ok_true in Hok as [[p u] E]. apply bind_Ok in E as (p' & Ep & E).
  apply bind_Ok in E as (u' & Eu & E). apply Ok_inj, pair_eq in E as [-> _]. destruct u'.
  exists p. split; [exact Ep|]. split; [exact Eu|].
  destruct (prepared3_next p Ep) as (Hm & _ & _). destruct before2 as [Hh Hc].
  destruct (commit_crash_recoverable None self2 p (output_of p) world2 Hh Hc Hm) as (Hr & _ & Hd).
  split; [exact Hr|]. exact (proj1 (proj2 (proj2 (Hd Eu)))).
Defined.

(** A crash between the submission and the mints. *)
Definition buffers3 : UploadedBuffers := mkUploadedBuffers (mint_buffer_of 2) 251 (replicate 32 x22) 252.
Definition journal3 (p : PreparedTransition) : CheckpointJournal :=
  mkJournal p.(next_checkpoint) (Some buffers3) (Some p.(finalized_buffers)) None None.
Definition submitted3 (p : PreparedTransition) : World :=
  set_view (mkView (<[checkpoint_journal_key key := text_of (journal3 p)]> {[ key := text_of checkpoint2 ]})
    p.(new_header) []) world2.
Definition recovery3 (p : PreparedTransition) : prog World PipelineCheckpoint :=
  reconcile_checkpoint_journal key checkpoint2 p.(new_header) NetworkRetryPolicyOps.default.

Lemma submitted3_stored p : (view (submitted3 p)).(v_db) !! key = Some (text_of checkpoint2).
Proof.
  change ((<[checkpoint_journal_key key := text_of (journal3 p)]>
    ({[ key := text_of checkpoint2 ]} : gmap string string)) !! key = Some (text_of checkpoint2)).
  rewrite lookup_insert_ne by apply journal_key_ne. apply lookup_singleton_eq.
Qed.

Lemma submitted3_recoverable p :
  prepared3 = Ok p ->
  recoverable None key checkpoint2 p.(next_checkpoint) p.(finalized_buffers) (view (submitted3 p)).
Proof.
  intros E. destruct (prepared3_next p E) as (Hm & _ & _).
  apply (rec_submitted _ _ _ _ _ _ (journal3 p)); [|exact Hm| |].
  - left. exists (text_of checkpoint2). split; [reflexivity|]. apply submitted3_stored.
  - exists (text_of (journal3 p)). split; [reflexivity|]. apply lookup_insert_eq.
  - split; [reflexivity|]. split; [reflexivity|]. exists buffers3. split; [reflexivity|]. by intros [].
Qed.

Abbreviation recovered3 := (p ← prepared3; c ← result (recovery3 p) (submitted3 p);
  bail_when (negb (c.(Checkpoint.height) =? 3)%N) EmptyString ;; mret (p, c)).

Lemma reconcile_recovers_witness :
  exists p c, prepared3 = Ok p /\ result (recovery3 p) (submitted3 p) = Ok c /\
    c.(Checkpoint.height) = 3%N /\
    matches_chain c (view (final (recovery3 p) (submitted3 p))).(v_header) = true /\
    (forall x, x ∈ crash_points (recovery3 p) (submitted3 p) ->
       recoverable None key checkpoint2 p.(next_checkpoint) p.(finalized_buffers) (view x)).
Proof.
  assert (is_ok recovered3 = true) as Hok by (vm_compute; reflexivity).
  apply is_ok_true in Hok as [[p c] E]. apply bind_Ok in E as (p' & Ep & E).
  apply bind_Ok in E as (c' & Ec & E). apply bind_Ok in E as ([] & Eh & E).
  apply bail_when_Ok in Eh. apply negb_false_iff, N.eqb_eq in Eh.
  apply Ok_inj, pair_eq in E as [-> ->]. exists p, c. split; [exact Ep|]. split; [exact Ec|].
  destruct (prepared3_next p Ep) as (_ & Hv & Hh).
  assert (p.(next_checkpoint).(Checkpoint.height)
    = saturating_add u32_max checkpoint2.(Checkpoint.height) 1) as Hh' by (rewrite Hh; reflexivity).
  assert (loads None key (view (submitted3 p)) checkpoint2) as Hl.
  { unfold loads. rewrite submitted3_stored. apply of_text_of. }
  destruct (reconcile_recovers None key checkpoint2 p.(next_checkpoint) checkpoint2
    p.(finalized_buffers) (submitted3 p) (submitted3_recoverable p Ep) Hv Hh' Hl) as (Hx & _ & _ & Hc).
  split; [exact Eh|]. split; [exact (proj1 (Hc c Ec))|exact Hx].
Defined.

Abbreviation polled := (result (poll_once None) (world2, self2)).

Lemma poll_once_in_order_witness :
  polled = Ok true /\
  loop_inv None (final (poll_once None) (world2, self2)) /\
  (forall x, x ∈ crash_points (poll_once None) (world2, self2) -> crash_safe None key checkpoint2 (view x.1)).
Proof.
  assert (polled = Ok true) as E by (vm_compute; reflexivity). split; [exact E|].
  destruct (poll_once_in_order None (world2, self2) None inv2) as (Hx & Hok & _).
  split; [exact (proj1 (Hok true E))|exact Hx].
Defined.

(** A crash right after the submission of height 3, and the next start-up. *)
Abbreviation run1 := (run_pipeline [Polled None]).
Definition restarted : outcome (World * BlockPipeline * BlockPipeline) :=
  x ← ok_or (crash_points run1 (world2, self2) !! 21) (External "crash");
  bail_when (bool_decide (x.1.(w_view).(v_header) = replicate 320 x01)) "not submitted" ;;
  bail_when (bool_decide (x.1.(w_view).(v_db) !! key = None)) "no checkpoint" ;;
  bail_when (negb (x.2.(checkpoint).(Checkpoint.height) =? 2)%N) "committed" ;;
  self ← result (initialize pipeline_config) x.1;
  bail_when (negb (self.(checkpoint).(Checkpoint.height) =? 3)%N) "not recovered" ;;
  mret (x, self).

Lemma restart_resumes_witness :
  exists x self, x ∈ crash_points run1 (world2, self2) /\
    x.2.(checkpoint).(Checkpoint.height) = 2%N /\ x.1.(w_view).(v_header) <> replicate 320 x01 /\
    result (initialize pipeline_config) x.1 = Ok self /\
    loop_inv None (final (initialize pipeline_config) x.1, self) /\
    self.(checkpoint).(Checkpoint.height) = 3%N.
Proof.
  assert (is_ok restarted = true) as Hok by (vm_compute; reflexivity).
  apply is_ok_true in Hok as [[x self] E]. unfold restarted in E.
  apply bind_Ok in E as (x' & Ex & E). apply bind_Ok in E as (u1 & Eh & E).
  apply bind_Ok in E as (u2 & Ed & E). apply bind_Ok in E as (u3 & Ec & E).
  apply bind_Ok in E as (self' & Es & E). apply bind_Ok in E as (u4 & Eg & E).
  apply Ok_inj, pair_eq in E as [-> ->]. apply ok_or_Ok in Ex.
  apply bail_when_Ok in Eh, Ed, Ec, Eg. apply bool_decide_eq_false in Eh, Ed.
  apply negb_false_iff, N.eqb_eq in Ec, Eg. apply list_elem_of_lookup_2 in Ex.
  assert (fresh_is None pipeline_config (view x.1)) as Hf by (intros En; destruct (Ed En)).
  destruct (restart_resumes None pipeline_config (world2, self2) x [Polled None] self inv2 eq_refl Ex Hf Es)
    as (Hi & _ & _).
  exists x, self. split; [exact Ex|]. split; [exact Ec|]. split; [exact Eh|]. split; [exact Es|].
  split; [exact Hi|exact Eg].
Defined.

Definition bundle1 : list (string * bytes) := [("proof.bin", [x01; x02]); ("vk.bin", [x03])].

Lemma artifact_bundle_binds_witness :
  (forall b, bundle_wf b -> artifact_bundle_sha256 bundle1 = artifact_bundle_sha256 b ->
     bundle1 = b \/ collision) /\
  artifact_bundle_sha256 bundle1
  <> artifact_bundle_sha256 [("proof.bin", [x01; x02]); ("vk.bin", [x04])].
Proof.
  split; [|vm_compute; discriminate]. intros b Hb E.
  assert (bundle_wf bundle1) as H1 by (repeat constructor).
  exact (artifact_bundle_binds bundle1 b H1 Hb E).
Defined.

Definition archive : Path := [ROOT_DIR; "srv"; "archive"].
Definition block_dir : Path := archive ++ ["height-3"; "content"].
Definition manifest1 : BlockProofEvidence :=
  mkEvidence 2 "submitted" 3 "hash" 2 3 0 0 1 989 0 1 11 "content" EmptyString (path_display block_dir)
    (path_display (block_dir ++ ["manifest.json"])) (path_display (archive ++ ["latest.json"]))
    "key" None None None None false None [] 0 0 "vk" "elf" ∅.
Definition world_old : World := set_files {[ archive ++ ["latest.json"] := [x00] ]} world2.

Lemma write_evidence_manifest_atomic_witness :
  exists m' b, result (write_evidence_manifest manifest1) world_old = Ok m' /\ seals manifest1 m' b /\
    files (final (write_evidence_manifest manifest1) world_old) !! (archive ++ ["latest.json"]) = Some b.
Proof.
  assert (is_ok (result (write_evidence_manifest manifest1) world_old) = true) as Hok
    by (vm_compute; reflexivity).
  apply is_ok_true in Hok as [m' E].
  destruct (write_evidence_manifest_atomic manifest1 archive block_dir world_old eq_refl eq_refl) as [_ Hm].
  destruct (Hm m' E) as (b & Hs & Hl & _). exists m', b. split; [exact E|]. split; [exact Hs|exact Hl].
Defined.

(** Height 3 was submitted, then Redis was restored from before it. *)
Definition archive3 : Path := ["archive"; "height-3"].
Definition archived (p : PreparedTransition) : World :=
  set_files (<[archive3 ++ ["old_state.bin"] := p.(old_state_bytes)]>
    (<[archive3 ++ ["old_header.bin"] := p.(old_header)]>
    (<[archive3 ++ ["witness.bin"] := p.(witness_bytes)]>
    (<[archive3 ++ ["new_header.bin"] := p.(new_header)]> world2.(w_files)))))
    (set_view (with_header p.(new_header) world2.(w_view)) world2).
Abbreviation archive_recovered := (p ← prepared3;
  h ← result (recover_checkpoint_from_proof_archive pipeline_config archive3) (archived p);
  bail_when (negb (h =? 3)%N) EmptyString ;; mret p).

Lemma recover_archive_spec_witness :
  exists p, prepared3 = Ok p /\
    result (recover_checkpoint_from_proof_archive pipeline_config archive3) (archived p) = Ok 3%N /\
    recovered_to pipeline_config (view (archived p)) 3
      (view (final (recover_checkpoint_from_proof_archive pipeline_config archive3) (archived p))).
Proof.
  assert (is_ok archive_recovered = true) as Hok by (vm_compute; reflexivity).
  apply is_ok_true in Hok as [p E]. apply bind_Ok in E as (p' & Ep & E).
  apply bind_Ok in E as (h & Eh & E). apply bind_Ok in E as ([] & E3 & E).
  apply bail_when_Ok in E3. apply negb_false_iff, N.eqb_eq in E3. apply Ok_inj in E. subst p' h.
  exists p. split; [exact Ep|]. split; [exact Eh|].
  exact (proj2 (recover_archive_spec pipeline_config archive3 (archived p)) 3%N Eh).
Defined.
End PipelineWitness.
