(* ===== verification/ProgressInstances.v ===== *)
(** * Catching up in the small world

    The services of [PipelineInstances] answer, its two finalized blocks can be
    prepared and proved one after the other, and the pipeline commits them.  The
    bridge program there skips a buffer that is claimed, and counts nothing. *)
From S2P Require Import Prelude External Codec Instances Merkle Effects NetworkRetry Chain.
From S2P Require Import ChainInstances Checkpoint SolHeader Claims ProofJob Files Services.
From S2P Require Import Journal Transition Evidence Commit Recover Pipeline Progress CatchUp PipelineInstances.
Import HexInstance ShaInstance.

Module ProgressWitness.
Import PipelineWitness.
Definition elf_path : Path := pipeline_config.(block_elf_path).
Definition up (w : World) : Prop := w.(w_files) !! elf_path = Some [x7f].

(** No buffer of a height from [f] on has been processed. *)
Definition unpaid (f : N) (w : World) : Prop := forall h, (f <= h)%N -> claimed w (mint_buffer_of h) = false.
Definition unclaimed (f : N) (b : bytes) (mints : list PendingMint) (w : World) : Prop :=
  b = mint_buffer_of f /\ unpaid f w.

Lemma mint_buffer_inj h h' : mint_buffer_of h = mint_buffer_of h' -> h = h'.
Proof.
  intros E. apply (f_equal tail) in E. change (encode_bytes h = encode_bytes h') in E.
  apply (f_equal (decode_bytes (A := N))) in E. rewrite !decode_encode_bytes in E. by injection E.
Qed.

Lemma answered_ret {A} (P : World -> Prop) (a : A) (Q : A -> Prop) : Q a -> answered P (mret a) Q.
Proof. intros HQ. by apply total_ret. Qed.
Lemma answered_perform {A} (P : World -> Prop) (f : World -> World * outcome A) (Q : A -> Prop) :
  (forall w, P w -> exists a, (f w).2 = Ok a /\ P (f w).1 /\ Q a) -> answered P (perform f) Q.
Proof.
  intros Hf w Hw. destruct (Hf w Hw) as (a & E & Hu & HQ). exists a. unfold result, final, perform.
  destruct (f w) as [w' r]. by split.
Qed.

Lemma services_start : starts_up up pipeline_config.
Proof.
  constructor.
  - intros k w Hw. by eexists.
  - intros k v Hk w Hw. by eexists.
  - intros k Hk w Hw. by eexists.
  - by apply answered_ret.
  - intros A d p P Q HP Hp w Hw. destruct (Hp w Hw) as (a & Ea & Qa). exists (Some a).
    cbn. rewrite result_bind, final_bind, Ea. split; [done|]. eauto.
  - by apply answered_ret.
  - intros operator E w Hw. eexists. split; [reflexivity|]. split; [exact Hw|]. eexists. split; [reflexivity|].
    vm_compute in E. injection E as <-. vm_compute. reflexivity.
  - by apply answered_ret.
  - by apply answered_ret.
  - by apply answered_ret.
Qed.

Definition root : Path := [ROOT_DIR; "srv"; "archive"].

Section calls.
(** Worlds told apart by the block program's file and the mints that are done. *)
Variables (Phi : list (bytes * list PendingMint) -> Prop).
Abbreviation U := (fun w => up w /\ Phi w.(w_view).(v_minted)).

Lemma archive_root : writable_root U root.
Proof.
  assert (forall rest, root ++ rest <> elf_path) as Hne by (intros rest; by vm_compute).
  assert (forall p b w, p <> elf_path -> up w -> up (set_files (<[p := b]> w.(w_files)) w)) as Hup.
  { intros p b w Hp Hw. unfold up. cbn [w_files set_files]. by rewrite lookup_insert_ne. }
  constructor.
  - intros rest b. apply answered_perform. intros w [Hw HPhi]. exists (). split; [done|]. split; [|done].
    split; [exact (Hup _ _ _ (Hne rest) Hw)|exact HPhi].
  - intros rest rest' b w [Hw HPhi]. exists (). set (p := root ++ rest). set (q := root ++ rest').
    assert (p <> elf_path) as Hp by exact (Hne rest). assert (q <> elf_path) as Hq by exact (Hne rest').
    rewrite result_bind, final_bind. change (result (fs_write p b) w) with (Ok () : outcome ()). cbn iota.
    change (final (fs_write p b) w) with (set_files (<[p := b]> w.(w_files)) w).
    unfold result, final. cbn [fs_rename world_files]. unfold perform. cbn [w_files set_files].
    rewrite lookup_insert_eq. split; [done|]. split; [|done]. split; [|exact HPhi].
    unfold up. cbn [w_files set_files fst snd]. rewrite lookup_insert_ne by done.
    rewrite lookup_delete_ne by done. by rewrite lookup_insert_ne by done.
  - intros rest. by apply answered_ret.
Qed.

Lemma services_commit : commits_up U pipeline_config root.
Proof.
  constructor; try (by intros; apply answered_ret; eauto).
  - intros body auth [h Hh]. apply answered_perform. intros w Hw. rewrite Hh. eexists. split; [reflexivity|].
    split; [exact Hw|]. eexists _, _. split; [reflexivity|]. by split_and!.
  - intros w [Hw HPhi]. exists [x7f]. unfold up, elf_path in Hw. unfold result, final.
    cbn [fs_read world_files]. unfold query. cbn [fst snd]. rewrite Hw. by split_and!.
  - apply archive_root.
Qed.
End calls.

(** A buffer just set up is unclaimed, and processing it claims no other. *)
Lemma services_mint : mints_up up unpaid unclaimed pipeline_config root.
Proof.
  constructor.
  - intros f mints. apply total_ret. intros w [Hw Hf]. exists (mint_buffer_of f), 251%N. by split_and!.
  - intros f mints b bump w (Hw & -> & Hf). exists (inl (process_buffer w (mint_buffer_of f) mints)).
    split; [done|]. eexists. split; [done|]. unfold process_buffer. rewrite (Hf f) by lia.
    split_and!; [done..|exact Hw|]. intros h Hh. pose proof (Hf h ltac:(lia)) as Hc.
    unfold claimed in *. apply bool_decide_eq_false in Hc. apply bool_decide_eq_false_2.
    cbn [final process_remaining_pending_mints_groups]. cbn. rewrite fmap_app. cbn. rewrite elem_of_app, list_elem_of_singleton.
    intros [|E]; [done|]. apply mint_buffer_inj in E. lia.
  - intros f. exact (services_commit (fun l => forall h, (f <= h)%N -> bool_decide (mint_buffer_of h ∈ l.*1) = false)).
  - intros f b mints. exact (services_commit (fun l => b = mint_buffer_of f /\
      forall h, (f <= h)%N -> bool_decide (mint_buffer_of h ∈ l.*1) = false)).
Qed.

Lemma serialization : writable.
Proof. constructor; intros; try split; by eexists. Qed.
Lemma configuration : configured pipeline_config.
Proof. split_and!; by vm_compute. Qed.

(** ** The chain of the small world *)

(** A computation that only looks at what [up] fixes: it answers as in [world2]
    and changes nothing. *)
Definition steady {A} (p : prog World A) : Prop :=
  forall w, up w -> result p w = result p world2 /\ final p w = w.

Lemma up_world2 : up world2.
Proof. by vm_compute. Qed.
Lemma steady_lift {A} (m : outcome A) : steady (lift m).
Proof. by intros w Hw. Qed.
Lemma steady_query {A} (f : World -> outcome A) : (forall w, up w -> f w = f world2) -> steady (query f).
Proof. intros Hf w Hw. split; [by apply Hf|done]. Qed.
Lemma steady_bind {A B} (m : prog World A) (f : A -> prog World B) :
  steady m -> (forall a, steady (f a)) -> steady (m ≫= f).
Proof.
  intros Hm Hf w Hw. destruct (Hm w Hw) as [Er Ef]. destruct (Hm world2 up_world2) as [_ Ef2].
  rewrite !result_bind, final_bind, Er, Ef, Ef2. destruct (result m world2) as [a| | |]; [|done..].
  by apply Hf.
Qed.
Lemma steady_elf : steady (file_sha256_hex elf_path).
Proof.
  intros w Hw. pose proof up_world2 as H2. unfold up in Hw, H2. unfold file_sha256_hex.
  unfold result, final. cbn [fs_read world_files]. cbv [mbind prog_bind try query]. by rewrite Hw, H2.
Qed.

Lemma steady_prepare c h : steady (prepare_height pipeline_config c h).
Proof.
  unfold prepare_height, load_old_state, load_witness, load_finalized_block.
  repeat first [apply steady_elf | apply steady_lift | apply steady_bind; [|intros]
    | (by intros w Hw) | case_match; [by intros w Hw|] | case_match].
Qed.

Definition prepared_at (c : PipelineCheckpoint) (h : N) : outcome PreparedTransition :=
  result (prepare_height pipeline_config c h) world2.
Definition after (c : PipelineCheckpoint) (h : N) : PipelineCheckpoint :=
  match prepared_at c h with Ok p => p.(next_checkpoint) | _ => c end.
Abbreviation checkpoint3 := (after checkpoint2 3).
Abbreviation checkpoint4 := (after checkpoint3 4).
Definition good (c : PipelineCheckpoint) : Prop := c = checkpoint2 \/ c = checkpoint3 \/ c = checkpoint4.

(** The transition can be paid out, and its proof passes the checks. *)
Definition serves (p : PreparedTransition) : bool :=
  let mints := to_bridge_mint <$> p.(finalized_buffers).(pending_mints) in
  let output := toy_proof p.(proof_job) in
  is_ok (validate_buffer_payload p.(finalized_buffers) mints)
  && forallb (fun m => bool_decide (m.1 ∈ pipeline_config.(recipient_atas))) mints
  && bool_decide (output.(out_public_values)
       = expected_public_values pipeline_config p.(old_header) p.(new_header))
  && (length output.(out_public_values) =? PUBLIC_VALUES_SIZE)%nat.
Definition served (c : PipelineCheckpoint) (h : N) : bool :=
  match prepared_at c h with Ok p => serves p | _ => false end.

Lemma heights : checkpoint2.(Checkpoint.height) = 2%N /\ checkpoint3.(Checkpoint.height) = 3%N /\
  checkpoint4.(Checkpoint.height) = 4%N.
Proof. by vm_compute. Qed.
Lemma served34 : served checkpoint2 3 && served checkpoint3 4 = true.
Proof. by vm_compute. Qed.

Lemma serves_proves p :
  serves p = true -> payable pipeline_config p.(finalized_buffers) /\
    answers up unpaid (proof_submit p.(proof_job)) (fun t => answers up unpaid (proof_wait t) (proves pipeline_config p)).
Proof.
  unfold serves. intros E. bool_hyps.
  repeat match goal with E : is_ok _ = true |- _ => apply is_ok_true in E as [[] E] end.
  split; [split; [done|]|].
  - intros m Hm. match goal with E : forallb _ _ = true |- _ => rewrite forallb_forall in E;
      specialize (E m (proj1 (list_elem_of_In _ _) Hm)) end. by bool_hyps.
  - intros f w Hw. exists p.(proof_job). split; [reflexivity|]. split; [exact Hw|].
    intros f' w' Hw'. exists (toy_proof p.(proof_job)). split; [reflexivity|]. split; [exact Hw'|].
    split; [reflexivity|]. split; [assumption|]. split; [reflexivity|assumption].
Qed.

Lemma answered_prepare c h :
  served c h = true -> good (after c h) ->
  answers up unpaid (prepare_height pipeline_config c h) (fun p =>
    good p.(next_checkpoint) /\ payable pipeline_config p.(finalized_buffers) /\
    answers up unpaid (proof_submit p.(proof_job)) (fun t => answers up unpaid (proof_wait t) (proves pipeline_config p))).
Proof.
  unfold served, after, prepared_at. intros Hs Hg f w [Hw Hf]. destruct (steady_prepare c h w Hw) as [-> ->].
  destruct (result (prepare_height pipeline_config c h) world2) as [p| | |]; [|done..].
  exists p. split; [done|]. split; [by split|]. split; [exact Hg|]. by apply serves_proves.
Qed.

Lemma fed_chain : feed up unpaid pipeline_config good 4 4.
Proof.
  destruct heights as (E2 & E3 & E4). pose proof served34 as Hs. apply andb_true_iff in Hs as [Hs3 Hs4].
  constructor.
  - intros f. apply answered_ret. change (saturating_sub 5 (required_confirmations pipeline_config)) with 4%N. lia.
  - unfold u32_max. lia.
  - intros c [->|[->| ->]] Hlt.
    + rewrite E2. change (2 + 1)%N with 3%N. apply answered_prepare; [exact Hs3|]. right. left. reflexivity.
    + rewrite E3. change (3 + 1)%N with 4%N. apply answered_prepare; [exact Hs4|]. right. right. reflexivity.
    + rewrite E4 in Hlt. lia.
Qed.

(** The deposits of height 2, which the next commit finalizes, are unclaimed. *)
Lemma unpaid2 : serving up unpaid (due pipeline_config checkpoint2) world2.
Proof. split; [exact up_world2|]. intros h _. apply bool_decide_eq_false_2, not_elem_of_nil. Qed.
Lemma due_deposits : pending_mints <$> checkpoint2.(pending_finalization) !! due pipeline_config checkpoint2 <> Some [].
Proof. by vm_compute. Qed.

(** What a run leaves in the journal, the bridge program completes. *)
Lemma resumes_all s : resumes up pipeline_config s.
Proof.
  intros j fb u _ _ _ _ _ w Hw. eexists. split; [reflexivity|]. split; [exact Hw|].
  eexists. split; [reflexivity|]. unfold process_buffer. by case_match.
Qed.

(** From the checkpoint of height 2, two polls commit the two finalized blocks;
    and whatever stops a run from there, a start-up that comes back to height 2 does
    the same. *)
Lemma pipeline_catches_up_witness :
  let polls := run_pipeline [Polled None; Polled None] in
  result polls (world2, self2) = Ok () /\
  (final polls (world2, self2)).2.(checkpoint).(Checkpoint.height) = 4%N /\
  forall events x, x ∈ crash_points (run_pipeline events) (world2, self2) -> up x.1 ->
    (view x.1).(v_db) !! key <> None -> unpaid 2 (final (initialize pipeline_config) x.1) ->
    exists self, result (initialize pipeline_config) x.1 = Ok self /\
      (self.(checkpoint) = checkpoint2 ->
       (final polls (final (initialize pipeline_config) x.1, self)).2.(checkpoint).(Checkpoint.height) = 4%N).
Proof.
  destruct (pipeline_catches_up up unpaid unclaimed pipeline_config root None (world2, self2) good 4 4
    services_start services_mint serialization configuration fed_chain inv2 eq_refl) as [Hp Hr].
  destruct (Hp unpaid2 (fed_fresh up unpaid pipeline_config good key checkpoint2 _ (or_introl eq_refl)) 2)
    as (Ep & _ & _ & Hh); [discriminate|].
  split; [exact Ep|]. split; [exact Hh|].
  intros events x Hx Hu Hn H2. destruct (Hr events x Hx Hu) as (self & E & _ & _ & _ & Hc);
    [by intros En; destruct Hn|done|apply resumes_all|]. exists self. split; [exact E|]. intros Es.
  destruct (Hc (or_introl Es)) with (k := 2) as (_ & _ & Hh2); rewrite Es in *; [exact H2|discriminate|exact Hh2].
Defined.
End ProgressWitness.
