(* ===== verification/TestsQueue.v ===== *)
(** * The repository's tests of the retry policy and of the proof queue

    The unit tests of [network_retry.rs], of [block_pipeline.rs]'s
    [network_retry_tests] and of [proof_queue.rs], as definitions over the
    model: each assertion is a conjunct, each [unwrap] a match.  SHA-256 is a
    toy hash, the request's JSON is its fields in order, and the Redis
    database is a map; the clock of the retry tests advances only by its
    sleeps. *)
From S2P Require Import Prelude External Instances Effects NetworkRetry Chain ProofJob ProofQueue.
From S2P Require Import Prover Files Services Backend.
Import HexInstance ShaInstance RedisInstance.
Import NetworkRetryPolicyOps.

(** ** [network_retry.rs] *)
Module NetworkRetryTests.

(** The clock, and [attempts]. *)
Definition World : Type := N * nat.
#[local] Instance test_clock : Clock World := {| now w := w.1; sleep d w := ((w.1 + d)%N, w.2) |}.

(** [|| async { .. attempts.fetch_add(1, SeqCst) .. }] *)
Definition counting {A} (answer : nat -> A) : prog World A :=
  perform (fun w => ((w.1, S w.2), Ok (answer w.2))).
Definition attempts_of (w : World) : nat := w.2.

Definition retries_transient_failures_until_success : bool :=
  let policy := new (from_secs 1) (from_millis 1) (from_millis 2) in
  let p := run (counting (fun attempts => if (attempts <? 2)%nat then Retry "temporary" else Success 42%N)) 10 policy in
  match result p (0%N, 0) with Ok (inl v) => (v =? 42)%N | _ => false end
  && (attempts_of (final p (0%N, 0)) =? 3)%nat.

Definition returns_non_retryable_failures_immediately : bool :=
  let p := run (T := ()) (counting (fun _ => Fatal "invalid response")) 10 default in
  match result p (0%N, 0) with Ok (inr e) => String.eqb e "invalid response" | _ => false end
  && (attempts_of (final p (0%N, 0)) =? 1)%nat.

Definition default_policy_is_bounded_so_production_retries_terminate : bool :=
  is_bounded default && negb (is_bounded (new (from_secs 1) (from_millis 1) (from_millis 2))).

Definition always_retry_terminates_at_max_attempts : bool :=
  let policy := with_max_attempts (new (from_secs 1) (from_millis 1) (from_millis 2)) 5 in
  let p := run (T := ()) (counting (fun _ => Retry "still transient")) 10 policy in
  match result p (0%N, 0) with Ok (inr e) => String.eqb e "still transient" | _ => false end
  && (attempts_of (final p (0%N, 0)) =? 5)%nat.

Definition always_retry_terminates_at_overall_deadline : bool :=
  let policy := with_overall_deadline (new (from_secs 1) (from_millis 20) (from_millis 40)) (from_millis 60) in
  let p := run (T := ()) (counting (fun _ => Retry "still transient")) 10 policy in
  match result p (0%N, 0) with Ok (inr e) => String.eqb e "still transient" | _ => false end
  && (2 <=? attempts_of (final p (0%N, 0)))%nat.

Definition retryable_statuses_are_limited_to_transient_failures : bool :=
  forallb is_retryable_http_status [408; 425; 429; 500; 502; 503; 504]%N
  && forallb (fun status => negb (is_retryable_http_status status)) [400; 401; 403; 404; 409; 422]%N.

Definition connection_reset_and_eof_are_retryable : bool :=
  is_retryable_io_kind ConnectionReset && is_retryable_io_kind UnexpectedEof
  && negb (is_retryable_io_kind (OtherKind "InvalidData")).

(** ** [network_retry_tests] of [block_pipeline.rs] *)
Definition solana_connection_reset_is_retryable : bool :=
  is_retryable_solana_client_error (KindIo ConnectionReset).
Definition solana_invalid_data_is_not_retryable : bool :=
  negb (is_retryable_solana_client_error (KindIo (OtherKind "InvalidData"))).
Definition solana_confirmation_timeout_is_not_blindly_resent : bool :=
  negb (is_retryable_bridge_error ConfirmationTimeout)
  && is_retryable_bridge_error ConnectionTimeout && is_retryable_bridge_error RateLimited.

Definition all : list bool :=
  [retries_transient_failures_until_success; returns_non_retryable_failures_immediately;
   default_policy_is_bounded_so_production_retries_terminate; always_retry_terminates_at_max_attempts;
   always_retry_terminates_at_overall_deadline; retryable_statuses_are_limited_to_transient_failures;
   connection_reset_and_eof_are_retryable; solana_connection_reset_is_retryable;
   solana_invalid_data_is_not_retryable; solana_confirmation_timeout_is_not_blindly_resent].
End NetworkRetryTests.

(** ** [proof_queue.rs] *)
Module ProofQueueTests.

#[local] Instance request_json : Json ProofRequest := {|
  to_json r := Some (String.concat "," [r.(request_id); r.(req_old_state); r.(req_witness);
    r.(finalized_witness); r.(req_custody_script_config); decimal r.(req_required_confirmations);
    decimal r.(req_flat_fee); decimal r.(fee_num); decimal r.(fee_den);
    r.(req_old_header); r.(req_new_header); r.(req_config_params)]);
  from_json _ := None;
|}.
#[local] Instance daemon_json : DaemonJson := {|
  Value := ProverProofResponse;
  value_to_vec r := Some (string_bytes r.(kind));
  value_from_slice _ := None;
  response_from_value r := Some r;
|}.

Definition request : ProofRequest :=
  mkProofRequest "block-42" "00" "11" "" (repeat_text 32 "22") 6 1 2 3
    (repeat_text 320 "33") (repeat_text 320 "44") (repeat_text 48 "55").

Definition a_job : outcome ProofJob :=
  new_job "testnet" 42 (repeat_text 32 "66") "block-transition-testnet"
    (repeat_text 32 "77") (repeat_text 32 "88") request.
(** [let job = job();] *)
Definition with_job (test : ProofJob -> bool) : bool :=
  match a_job with Ok job => test job | _ => false end.

Definition set_request (job : ProofJob) (r : ProofRequest) : ProofJob :=
  mkProofJob job.(schema_version) job.(job_id) job.(job_network) job.(job_height)
    job.(parent_checkpoint_sha256) job.(input_fingerprint) job.(job_guest_id) job.(job_block_elf_sha256)
    job.(job_vkey_hash) r.
Definition set_parent (job : ProofJob) (parent : string) : ProofJob :=
  mkProofJob job.(schema_version) job.(job_id) job.(job_network) job.(job_height)
    parent job.(input_fingerprint) job.(job_guest_id) job.(job_block_elf_sha256)
    job.(job_vkey_hash) job.(ProofJob.request).
Definition set_schema (job : ProofJob) (version : N) : ProofJob :=
  mkProofJob version job.(job_id) job.(job_network) job.(job_height)
    job.(parent_checkpoint_sha256) job.(input_fingerprint) job.(job_guest_id) job.(job_block_elf_sha256)
    job.(job_vkey_hash) job.(ProofJob.request).
Definition set_witness (r : ProofRequest) (witness : string) : ProofRequest :=
  mkProofRequest r.(request_id) r.(req_old_state) witness r.(finalized_witness)
    r.(req_custody_script_config) r.(req_required_confirmations) r.(req_flat_fee) r.(fee_num)
    r.(fee_den) r.(req_old_header) r.(req_new_header) r.(req_config_params).
Definition set_finalized_witness (r : ProofRequest) (text : string) : ProofRequest :=
  mkProofRequest r.(request_id) r.(req_old_state) r.(req_witness) text
    r.(req_custody_script_config) r.(req_required_confirmations) r.(req_flat_fee) r.(fee_num)
    r.(fee_den) r.(req_old_header) r.(req_new_header) r.(req_config_params).

Definition is_err {A} (r : outcome A) : bool := match r with Err _ => true | _ => false end.

Definition job_identity_binds_request_and_parent : bool :=
  with_job (fun job =>
    is_ok (validate job)
    && is_err (validate (set_request job (set_witness job.(ProofJob.request) "12")))
    && is_err (validate (set_request job (set_finalized_witness job.(ProofJob.request) "13")))
    && is_err (validate (set_parent job (repeat_text 32 "67")))).

(** [ProofJob::new] from the fields of a job. *)
Definition recreated (job : ProofJob) : outcome ProofJob :=
  new_job job.(job_network) job.(job_height) job.(parent_checkpoint_sha256) job.(job_guest_id)
    job.(job_block_elf_sha256) job.(job_vkey_hash) job.(ProofJob.request).

Definition restart_with_same_inputs_reuses_the_same_job_id : bool :=
  with_job (fun first =>
    match recreated first with
    | Ok restarted =>
        String.eqb first.(input_fingerprint) restarted.(input_fingerprint)
        && String.eqb first.(job_id) restarted.(job_id)
    | _ => false
    end).

Definition set_res_fingerprint {V} (r : ProofResult V) (fingerprint : string) : ProofResult V :=
  mkProofResult r.(res_schema_version) r.(res_job_id) r.(res_network) r.(res_height)
    r.(res_parent_checkpoint_sha256) fingerprint r.(res_guest_id) r.(res_block_elf_sha256)
    r.(res_vkey_hash) r.(res_outcome).

Definition result_identity_mismatch_fails_closed : bool :=
  with_job (fun job =>
    is_err (validate_for (set_res_fingerprint (error_result (V := Value) job "failed") (repeat_text 32 "99")) job)).

(** *** Leases *)
#[local] Instance lease_error_eq_dec : EqDecision LeaseCasError.
Proof. solve_decision. Defined.
Definition refused {A} (e : LeaseCasError) (r : A + LeaseCasError) : bool :=
  match r with inr e' => bool_decide (e = e') | inl _ => false end.
Definition completed_attempt (n : N) (r : ProofJobState + LeaseCasError) : bool :=
  match r with inl (Completed _ attempt) => (attempt =? n)%N | _ => false end.

Definition lease_transitions_require_matching_fence_and_live_lease : bool :=
  match claim_state Queued "worker-a" "lease-a" 200 1 with
  | inl claimed =>
      refused FenceMismatch (heartbeat_state claimed "worker-b" "lease-a" 300 100)
      && match heartbeat_state claimed "worker-a" "lease-a" 300 100 with
         | inl heartbeat => completed_attempt 1 (complete_state heartbeat "worker-a" "lease-a" 250)
         | inr _ => false
         end
      && refused Expired (complete_state claimed "worker-a" "lease-a" 200)
  | inr _ => false
  end.

Definition fail_refused (e : LeaseCasError) (r : option (ProofJobState + LeaseCasError)) : bool :=
  match r with Some r => refused e r | None => false end.

Definition fail_state_requires_matching_fence_and_live_lease_and_preserves_error : bool :=
  match claim_state Queued "worker-a" "lease-a" 200 7 with
  | inl claimed =>
      fail_refused FenceMismatch (fail_state claimed "worker-b" "lease-a" 100 "e")
      && fail_refused FenceMismatch (fail_state claimed "worker-a" "lease-b" 100 "e")
      && fail_refused Expired (fail_state claimed "worker-a" "lease-a" 200 "e")
      && fail_refused NotClaimed (fail_state Queued "worker-a" "lease-a" 100 "e")
      && fail_refused NotClaimed (fail_state (Completed 90 1) "worker-a" "lease-a" 100 "e")
      && match fail_state claimed "worker-a" "lease-a" 100 "boom" with
         | Some (inl (Failed failed_ms attempt error)) =>
             (attempt =? 7)%N && String.eqb error "boom" && (failed_ms =? 100)%N
         | _ => false
         end
  | inr _ => false
  end.

Definition complete_state_rejects_wrong_worker_fence : bool :=
  match claim_state Queued "worker-a" "lease-a" 200 1 with
  | inl claimed =>
      refused FenceMismatch (complete_state claimed "worker-b" "lease-a" 100)
      && refused FenceMismatch (complete_state claimed "worker-a" "lease-b" 100)
      && completed_attempt 1 (complete_state claimed "worker-a" "lease-a" 100)
  | inr _ => false
  end.

Definition namespace_and_keys_match_protocol : bool :=
  let namespace := proof_namespace DEFAULT_QUEUE_PREFIX "testnet" 1337 in
  let keys := QueueKeysOps.new namespace in
  String.eqb namespace "PDOGE-SP1-PROOF-V2-testnet-1337"
  && String.eqb keys.(queue) "PDOGE-SP1-PROOF-V2-testnet-1337:queue"
  && String.eqb (QueueKeysOps.job keys "abc") "PDOGE-SP1-PROOF-V2-testnet-1337:job:abc"
  && String.eqb (QueueKeysOps.state keys "abc") "PDOGE-SP1-PROOF-V2-testnet-1337:state:abc"
  && String.eqb (QueueKeysOps.result keys "abc") "PDOGE-SP1-PROOF-V2-testnet-1337:result:abc".

(** *** Results *)
Definition daemon_response_json (job : ProofJob) (proof public_values : bytes) : ProverProofResponse := {|
  kind := "proof";
  resp_request_id := Some job.(ProofJob.request).(request_id);
  ok := true;
  resp_network := Some job.(job_network);
  resp_guest_id := Some job.(job_guest_id);
  resp_block_elf_sha256 := Some job.(job_block_elf_sha256);
  resp_vkey_hash := Some job.(job_vkey_hash);
  proof_size := Some (length proof);
  proof_bytes := Some (hex_encode proof);
  public_values_size := Some (length public_values);
  ProofJob.public_values := Some (hex_encode public_values);
  resp_error := None;
|}.
Definition the_proof : bytes := replicate 356 xab.
Definition the_values : bytes := replicate 32 xcd.
Definition well_formed (job : ProofJob) : ProverProofResponse := daemon_response_json job the_proof the_values.

Definition decodes_to_the_proof (r : outcome ProverOutput) : bool :=
  match r with
  | Ok output => bool_decide (output.(out_proof) = the_proof) && bool_decide (output.(out_public_values) = the_values)
  | _ => false
  end.

Definition into_prover_output_decodes_well_formed_success_result : bool :=
  with_job (fun job =>
    let output := into_prover_output (success job (well_formed job : Value) []) job in
    decodes_to_the_proof output
    && match output, decode_hex_32 job.(job_vkey_hash) with
       | Ok output, Ok vk => bool_decide (output.(vk_hash) = vk)
       | _, _ => false
       end).

(** [response_overriding], one field at a time. *)
Definition cases (job : ProofJob) : list ProverProofResponse :=
  let '(mkProverProofResponse kind id ok network guest elf vkey psize p vsize v error) := well_formed job in
  [mkProverProofResponse "identity" id ok network guest elf vkey psize p vsize v error;
   mkProverProofResponse kind (Some "block-999") ok network guest elf vkey psize p vsize v error;
   mkProverProofResponse kind id false network guest elf vkey psize p vsize v (Some "boom");
   mkProverProofResponse kind id ok (Some "regtest") guest elf vkey psize p vsize v error;
   mkProverProofResponse kind id ok network (Some "other") elf vkey psize p vsize v error;
   mkProverProofResponse kind id ok network guest (Some (repeat_text 32 "00")) vkey psize p vsize v error;
   mkProverProofResponse kind id ok network guest elf (Some (repeat_text 32 "00")) psize p vsize v error;
   mkProverProofResponse kind id ok network guest elf vkey psize None vsize v error;
   mkProverProofResponse kind id ok network guest elf vkey psize p vsize None error;
   mkProverProofResponse kind id ok network guest elf vkey (Some 999) p vsize v error;
   mkProverProofResponse kind id ok network guest elf vkey psize p (Some 999) v error;
   mkProverProofResponse kind id ok network guest elf vkey psize (Some "zz") vsize v error].

Definition into_prover_output_fails_closed_on_malformed_or_mismatched_responses : bool :=
  with_job (fun job =>
    forallb (fun response => is_err (into_prover_output (success job (response : Value) []) job)) (cases job)
    && match into_prover_output (error_result job "permanent failure") job with
       | Err (ProverRequestErr _) => true
       | _ => false
       end).

Definition completed_proof_result_validates_for_recreated_job : bool :=
  with_job (fun job =>
    let result := success job (well_formed job : Value) [] in
    match recreated job with
    | Ok restarted =>
        String.eqb restarted.(job_id) job.(job_id) && identity_matches restarted result
        && is_ok (validate_for result restarted)
        && decodes_to_the_proof (into_prover_output result restarted)
    | _ => false
    end).

Definition validate_rejects_uppercase_hex_wrong_byte_length_and_schema_mismatch : bool :=
  is_err (new_job "testnet" 42 (repeat_text 32 "AB") "block-transition-testnet"
            (repeat_text 32 "77") (repeat_text 32 "88") request)
  && is_err (new_job "testnet" 42 (repeat_text 66 "6") "block-transition-testnet"
               (repeat_text 32 "77") (repeat_text 32 "88") request)
  && with_job (fun job => is_err (validate (set_schema job (PROOF_SCHEMA_VERSION + 1)))).

(** *** Submission and waiting on Redis

    The database of the test, alone on its keys: commands answer from the map,
    and a blocking pop elapses. *)
#[local] Instance test_client : QueueClient database := {|
  redis_get k := query (fun d => Ok (db_get d k));
  redis_brpop _ _ := mret Elapsed;
  pause _ := mret ();
|}.
#[local] Instance job_json : Json ProofJob := {|
  to_json j := Some (String.concat "," [j.(job_id); j.(job_network); decimal j.(job_height)]);
  from_json _ := None;
|}.
#[local] Instance result_json : Json (ProofResult Value) := {| to_json _ := None; from_json _ := None |}.

Definition claimed_state : ProofJobState := Claimed "worker-a" "lease-a" 1 3.
Definition claimed_json : string := "Claimed,worker-a,lease-a,1,3".
#[local] Instance state_json : Json ProofJobState := {|
  to_json s := if bool_decide (s = claimed_state) then Some claimed_json else None;
  from_json s := if String.eqb s claimed_json then Some claimed_state
                 else if String.eqb s QUEUED_JSON then Some Queued else None;
|}.

Definition redis_behavior_submit_and_wait_preserves_expired_claim : bool :=
  with_job (fun job =>
    let keys := QueueKeysOps.new "qa-behavior-1-2" in
    let id := job.(job_id) in
    match to_json job with
    | Some job_json =>
        let submit := SUBMIT_JOB_SCRIPT (QueueKeysOps.job keys id) (QueueKeysOps.state keys id)
                        (QueueKeysOps.attempt keys id) keys.(queue) job_json id in
        let '(d, created) := submit (∅, ∅) in
        let '(d_dup, dup) := submit d in
        let collided := submit (db_set (QueueKeysOps.job keys id) "garbage" d_dup) in
        (* the worker's claim: the id leaves the queue, the state and the lease are written *)
        let d_claimed : database :=
          db_rpush keys.(leases) id
            (db_set (QueueKeysOps.state keys id) claimed_json (d_dup.1, <[keys.(queue) := []]> d_dup.2)) in
        let wait := wait_result 15 keys (from_millis 10) job in
        let d_after := final wait d_claimed in
        match created with inl n => (n =? 1)%Z | inr _ => false end
        && bool_decide (db_get d (QueueKeysOps.state keys id) = Some QUEUED_JSON)
        && bool_decide (db_get d (QueueKeysOps.attempt keys id) = Some "0")
        && bool_decide (db_list d keys.(queue) = [id])
        && match dup with inl n => (n =? 0)%Z | inr _ => false end
        && bool_decide (db_list d_dup keys.(queue) = [id])
        && match collided.2 with inr e => contains "JOB_ID_COLLISION" e | inl _ => false end
        && match result wait d_claimed with OutOfFuel => true | _ => false end
        && bool_decide (db_get d_after (QueueKeysOps.state keys id) = Some claimed_json)
        && bool_decide (db_list d_after keys.(queue) = [])
        && (length (db_list d_after keys.(leases)) =? 1)%nat
    | None => false
    end).

Definition all : list bool :=
  [job_identity_binds_request_and_parent; restart_with_same_inputs_reuses_the_same_job_id;
   result_identity_mismatch_fails_closed; lease_transitions_require_matching_fence_and_live_lease;
   namespace_and_keys_match_protocol; into_prover_output_decodes_well_formed_success_result;
   into_prover_output_fails_closed_on_malformed_or_mismatched_responses;
   completed_proof_result_validates_for_recreated_job;
   fail_state_requires_matching_fence_and_live_lease_and_preserves_error;
   complete_state_rejects_wrong_worker_fence;
   validate_rejects_uppercase_hex_wrong_byte_length_and_schema_mismatch;
   redis_behavior_submit_and_wait_preserves_expired_claim].
End ProofQueueTests.

(** The model passes them. *)
Theorem queue_tests_pass : forallb id (NetworkRetryTests.all ++ ProofQueueTests.all) = true.
Proof. vm_compute. reflexivity. Qed.
