(* ===== verification/TestsPipeline.v ===== *)
(** * The repository's tests of the pipeline

    The unit tests of [block_pipeline.rs], as definitions over the model: each
    assertion is a conjunct, each [unwrap] a match; an error message is checked
    as far as the model keeps it, with its placeholders.  SHA-256, the custody
    scripts and the claim helper are toy instances, the trees have a height of
    32; the ends of the test's child processes are scripted events.  The two tests
    that also compare the old and new roots of the helper's transition leave
    those assertions out: the program does not read the old roots.  The helper's
    append-only tree, rebuilt from a frontier in one test, is the fold of the
    frontier's path. *)
From S2P Require Import Prelude External Codec Instances Merkle Effects NetworkRetry Chain.
From S2P Require Import ChainInstances Checkpoint SolHeader Claims ProofJob ProofQueue Prover Files Daemon.
From S2P Require Import Services Journal Transition Evidence.
Import HexInstance ShaInstance.

Module PipelineTests.

Definition message {A} (r : outcome A) : string := match r with Err (Anyhow s) => s | _ => "" end.
Definition fails_with {A} (needle : string) (r : outcome A) : bool := contains needle (message r).

(** ** Paths *)
#[local] Instance host : Host := {|
  debug_assertions := false; is_file _ := false; is_blank s := String.eqb s "";
  read_keypair_file _ := None; find_program_address _ _ := [];
|}.
Definition missing_path : Path := [ROOT_DIR; "tmp"; "missing-gen-proof"].

Definition redis_backend_does_not_require_local_gen_proof_path : bool :=
  negb (is_file missing_path) && is_ok (validate_gen_proof_path Redis missing_path).
Definition local_backend_rejects_missing_gen_proof_path : bool :=
  negb (is_file missing_path)
  && fails_with "SP1 gen-proof executable does not exist" (validate_gen_proof_path Local missing_path).

(** ** The prover daemon: the child's output still to come, its diagnostics and the clock *)
Record PipeWorld := mkPipe { events : list DaemonEvent; buffer : bytes; clock : N }.
#[local] Instance pipe_clock : Clock PipeWorld := {|
  now := clock; sleep d w := mkPipe w.(events) w.(buffer) (w.(clock) + d);
|}.
#[local] Instance pipe_processes : Processes PipeWorld := {|
  Child := ();
  spawn p args := mret ();
  child_write c b u := mret (Some ());
  child_flush c u := mret (Some ());
  next_event c u := perform (fun w =>
    match w.(events) with
    | e :: rest => (mkPipe rest w.(buffer) w.(clock), Ok (Some e))
    | [] => (mkPipe [] w.(buffer) (N.max w.(clock) u), Ok None)
    end);
  child_wait c := mret (); child_wait_until c u := mret (Some ()); child_kill c := mret ();
  close_stdin c := mret (); drain_stderr c := mret []; abort_stderr c := mret ();
  diagnostics w c := w.(buffer); set_diagnostics c b w := mkPipe w.(events) b w.(clock);
  save_prover_args := false;
|}.

Definition daemon_response_wait_reports_early_child_exit : bool :=
  fails_with "before returning a response; stderr"
    (result (read_line 3 () (from_secs 2))
       (mkPipe [Chunk (string_bytes "diagnostic"); Output Exited] [] 0)).

Definition identity_line : bytes := string_bytes "{identity}".
Definition daemon_response_wait_skips_non_json_startup_banner : bool :=
  let boot := mkPipe [Output (Line (string_bytes "startup banner" ++ [x0a])); Output (Line (identity_line ++ [x0a]))] [] 0 in
  let p := read_line 3 () (from_secs 2) in
  match result p boot, result (finish_stderr ()) (final p boot) with
  | Ok (Some response), Ok captured =>
      bool_decide (response = identity_line)
      && bool_decide (captured = string_bytes "startup banner" ++ [x0a])
  | _, _ => false
  end.

Definition daemon_diagnostics_are_drained_per_request : bool :=
  let boot := mkPipe [] (string_bytes "request-one") 0 in
  match result (take_stderr ()) boot, result (take_stderr ()) (final (take_stderr ()) boot) with
  | Ok first, Ok second => bool_decide (first = string_bytes "request-one") && bool_decide (second = [])
  | _, _ => false
  end.

Definition daemon_alive_but_silent_times_out : bool :=
  fails_with "did not respond" (result (read_response_line_within 3 () (from_millis 500)) (mkPipe [] [] 0)).

(** ** The order of commits *)
Definition global_journal_starts_only_after_proof_validation : bool :=
  negb (commit_may_start Preparing) && negb (commit_may_start Waiting)
  && negb (commit_may_start ProofFailed) && commit_may_start Validated.

#[local] Instance action_eq_dec : EqDecision OrderedProofAction.
Proof. solve_decision. Defined.
Definition acts (committed : N) (states : list (N * SimulatedProofState)) (expected : OrderedProofAction) : bool :=
  bool_decide (ordered_proof_action committed (list_to_map states) = expected).

(** The [while let] loop: the heights committed, and the tip it leaves. *)
Fixpoint commit_all (fuel : nat) (committed : N) (states : gmap N SimulatedProofState) : list N * N :=
  match fuel with
  | O => ([], committed)
  | S fuel =>
      match ordered_proof_action committed states with
      | Commit h => let '(order, tip) := commit_all fuel h (delete h states) in (h :: order, tip)
      | _ => ([], committed)
      end
  end.

Definition out_of_order_ready_proofs_commit_strictly_in_height_order : bool :=
  acts 42 [(43, Pending); (44, Pending); (45, Ready)]%N (Wait 43)
  && acts 42 [(43, Ready); (44, Pending); (45, Ready)]%N (Commit 43)
  && acts 43 [(44, Pending); (45, Ready)]%N (Wait 44)
  && bool_decide (commit_all 5 43 (list_to_map [(44, Ready); (45, Ready)]%N) = ([44; 45], 45)%N).

Definition earlier_pending_or_failed_proof_blocks_ready_suffix : bool :=
  acts 42 [(43, Pending); (44, Ready); (45, Ready)]%N (Wait 43)
  && acts 42 [(43, SimFailed); (44, Ready); (45, Ready)]%N (Fail 43).

Definition window_one_retains_single_height_behavior : bool :=
  acts 42 [(43, Ready)]%N (Commit 43) && acts 43 [(43, Ready)]%N Idle.

Definition ordered_proof_action_never_commits_past_a_missing_height : bool :=
  acts 42 [(44, Ready)]%N Idle && acts 42 [(42, Ready)]%N Idle.

Definition ordered_proof_action_failed_height_blocks_every_ready_suffix_never_skips : bool :=
  acts 42 [(43, SimFailed); (44, Ready); (45, Ready); (46, Ready)]%N (Fail 43).

Definition ordered_proof_action_pending_height_waits_even_if_suffix_is_ready : bool :=
  acts 42 [(43, Pending); (44, Ready)]%N (Wait 43).

Definition ordered_proof_action_at_u32_max_returns_idle_without_overflow : bool :=
  acts u32_max [] Idle && acts u32_max [(u32_max, Ready)] Idle.

Definition checkpoint_journal_key_is_namespaced : bool :=
  String.eqb (checkpoint_journal_key "PDOGE-E2E-BLOCK-CHECKPOINT-V3-testnet-1337")
    "PDOGE-E2E-BLOCK-CHECKPOINT-V3-testnet-1337-pending".

(** ** Recovery decisions *)
#[local] Instance tree_params : TreeParams := {|
  AUTO_CLAIM_DEPOSITS_TREE_HEIGHT := 32;
  TXO_TREE_INDEX_BITS_BLOCK_NUM_LENGTH := 32;
  TXO_BLOCK_FULL_MERKLE_TREE_HEIGHT := 22;
  PSY_DOGE_BRIDGE_BLOCK_HASH_CACHE_SIZE := 32;
|}.

Definition zero (level : nat) : bytes := from_option id [] (SHA256_ZERO_HASHES !! level).
Definition empty_txo_frontier (height : N) : MerkleFrontier :=
  MerkleFrontierOps.new height (zero TXO_BLOCK_FULL_MERKLE_TREE_HEIGHT)
    ((fun level => zero (TXO_BLOCK_FULL_MERKLE_TREE_HEIGHT + level)) <$> seq 0 TXO_TREE_INDEX_BITS_BLOCK_NUM_LENGTH).
(** [empty_checkpoint], with a header of the test's choice. *)
Definition checkpoint_with (height : N) (header : bytes) : PipelineCheckpoint := {|
  Checkpoint.height := height;
  state_hex := "";
  header_hex := hex_encode header;
  claim_frontier := MerkleFrontierOps.new 0 (zero 0) (zero <$> seq 0 AUTO_CLAIM_DEPOSITS_TREE_HEIGHT);
  txo_block_frontier := empty_txo_frontier height;
  claim_history := [];
  txo_block_history := replicate (N.to_nat height + 1) (zero TXO_BLOCK_FULL_MERKLE_TREE_HEIGHT);
  pending_finalization := ∅;
|}.
Definition chain_header : bytes := replicate HEADER_SIZE x00.
Definition empty_checkpoint (height : N) : PipelineCheckpoint := checkpoint_with height chain_header.
(** [committed.header_hex = hex::encode([1u8; HEADER_SIZE])] *)
Definition stale (height : N) : PipelineCheckpoint := checkpoint_with height (replicate HEADER_SIZE x01).

Definition stale_checkpoint_is_rejected_against_on_chain_header : bool :=
  is_ok (assert_checkpoint_matches_chain (empty_checkpoint 42) chain_header)
  && fails_with "stale off-chain state" (assert_checkpoint_matches_chain (stale 42) chain_header).

(** A helper without deposits, for [BlockBufferCommitment::empty]. *)
Definition mints_hash (l : list (bytes * N)) : bytes := ShaInstance.hash (ClaimsInstance.encode_mints l).
Definition empty_buffers : BlockBufferCommitment := {|
  pending_mints_hash_hex := hex_encode (mints_hash []);
  txo_output_list_hash_hex := hex_encode (hash_impl_sha256_bytes []);
  pending_mints := []; txo_indices := []; deposit_count := 0; minted_amount_sats := 0;
  auto_claim_start_index := 0; auto_claim_end_index := 0; fees_collected := 0;
|}.
Definition default_pubkey : bytes := replicate 32 x00.
Definition test_journal (checkpoint : PipelineCheckpoint) (finalized uploaded signature mint_done : bool)
  : CheckpointJournal :=
  mkJournal checkpoint
    (if uploaded then Some (mkUploadedBuffers default_pubkey 0 default_pubkey 0) else None)
    (if finalized then Some empty_buffers else None)
    (if signature then Some "sig" else None)
    (if mint_done then Some (mkMintProgress [] 0 0) else None).

Definition journal_recovery_plan_up_to_date_when_committed_matches_chain : bool :=
  match plan_journal_recovery (empty_checkpoint 42) chain_header None with UpToDate => true | _ => false end.

Definition journal_recovery_plan_discards_stale_journal_when_chain_not_advanced : bool :=
  match plan_journal_recovery (empty_checkpoint 42) chain_header
          (Some (test_journal (empty_checkpoint 43) true true false false)) with
  | DiscardStaleJournal => true
  | _ => false
  end.

Definition stale_journal_action_discards_raw_key_without_inspecting_json : bool :=
  match stale_journal_action true true, stale_journal_action true false, stale_journal_action false true with
  | DiscardRaw, StaleUpToDate, StaleUpToDate => true
  | _, _, _ => false
  end.

Definition mint_recovery_succeeds_when_already_complete_even_if_fourth_write_missing : bool :=
  is_ok (mint_recovery_succeeded (mkProcessMintsResult [] 0 0 true))
  && negb (is_ok (mint_recovery_succeeded (mkProcessMintsResult [] 2 10 false))).

(** The committed checkpoint is stale, the chain has advanced to the journal's. *)
Definition plan_after_advance (journal : option CheckpointJournal) : JournalRecoveryPlan :=
  plan_journal_recovery (stale 42) chain_header journal.
Definition fails_closed (needle : string) (plan : JournalRecoveryPlan) : bool :=
  match plan with FailClosed reason => contains needle reason | _ => false end.

Definition journal_recovery_plan_completes_mint_after_block_update_before_mint_crash : bool :=
  match plan_after_advance (Some (test_journal (empty_checkpoint 43) true true true false)) with
  | CompleteMint checkpoint finalized_commitment uploaded_buffers =>
      (checkpoint.(Checkpoint.height) =? 43)%N
      && bool_decide (finalized_commitment.(pending_mints) = [])
      && bool_decide (uploaded_buffers.(mint_buffer) = default_pubkey)
  | _ => false
  end.

Definition journal_recovery_plan_promotes_checkpoint_when_mint_already_done : bool :=
  match plan_after_advance (Some (test_journal (empty_checkpoint 43) true true true true)) with
  | PromoteCheckpoint checkpoint => (checkpoint.(Checkpoint.height) =? 43)%N
  | _ => false
  end.

Definition journal_recovery_plan_fails_closed_without_journal : bool :=
  fails_closed "without a pending journal" (plan_after_advance None).
Definition journal_recovery_plan_fails_closed_without_finalized_commitment : bool :=
  fails_closed "finalized commitment"
    (plan_after_advance (Some (test_journal (empty_checkpoint 43) false true true false))).
Definition journal_recovery_plan_fails_closed_without_uploaded_buffers : bool :=
  fails_closed "uploaded buffer addresses"
    (plan_after_advance (Some (test_journal (empty_checkpoint 43) true false true false))).
Definition journal_recovery_plan_fails_closed_on_height_mismatch : bool :=
  fails_closed "not exactly one above"
    (plan_after_advance (Some (test_journal (empty_checkpoint 44) true true true false))).

(** ** Profiles and trees *)
Definition ends_with (suffix s : string) : bool :=
  String.eqb (String.substring (String.length s - String.length suffix) (String.length suffix) s) suffix.

Definition network_profiles_select_distinct_guests_and_vks : bool :=
  bool_decide (default_vk_hash Regtest = REGTEST_BLOCK_VK_HASH)
  && bool_decide (default_vk_hash Testnet = TESTNET_BLOCK_VK_HASH)
  && negb (bool_decide (REGTEST_BLOCK_VK_HASH = TESTNET_BLOCK_VK_HASH))
  && ends_with "/block-transition" (default_block_elf_path Regtest)
  && ends_with "/block-transition-testnet" (default_block_elf_path Testnet).

Definition high_checkpoint_frontier_advances_without_full_history : bool :=
  let height := 67765166%N in
  let frontier := empty_txo_frontier height in
  match sequential_next_leaf_siblings frontier (height + 1)
          TXO_TREE_INDEX_BITS_BLOCK_NUM_LENGTH TXO_BLOCK_FULL_MERKLE_TREE_HEIGHT with
  | Ok siblings =>
      (length siblings =? TXO_TREE_INDEX_BITS_BLOCK_NUM_LENGTH)%nat
      && (mf_index frontier + 1 =? height + 1)%N
  | _ => false
  end.

(** [compute_dogecoin_block_transaction_merkle_proof_tree_root_hash256] is the fold of the path. *)
Definition path_verifies (hashes : list bytes) (root : bytes) (index : nat) : bool :=
  match hashes !! index, bitcoin_merkle_siblings hashes (N.of_nat index) with
  | Some hash, Ok siblings =>
      bool_decide ((fold_path hash_impl_btc_hash256_two_to_one_bytes (N.of_nat index) hash siblings).2 = root)
  | _, _ => false
  end.

Definition transaction (outs : list TxOutput) : BTCTransaction :=
  (ShaInstance.hash (concat ((fun o => le_bytes 8 o.(value) ++ o.(script)) <$> outs)), outs).

Definition bitcoin_merkle_paths_verify_for_even_and_odd_widths : bool :=
  forallb (fun count =>
    let hashes := (fun index => get_hash (transaction [mkTxOutput (N.of_nat index + 1) [byte_of_N (N.of_nat index)]]))
                    <$> seq 0 count in
    match bitcoin_merkle_root hashes with
    | Ok (Some root) => forallb (path_verifies hashes root) (seq 0 count)
    | _ => false
    end) (seq 1 7).

Definition history_frontier_supports_two_deposits_across_blocks : bool :=
  let first_leaf := replicate 32 x0b in
  let second_leaf := replicate 32 x0c in
  let H := AUTO_CLAIM_DEPOSITS_TREE_HEIGHT in
  match sparse_sha256_merkle_siblings [first_leaf] 0 H 0,
        sparse_sha256_merkle_siblings [first_leaf; second_leaf] 1 H 0 with
  | Ok first_siblings, Ok second_siblings =>
      let first_frontier := MerkleFrontierOps.new 0 first_leaf first_siblings in
      let second_frontier := MerkleFrontierOps.new 1 second_leaf second_siblings in
      match frontier_root first_frontier H, frontier_root second_frontier H,
            MerkleFrontierOps.decode first_frontier H with
      | Ok first_root, Ok second_root, Ok (_, siblings) =>
          negb (bool_decide (first_root = second_root))
          && bool_decide ((fold_path hash_impl_sha256_two_to_one_bytes 0 first_leaf siblings).2 = first_root)
      | _, _, _ => false
      end
  | _, _ => false
  end.

Definition evidence_bundle_hash_changes_with_proof_bytes : bool :=
  negb (String.eqb (artifact_bundle_sha256 [("proof.bin", replicate PROOF_SIZE x01)])
                   (artifact_bundle_sha256 [("proof.bin", replicate PROOF_SIZE x02)])).

(** ** Deposit claims

    A claim helper whose hashes are those of the payload it would mint, and
    custody scripts that depend on the profile and the recipient. *)
#[local] Instance custody : Custody := {|
  custody_config_hash config P := ShaInstance.hash config;
  get_manager_custody_output_script P config ata :=
    take 23 (ShaInstance.hash (match P with LocalRegtestManagerCustody => x01 | _ => x02 end :: config ++ ata));
  get_manager_custody_redeem_script P config ata := config ++ ata ++ replicate 248 x51;
|}.

Record TestBuilder := mkBuilder { b_count : N; b_amount : N; b_fees : FeeRate }.
Definition amounts (tw : TransactionWitness) : list N :=
  (fun d => from_option value 0%N (outputs tw.(Claims.transaction) !! N.to_nat d.(output_index))) <$> tw.(deposit_outputs).
Definition index_of (i j : N) : N := (i * 4095 + j)%N.
(** [(mints hash, TXO-list hash)] of the deposits of a witness. *)
Definition witness_hashes (w : ClaimBlockWitness) (fees : FeeRate) : bytes * bytes :=
  let payload := w.(deposit_transactions) ≫= fun tw =>
    (fun d => (from_option id [] (w.(deposit_solana_public_keys) !! N.to_nat d.(public_key_index)),
               ClaimsInstance.net_of
                 (from_option value 0%N (outputs tw.(Claims.transaction) !! N.to_nat d.(output_index))) fees,
               index_of tw.(transaction_index) d.(output_index))) <$> tw.(deposit_outputs) in
  (mints_hash payload.*1, ShaInstance.hash (serialize_txo_indices payload.*2)).

#[local] Instance helper : ClaimHelper := {|
  Builder := TestBuilder;
  new_from_siblings P h fees custody keys := Some (mkBuilder 0 0 fees);
  verify_and_add_to_transition_builder tw b root :=
    Some (mkBuilder (b.(b_count) + N.of_nat (length tw.(deposit_outputs)))
            (foldl (fun sum a => sum + ClaimsInstance.net_of a b.(b_fees))%N b.(b_amount) (amounts tw)) b.(b_fees));
  builder_finalize b height h fees :=
    Some (b, mkClaimTransition (replicate 32 x02) (replicate 32 x03)
      h.(claim_deposits_last_index) (h.(claim_deposits_last_index) + b.(b_count)) 0);
  claimed_txs_root b := replicate 32 x09;
  total_deposit_amount := b_amount;
  calcuate_fee amount fees :=
    Some ((amount - ClaimsInstance.net_of amount fees)%N, ClaimsInstance.net_of amount fees);
  combined_txo_index i j := Some (index_of i j);
  hash_deposit_leaf h i key amount := ShaInstance.hash (h ++ le_bytes 4 i ++ key ++ le_bytes 8 amount);
  pending_mint_and_txo_hashes_from_claim_witness P w root custody fees := Some (witness_hashes w fees);
  pending_mints_groups_hash l := Some (mints_hash l);
  witness_write_to_vec w := Some (header_hash w.(witness_block_header));
  witness_read_from_buffer b := None;
|}.

Definition CUSTODY_SCRIPT_CONFIG : bytes := replicate 32 x07.
Definition RECIPIENT_ATA : bytes := replicate 32 x09.
Definition P : ManagerCustodyProfile := LocalRegtestManagerCustody.
Definition no_fees : FeeRate := mkFeeRate 0 0 100.
Definition output_script : bytes := get_manager_custody_output_script P CUSTODY_SCRIPT_CONFIG RECIPIENT_ATA.

(** [block(height, transactions)]; the header's hash is its own concern. *)
Definition block (height : N) (txs : list BTCTransaction) : QDogeBlock :=
  mkQDogeBlock _ (le_bytes 32 height, replicate 32 (byte_of_N height),
    match bitcoin_merkle_root (get_hash <$> txs) with Ok (Some root) => root | _ => [] end) txs.

Definition deposit_of (amount : N) : BTCTransaction := transaction [mkTxOutput amount output_script].

Definition manager_custody_deposit_advances_auto_claim_and_mint_commitments : bool :=
  let height := 101%N in
  let coinbase := transaction [mkTxOutput 5000000000 [x51]] in
  let amount := 100000000%N in
  let block := block height [coinbase; deposit_of amount] in
  (length (get_manager_custody_redeem_script P CUSTODY_SCRIPT_CONFIG RECIPIENT_ATA) =? 312)%nat
  && match build_deposit_claim_witness P block (empty_checkpoint (height - 1)) CUSTODY_SCRIPT_CONFIG [RECIPIENT_ATA] with
     | Ok witness =>
         let claim := witness.(claim_witness) in
         (claim.(claim_header).(total_outputs_hint) =? 1)%N
         && bool_decide (transaction_index <$> claim.(deposit_transactions) = [1%N])
         && match evaluate_claim_witness P height claim (merkle_root block.(header)) CUSTODY_SCRIPT_CONFIG no_fees with
            | Ok evaluation =>
                let finalized := from_evaluation evaluation in
                (evaluation.(eval_deposit_count) =? 1)%N
                && bool_decide (witness_hashes claim no_fees
                     = (evaluation.(eval_pending_mints_hash), evaluation.(eval_txo_output_list_hash)))
                && (evaluation.(eval_minted_amount_sats) =? amount)%N
                && bool_decide ((fun m => (m.(recipient), m.(Checkpoint.amount))) <$> evaluation.(eval_pending_mints)
                     = [(RECIPIENT_ATA, amount)])
                && bool_decide (evaluation.(eval_txo_indices) = [4095%N])
                && is_ok (validate_buffer_payload finalized (to_bridge_mint <$> finalized.(pending_mints)))
                && (evaluation.(eval_transition).(start_auto_claimed_deposits_index) =? 0)%N
                && (evaluation.(eval_transition).(end_auto_claimed_deposits_index) =? 1)%N
                && negb (bool_decide (evaluation.(eval_pending_mints_hash) = mints_hash []))
                && negb (bool_decide (evaluation.(eval_txo_output_list_hash) = hash_impl_sha256_bytes []))
            | _ => false
            end
     | _ => false
     end.

Definition no_deposit_block_does_not_forge_mint_or_advance_claim_index : bool :=
  let height := 201%N in
  let block := block height [transaction [mkTxOutput 42 [x51]]] in
  match build_deposit_claim_witness P block (empty_checkpoint (height - 1)) CUSTODY_SCRIPT_CONFIG [RECIPIENT_ATA] with
  | Ok witness =>
      match evaluate_claim_witness P height witness.(claim_witness) (merkle_root block.(header))
              CUSTODY_SCRIPT_CONFIG no_fees with
      | Ok evaluation =>
          (evaluation.(eval_deposit_count) =? 0)%N && (evaluation.(eval_minted_amount_sats) =? 0)%N
          && (evaluation.(eval_transition).(start_auto_claimed_deposits_index) =? 0)%N
          && (evaluation.(eval_transition).(end_auto_claimed_deposits_index) =? 0)%N
          && bool_decide (evaluation.(eval_pending_mints_hash) = mints_hash [])
          && bool_decide (evaluation.(eval_txo_output_list_hash) = hash_impl_sha256_bytes [])
          && bool_decide (evaluation.(eval_pending_mints) = []) && bool_decide (evaluation.(eval_txo_indices) = [])
      | _ => false
      end
  | _ => false
  end.

Definition legacy_59_byte_custody_output_is_not_scanned_as_manager_deposit : bool :=
  let height := 102%N in
  let block := block height [transaction [mkTxOutput 100000000 (RECIPIENT_ATA ++ replicate 27 x08)]] in
  match build_deposit_claim_witness P block (empty_checkpoint (height - 1)) CUSTODY_SCRIPT_CONFIG [RECIPIENT_ATA] with
  | Ok witness =>
      (witness.(claim_witness).(claim_header).(total_outputs_hint) =? 0)%N
      && (length witness.(claim_witness).(deposit_transactions) =? 0)%nat
  | _ => false
  end.

(** The recorded payload of one deposit, with the hashes it is given. *)
Definition recorded (amount : N) (mint_hash txo_hash : bytes) : BlockBufferCommitment := {|
  pending_mints_hash_hex := hex_encode mint_hash;
  txo_output_list_hash_hex := hex_encode txo_hash;
  pending_mints := [mkPendingMintPayload RECIPIENT_ATA amount];
  txo_indices := [0%N]; deposit_count := 1; minted_amount_sats := amount;
  auto_claim_start_index := 0; auto_claim_end_index := 1; fees_collected := 0;
|}.

Definition poisoned_redis_hashes_fail_finalized_resolver : bool :=
  let resolve block buffers :=
    resolve_finalized_buffers P block buffers CUSTODY_SCRIPT_CONFIG [RECIPIENT_ATA] no_fees in
  let amount := 100000000%N in
  let block := block 101 [deposit_of amount] in
  match resolve None None, build_hash_only_incoming_witness P block CUSTODY_SCRIPT_CONFIG [RECIPIENT_ATA] with
  | Ok (buffers, text), Ok witness =>
      let '(mint_hash, txo_hash) := witness_hashes witness.(claim_witness) no_fees in
      String.eqb text ""
      && match commitment_pending_mints_hash buffers, commitment_txo_output_list_hash buffers with
         | Ok mints, Ok txos => bool_decide (mints = mints_hash []) && bool_decide (txos = hash_impl_sha256_bytes [])
         | _, _ => false
         end
      && fails_with "pending-mint hash disagrees"
           (resolve (Some block) (Some (recorded amount (replicate 32 xaa) txo_hash)))
      && fails_with "TXO-list hash disagrees"
           (resolve (Some block) (Some (recorded amount mint_hash (replicate 32 xbb))))
  | _, _ => false
  end.

Definition finalized_buffers_are_delayed_until_the_source_height_finalizes : bool :=
  let evaluation := {|
    eval_transition := mkClaimTransition (replicate 32 x02) (replicate 32 x04) 8 9 10;
    eval_pending_mints_hash := replicate 32 x05; eval_txo_output_list_hash := replicate 32 x06;
    eval_pending_mints := [mkPendingMintPayload (replicate 32 x09) 99]; eval_txo_indices := [17%N];
    eval_block_txo_root := replicate 32 x07; eval_deposit_leaf_hashes := [replicate 32 x08];
    eval_deposit_count := 1; eval_minted_amount_sats := 99;
  |} in
  match empty_commitment with
  | Ok empty =>
      let pending : gmap N BlockBufferCommitment := {[ 300%N := from_evaluation evaluation ]} in
      let finalized := from_option id empty (pending !! 300%N) in
      ((from_option id empty (pending !! 299%N)).(deposit_count) =? 0)%N
      && (finalized.(deposit_count) =? 1)%N && (finalized.(minted_amount_sats) =? 99)%N
      && (finalized.(auto_claim_end_index) =? 9)%N
      && match commitment_pending_mints_hash finalized, commitment_txo_output_list_hash finalized with
         | Ok mints, Ok txos => bool_decide (mints = replicate 32 x05) && bool_decide (txos = replicate 32 x06)
         | _, _ => false
         end
  | _ => false
  end.

(** ** Files: a directory of its own *)
#[local] Instance disk : Files (gmap Path bytes) := {|
  fs_is_file w p := bool_decide (is_Some (w !! p));
  fs_read p := query (fun w => ok_or (w !! p) (External "std::fs"));
  fs_read_to_string p := query (fun w => map Byte.to_N <$> ok_or (w !! p) (External "std::fs"));
  fs_write p b := perform (fun w => (<[p := b]> w, Ok ()));
  fs_create_dir_all p := mret ();
  fs_rename p q := perform (fun w =>
    match w !! p with
    | Some b => (<[q := b]> (delete p w), Ok ())
    | None => (w, Err (External "std::fs"))
    end);
  current_dir := mret [ROOT_DIR]; process_id := 7;
  path_display p := text_of p; path_from s := from_option id [] (of_text s);
|}.
(** A document on disk is its place in the list of documents. *)
Definition document_at (documents : list DepositEvidenceDocument) : EvidenceJson := {|
  evidence_from_slice b := match b with [n] => documents !! N.to_nat (Byte.to_N n) | _ => None end;
|}.

Definition live_deposit_evidence_requires_exact_312_byte_manager_script : bool :=
  let height := 103%N in
  let deposit := deposit_of 100000000 in
  let block := block height [deposit] in
  let path := [ROOT_DIR; "tmp"; "deposit.json"] in
  let exact_redeem := get_manager_custody_redeem_script P CUSTODY_SCRIPT_CONFIG RECIPIENT_ATA in
  let mismatched := match exact_redeem with
                    | b :: rest => byte_of_N (N.lxor (Byte.to_N b) 1) :: rest
                    | [] => []
                    end in
  let document confirmation_height redeem := {|
    doc_deposit := mkDepositEvidenceDeposit (hex_encode (reverse (get_hash deposit))) confirmation_height 0;
    doc_custody := mkDepositEvidenceCustody (hex_encode RECIPIENT_ATA)
                     (Some (hex_encode output_script)) (Some (hex_encode redeem));
  |} in
  let json := document_at [document (Some height) exact_redeem; document None exact_redeem;
                           document (Some height) mismatched] in
  let validate stored := result (validate_live_deposit_script P (Some path) height block
                                   CUSTODY_SCRIPT_CONFIG [RECIPIENT_ATA]) {[ path := [stored] ]} in
  (length exact_redeem =? 312)%nat
  && is_ok (validate x00) && is_ok (validate x01)
  && fails_with "-byte deterministic 5-of-7" (validate x02).

#[local] Instance manifest_out : EvidenceOut := {|
  inputs_to_vec_pretty i := None; mints_to_vec_pretty l := None; txos_to_vec_pretty l := None;
  manifest_to_vec m := Some (encode_bytes (m.(ev_height), m.(ev_deposit_count),
                                     (m.(ev_evidence_dir), m.(manifest_sha256))));
  manifest_to_vec_pretty m := Some (encode_bytes (m.(ev_height), m.(ev_deposit_count),
                                     (m.(ev_evidence_dir), m.(manifest_sha256))));
|}.

Definition evidence_manifest_writes_stable_latest_json : bool :=
  let root := [ROOT_DIR; "tmp"; "psy-block-evidence"] in
  let evidence_dir := root ++ ["height-7"; "abc"] in
  let repeated n s := repeat_text n s in
  let manifest := mkEvidence EVIDENCE_SCHEMA_VERSION "proof_generated" 7 (repeated 32%nat "11") 6 7 1 100 1 100 0 1 0
    (repeated 32%nat "22") "" (path_display evidence_dir) (path_display (evidence_dir ++ ["manifest.json"]))
    (path_display (root ++ ["latest.json"])) "test" None None None None false None [] 0 0
    (repeated 32%nat "33") (repeated 32%nat "44") ∅ in
  let w : gmap Path bytes := ∅ in
  match result (write_evidence_manifest manifest) w,
        final (write_evidence_manifest manifest) w !! path_from manifest.(latest_path) with
  | Ok manifest, Some latest =>
      match decode_bytes latest with
      | Some (height, deposits, (dir, sha)) =>
          (height =? 7)%N && (deposits =? 1)%N && (String.length sha =? 64)%nat
          && String.eqb dir (path_display evidence_dir)
      | None => false
      end
  | _, _ => false
  end.

(** The tests, in the order of the file. *)
Definition all : list bool := [
  redis_backend_does_not_require_local_gen_proof_path; local_backend_rejects_missing_gen_proof_path;
  daemon_response_wait_reports_early_child_exit; daemon_response_wait_skips_non_json_startup_banner;
  daemon_diagnostics_are_drained_per_request; daemon_alive_but_silent_times_out;
  global_journal_starts_only_after_proof_validation; out_of_order_ready_proofs_commit_strictly_in_height_order;
  earlier_pending_or_failed_proof_blocks_ready_suffix; window_one_retains_single_height_behavior;
  ordered_proof_action_never_commits_past_a_missing_height;
  ordered_proof_action_failed_height_blocks_every_ready_suffix_never_skips;
  ordered_proof_action_pending_height_waits_even_if_suffix_is_ready;
  ordered_proof_action_at_u32_max_returns_idle_without_overflow;
  checkpoint_journal_key_is_namespaced; stale_checkpoint_is_rejected_against_on_chain_header;
  journal_recovery_plan_up_to_date_when_committed_matches_chain;
  journal_recovery_plan_discards_stale_journal_when_chain_not_advanced;
  stale_journal_action_discards_raw_key_without_inspecting_json;
  mint_recovery_succeeds_when_already_complete_even_if_fourth_write_missing;
  journal_recovery_plan_completes_mint_after_block_update_before_mint_crash;
  journal_recovery_plan_promotes_checkpoint_when_mint_already_done;
  journal_recovery_plan_fails_closed_without_journal;
  journal_recovery_plan_fails_closed_without_finalized_commitment;
  journal_recovery_plan_fails_closed_without_uploaded_buffers;
  journal_recovery_plan_fails_closed_on_height_mismatch;
  network_profiles_select_distinct_guests_and_vks; high_checkpoint_frontier_advances_without_full_history;
  bitcoin_merkle_paths_verify_for_even_and_odd_widths; history_frontier_supports_two_deposits_across_blocks;
  manager_custody_deposit_advances_auto_claim_and_mint_commitments;
  legacy_59_byte_custody_output_is_not_scanned_as_manager_deposit;
  live_deposit_evidence_requires_exact_312_byte_manager_script;
  no_deposit_block_does_not_forge_mint_or_advance_claim_index;
  poisoned_redis_hashes_fail_finalized_resolver;
  finalized_buffers_are_delayed_until_the_source_height_finalizes;
  evidence_manifest_writes_stable_latest_json; evidence_bundle_hash_changes_with_proof_bytes
].
End PipelineTests.

(** Every test passes. *)
Theorem pipeline_tests_pass : forallb id PipelineTests.all = true.
Proof. vm_compute. reflexivity. Qed.
