(* ===== verification/Cli.v ===== *)
(** * The command line

    [main] of [bin/doge_block_pipeline.rs]: the configuration built from the
    arguments, and the two commands.  The last section composes the pipeline's
    guarantees over the life of a deployment: any sequence of runs and
    recoveries, each stopped anywhere. *)
From S2P Require Import Prelude External Instances Merkle Effects NetworkRetry Chain.
From S2P Require Import ChainInstances Checkpoint SolHeader Claims ProofJob Files.
From S2P Require Import Services Journal Transition Evidence Commit Recover Pipeline Archive.
From stdpp Require Import relations.
Import NetworkRetryPolicyOps.

Inductive Command := Run | Recover (proof_archive_dir : Path).

(** The arguments, as clap leaves them: defaults filled in, paths and keys parsed. *)
Record Args := mkArgs {
  arg_command : option Command;
  arg_network : DogeNetworkProfile;
  arg_electrs_url : string;
  arg_redis_url : string;
  arg_sender_url : string;
  arg_sender_token : string;
  arg_gen_proof_path : Path;
  arg_block_elf_path : option Path;
  arg_expected_vk_hash : option chars;
  arg_proof_archive_dir : Path;
  arg_poll_interval_ms : N;
  arg_redis_seed : N;
  arg_prover_backend : ProverBackendKind;
  arg_proof_prepare_window : nat;
  arg_proof_queue_prefix : string;
  arg_proof_wait_interval_ms : N;
  arg_start_height : option N;
  arg_old_state_dir : option Path;
  arg_witness_dir : option Path;
  arg_custody_script_config : chars;
  arg_recipient_atas : list chars;
  arg_required_confirmations : N;
  arg_config_params : chars;
  arg_deposit_evidence_path : option Path;
  arg_initial_header : chars;
  arg_solana_rpc_url : string;
  arg_operator_keypair : Path;
  arg_payer_keypair : Path;
  arg_doge_mint : bytes;
  arg_bridge_program : bytes;
  arg_pending_mint_program : bytes;
  arg_txo_buffer_program : bytes;
}.

Section cli.
Context `{!Hex, !Sha, !TreeParams, !LightClient, !Custody, !ClaimHelper, !EvidenceOut}.
Context `{!Transitions, !EvidenceJson, !Host}.
Context {W R : Type} `{!Clock W, !Files W, !Store W, !BridgeClient W, !Sender W R, !HttpResponse R}.
Context `{!ProofService W, !Electrs W, !Startup W}.
Context `{!Json ProofRequest, !Json PipelineCheckpoint, !Json CheckpointJournal}.
(** How the characters of an argument spell a path. *)
Context (path_of : chars -> Path).

Definition config_of_args (args : Args) : prog W BlockPipelineConfig :=
  let block_elf_path :=
    from_option id (path_from (default_block_elf_path args.(arg_network))) args.(arg_block_elf_path) in
  expected_vk_hash ←
    match args.(arg_expected_vk_hash) with
    | Some value => read_fixed path_of 32 value
    | None => mret (default_vk_hash args.(arg_network))
    end;
  custody_script_config ← read_fixed path_of 32 args.(arg_custody_script_config);
  recipient_atas ← mapM (read_fixed path_of 32) args.(arg_recipient_atas);
  config_params ← read_fixed path_of 48 args.(arg_config_params);
  initial_header ← read_fixed path_of 320 args.(arg_initial_header);
  mret {|
    network := args.(arg_network);
    electrs_url := args.(arg_electrs_url);
    redis_url := args.(arg_redis_url);
    sender_url := args.(arg_sender_url);
    sender_bearer_token := args.(arg_sender_token);
    gen_proof_path := args.(arg_gen_proof_path);
    block_elf_path := block_elf_path;
    expected_vk_hash := expected_vk_hash;
    evidence_dir := args.(arg_proof_archive_dir);
    poll_interval := from_millis args.(arg_poll_interval_ms);
    redis_seed := args.(arg_redis_seed);
    prover_backend := args.(arg_prover_backend);
    proof_prepare_window := args.(arg_proof_prepare_window);
    proof_queue_prefix := args.(arg_proof_queue_prefix);
    proof_wait_interval := from_millis args.(arg_proof_wait_interval_ms);
    start_height := args.(arg_start_height);
    old_state_dir := args.(arg_old_state_dir);
    witness_dir := args.(arg_witness_dir);
    custody_script_config := custody_script_config;
    recipient_atas := recipient_atas;
    required_confirmations := args.(arg_required_confirmations);
    config_params := config_params;
    initial_header := initial_header;
    deposit_evidence_path := args.(arg_deposit_evidence_path);
    solana_rpc_url := args.(arg_solana_rpc_url);
    operator_keypair := args.(arg_operator_keypair);
    payer_keypair := args.(arg_payer_keypair);
    doge_mint := args.(arg_doge_mint);
    bridge_program := args.(arg_bridge_program);
    pending_mint_program := args.(arg_pending_mint_program);
    txo_buffer_program := args.(arg_txo_buffer_program);
  |}.

(** A method of the pipeline, run on the one [initialize] returned. *)
Definition on_pipeline {A} (self : BlockPipeline) (p : prog (W * BlockPipeline) A) : prog W A := fun w =>
  let '(t, n, r) := p (w, self) in (t.*1, n.1, r).

(** [main]: [events] is what happens at each turn of the run's loop. *)
Definition main (args : Args) (events : list RunEvent) : prog W () :=
  config ← config_of_args args;
  match from_option id Run args.(arg_command) with
  | Run => self ← initialize config; on_pipeline self (run_pipeline events)
  | Recover proof_archive_dir =>
      recover_checkpoint_from_proof_archive config proof_archive_dir ;;
      mret ()
  end.
End cli.

(** ** What a command may do *)
Section life.
Context `{!Hex, !HexLaws, !Sha, !TreeParams, !LightClient, !Custody, !ClaimHelper, !EvidenceOut}.
Context `{!Transitions, !EvidenceJson, !Host}.
Context {W R : Type} `{!Clock W, !Files W, !Store W, !BridgeClient W, !Sender W R, !HttpResponse R}.
Context `{!ServiceLaws W R, !ProofService W, !Electrs W, !Startup W, !PipelineLaws W R}.
Context `{!Json ProofRequest, !JsonLaws ProofRequest, !Json PipelineCheckpoint, !JsonLaws PipelineCheckpoint}.
Context `{!Json CheckpointJournal, !JsonLaws CheckpointJournal}.
Context (path_of : chars -> Path).

Lemma quiet_mapM {A B} (f : A -> prog W B) (l : list A) :
  (forall x, quiet view (f x)) -> quiet view (mapM f l).
Proof. intros Hf. induction l as [|x l IH]; cbn [mapM]; solve_quiet; auto. Qed.

Lemma read_fixed_quiet size value : quiet view (read_fixed path_of size value).
Proof.
  unfold read_fixed. apply quiet_bind; [|intros text; solve_quiet].
  assert (forall p : Path, quiet view (text ← try (fs_read_to_string p);
    match text with inl text => mret text | inr _ => lift (Err (Anyhow "failed to read {name} from {path}")) end)) as Hr.
  { intros p. apply quiet_bind; [apply quiet_try, read_to_string_quiet|]. intros [t|e]; solve_quiet. }
  unfold argument_text. repeat (case_match; try apply Hr); (apply quiet_bind; [apply quiet_query|]);
    intros []; apply Hr || apply quiet_ret.
Qed.

Lemma config_of_args_quiet args : quiet view (config_of_args path_of args).
Proof.
  unfold config_of_args. pose proof read_fixed_quiet as Hf.
  apply quiet_bind; [case_match; [apply Hf|apply quiet_ret]|intros ?].
  apply quiet_bind; [apply Hf|intros ?]. apply quiet_bind; [by apply quiet_mapM|intros ?].
  apply quiet_bind; [apply Hf|intros ?]. apply quiet_bind; [apply Hf|intros ?]. apply quiet_ret.
Qed.

(** The key of the checkpoint the arguments name. *)
Definition key_of_args (args : Args) : string :=
  CHECKPOINT_PREFIX +:+ "-" +:+ as_str args.(arg_network) +:+ "-" +:+ decimal args.(arg_redis_seed).

Lemma config_of_args_key args w cfg :
  result (config_of_args path_of args) w = Ok cfg -> checkpoint_key_of cfg = key_of_args args.
Proof. unfold config_of_args. intros E. inv_prog. by subst cfg. Qed.

(** A state some run or recovery may leave: one a crash may leave, of a
    checkpoint at height [h0] or above. *)
Definition safe_from (init : option PipelineCheckpoint) (key : string) (h0 : N) (s : View) : Prop :=
  exists c, (h0 <= c.(Checkpoint.height) <= u32_max)%N /\ crash_safe init key c s.

(** Either something is committed already, or [initialize_checkpoint] always
    builds the same first checkpoint. *)
Definition same_start (init : option PipelineCheckpoint) (key : string) : Prop :=
  init = None \/ forall cfg w c, checkpoint_key_of cfg = key ->
    result (initialize_checkpoint (W := W) cfg) w = Ok c -> init = Some c.

Lemma safe_from_closed init key h0 : closed (safe_from init key h0).
Proof. intros s s' Ha (c & Hc & Hs). exists c. split; [done|]. by eapply crash_safe_closed. Qed.

Lemma crash_safe_stored key c s : crash_safe None key c s -> s.(v_db) !! key <> None.
Proof.
  assert (forall c, held None key c s -> v_db s !! key <> None) as Hheld.
  { intros c' [(t & _ & ->)|[_ ?]]; done. }
  intros [[Hb _]|(nx & fb & _ & [Hh _|j Hh _ _ _|b (t & _ & ->) _ _])]; eauto.
Qed.

Lemma same_start_fresh init cfg c s :
  same_start init (checkpoint_key_of cfg) -> crash_safe init (checkpoint_key_of cfg) c s -> fresh_is init cfg s.
Proof.
  intros [->|Hi] Hs En w c' E; [|by eapply Hi]. by destruct (crash_safe_stored _ _ _ Hs).
Qed.

(** The checkpoint a recovery replaces is the one held, so what it leaves is
    the next one, safe. *)
Lemma promoted_safe init cfg h0 c s s' :
  safe_from init (checkpoint_key_of cfg) h0 s -> promoted cfg c s s' ->
  safe_from init (checkpoint_key_of cfg) h0 s'.
Proof.
  intros (c0 & Hc0 & Hs) ((old & Hold & Hparse) & next & text & Ht & Ha & Hv & Hh & Hm).
  set (key := checkpoint_key_of cfg) in *. unfold json_parse in Hparse. apply ok_or_Ok in Hparse.
  assert (loads init key s c) as Hl by (unfold loads; by rewrite Hold).
  assert (forall c', held init key c' s -> c' = c) as Hheld by (intros c' Hc'; by eapply held_loads).
  apply checked_add_Some in Hh as [Hh Hmax].
  exists next. split.
  - assert (c0 = c \/ (c0.(Checkpoint.height) <= c.(Checkpoint.height))%N) as [->|Hle].
    { destruct Hs as [[Hb _]|(nx & fb & [_ Hn] & Hr)]; [left; by apply Hheld|].
      destruct Hr as [Hb _|j Hb _ _ _|b Hb _ _]; [left; by apply Hheld..|right].
      rewrite <- (Hheld nx) by (by left). rewrite Hn. unfold saturating_add. lia. }
    all: rewrite Hh in *; lia.
  - apply (crash_safe_closed _ _ _ _ _ Ha). left. split; [|exact Hm].
    left. exists text. split; [exact Ht|]. cbn. apply lookup_insert_eq.
Qed.

Lemma triple_on_pipeline {A} (Phi : View -> Prop) (P : W * BlockPipeline -> Prop) self (p : prog (W * BlockPipeline) A) :
  triple P (fun n => Phi (view n.1)) p (fun _ n => Phi (view n.1)) ->
  triple (fun w => P (w, self)) (fun w => Phi (view w)) (on_pipeline self p) (fun _ w => Phi (view w)).
Proof.
  intros Hp w Hw. destruct (Hp (w, self) Hw) as [Ht Hf]. unfold on_pipeline, result, final in *.
  destruct (p (w, self)) as [[t n] r]. cbn in *. split; [|exact Hf].
  apply Forall_fmap. exact Ht.
Qed.

(** A command on any state of the deployment keeps it safe, stopped anywhere. *)
Lemma triple_main init args events h0 s :
  same_start init (key_of_args args) -> safe_from init (key_of_args args) h0 s ->
  triple (fun w => agrees s (view w)) (fun w => safe_from init (key_of_args args) h0 (view w))
    (main (W := W) (R := R) path_of args events) (fun _ w => safe_from init (key_of_args args) h0 (view w)).
Proof.
  intros Hstart Hsafe. set (key := key_of_args args) in *. set (S := safe_from init key h0).
  assert (forall w, agrees s (view w) -> S (view w)) as HS by (intros w Hw; exact (safe_from_closed _ _ _ _ _ Hw Hsafe)).
  unfold main. apply (quiet_then s); [exact HS|auto|apply config_of_args_quiet|].
  intros cfg w0 [_ Ecfg]. apply config_of_args_key in Ecfg as Hkey. fold key in Hkey.
  destruct (from_option id Run (arg_command args)) as [|dir].
  - pose proof Hsafe as (c & Hc & Hcs). rewrite <- Hkey in Hcs.
    assert (fresh_is init cfg s) as Hfresh by (eapply same_start_fresh; [by rewrite Hkey|exact Hcs]).
    pose proof (triple_initialize (W := W) (R := R) init cfg c s Hcs Hfresh ltac:(lia)) as Hi. rewrite Hkey in Hi.
    assert (forall w, crash_safe init key c (view w) -> S (view w)) as HcS by (intros w Hw; exists c; by split).
    eapply triple_bind.
    + eapply triple_conseq; [exact Hi|done|exact HcS|]. intros r w Hr. exact Hr.
    + intros self. apply triple_pre with (P' := fun w =>
        loop_inv init (w, self) /\ self.(checkpoint_key) = key /\ (h0 <= self.(checkpoint).(Checkpoint.height))%N).
      * apply triple_on_pipeline with (P := fun n => loop_inv init n /\ n.2.(checkpoint_key) = key /\
          (h0 <= n.2.(checkpoint).(Checkpoint.height))%N).
        assert (PlainKey key) by (rewrite <- Hkey; apply _).
        apply (triple_run_pipeline init key h0 events).
      * intros w [_ Hself]. destruct (Hself self eq_refl) as (Hinv & Hk & Hh).
        split; [exact Hinv|]. split; [exact Hk|]. destruct Hh as [->| ->]; [lia|unfold saturating_add; lia].
    + intros r r' w [Hw _] _. by apply HcS.
  - assert (forall w, agrees s (view w) \/ (exists c, promoted cfg c s (view w)) -> S (view w)) as Hprom.
    { intros w [Hw|(c & Hp)]; [by apply HS|]. subst S. rewrite <- Hkey. eapply promoted_safe; [|exact Hp]. by rewrite Hkey. }
    eapply triple_bind with (R := fun _ w => S (view w)).
    + eapply triple_conseq; [apply (triple_recover_archive cfg dir s)|done|exact Hprom|]. intros r w [Hw _]. by apply Hprom.
    + intros h. by apply triple_ret.
    + done.
Qed.

(** The life of a deployment: commands on its checkpoint, each stopped after
    any of its effects, and whatever else happens to the world meanwhile that
    leaves its checkpoint, its journal and the header on chain alone. *)
Inductive life (key : string) : W -> W -> Prop :=
| life_command args events w x :
    key_of_args args = key -> x ∈ crash_points (main (R := R) path_of args events) w -> life key w x
| life_world w x : agrees (view w) (view x) -> life key w x.

(** C3: The life of a deployment is safe.  Take any sequence of runs of the
    pipeline and recoveries from an archive, with any arguments that name the
    same network and seed, each stopped by a crash, a signal or an error after
    any of its effects and restarted any number of times.  In every state on the
    way, the committed checkpoint is at the height the deployment began with
    or above, and the state is one the next start-up can take over: the stored
    checkpoint is the one on chain, or the commit of a valid next one can be
    completed or abandoned. *)
Theorem deployment_safe (init : option PipelineCheckpoint) (key : string) (h0 : N) (w x : W) :
  same_start init key -> safe_from init key h0 (view w) -> rtc (life key) w x ->
  safe_from init key h0 (view x).
Proof.
  intros Hstart Hw Hx. induction Hx as [w|w y x Hs _ IH]; [exact Hw|]. apply IH. clear IH.
  destruct Hs as [args events w y <- Hy|w y Ha].
  - apply (triple_crash _ _ _ _ w y (triple_main init args events h0 (view w) Hstart Hw)); [done|exact Hw|exact Hy].
  - exact (safe_from_closed _ _ _ _ _ Ha Hw).
Qed.
End life.
From S2P Require Import Codec PipelineInstances.

(** ** A deployment: a run that crashes after its submission, and a second one *)
Module CliWitness.
Import HexInstance ShaInstance PipelineWitness.

Definition hex_argument (b : bytes) : chars := Ascii.N_of_ascii <$> String.list_ascii_of_string (hex_encode b).
Definition args1 : Args := {|
  arg_command := None; arg_network := Testnet; arg_electrs_url := "http://electrs";
  arg_redis_url := "redis://localhost"; arg_sender_url := "http://sender"; arg_sender_token := "token";
  arg_gen_proof_path := pipeline_config.(gen_proof_path);
  arg_block_elf_path := Some pipeline_config.(block_elf_path); arg_expected_vk_hash := None;
  arg_proof_archive_dir := ["archive"]; arg_poll_interval_ms := 1000; arg_redis_seed := 1337;
  arg_prover_backend := Local; arg_proof_prepare_window := 2; arg_proof_queue_prefix := "queue";
  arg_proof_wait_interval_ms := 1000; arg_start_height := None; arg_old_state_dir := None;
  arg_witness_dir := None;
  arg_custody_script_config := hex_argument pipeline_config.(custody_script_config);
  arg_recipient_atas := [hex_argument ClaimsWitness.ata]; arg_required_confirmations := 1;
  arg_config_params := hex_argument pipeline_config.(config_params);
  arg_deposit_evidence_path := None; arg_initial_header := hex_argument pipeline_config.(initial_header);
  arg_solana_rpc_url := "http://solana"; arg_operator_keypair := ["op.json"]; arg_payer_keypair := ["payer.json"];
  arg_doge_mint := pipeline_config.(doge_mint); arg_bridge_program := pipeline_config.(bridge_program);
  arg_pending_mint_program := pipeline_config.(pending_mint_program);
  arg_txo_buffer_program := pipeline_config.(txo_buffer_program);
|}.
Definition no_path (_ : chars) : Path := [].
Abbreviation main1 events := (main (R := BlockUpdateResponse) no_path args1 events).

Definition lived : outcome (World * World) :=
  x ← ok_or (crash_points (main1 [Polled None]) world2 !! 21) (External "crash");
  bail_when (bool_decide (x.(w_view).(v_header) = replicate 320 x01)) "not submitted" ;;
  bail_when (negb (bool_decide (x.(w_view).(v_db) !! key = Some (text_of checkpoint2)))) "committed" ;;
  y ← ok_or (last (crash_points (main1 []) x)) (External "restart");
  bail_when (bool_decide (y.(w_view).(v_db) !! key = Some (text_of checkpoint2))) "not recovered" ;;
  mret (x, y).

Lemma deployment_safe_witness :
  exists x y, lived = Ok (x, y) /\ rtc (life (R := BlockUpdateResponse) no_path key) world2 y /\
    safe_from None key 2 (view x) /\ safe_from None key 2 (view y) /\
    y.(w_view).(v_db) !! key <> Some (text_of checkpoint2).
Proof.
  assert (is_ok lived = true) as Hok by (vm_compute; reflexivity).
  apply is_ok_true in Hok as [[x y] E]. exists x, y. split; [exact E|]. unfold lived in E.
  apply bind_Ok in E as (x' & Ex & E). apply bind_Ok in E as (u1 & _ & E).
  apply bind_Ok in E as (u2 & _ & E). apply bind_Ok in E as (y' & Ey & E).
  apply bind_Ok in E as (u3 & Ed & E). apply Ok_inj, pair_eq in E as [-> ->].
  apply ok_or_Ok in Ex, Ey. apply bail_when_Ok, bool_decide_eq_false in Ed.
  apply list_elem_of_lookup_2 in Ex. apply last_Some_elem_of in Ey.
  assert (key_of_args args1 = key) as Hk by reflexivity.
  assert (rtc (life (R := BlockUpdateResponse) no_path key) world2 x) as H1
    by (apply rtc_once; exact (life_command _ _ _ _ _ _ Hk Ex)).
  assert (rtc (life (R := BlockUpdateResponse) no_path key) world2 y) as H2
    by (etrans; [exact H1|]; apply rtc_once; exact (life_command _ _ _ _ _ _ Hk Ey)).
  assert (safe_from None key 2 (view world2)) as H0.
  { exists checkpoint2. split; [split; vm_compute; discriminate|]. left. exact before2. }
  split; [exact H2|]. split; [|split; [|exact Ed]].
  - exact (deployment_safe no_path None key 2 world2 x (or_introl eq_refl) H0 H1).
  - exact (deployment_safe no_path None key 2 world2 y (or_introl eq_refl) H0 H2).
Defined.
End CliWitness.
