(* ===== verification/KvqBase.v ===== *)
(** * KVQ: ordered byte keys, fuzzy bounds and serialisable types

    [kvq/src/base_types.rs], the serialisation trait of [kvq/src/traits.rs],
    and what every store of the crate shares: the lexicographic order of the
    standard library's [Vec<u8>] keys, [BTreeMap] iteration and ranges over it
    (a [gmap] enumerated in key order), and the computation of the lower bound
    of a [leq] query. *)
From S2P Require Import Prelude.
From stdpp Require Import sorting.

(** ** The order of [Vec<u8>] *)
Fixpoint bytes_leb (a b : bytes) : bool :=
  match a, b with
  | [], _ => true
  | _ :: _, [] => false
  | x :: a, y :: b =>
      (Byte.to_N x <? Byte.to_N y)%N || ((Byte.to_N x =? Byte.to_N y)%N && bytes_leb a b)
  end.
Definition bytes_le (a b : bytes) : Prop := bytes_leb a b = true.
Definition bytes_lt (a b : bytes) : Prop := ~ bytes_le b a.

#[export] Instance bytes_le_dec a b : Decision (bytes_le a b).
Proof. unfold bytes_le. apply _. Defined.
#[export] Instance bytes_lt_dec a b : Decision (bytes_lt a b).
Proof. unfold bytes_lt. apply _. Defined.

Lemma bytes_le_cons x y a b :
  bytes_le (x :: a) (y :: b) <->
  (Byte.to_N x < Byte.to_N y)%N \/ (x = y /\ bytes_le a b).
Proof.
  unfold bytes_le. cbn [bytes_leb]. rewrite orb_true_iff, andb_true_iff, N.ltb_lt, N.eqb_eq.
  split; (intros [?|[E ?]]; [by left|right]); [|by subst].
  split; [|done]. by rewrite <- (byte_of_to_N x), E, byte_of_to_N.
Qed.

#[export] Instance bytes_le_refl : Reflexive bytes_le.
Proof. intros a. induction a; [done|]. apply bytes_le_cons. by right. Qed.

#[export] Instance bytes_le_trans : Transitive bytes_le.
Proof.
  intros a. induction a as [|x a IH]; intros b c Hab Hbc; [done|].
  destruct b as [|y b]; [done|]. destruct c as [|z c]; [done|].
  apply bytes_le_cons in Hab, Hbc. apply bytes_le_cons.
  destruct Hab as [?|[-> ?]], Hbc as [?|[-> ?]]; [left; lia|by left|by left|right]. eauto.
Qed.

#[export] Instance bytes_le_antisymm : AntiSymm (=) bytes_le.
Proof.
  intros a. induction a as [|x a IH]; intros [|y b] Hab Hba; [done..|].
  apply bytes_le_cons in Hab, Hba.
  destruct Hab as [?|[-> ?]], Hba as [?|[? ?]]; subst; try lia. f_equal. by apply IH.
Qed.

#[export] Instance bytes_le_total : Total bytes_le.
Proof.
  intros a. induction a as [|x a IH]; intros [|y b]; [by left..|by right|].
  rewrite !bytes_le_cons.
  destruct (N.lt_trichotomy (Byte.to_N x) (Byte.to_N y)) as [?|[E|?]]; [by left; left| |by right; left].
  assert (x = y) as -> by (by rewrite <- (byte_of_to_N x), E, byte_of_to_N).
  destruct (IH b); auto.
Qed.

(** Keys of one width compare as the big-endian integers they spell. *)
Lemma be_value_cons x a : be_value (x :: a) = (Byte.to_N x * 256 ^ N.of_nat (length a) + be_value a)%N.
Proof.
  unfold be_value. rewrite reverse_cons. rewrite <- (length_reverse a).
  induction (reverse a) as [|y l IH]; cbn [app le_value length]; [cbn; lia|].
  rewrite IH, Nat2N.inj_succ, N.pow_succ_r'. lia.
Qed.

Lemma bytes_le_be_value a b : length a = length b -> bytes_le a b <-> (be_value a <= be_value b)%N.
Proof.
  revert b. induction a as [|x a IH]; intros [|y b] El; [done..|]. injection El as El.
  rewrite bytes_le_cons, !be_value_cons, (IH b El), El.
  pose proof (be_value_bound a) as Ha. pose proof (be_value_bound b) as Hb. rewrite El in Ha.
  set (p := (256 ^ N.of_nat (length b))%N) in *.
  split.
  - intros [?|[-> ?]]; nia.
  - intros H. destruct (N.lt_trichotomy (Byte.to_N x) (Byte.to_N y)) as [?|[E|?]]; [by left| |nia].
    right. split; [|nia]. by rewrite <- (byte_of_to_N x), E, byte_of_to_N.
Qed.

(** ** [BTreeMap] iteration and ranges *)
Section btree.
Context {V : Type}.
Implicit Types (m : gmap bytes V) (k lo hi : bytes).

Definition entry_le (x y : bytes * V) : Prop := bytes_le x.1 y.1.

#[export] Instance entry_le_dec x y : Decision (entry_le x y).
Proof. unfold entry_le. apply _. Defined.
#[export] Instance entry_le_refl : Reflexive entry_le.
Proof. intros x. apply (reflexivity (R := bytes_le)). Qed.
#[export] Instance entry_le_trans : Transitive entry_le.
Proof. intros x y z. unfold entry_le. by intros ->. Qed.
#[export] Instance entry_le_total : Total entry_le.
Proof. intros x y. apply (total bytes_le). Qed.

(** [map.iter()] *)
Definition btree_iter m : list (bytes * V) := merge_sort entry_le (map_to_list m).
(** [map.range((Included(lo), Included(hi)))], for [lo <= hi]. *)
Definition in_range lo hi k : Prop := bytes_le lo k /\ bytes_le k hi.
#[export] Instance in_range_dec lo hi k : Decision (in_range lo hi k).
Proof. unfold in_range. apply _. Defined.
Definition btree_range m lo hi : list (bytes * V) :=
  filter (fun x => in_range lo hi x.1) (btree_iter m).

Lemma elem_of_btree_iter m k v : (k, v) ∈ btree_iter m <-> m !! k = Some v.
Proof. unfold btree_iter. by rewrite merge_sort_Permutation, elem_of_map_to_list. Qed.

Lemma btree_iter_sorted m : StronglySorted entry_le (btree_iter m).
Proof. apply (StronglySorted_merge_sort _). Qed.

Lemma elem_of_btree_range m lo hi k v :
  (k, v) ∈ btree_range m lo hi <-> m !! k = Some v /\ in_range lo hi k.
Proof. unfold btree_range. rewrite list_elem_of_filter, elem_of_btree_iter. cbn. tauto. Qed.

Lemma StronglySorted_filter {A} (R : relation A) (P : A -> Prop) `{!forall x, Decision (P x)} l :
  StronglySorted R l -> StronglySorted R (filter P l).
Proof.
  induction 1 as [|x l Hl IH Hx]; [constructor|]. rewrite filter_cons.
  destruct (decide (P x)); [|done]. constructor; [done|].
  apply Forall_forall. intros y [_ Hy]%list_elem_of_filter. rewrite Forall_forall in Hx. auto.
Qed.

Lemma btree_range_sorted m lo hi : StronglySorted entry_le (btree_range m lo hi).
Proof. apply StronglySorted_filter, btree_iter_sorted. Qed.

Lemma btree_range_NoDup m lo hi : NoDup (btree_range m lo hi).
Proof.
  apply NoDup_filter. unfold btree_iter. rewrite merge_sort_Permutation. apply NoDup_map_to_list.
Qed.

Lemma sorted_last {A} (R : relation A) `{!Reflexive R} l x y :
  StronglySorted R l -> last l = Some x -> y ∈ l -> R y x.
Proof.
  intros Hs Hl Hy. apply last_Some in Hl as [l' ->].
  apply elem_of_app in Hy as [Hy|Hy%list_elem_of_singleton]; [|by subst].
  eapply StronglySorted_app_1_elem_of; [done..|]. apply list_elem_of_here.
Qed.

(** [range(..).next_back()] is the entry with the greatest key of the range. *)
Definition greatest m lo hi k v : Prop :=
  m !! k = Some v /\ in_range lo hi k /\
  forall k' v', m !! k' = Some v' -> in_range lo hi k' -> bytes_le k' k.

Lemma last_range_Some m lo hi k v :
  last (btree_range m lo hi) = Some (k, v) <-> greatest m lo hi k v.
Proof.
  split.
  - intros H. pose proof H as Hk%last_Some_elem_of. apply elem_of_btree_range in Hk as [? ?].
    split_and!; [done..|]. intros k' v' Hk' Hr.
    apply (sorted_last entry_le _ (k, v) (k', v') (btree_range_sorted m lo hi) H).
    by apply elem_of_btree_range.
  - intros (Hk & Hr & Hmax). destruct (last (btree_range m lo hi)) as [[k' v']|] eqn:E.
    + pose proof E as Hk'%last_Some_elem_of. apply elem_of_btree_range in Hk' as [Hk' Hr'].
      assert (k' = k) as ->.
      { apply (anti_symm bytes_le); [by eapply Hmax|].
        apply (sorted_last entry_le _ (k', v') (k, v) (btree_range_sorted m lo hi) E).
        by apply elem_of_btree_range. }
      congruence.
    + apply last_None in E. exfalso.
      pose proof (proj2 (elem_of_btree_range m lo hi k v) (conj Hk Hr)) as H.
      rewrite E in H. by apply elem_of_nil in H.
Qed.

Lemma last_range_None m lo hi :
  last (btree_range m lo hi) = None <-> forall k, in_range lo hi k -> m !! k = None.
Proof.
  rewrite last_None. split.
  - intros E k Hr. apply eq_None_not_Some. intros [v Hv].
    pose proof (proj2 (elem_of_btree_range m lo hi k v) (conj Hv Hr)) as H.
    rewrite E in H. by apply elem_of_nil in H.
  - intros H. destruct (btree_range m lo hi) as [|[k v] l] eqn:E; [done|]. exfalso.
    assert ((k, v) ∈ btree_range m lo hi) as [Hk Hr]%elem_of_btree_range
      by (rewrite E; apply list_elem_of_here).
    rewrite (H k Hr) in Hk. done.
Qed.
End btree.

(** ** The bounds of a [leq] query

    Every [leq] operation zeroes the last [fuzzy_bytes] bytes of the key to
    get the lower bound, in a loop from the last byte. *)
Definition fuzzy_base (key : bytes) (fuzzy_bytes : nat) : bytes :=
  foldl (fun base i => <[length key - i - 1 := x00]> base) key (seq 0 fuzzy_bytes).

(** [sum_end]: the sum of those bytes, in a [u32]. *)
Definition fuzzy_sum (key : bytes) (fuzzy_bytes : nat) : N :=
  foldl (fun sum i => wrapping_add u32_max sum (Byte.to_N (nth (length key - i - 1) key x00)))
    0%N (seq 0 fuzzy_bytes).

Lemma fuzzy_base_spec key n :
  n <= length key -> fuzzy_base key n = take (length key - n) key ++ replicate n x00.
Proof.
  unfold fuzzy_base. induction n as [|n IH]; intros Hn.
  - cbn. rewrite Nat.sub_0_r, firstn_all. by rewrite app_nil_r.
  - rewrite seq_S, foldl_app, IH by lia. cbn [foldl].
    replace (length key - n) with (S (length key - S n)) by lia.
    replace (length key - (0 + n) - 1) with (length key - S n) by lia.
    destruct (lookup_lt_is_Some_2 key (length key - S n)) as [x Hx]; [lia|].
    rewrite (take_S_r _ _ _ Hx), <- app_assoc.
    rewrite insert_app_r_alt by (rewrite length_take; lia).
    rewrite length_take, Nat.min_l, Nat.sub_diag by lia. done.
Qed.

Lemma fuzzy_base_length key n : length (fuzzy_base key n) = length key.
Proof.
  unfold fuzzy_base. set (f := fun base i => _).
  assert (forall l base, length (foldl f base l) = length base) as H; [|apply H].
  intros l. induction l as [|i l IH]; intros base; [done|]. cbn [foldl]. rewrite IH. apply length_insert.
Qed.

Lemma bytes_le_zeros a : bytes_le (replicate (length a) x00) a.
Proof.
  induction a as [|x a IH]; [done|]. cbn [length replicate]. apply bytes_le_cons.
  destruct (decide (x = x00)) as [->|Hx]; [by right|]. left. change (Byte.to_N x00) with 0%N.
  destruct (N.eq_0_gt_0_cases (Byte.to_N x)) as [E|?]; [|done].
  exfalso. apply Hx. by rewrite <- (byte_of_to_N x), E.
Qed.

Lemma bytes_le_app p a b : bytes_le a b -> bytes_le (p ++ a) (p ++ b).
Proof. intros H. induction p; [done|]. cbn. apply bytes_le_cons. by right. Qed.

(** So the range of a [leq] query is never inverted ([BTreeMap::range] panics
    on an inverted one). *)
Lemma fuzzy_base_le key n : n <= length key -> bytes_le (fuzzy_base key n) key.
Proof.
  intros Hn. rewrite fuzzy_base_spec by done.
  set (p := take _ key). rewrite <- (take_drop (length key - n) key). subst p.
  apply bytes_le_app.
  replace n with (length (drop (length key - n) key)) at 1 by (rewrite length_drop; lia).
  apply bytes_le_zeros.
Qed.

Lemma fuzzy_sum_spec key n :
  n <= length key -> (N.of_nat n * 255 <= u32_max)%N ->
  (fuzzy_sum key n <= N.of_nat n * 255)%N /\
  (fuzzy_sum key n = 0%N <-> fuzzy_base key n = key).
Proof.
  intros Hn Hb.
  assert (fuzzy_sum key n <= N.of_nat n * 255 /\
    (fuzzy_sum key n = 0 <-> drop (length key - n) key = replicate n x00))%N as [? E].
  - induction n as [|n IH]; [cbn; by rewrite Nat.sub_0_r, drop_all|].
    destruct IH as [IHb IH]; [lia..|]. unfold fuzzy_sum in *. rewrite seq_S, foldl_app.
    cbn [foldl Nat.add]. set (s := foldl _ _ _) in *.
    destruct (lookup_lt_is_Some_2 key (length key - S n)) as [x Hx]; [lia|].
    replace (length key - n - 1) with (length key - S n) by lia.
    rewrite (nth_lookup_Some _ _ x00 _ Hx). pose proof (byte_to_N_lt x).
    unfold wrapping_add. rewrite N.mod_small by (unfold u32_max in *; lia).
    split; [lia|]. erewrite drop_S by done.
    replace (S (length key - S n)) with (length key - n) by lia. cbn [replicate].
    split.
    + intros Hs. assert (x = x00) as -> by (rewrite <- (byte_of_to_N x); replace (Byte.to_N x) with 0%N by lia; done).
      f_equal. apply IH. lia.
    + intros [= -> H0]. apply IH in H0. change (Byte.to_N x00) with 0%N. lia.
  - split; [done|]. rewrite E, fuzzy_base_spec by done.
    pose proof (take_drop (length key - n) key) as Etd.
    split; [by intros <-|]. intros E'. apply (inj (app (take (length key - n) key))). congruence.
Qed.

(** Read as integers, the range of a [leq] query on a fixed-width key is the
    aligned block of [256 ^ fuzzy_bytes] numbers up to the key. *)
Lemma be_value_app a b : be_value (a ++ b) = (be_value a * 256 ^ N.of_nat (length b) + be_value b)%N.
Proof.
  induction a as [|x a IH]; [done|]. cbn [app]. rewrite !be_value_cons, IH, length_app, Nat2N.inj_add, N.pow_add_r.
  lia.
Qed.

Lemma be_value_zeros n : be_value (replicate n x00) = 0%N.
Proof. induction n; [done|]. cbn [replicate]. rewrite be_value_cons, IHn. cbn. done. Qed.

Lemma fuzzy_base_value key n :
  n <= length key ->
  be_value (fuzzy_base key n) = (be_value key - be_value key mod 256 ^ N.of_nat n)%N.
Proof.
  intros Hn. rewrite fuzzy_base_spec by done. rewrite be_value_app, be_value_zeros, length_replicate.
  assert (be_value key = be_value (take (length key - n) key) * 256 ^ N.of_nat n
    + be_value (drop (length key - n) key))%N as ->.
  { rewrite <- (take_drop (length key - n) key) at 1. rewrite be_value_app, length_drop.
    by replace (length key - (length key - n)) with n by lia. }
  pose proof (be_value_bound (drop (length key - n) key)) as Hb. rewrite length_drop in Hb.
  replace (length key - (length key - n)) with n in Hb by lia.
  set (a := (be_value _ * _)%N). set (b := be_value (drop _ _)) in *.
  assert ((a + b) mod 256 ^ N.of_nat n = b)%N as ->; [|lia].
  subst a. by rewrite N.add_comm, N.Div0.mod_add, N.mod_small.
Qed.

(** ** [KVQSerializable] and [base_types.rs] *)
Class KVQSerializable (A : Type) := {
  to_bytes : A -> outcome bytes;
  from_bytes : bytes -> outcome A;
}.

(** What the stores need of a key or value type: values encode, and decode to
    themselves.  Machine integers are [N]s, so the law is for the values the
    type has, [valid]. *)
Class SerializableLaws (A : Type) `{!KVQSerializable A} := {
  valid : A -> Prop;
  from_to_bytes a : valid a -> exists bs, to_bytes a = Ok bs /\ from_bytes bs = Ok a;
}.

Lemma to_bytes_inj `{SerializableLaws A} (a b : A) bs :
  valid a -> valid b -> to_bytes a = Ok bs -> to_bytes b = Ok bs -> a = b.
Proof.
  intros (x & Hx & Ha)%from_to_bytes (y & Hy & Hb)%from_to_bytes E1 E2.
  rewrite Hx in E1. rewrite Hy in E2. simplify_eq. congruence.
Qed.

(** [impl_kvq_serialize!(u8, u32, u64, u128)]: big-endian; [try_into] fails on
    a slice of another length. *)
Definition uint_to_bytes (w : nat) (n : N) : outcome bytes := Ok (be_bytes w n).
Definition uint_from_bytes (w : nat) (bs : bytes) : outcome N :=
  if decide (length bs = w) then Ok (be_value bs) else Err (External "TryFromSliceError").

Lemma uint_from_to_bytes w n : (n < 256 ^ N.of_nat w)%N -> uint_from_bytes w (be_bytes w n) = Ok n.
Proof.
  intros Hn. unfold uint_from_bytes. rewrite decide_True by apply be_bytes_length.
  by rewrite be_value_bytes.
Qed.
Lemma uint_to_from_bytes w bs n : uint_from_bytes w bs = Ok n -> uint_to_bytes w n = Ok bs /\ (n < 256 ^ N.of_nat w)%N.
Proof.
  unfold uint_from_bytes, uint_to_bytes. case_decide as E; [|done]. intros [= <-]. subst w.
  by rewrite be_bytes_value; split; [|apply be_value_bound].
Qed.

Record DBRow := { row_key : bytes; row_value : bytes }.

Module DBRowCodec.
Definition to_bytes (row : DBRow) : outcome bytes :=
  let key_len := as_u32 (N.of_nat (length row.(row_key))) in
  Ok (be_bytes 4 key_len ++ row.(row_key) ++ row.(row_value)).

Definition from_bytes (bs : bytes) : outcome DBRow :=
  bail_when (length bs <? 4)%nat "Invalid DBRow length";;
  let size := N.to_nat (be_value (slice bs 0 4)) in
  bail_when (length bs <? size + 4)%nat "Invalid DBRow length";;
  Ok {| row_key := slice bs 4 (size + 4); row_value := drop (size + 4) bs |}.
End DBRowCodec.

(** [[u8; SIZE]]: [copy_from_slice] panics on a slice of another length. *)
Module ByteArrayCodec.
Definition to_bytes (a : bytes) : outcome bytes := Ok a.
Definition from_bytes (SIZE : nat) (bs : bytes) : outcome bytes :=
  if decide (length bs = SIZE) then Ok bs else Panic "copy_from_slice".
End ByteArrayCodec.

(** [Vec<u8>] *)
Module VecCodec.
Definition to_bytes (a : bytes) : outcome bytes := Ok a.
Definition from_bytes (bs : bytes) : outcome bytes := Ok bs.
End VecCodec.

(** [[u64; SIZE]] and [[u32; SIZE]], of element width [w] bytes: a slice past
    the end panics, trailing bytes are ignored. *)
Module UintArrayCodec.
Definition to_bytes (w : nat) (a : list N) : outcome bytes := Ok (a ≫= be_bytes w).
Definition from_bytes (w SIZE : nat) (bs : bytes) : outcome (list N) :=
  mapM (fun i =>
    if (length bs <? (i + 1) * w)%nat then Panic "range end index out of range for slice"
    else Ok (be_value (slice bs (i * w) ((i + 1) * w)))) (seq 0 SIZE).
End UintArrayCodec.
Module U32ArrayCodec.
Definition to_bytes : list N -> outcome bytes := UintArrayCodec.to_bytes 4.
Definition from_bytes : nat -> bytes -> outcome (list N) := UintArrayCodec.from_bytes 4.
End U32ArrayCodec.

Lemma slice_app_l {A} (a b : list A) n : length a = n -> slice (a ++ b) 0 n = a.
Proof. intros <-. unfold slice. by rewrite drop_0, Nat.sub_0_r, take_app_length. Qed.
Lemma slice_app_mid {A} (a b c : list A) lo hi :
  length a = lo -> hi = lo + length b -> slice (a ++ b ++ c) lo hi = b.
Proof.
  intros <- ->. unfold slice. rewrite drop_app_length.
  by rewrite Nat.add_comm, Nat.add_sub, take_app_length.
Qed.

(** A row is recovered from its bytes, and every byte string that decodes is
    the encoding of its row, so a row has one encoding. *)
Lemma db_row_roundtrip row :
  (N.of_nat (length row.(row_key)) <= u32_max)%N ->
  exists bs, DBRowCodec.to_bytes row = Ok bs /\ DBRowCodec.from_bytes bs = Ok row.
Proof.
  intros Hk. eexists. split; [done|]. destruct row as [k v]. cbn [row_key row_value] in *.
  unfold DBRowCodec.from_bytes, as_u32. rewrite N.mod_small by (unfold u32_max in *; lia).
  rewrite !length_app, be_bytes_length. cbn [row_key row_value].
  rewrite (slice_app_l _ _ 4) by apply be_bytes_length.
  rewrite be_value_bytes, Nat2N.id by (unfold u32_max in *; cbn; lia).
  rewrite (proj2 (Nat.ltb_ge _ 4)) by lia. rewrite (proj2 (Nat.ltb_ge _ (length k + 4))) by lia.
  unfold bail_when, mbind, outcome_bind. f_equal. f_equal.
  - apply slice_app_mid; [by rewrite be_bytes_length|lia].
  - rewrite app_assoc, drop_app_length'; [done|]. rewrite length_app, be_bytes_length. lia.
Qed.

Lemma uint_array_roundtrip w a :
  Forall (fun n => n < 256 ^ N.of_nat w)%N a ->
  exists bs, UintArrayCodec.to_bytes w a = Ok bs /\ UintArrayCodec.from_bytes w (length a) bs = Ok a.
Proof.
  intros Ha. eexists. split; [done|]. unfold UintArrayCodec.from_bytes.
  apply mapM_Ok. apply Forall2_same_length_lookup. rewrite length_seq. split; [done|].
  intros j i n Hi Hn. apply lookup_seq in Hi as [-> Hj]. cbn [Nat.add].
  assert (forall l : list N, length (l ≫= be_bytes w) = length l * w) as Hlen.
  { induction l as [|x l IH]; [done|]. rewrite bind_cons, length_app, be_bytes_length, IH. cbn. lia. }
  rewrite <- (take_drop_middle a j n Hn), bind_app, bind_cons.
  rewrite !length_app, !Hlen, be_bytes_length, length_take, length_drop, Nat.min_l by lia.
  rewrite (proj2 (Nat.ltb_ge _ _)) by nia.
  unfold slice. rewrite drop_app_length' by (rewrite Hlen, length_take; nia).
  replace ((j + 1) * w - j * w) with w by lia.
  rewrite take_app_length' by (by rewrite be_bytes_length).
  rewrite be_value_bytes; [done|]. rewrite Forall_forall in Ha. apply Ha.
  by eapply list_elem_of_lookup_2.
Qed.

#[export] Instance u64_serializable : KVQSerializable N :=
  {| to_bytes := uint_to_bytes 8; from_bytes := uint_from_bytes 8 |}.
#[export] Program Instance u64_laws : SerializableLaws N := {| valid n := (n <= u64_max)%N |}.
Next Obligation.
  intros n Hn. eexists. split; [done|]. apply uint_from_to_bytes.
  unfold u64_max in Hn. cbn. lia.
Qed.

#[export] Instance vec_serializable : KVQSerializable bytes :=
  {| to_bytes := VecCodec.to_bytes; from_bytes := VecCodec.from_bytes |}.
#[export] Program Instance vec_laws : SerializableLaws bytes := {| valid _ := True |}.
Next Obligation. intros bs _. by exists bs. Qed.
