(* ===== verification/KvqStore.v ===== *)
(** * KVQ: the store traits, the in-memory store and the lock wrapper

    [kvq/src/traits.rs], [kvq/src/memory/simple.rs] and
    [kvq/src/memory/immutable.rs].  A reader method takes [&self] and is a
    function of the store; a writer method returns the store it leaves beside
    its result, whatever the result is.  The traits are classes; what a store
    promises its clients is the classes [ReaderLaws], [LeqLaws] and
    [WriterLaws], stated against a finite map from keys to values. *)
From S2P Require Import Prelude KvqBase.

Record KVQPair (K V : Type) := KV { kv_key : K; kv_value : V }.
Arguments KV {_ _} _ _.
Arguments kv_key {_ _} _.
Arguments kv_value {_ _} _.
Abbreviation BytesPair := (KVQPair bytes bytes).

(** ** Traits *)
Class KVQBinaryStoreReader (S : Type) := {
  get_exact_if_exists : S -> bytes -> outcome (option bytes);
  get_exact : S -> bytes -> outcome bytes;
  get_many_exact : S -> list bytes -> outcome (list bytes);
  get_leq : S -> bytes -> nat -> outcome (option bytes);
  get_fuzzy_range_leq_kv : S -> bytes -> nat -> outcome (list BytesPair);
  get_leq_kv : S -> bytes -> nat -> outcome (option BytesPair);
  get_many_leq : S -> list bytes -> nat -> outcome (list (option bytes));
  get_many_leq_kv : S -> list bytes -> nat -> outcome (list (option BytesPair));
}.

Class KVQBinaryStoreWriter (S : Type) := {
  set : S -> bytes -> bytes -> S * outcome ();
  set_ref : S -> bytes -> bytes -> S * outcome ();
  set_many_ref : S -> list BytesPair -> S * outcome ();
  set_many_vec : S -> list BytesPair -> S * outcome ();
  set_many_split_ref : S -> list bytes -> list bytes -> S * outcome ();
  delete_key : S -> bytes -> S * outcome bool;
  delete_many : S -> list bytes -> S * outcome (list bool);
}.

Class KVQBinaryStoreWriterImmutable (S : Type) := {
  imm_set : S -> bytes -> bytes -> S * outcome ();
  imm_set_ref : S -> bytes -> bytes -> S * outcome ();
  imm_set_many_ref : S -> list BytesPair -> S * outcome ();
  imm_set_many_vec : S -> list BytesPair -> S * outcome ();
  imm_set_many_split_ref : S -> list bytes -> list bytes -> S * outcome ();
  imm_delete : S -> bytes -> S * outcome bool;
  imm_delete_many : S -> list bytes -> S * outcome (list bool);
}.

(** [impl<T: KVQBinaryStoreWriterAutoImmutable> KVQBinaryStoreWriter for T] *)
Definition writer_auto_immutable {S} `{!KVQBinaryStoreWriterImmutable S} : KVQBinaryStoreWriter S := {|
  set := imm_set;
  set_ref := imm_set_ref;
  set_many_ref := imm_set_many_ref;
  set_many_vec := imm_set_many_vec;
  set_many_split_ref := imm_set_many_split_ref;
  delete_key := imm_delete;
  delete_many := imm_delete_many;
|}.

(** [unwrap_kv_vec_result] and [unwrap_kv_result] *)
Definition missing_value : error := Anyhow "Missing value in unwrapped Vec result!".
Definition unwrap_kv_vec_result {T} (results : list (option T)) : outcome (list T) :=
  mapM (fun item_opt => ok_or item_opt missing_value) results.
Definition unwrap_kv_result {T} (item_opt : option T) : outcome T := ok_or item_opt missing_value.

(** The trait's provided methods. *)
Section provided.
Context {S : Type} `{!KVQBinaryStoreReader S}.

Definition get_leq_u (s : S) (key : bytes) (fuzzy_bytes : nat) : outcome bytes :=
  r ← get_leq s key fuzzy_bytes; unwrap_kv_result r.
Definition get_leq_kv_u (s : S) (key : bytes) (fuzzy_bytes : nat) : outcome BytesPair :=
  r ← get_leq_kv s key fuzzy_bytes; unwrap_kv_result r.
Definition get_many_leq_u (s : S) (keys : list bytes) (fuzzy_bytes : nat) : outcome (list bytes) :=
  r ← get_many_leq s keys fuzzy_bytes; unwrap_kv_vec_result r.
Definition get_many_leq_kv_u (s : S) (keys : list bytes) (fuzzy_bytes : nat) : outcome (list BytesPair) :=
  r ← get_many_leq_kv s keys fuzzy_bytes; unwrap_kv_vec_result r.
End provided.

Lemma unwrap_kv_vec_result_Ok {T} (results : list (option T)) l :
  unwrap_kv_vec_result results = Ok l <-> results = Some <$> l.
Proof.
  unfold unwrap_kv_vec_result. rewrite mapM_Ok. split.
  - induction 1 as [|r x rs xs Hr _ IH]; [done|]. apply ok_or_Ok in Hr. by subst.
  - intros ->. induction l; cbn; constructor; auto.
Qed.

(** ** The abstract store *)
Definition key_not_found : error := Anyhow "Key {} not found".
Definition fuzzy_too_long : string := "Fuzzy bytes must be less than or equal to key length".
Definition lengths_differ : error := Anyhow "Keys and values must have the same length".

Definition pair_of (x : bytes * bytes) : BytesPair := KV x.1 x.2.
Definition put_pair (m : gmap bytes bytes) (item : BytesPair) : gmap bytes bytes :=
  <[kv_key item := kv_value item]> m.
Definition put_pairs : gmap bytes bytes -> list BytesPair -> gmap bytes bytes := foldl put_pair.
Definition remove_keys : gmap bytes bytes -> list bytes -> gmap bytes bytes :=
  foldl (fun m key => delete key m).

Definition spec_exact (m : gmap bytes bytes) (key : bytes) : outcome bytes :=
  ok_or (m !! key) key_not_found.
Definition spec_range (m : gmap bytes bytes) (key : bytes) (fuzzy_bytes : nat) : outcome (list BytesPair) :=
  bail_when (length key <? fuzzy_bytes)%nat fuzzy_too_long;;
  Ok (pair_of <$> btree_range m (fuzzy_base key fuzzy_bytes) key).
Definition spec_leq_kv (m : gmap bytes bytes) (key : bytes) (fuzzy_bytes : nat) : outcome (option BytesPair) :=
  bail_when (length key <? fuzzy_bytes)%nat fuzzy_too_long;;
  Ok (pair_of <$> last (btree_range m (fuzzy_base key fuzzy_bytes) key)).
Definition spec_leq (m : gmap bytes bytes) (key : bytes) (fuzzy_bytes : nat) : outcome (option bytes) :=
  option_map kv_value <$> spec_leq_kv m key fuzzy_bytes.

(** Key lengths for which the [u32] sum of the fuzzy bytes cannot overflow. *)
Definition fuzzy_fits (fuzzy_bytes : nat) : Prop := (N.of_nat fuzzy_bytes * 255 <= u32_max)%N.

(** What a store holds, and whether its operations are not refused by a lock. *)
Class StoreView (S : Type) := {
  contents : S -> gmap bytes bytes;
  available : S -> Prop;
}.

Class ReaderLaws (S : Type) `{!KVQBinaryStoreReader S, !StoreView S} : Prop := {
  get_exact_if_exists_law (s : S) key : available s -> get_exact_if_exists s key = Ok (contents s !! key);
  get_exact_law (s : S) key : available s -> get_exact s key = spec_exact (contents s) key;
  get_many_exact_law (s : S) keys : available s -> get_many_exact s keys = mapM (spec_exact (contents s)) keys;
}.

Class LeqLaws (S : Type) `{!KVQBinaryStoreReader S, !StoreView S} : Prop := {
  get_leq_law (s : S) key fuzzy_bytes : available s -> fuzzy_fits fuzzy_bytes ->
    get_leq s key fuzzy_bytes = spec_leq (contents s) key fuzzy_bytes;
  get_leq_kv_law (s : S) key fuzzy_bytes : available s ->
    get_leq_kv s key fuzzy_bytes = spec_leq_kv (contents s) key fuzzy_bytes;
  get_fuzzy_range_law (s : S) key fuzzy_bytes : available s ->
    get_fuzzy_range_leq_kv s key fuzzy_bytes = spec_range (contents s) key fuzzy_bytes;
  get_many_leq_law (s : S) keys fuzzy_bytes : available s -> fuzzy_fits fuzzy_bytes ->
    get_many_leq s keys fuzzy_bytes = mapM (fun k => spec_leq (contents s) k fuzzy_bytes) keys;
  get_many_leq_kv_law (s : S) keys fuzzy_bytes : available s ->
    get_many_leq_kv s keys fuzzy_bytes = mapM (fun k => spec_leq_kv (contents s) k fuzzy_bytes) keys;
}.

(** A writer method succeeds and leaves the map [m]. *)
Definition leaves {S A} `{!StoreView S} (r : S * outcome A) (m : gmap bytes bytes) (P : A -> Prop) : Prop :=
  available r.1 /\ contents r.1 = m /\ exists a, r.2 = Ok a /\ P a.

Class WriterLaws (S : Type) `{!KVQBinaryStoreWriter S, !StoreView S} : Prop := {
  set_law (s : S) key value : available s -> leaves (set s key value) (<[key := value]> (contents s)) (fun _ => True);
  set_ref_law (s : S) key value : available s -> leaves (set_ref s key value) (<[key := value]> (contents s)) (fun _ => True);
  set_many_ref_law (s : S) items : available s -> leaves (set_many_ref s items) (put_pairs (contents s) items) (fun _ => True);
  set_many_vec_law (s : S) items : available s -> leaves (set_many_vec s items) (put_pairs (contents s) items) (fun _ => True);
  set_many_split_ref_law (s : S) keys values : available s -> length keys = length values ->
    leaves (set_many_split_ref s keys values) (put_pairs (contents s) (zip_with KV keys values)) (fun _ => True);
  set_many_split_ref_error (s : S) keys values : available s -> length keys <> length values ->
    set_many_split_ref s keys values = (s, Err lengths_differ);
  delete_law (s : S) key : available s -> leaves (delete_key s key) (delete key (contents s)) (fun _ => True);
  delete_many_law (s : S) keys : available s ->
    leaves (delete_many s keys) (remove_keys (contents s) keys) (fun bs => length bs = length keys);
}.

(** ** [KVQSimpleMemoryBackingStore] *)
Record KVQSimpleMemoryBackingStore := { map : gmap bytes bytes }.

(** A loop that calls a fallible method per item and collects the results. *)
Fixpoint loop_many {S A B} (f : S -> A -> S * outcome B) (s : S) (items : list A) : S * outcome (list B) :=
  match items with
  | [] => (s, Ok [])
  | item :: items =>
      match f s item with
      | (s, Ok b) => let (s, r) := loop_many f s items in (s, cons b <$> r)
      | (s, Err e) => (s, Err e)
      | (s, Panic p) => (s, Panic p)
      | (s, OutOfFuel) => (s, OutOfFuel)
      end
  end.

Module SimpleStore.
Definition new : KVQSimpleMemoryBackingStore := {| map := ∅ |}.
Definition clear (s : KVQSimpleMemoryBackingStore) : KVQSimpleMemoryBackingStore := {| map := ∅ |}.

Section reader.
Variable s : KVQSimpleMemoryBackingStore.

Definition get_exact (key : bytes) : outcome bytes :=
  match s.(map) !! key with
  | Some v => Ok v
  | None => Err (Anyhow "Key {} not found")
  end.
Definition get_many_exact (keys : list bytes) : outcome (list bytes) := mapM get_exact keys.

Definition get_leq (key : bytes) (fuzzy_bytes : nat) : outcome (option bytes) :=
  bail_when (length key <? fuzzy_bytes)%nat "Fuzzy bytes must be less than or equal to key length";;
  let base_key := fuzzy_base key fuzzy_bytes in
  if (fuzzy_sum key fuzzy_bytes =? 0)%N then Ok (s.(map) !! key)
  else Ok (snd <$> last (btree_range s.(map) base_key key)).

Definition get_leq_kv (key : bytes) (fuzzy_bytes : nat) : outcome (option BytesPair) :=
  bail_when (length key <? fuzzy_bytes)%nat "Fuzzy bytes must be less than or equal to key length";;
  let base_key := fuzzy_base key fuzzy_bytes in
  match last (btree_range s.(map) base_key key) with
  | Some (k, v) => Ok (Some (KV k v))
  | None => Ok None
  end.

Definition get_many_leq (keys : list bytes) (fuzzy_bytes : nat) : outcome (list (option bytes)) :=
  mapM (fun k => get_leq k fuzzy_bytes) keys.
Definition get_many_leq_kv (keys : list bytes) (fuzzy_bytes : nat) : outcome (list (option BytesPair)) :=
  mapM (fun k => get_leq_kv k fuzzy_bytes) keys.

Definition get_exact_if_exists (key : bytes) : outcome (option bytes) := Ok (s.(map) !! key).

Definition get_fuzzy_range_leq_kv (key : bytes) (fuzzy_bytes : nat) : outcome (list BytesPair) :=
  bail_when (length key <? fuzzy_bytes)%nat "Fuzzy bytes must be less than or equal to key length";;
  let base_key := fuzzy_base key fuzzy_bytes in
  Ok ((fun '(k, v) => KV k v) <$> btree_range s.(map) base_key key).
End reader.

Definition insert_kv (key value : bytes) (s : KVQSimpleMemoryBackingStore) : KVQSimpleMemoryBackingStore :=
  {| map := <[key := value]> s.(map) |}.

Definition set (s : KVQSimpleMemoryBackingStore) (key value : bytes) := (insert_kv key value s, Ok ()).
Definition set_ref (s : KVQSimpleMemoryBackingStore) (key value : bytes) := (insert_kv key value s, Ok ()).
Definition set_many_ref (s : KVQSimpleMemoryBackingStore) (items : list BytesPair) :=
  (foldl (fun s item => insert_kv (kv_key item) (kv_value item) s) s items, Ok ()).
Definition set_many_vec (s : KVQSimpleMemoryBackingStore) (items : list BytesPair) :=
  (foldl (fun s item => insert_kv (kv_key item) (kv_value item) s) s items, Ok ()).

Definition delete_one (s : KVQSimpleMemoryBackingStore) (key : bytes) : KVQSimpleMemoryBackingStore * outcome bool :=
  ({| map := delete key s.(map) |},
   match s.(map) !! key with
   | Some _ => Ok true
   | None => Ok false
   end).
Definition delete_many (s : KVQSimpleMemoryBackingStore) (keys : list bytes) := loop_many delete_one s keys.

Definition set_many_split_ref (s : KVQSimpleMemoryBackingStore) (keys values : list bytes) :=
  if decide (length keys = length values) then
    (foldl (fun s i => insert_kv (nth i keys []) (nth i values []) s) s (seq 0 (length keys)), Ok ())
  else (s, Err (Anyhow "Keys and values must have the same length")).
End SimpleStore.

#[export] Instance simple_reader : KVQBinaryStoreReader KVQSimpleMemoryBackingStore := {|
  get_exact_if_exists := SimpleStore.get_exact_if_exists;
  get_exact := SimpleStore.get_exact;
  get_many_exact := SimpleStore.get_many_exact;
  get_leq := SimpleStore.get_leq;
  get_fuzzy_range_leq_kv := SimpleStore.get_fuzzy_range_leq_kv;
  get_leq_kv := SimpleStore.get_leq_kv;
  get_many_leq := SimpleStore.get_many_leq;
  get_many_leq_kv := SimpleStore.get_many_leq_kv;
|}.
#[export] Instance simple_writer : KVQBinaryStoreWriter KVQSimpleMemoryBackingStore := {|
  set := SimpleStore.set;
  set_ref := SimpleStore.set_ref;
  set_many_ref := SimpleStore.set_many_ref;
  set_many_vec := SimpleStore.set_many_vec;
  set_many_split_ref := SimpleStore.set_many_split_ref;
  delete_key := SimpleStore.delete_one;
  delete_many := SimpleStore.delete_many;
|}.
#[export] Instance simple_view : StoreView KVQSimpleMemoryBackingStore :=
  {| contents := map; available _ := True |}.

(** The shared steps: loops of writes, and the range of a key whose fuzzy
    bytes are zero, which is the key itself. *)
Lemma loop_many_leaves {S A B} `{!StoreView S} (f : S -> A -> S * outcome B) (g : gmap bytes bytes -> A -> gmap bytes bytes) s items :
  (forall s a, available s -> leaves (f s a) (g (contents s) a) (fun _ => True)) ->
  available s -> leaves (loop_many f s items) (foldl g (contents s) items) (fun bs => length bs = length items).
Proof.
  intros Hf. revert s. induction items as [|a items IH]; intros s Hs; cbn [loop_many foldl].
  - split_and!; [done..|]. by exists [].
  - destruct (f s a) as [s' r] eqn:E. destruct (Hf s a Hs) as (Hs' & Hc & b & Hb & _).
    rewrite E in *. cbn in *. subst r. rewrite <- Hc.
    destruct (IH s' Hs') as (Hs'' & Hc' & bs & Hbs & Hlen).
    destruct (loop_many f s' items) as [s'' r]. cbn in *. subst r.
    split_and!; [done..|]. exists (b :: bs). split; [done|]. cbn. by f_equal.
Qed.

Lemma range_single {V} (m : gmap bytes V) key : last (btree_range m key key) = (fun v => (key, v)) <$> (m !! key).
Proof.
  destruct (m !! key) as [v|] eqn:E; cbn.
  - apply last_range_Some. split_and!; [done|split; reflexivity|]. by intros k' v' _ [_ ?].
  - apply last_range_None. intros k [H1 H2]. by rewrite <- (anti_symm bytes_le _ _ H1 H2).
Qed.

Lemma fold_insert_contents items s :
  map (foldl (fun s item => SimpleStore.insert_kv (kv_key item) (kv_value item) s) s items) = put_pairs (map s) items.
Proof. revert s. induction items as [|[k v] items IH]; intros s; [done|]. cbn. by rewrite IH. Qed.

Lemma foldl_index_zip {S} (f : bytes -> bytes -> S -> S) (keys values : list bytes) (s : S) :
  length keys = length values ->
  foldl (fun s i => f (nth i keys []) (nth i values []) s) s (seq 0 (length keys)) =
  foldl (fun s item => f (kv_key item) (kv_value item) s) s (zip_with KV keys values).
Proof.
  revert values s. induction keys as [|k keys IH]; intros [|v values] s; try done.
  intros [= E]. cbn [length seq foldl zip_with nth kv_key kv_value]. rewrite <- IH by done.
  by rewrite <- fmap_S_seq, foldl_fmap.
Qed.

#[export] Instance simple_reader_laws : ReaderLaws KVQSimpleMemoryBackingStore.
Proof. by constructor. Qed.

Lemma simple_get_leq_kv s key n : SimpleStore.get_leq_kv s key n = spec_leq_kv (map s) key n.
Proof.
  unfold SimpleStore.get_leq_kv, spec_leq_kv, fuzzy_too_long.
  destruct (bail_when _ _); [|done..]. cbn. by destruct (last _) as [[k v]|].
Qed.

Lemma simple_get_leq s key n : fuzzy_fits n -> SimpleStore.get_leq s key n = spec_leq (map s) key n.
Proof.
  intros Hn. unfold SimpleStore.get_leq, spec_leq, spec_leq_kv, fuzzy_too_long.
  destruct (length key <? n)%nat eqn:El; [done|]. bool_hyps. cbn.
  destruct (fuzzy_sum_spec key n El Hn) as [_ Hz].
  destruct (N.eqb_spec (fuzzy_sum key n) 0) as [->%Hz|_].
  - rewrite range_single. by destruct (map s !! key).
  - by destruct (last _) as [[k v]|].
Qed.

#[export] Instance simple_leq_laws : LeqLaws KVQSimpleMemoryBackingStore.
Proof.
  constructor; cbn; intros s; intros.
  - by apply simple_get_leq.
  - apply simple_get_leq_kv.
  - unfold SimpleStore.get_fuzzy_range_leq_kv, spec_range, fuzzy_too_long.
    destruct (bail_when _ _); [|done..]. cbn. f_equal. apply list_fmap_ext. by intros i [k v] _.
  - unfold SimpleStore.get_many_leq. apply mapM_outcome_ext. intros k _. by apply simple_get_leq.
  - unfold SimpleStore.get_many_leq_kv. apply mapM_outcome_ext. intros k _. apply simple_get_leq_kv.
Qed.

#[export] Instance simple_writer_laws : WriterLaws KVQSimpleMemoryBackingStore.
Proof.
  constructor; cbn; intros s; intros.
  - split_and!; [done..|]. by eexists.
  - split_and!; [done..|]. by eexists.
  - split_and!; [done|apply fold_insert_contents|]. by eexists.
  - split_and!; [done|apply fold_insert_contents|]. by eexists.
  - unfold SimpleStore.set_many_split_ref. rewrite decide_True by done.
    rewrite (foldl_index_zip SimpleStore.insert_kv) by done.
    split_and!; [done|apply fold_insert_contents|]. by eexists.
  - unfold SimpleStore.set_many_split_ref. by rewrite decide_False.
  - split_and!; [done..|]. cbn. destruct (map s !! key); by eexists.
  - refine (loop_many_leaves SimpleStore.delete_one (fun m key => delete key m) s keys _ I). intros s' k _.
    split_and!; [done..|]. cbn. destruct (map s' !! k); by eexists.
Qed.

(** [delete] of the in-memory store tells whether the key was there. *)
Lemma simple_delete_present (s : KVQSimpleMemoryBackingStore) key :
  (delete_key s key).2 = Ok (bool_decide (is_Some (map s !! key))).
Proof.
  cbn. by destruct (map s !! key).
Qed.

(** ** [KVQImmutableStoreWrapper] *)

(** The standard library's [RwLock]: who else holds it at the time of a call.
    A guard that a method takes is released when the method returns; a panic
    while the write guard is held poisons the lock. *)
Record RwLock (K : Type) := { inner : K; readers : nat; writing : bool; poisoned : bool }.
Arguments inner {_} _.
Arguments readers {_} _.
Arguments writing {_} _.
Arguments poisoned {_} _.

Definition is_panic {A} (r : outcome A) : bool := match r with Panic _ => true | _ => false end.

Definition try_read {K} (l : RwLock K) : outcome K :=
  if l.(writing) || l.(poisoned) then Err (Anyhow "TryLockError") else Ok l.(inner).
Definition try_write {K} (l : RwLock K) : outcome K :=
  if l.(writing) || l.(poisoned) || (0 <? l.(readers))%nat then Err (Anyhow "TryLockError") else Ok l.(inner).

Record KVQImmutableStoreWrapper (K : Type) := { lock : RwLock K }.
Arguments lock {_} _.

Module Wrapper.
Section wrapper.
Context {K : Type}.
Implicit Types (s : KVQImmutableStoreWrapper K).

Definition new (k : K) : KVQImmutableStoreWrapper K :=
  {| lock := {| inner := k; readers := 0; writing := false; poisoned := false |} |}.

Definition write s : outcome K :=
  match try_write s.(lock) with Err _ => Err (Anyhow "Error writing to immutable store: {:?}") | r => r end.
Definition read s : outcome K :=
  match try_read s.(lock) with Err _ => Err (Anyhow "Error reading from immutable store: {:?}") | r => r end.

(** [self.write()?.f(..)] *)
Definition with_write {A} s (f : K -> K * outcome A) : KVQImmutableStoreWrapper K * outcome A :=
  match write s with
  | Ok k =>
      let (k, r) := f k in
      ({| lock := {| inner := k; readers := readers s.(lock); writing := false; poisoned := is_panic r |} |}, r)
  | Err e => (s, Err e)
  | Panic p => (s, Panic p)
  | OutOfFuel => (s, OutOfFuel)
  end.

Context `{!KVQBinaryStoreReader K, !KVQBinaryStoreWriter K}.

#[export] Instance reader : KVQBinaryStoreReader (KVQImmutableStoreWrapper K) := {|
  get_exact_if_exists s key := k ← read s; get_exact_if_exists k key;
  get_exact s key := k ← read s; get_exact k key;
  get_many_exact s keys := k ← read s; get_many_exact k keys;
  get_leq s key fuzzy_bytes := k ← read s; get_leq k key fuzzy_bytes;
  get_fuzzy_range_leq_kv s key fuzzy_bytes := k ← read s; get_fuzzy_range_leq_kv k key fuzzy_bytes;
  get_leq_kv s key fuzzy_bytes := k ← read s; get_leq_kv k key fuzzy_bytes;
  get_many_leq s keys fuzzy_bytes := k ← read s; get_many_leq k keys fuzzy_bytes;
  get_many_leq_kv s keys fuzzy_bytes := k ← read s; get_many_leq_kv k keys fuzzy_bytes;
|}.

#[export] Instance writer : KVQBinaryStoreWriter (KVQImmutableStoreWrapper K) := {|
  set s key value := with_write s (fun k => set k key value);
  set_ref s key value := with_write s (fun k => set_ref k key value);
  set_many_ref s items := with_write s (fun k => set_many_ref k items);
  set_many_vec s items := with_write s (fun k => set_many_vec k items);
  set_many_split_ref s keys values := with_write s (fun k => set_many_split_ref k keys values);
  delete_key s key := with_write s (fun k => delete_key k key);
  delete_many s keys := with_write s (fun k => delete_many k keys);
|}.

#[export] Instance writer_immutable : KVQBinaryStoreWriterImmutable (KVQImmutableStoreWrapper K) := {|
  imm_set s key value := with_write s (fun k => set k key value);
  imm_set_ref s key value := with_write s (fun k => set_ref k key value);
  imm_set_many_ref s items := with_write s (fun k => set_many_ref k items);
  imm_set_many_vec s items := with_write s (fun k => set_many_vec k items);
  imm_set_many_split_ref s keys values := with_write s (fun k => set_many_split_ref k keys values);
  imm_delete s key := with_write s (fun k => delete_key k key);
  imm_delete_many s keys := with_write s (fun k => delete_many k keys);
|}.
End wrapper.
End Wrapper.
#[export] Existing Instances Wrapper.reader Wrapper.writer Wrapper.writer_immutable.

Section wrapper_laws.
Context {K : Type} `{!KVQBinaryStoreReader K, !KVQBinaryStoreWriter K, !StoreView K}.

(** The wrapper is available when nobody else holds its lock. *)
#[export] Instance wrapper_view : StoreView (KVQImmutableStoreWrapper K) := {|
  contents s := contents (inner (lock s));
  available s := writing (lock s) = false /\ poisoned (lock s) = false /\ readers (lock s) = 0 /\
    available (inner (lock s));
|}.

Lemma wrapper_read (s : KVQImmutableStoreWrapper K) : available s -> Wrapper.read s = Ok (inner (lock s)).
Proof. intros (Hw & Hp & Hr & _). unfold Wrapper.read, try_read. by rewrite Hw, Hp. Qed.

Lemma wrapper_write (s : KVQImmutableStoreWrapper K) : available s -> Wrapper.write s = Ok (inner (lock s)).
Proof. intros (Hw & Hp & Hr & _). unfold Wrapper.write, try_write. by rewrite Hw, Hp, Hr. Qed.

Lemma with_write_leaves {A} (s : KVQImmutableStoreWrapper K) (f : K -> K * outcome A) m P :
  available s -> leaves (f (inner (lock s))) m P -> leaves (Wrapper.with_write s f) m P.
Proof.
  intros Hs (Ha & Hc & a & Hr & HP). unfold Wrapper.with_write. rewrite wrapper_write by done.
  destruct (f _) as [k r]. cbn in *. subst r. destruct Hs as (_ & _ & Hrd & _).
  split_and!; [done..|]. by exists a.
Qed.

#[export] Instance wrapper_reader_laws `{!ReaderLaws K} : ReaderLaws (KVQImmutableStoreWrapper K).
Proof.
  constructor; intros s; intros; cbn; rewrite wrapper_read by done; cbn;
    match goal with H : available s |- _ => destruct H as (_ & _ & _ & ?) end.
  - by apply get_exact_if_exists_law.
  - by apply get_exact_law.
  - by apply get_many_exact_law.
Qed.

#[export] Instance wrapper_leq_laws `{!LeqLaws K} : LeqLaws (KVQImmutableStoreWrapper K).
Proof.
  constructor; intros s; intros; cbn; rewrite wrapper_read by done; cbn;
    match goal with H : available s |- _ => destruct H as (_ & _ & _ & ?) end.
  - by apply get_leq_law.
  - by apply get_leq_kv_law.
  - by apply get_fuzzy_range_law.
  - by apply get_many_leq_law.
  - by apply get_many_leq_kv_law.
Qed.

#[export] Instance wrapper_writer_laws `{!WriterLaws K} : WriterLaws (KVQImmutableStoreWrapper K).
Proof.
  constructor; intros s; intros; cbn;
    match goal with H : available s |- _ => pose proof H as (? & ? & ? & ?) end.
  - apply with_write_leaves; [done|by apply set_law].
  - apply with_write_leaves; [done|by apply set_ref_law].
  - apply with_write_leaves; [done|by apply set_many_ref_law].
  - apply with_write_leaves; [done|by apply set_many_vec_law].
  - apply with_write_leaves; [done|by apply set_many_split_ref_law].
  - unfold Wrapper.with_write. rewrite wrapper_write, set_many_split_ref_error by done.
    destruct s as [[k rd wr po]]. cbn in *. by subst.
  - apply with_write_leaves; [done|by apply delete_law].
  - apply with_write_leaves; [done|by apply delete_many_law].
Qed.

(** Under contention or after a panic a call is refused and changes nothing. *)
Lemma wrapper_write_refused {A} (s : KVQImmutableStoreWrapper K) (f : K -> K * outcome A) :
  writing (lock s) = true \/ poisoned (lock s) = true \/ 0 < readers (lock s) ->
  Wrapper.with_write s f = (s, Err (Anyhow "Error writing to immutable store: {:?}")).
Proof.
  intros H. unfold Wrapper.with_write, Wrapper.write, try_write.
  destruct (writing (lock s)); [done|]. destruct (poisoned (lock s)); [done|].
  destruct H as [?|[?|H]]; [done..|]. apply Nat.ltb_lt in H. by rewrite H.
Qed.
End wrapper_laws.

(** The [imm_*] methods of the wrapper are its writer methods. *)
Lemma wrapper_auto_immutable {K} `{!KVQBinaryStoreWriter K} :
  @writer_auto_immutable (KVQImmutableStoreWrapper K) _ = Wrapper.writer.
Proof. done. Qed.
