(* ===== verification/KvqArc.v ===== *)
(** * KVQ: the shared lock wrapper

    [KVQArcImmutableStoreWrapper] of [kvq/src/memory/arc_imm.rs]: the wrapper of
    [immutable.rs] behind an [Arc].  Its handles alias: [dup] and [clone] copy
    the pointer, so the model keeps the locks in a heap, and a handle is the
    heap together with an address.  The theorems say that handles of one cell
    see each other's writes, and handles of different cells do not. *)
From S2P Require Import Prelude KvqBase KvqStore.

(** The allocations, and one handle into them. *)
Record KVQArcImmutableStoreWrapper (K : Type) := mkArc { heap : gmap nat (RwLock K); ptr : nat }.
Arguments mkArc {_} _ _.
Arguments heap {_} _.
Arguments ptr {_} _.

Module ArcWrapper.
Section arc.
Context {K : Type}.
Implicit Types (s : KVQArcImmutableStoreWrapper K).

(** [Arc::new(RwLock::new(inner))] in a heap [h]. *)
Definition new (h : gmap nat (RwLock K)) (k : K) : KVQArcImmutableStoreWrapper K :=
  let p := fresh (dom h) in
  mkArc (<[p := lock (Wrapper.new k)]> h) p.

(** [dup], and the derived [clone]: another handle to the same cell. *)
Definition dup s : KVQArcImmutableStoreWrapper K * KVQArcImmutableStoreWrapper K := (s, s).

(** The same handle after somebody else's calls changed the heap. *)
Definition in_heap s (h : gmap nat (RwLock K)) : KVQArcImmutableStoreWrapper K := mkArc h s.(ptr).

(** A live handle's cell is never freed. *)
Definition cell s : outcome (KVQImmutableStoreWrapper K) :=
  match s.(heap) !! s.(ptr) with
  | Some l => Ok {| lock := l |}
  | None => Panic "dangling Arc"
  end.

Definition write s : outcome K := w ← cell s; Wrapper.write w.
Definition read s : outcome K := w ← cell s; Wrapper.read w.

(** [self.write()?.f(..)] *)
Definition with_write {A} s (f : K -> K * outcome A) : KVQArcImmutableStoreWrapper K * outcome A :=
  match cell s with
  | Ok w => let (w, r) := Wrapper.with_write w f in (mkArc (<[s.(ptr) := lock w]> s.(heap)) s.(ptr), r)
  | Err e => (s, Err e)
  | Panic p => (s, Panic p)
  | OutOfFuel => (s, OutOfFuel)
  end.

Context `{!KVQBinaryStoreReader K, !KVQBinaryStoreWriter K}.

#[export] Instance reader : KVQBinaryStoreReader (KVQArcImmutableStoreWrapper K) := {|
  get_exact_if_exists s key := k ← read s; get_exact_if_exists k key;
  get_exact s key := k ← read s; get_exact k key;
  get_many_exact s keys := k ← read s; get_many_exact k keys;
  get_leq s key fuzzy_bytes := k ← read s; get_leq k key fuzzy_bytes;
  get_fuzzy_range_leq_kv s key fuzzy_bytes := k ← read s; get_fuzzy_range_leq_kv k key fuzzy_bytes;
  get_leq_kv s key fuzzy_bytes := k ← read s; get_leq_kv k key fuzzy_bytes;
  get_many_leq s keys fuzzy_bytes := k ← read s; get_many_leq k keys fuzzy_bytes;
  get_many_leq_kv s keys fuzzy_bytes := k ← read s; get_many_leq_kv k keys fuzzy_bytes;
|}.

#[export] Instance writer : KVQBinaryStoreWriter (KVQArcImmutableStoreWrapper K) := {|
  set s key value := with_write s (fun k => set k key value);
  set_ref s key value := with_write s (fun k => set_ref k key value);
  set_many_ref s items := with_write s (fun k => set_many_ref k items);
  set_many_vec s items := with_write s (fun k => set_many_vec k items);
  set_many_split_ref s keys values := with_write s (fun k => set_many_split_ref k keys values);
  delete_key s key := with_write s (fun k => delete_key k key);
  delete_many s keys := with_write s (fun k => delete_many k keys);
|}.

#[export] Instance writer_immutable : KVQBinaryStoreWriterImmutable (KVQArcImmutableStoreWrapper K) := {|
  imm_set s key value := with_write s (fun k => set k key value);
  imm_set_ref s key value := with_write s (fun k => set_ref k key value);
  imm_set_many_ref s items := with_write s (fun k => set_many_ref k items);
  imm_set_many_vec s items := with_write s (fun k => set_many_vec k items);
  imm_set_many_split_ref s keys values := with_write s (fun k => set_many_split_ref k keys values);
  imm_delete s key := with_write s (fun k => delete_key k key);
  imm_delete_many s keys := with_write s (fun k => delete_many k keys);
|}.
End arc.
End ArcWrapper.
#[export] Existing Instances ArcWrapper.reader ArcWrapper.writer ArcWrapper.writer_immutable.

Section arc_laws.
Context {K : Type} `{!KVQBinaryStoreReader K, !KVQBinaryStoreWriter K, !StoreView K}.
Implicit Types (s t : KVQArcImmutableStoreWrapper K).

(** A handle shows what its cell holds. *)
#[export] Instance arc_view : StoreView (KVQArcImmutableStoreWrapper K) := {|
  contents s := match heap s !! ptr s with Some l => contents (inner l) | None => ∅ end;
  available s := exists l, heap s !! ptr s = Some l /\ available {| lock := l |};
|}.

Lemma arc_read s w : ArcWrapper.cell s = Ok w -> available w -> ArcWrapper.read s = Ok (inner (lock w)).
Proof. intros E Hw. unfold ArcWrapper.read. rewrite E. cbn. by apply wrapper_read. Qed.

Lemma arc_cell s : available s ->
  exists w, ArcWrapper.cell s = Ok w /\ heap s !! ptr s = Some (lock w) /\ available w /\
    available (inner (lock w)) /\ contents s = contents (inner (lock w)).
Proof.
  intros (l & E & Hl). exists {| lock := l |}. unfold ArcWrapper.cell. cbn. rewrite E.
  split; [done|]. split; [done|]. split; [exact Hl|]. split; [apply Hl|done].
Qed.

Lemma arc_with_write_leaves {A} s w (f : K -> K * outcome A) m P :
  ArcWrapper.cell s = Ok w -> available w -> leaves (f (inner (lock w))) m P ->
  leaves (ArcWrapper.with_write s f) m P.
Proof.
  intros E Hw Hf. pose proof (with_write_leaves w f m P Hw Hf) as (Ha & Hc & Hr).
  unfold ArcWrapper.with_write. rewrite E. destruct (Wrapper.with_write w f) as [[l] r].
  cbn [fst snd lock] in *. split; [exists l; split; [apply lookup_insert_eq|exact Ha]|].
  split; [|exact Hr]. unfold contents, arc_view. cbn [fst heap ptr].
  rewrite lookup_insert_eq. exact Hc.
Qed.

#[export] Instance arc_reader_laws `{!ReaderLaws K} : ReaderLaws (KVQArcImmutableStoreWrapper K).
Proof.
  constructor; intros s; intros; destruct (arc_cell s) as (w & E & _ & Hw & Hk & ->); try done;
    cbn -[contents]; rewrite (arc_read s w) by done; cbn -[contents].
  - by apply get_exact_if_exists_law.
  - by apply get_exact_law.
  - by apply get_many_exact_law.
Qed.

#[export] Instance arc_leq_laws `{!LeqLaws K} : LeqLaws (KVQArcImmutableStoreWrapper K).
Proof.
  constructor; intros s; intros; destruct (arc_cell s) as (w & E & _ & Hw & Hk & ->); try done;
    cbn -[contents]; rewrite (arc_read s w) by done; cbn -[contents].
  - by apply get_leq_law.
  - by apply get_leq_kv_law.
  - by apply get_fuzzy_range_law.
  - by apply get_many_leq_law.
  - by apply get_many_leq_kv_law.
Qed.

#[export] Instance arc_writer_laws `{!WriterLaws K} : WriterLaws (KVQArcImmutableStoreWrapper K).
Proof.
  constructor; intros s; intros; destruct (arc_cell s) as (w & E & Hl & Hw & Hk & Hc); try done;
    rewrite ?Hc; try (apply arc_with_write_leaves with (w := w); [done..|]).
  - by apply set_law.
  - by apply set_ref_law.
  - by apply set_many_ref_law.
  - by apply set_many_vec_law.
  - by apply set_many_split_ref_law.
  - cbn. unfold ArcWrapper.with_write. rewrite E.
    change (Wrapper.with_write w _) with (set_many_split_ref w keys values).
    rewrite set_many_split_ref_error by done. rewrite insert_id by done. by destruct s.
  - by apply delete_law.
  - by apply delete_many_law.
Qed.

(** A call through one handle leaves every other cell alone, so handles of one
    cell see its effect and the others see nothing. *)
Lemma arc_with_write_heap {A} s (f : K -> K * outcome A) p :
  p <> ptr s -> heap (ArcWrapper.with_write s f).1 !! p = heap s !! p.
Proof.
  intros Hp. unfold ArcWrapper.with_write. destruct (ArcWrapper.cell s) as [w| | |]; try done.
  destruct (Wrapper.with_write w f). cbn. by rewrite lookup_insert_ne.
Qed.

Lemma arc_with_write_ptr {A} s (f : K -> K * outcome A) : ptr (ArcWrapper.with_write s f).1 = ptr s.
Proof.
  unfold ArcWrapper.with_write. destruct (ArcWrapper.cell s) as [w| | |]; try done.
  by destruct (Wrapper.with_write w f).
Qed.

(** What a handle of the same heap sees after another one wrote [key]. *)
Theorem arc_aliases `{!ReaderLaws K, !WriterLaws K} s t key value :
  heap t = heap s -> available s -> available t ->
  let h := heap (set s key value).1 in
  get_exact_if_exists (ArcWrapper.in_heap t h) key =
    Ok (if bool_decide (ptr t = ptr s) then Some value else contents t !! key).
Proof.
  intros Hh Hs Ht h.
  assert (available (ArcWrapper.in_heap t h) /\ contents (ArcWrapper.in_heap t h) =
    (if bool_decide (ptr t = ptr s) then <[key := value]> (contents s) else contents t)) as [Ha Hc].
  { destruct (bool_decide_reflect (ptr t = ptr s)) as [E|E].
    - destruct (set_law s key value Hs) as (Ha & Hc & _). unfold ArcWrapper.in_heap. rewrite E.
      replace (ptr s) with (ptr (set s key value).1) by apply arc_with_write_ptr.
      subst h. by destruct (set s key value).1.
    - destruct Ht as (l & El & Hl). unfold ArcWrapper.in_heap, h. cbn.
      rewrite (arc_with_write_heap s (fun k => set k key value) _ E), <- Hh. split; [|done]. by exists l. }
  rewrite get_exact_if_exists_law, Hc by done. case_bool_decide; [|done]. by rewrite lookup_insert_eq.
Qed.

(** A new allocation aliases nothing, and its [dup] aliases it. *)
Lemma arc_new_fresh (h : gmap nat (RwLock K)) k p :
  is_Some (h !! p) -> ptr (ArcWrapper.new h k) <> p /\ heap (ArcWrapper.new h k) !! p = h !! p.
Proof.
  intros Hp. assert (fresh (dom h) <> p) as Hne.
  { intros <-. apply elem_of_dom in Hp. by apply is_fresh in Hp. }
  split; [done|]. cbn. by rewrite lookup_insert_ne.
Qed.
End arc_laws.
