(* ===== verification/KvqCache.v ===== *)
(** * KVQ: the write-back cache

    [kvq/src/cache/mod.rs]: a store that collects writes and deletions in a
    map of its own over another store, and flushes them.  What it holds is the
    overlay of the two.  Its exact reads, its writes and its flushes implement
    that overlay; its [leq] queries do under a condition on the cached keys,
    and [leq_query_stale] shows that they do not without it. *)
From S2P Require Import Prelude KvqBase KvqStore.
From stdpp Require Import sorting.

Inductive CacheValueType :=
| Bytes (b : bytes)
| Removed.
#[export] Instance cache_value_eq_dec : EqDecision CacheValueType.
Proof. solve_decision. Defined.

Record KVQBinaryStoreCached (S : Type) := {
  store : S;
  cache : gmap bytes CacheValueType;
  proper_delete_return : bool;
}.
Arguments Build_KVQBinaryStoreCached {_} _ _ _.
Arguments store {_} _.
Arguments cache {_} _.
Arguments proper_delete_return {_} _.

Definition with_cache {S} (c : KVQBinaryStoreCached S) (m : gmap bytes CacheValueType) : KVQBinaryStoreCached S :=
  {| store := c.(store); cache := m; proper_delete_return := c.(proper_delete_return) |}.

Definition is_bytes (v : CacheValueType) : bool :=
  match v with Bytes _ => true | Removed => false end.

Module Cached.
Section cached.
Context {S : Type}.
Implicit Types (c : KVQBinaryStoreCached S).

Definition new (s : S) : KVQBinaryStoreCached S :=
  {| store := s; cache := ∅; proper_delete_return := false |}.

Definition is_removed c (key : bytes) : bool :=
  match c.(cache) !! key with
  | Some (Bytes _) => false
  | Some Removed => true
  | None => false
  end.
Definition get_non_removed_keys c : list bytes :=
  (filter (fun x => is_bytes x.2 = true) (btree_iter c.(cache))).*1.
Definition get_removed_keys c : list bytes :=
  (filter (fun x => is_bytes x.2 = false) (btree_iter c.(cache))).*1.

(** The pairs to set: [filter], then a fallible [map] and [collect]. *)
Definition keys_to_set c : outcome (list BytesPair) :=
  mapM (fun x : bytes * CacheValueType =>
    match x.2 with
    | Bytes b => Ok (KV x.1 b)
    | Removed => Err (Anyhow "Cannot flush changes with removed keys")
    end) (filter (fun x => is_bytes x.2 = true) (btree_iter c.(cache))).

Definition flush_changes c : KVQBinaryStoreCached S * outcome (list BytesPair * list bytes) :=
  match keys_to_set c with
  | Ok set_keys => (with_cache c ∅, Ok (set_keys, get_removed_keys c))
  | Err e => (c, Err e)
  | Panic p => (c, Panic p)
  | OutOfFuel => (c, OutOfFuel)
  end.

(** [f(..)?] on the shared store, then the rest. *)
Definition on_store {A B} c (f : S -> S * outcome A) (k : KVQBinaryStoreCached S -> A -> KVQBinaryStoreCached S * outcome B) :
    KVQBinaryStoreCached S * outcome B :=
  let (s, r) := f c.(store) in
  let c := {| store := s; cache := c.(cache); proper_delete_return := c.(proper_delete_return) |} in
  match r with
  | Ok a => k c a
  | Err e => (c, Err e)
  | Panic p => (c, Panic p)
  | OutOfFuel => (c, OutOfFuel)
  end.

Definition flush_simple `{!KVQBinaryStoreWriterImmutable S} c : KVQBinaryStoreCached S * outcome () :=
  match keys_to_set c with
  | Ok keys_to_set =>
      on_store c (fun s => imm_set_many_ref s keys_to_set) (fun c _ =>
      let removed_keys := get_removed_keys c in
      on_store c (fun s => imm_delete_many s removed_keys) (fun c _ =>
      (with_cache c ∅, Ok ())))
  | Err e => (c, Err e)
  | Panic p => (c, Panic p)
  | OutOfFuel => (c, OutOfFuel)
  end.

Context `{!KVQBinaryStoreReader S}.

Definition get_exact c (key : bytes) : outcome bytes :=
  match c.(cache) !! key with
  | Some (Bytes b) => Ok b
  | Some Removed => Err (Anyhow "Key {} not found")
  | None => KvqStore.get_exact c.(store) key
  end.
Definition get_many_exact c (keys : list bytes) : outcome (list bytes) := mapM (get_exact c) keys.

(** The [for] loop over the cached range: it stops at the first [Bytes]. *)
Fixpoint first_cached (range : list (bytes * CacheValueType)) : option BytesPair :=
  match range with
  | [] => None
  | (k, Bytes b) :: _ => Some (KV k b)
  | (_, Removed) :: range => first_cached range
  end.

Definition get_leq c (key : bytes) (fuzzy_bytes : nat) : outcome (option bytes) :=
  bail_when (length key <? fuzzy_bytes)%nat "Fuzzy bytes must be less than or equal to key length";;
  let base_key := fuzzy_base key fuzzy_bytes in
  if (fuzzy_sum key fuzzy_bytes =? 0)%N then
    match c.(cache) !! key with
    | Some (Bytes b) => Ok (Some b)
    | Some Removed => Ok None
    | None => KvqStore.get_leq c.(store) key fuzzy_bytes
    end
  else
    match first_cached (btree_range c.(cache) base_key key) with
    | Some rok =>
        d1_leq ← KvqStore.get_leq_kv c.(store) key fuzzy_bytes;
        match d1_leq with
        | Some rnt => Ok (Some (if decide (bytes_lt (kv_key rok) (kv_key rnt)) then kv_value rnt else kv_value rok))
        | None => Ok (Some (kv_value rok))
        end
    | None => KvqStore.get_leq c.(store) key fuzzy_bytes
    end.

Definition get_leq_kv c (key : bytes) (fuzzy_bytes : nat) : outcome (option BytesPair) :=
  bail_when (length key <? fuzzy_bytes)%nat "Fuzzy bytes must be less than or equal to key length";;
  let base_key := fuzzy_base key fuzzy_bytes in
  if (fuzzy_sum key fuzzy_bytes =? 0)%N then
    match c.(cache) !! key with
    | Some (Bytes b) => Ok (Some (KV key b))
    | Some Removed => Ok None
    | None => KvqStore.get_leq_kv c.(store) key fuzzy_bytes
    end
  else
    match first_cached (btree_range c.(cache) base_key key) with
    | Some rok =>
        d1_leq ← KvqStore.get_leq_kv c.(store) key fuzzy_bytes;
        match d1_leq with
        | Some rnt => Ok (Some (if decide (bytes_lt (kv_key rok) (kv_key rnt)) then rnt else rok))
        | None => Ok (Some rok)
        end
    | None => KvqStore.get_leq_kv c.(store) key fuzzy_bytes
    end.

Definition get_many_leq c (keys : list bytes) (fuzzy_bytes : nat) : outcome (list (option bytes)) :=
  mapM (fun k => get_leq c k fuzzy_bytes) keys.
Definition get_many_leq_kv c (keys : list bytes) (fuzzy_bytes : nat) : outcome (list (option BytesPair)) :=
  mapM (fun k => get_leq_kv c k fuzzy_bytes) keys.

Definition get_exact_if_exists c (key : bytes) : outcome (option bytes) :=
  match c.(cache) !! key with
  | Some (Bytes b) => Ok (Some b)
  | Some Removed => Ok None
  | None => KvqStore.get_exact_if_exists c.(store) key
  end.

Definition get_fuzzy_range_leq_kv c (key : bytes) (fuzzy_bytes : nat) : outcome (list BytesPair) :=
  bail_when (length key <? fuzzy_bytes)%nat "Fuzzy bytes must be less than or equal to key length";;
  let base_key := fuzzy_base key fuzzy_bytes in
  stored ← KvqStore.get_fuzzy_range_leq_kv c.(store) key fuzzy_bytes;
  Ok (((fun x : bytes * CacheValueType =>
          KV x.1 (match x.2 with Bytes b => b | Removed => [] end)) <$>
         filter (fun x => is_bytes x.2 = true) (btree_range c.(cache) base_key key)) ++
      filter (fun x => c.(cache) !! kv_key x = None) stored).

Definition insert_kv (key : bytes) (v : CacheValueType) c : KVQBinaryStoreCached S :=
  with_cache c (<[key := v]> c.(cache)).
Definition insert_pair c (item : BytesPair) := insert_kv (kv_key item) (Bytes (kv_value item)) c.

Definition set c (key value : bytes) := (insert_kv key (Bytes value) c, @Ok () ()).
Definition set_ref c (key value : bytes) := (insert_kv key (Bytes value) c, @Ok () ()).
Definition set_many_ref c (items : list BytesPair) := (foldl insert_pair c items, @Ok () ()).
Definition set_many_vec c (items : list BytesPair) := (foldl insert_pair c items, @Ok () ()).

(** The result is computed after the [Removed] entry is in the map. *)
Definition delete_one c (key : bytes) : KVQBinaryStoreCached S * outcome bool :=
  let r := c.(cache) !! key in
  let c := insert_kv key Removed c in
  match r with
  | None =>
      if c.(proper_delete_return) then
        (c, r1 ← get_exact_if_exists c key;
            match r1 with Some _ => Ok true | None => Ok false end)
      else (c, Ok false)
  | Some _ => (c, Ok true)
  end.
Definition delete_many c (keys : list bytes) := loop_many delete_one c keys.

Definition set_many_split_ref c (keys values : list bytes) :=
  if decide (length keys = length values) then
    (foldl (fun c i => insert_kv (nth i keys []) (Bytes (nth i values [])) c) c (seq 0 (length keys)), @Ok () ())
  else (c, Err (Anyhow "Keys and values must have the same length")).

#[export] Instance reader : KVQBinaryStoreReader (KVQBinaryStoreCached S) := {|
  KvqStore.get_exact_if_exists := get_exact_if_exists;
  KvqStore.get_exact := get_exact;
  KvqStore.get_many_exact := get_many_exact;
  KvqStore.get_leq := get_leq;
  KvqStore.get_fuzzy_range_leq_kv := get_fuzzy_range_leq_kv;
  KvqStore.get_leq_kv := get_leq_kv;
  KvqStore.get_many_leq := get_many_leq;
  KvqStore.get_many_leq_kv := get_many_leq_kv;
|}.
#[export] Instance writer : KVQBinaryStoreWriter (KVQBinaryStoreCached S) := {|
  KvqStore.set := set;
  KvqStore.set_ref := set_ref;
  KvqStore.set_many_ref := set_many_ref;
  KvqStore.set_many_vec := set_many_vec;
  KvqStore.set_many_split_ref := set_many_split_ref;
  KvqStore.delete_key := delete_one;
  KvqStore.delete_many := delete_many;
|}.
End cached.
End Cached.
#[export] Existing Instances Cached.reader Cached.writer.

(** ** The overlay *)
Definition overlay_value (v : option CacheValueType) (below : option bytes) : option bytes :=
  match v with
  | Some (Bytes b) => Some b
  | Some Removed => None
  | None => below
  end.
Definition overlay (c : gmap bytes CacheValueType) (m : gmap bytes bytes) : gmap bytes bytes :=
  merge overlay_value c m.

Lemma lookup_overlay c m k : overlay c m !! k = overlay_value (c !! k) (m !! k).
Proof. unfold overlay. rewrite lookup_merge. by destruct (c !! k) as [[]|], (m !! k). Qed.

Lemma overlay_empty m : overlay ∅ m = m.
Proof. apply map_eq. intros k. by rewrite lookup_overlay, lookup_empty. Qed.

Lemma overlay_insert c m k b : overlay (<[k := Bytes b]> c) m = <[k := b]> (overlay c m).
Proof.
  apply map_eq. intros k'. rewrite lookup_overlay.
  destruct (decide (k = k')) as [<-|?]; [by rewrite !lookup_insert_eq|].
  by rewrite !lookup_insert_ne, lookup_overlay.
Qed.

Lemma overlay_remove c m k : overlay (<[k := Removed]> c) m = delete k (overlay c m).
Proof.
  apply map_eq. intros k'. rewrite lookup_overlay.
  destruct (decide (k = k')) as [<-|?]; [by rewrite lookup_insert_eq, lookup_delete_eq|].
  by rewrite lookup_insert_ne, lookup_delete_ne, lookup_overlay.
Qed.

(** The effect of a list of pairs with distinct keys, and of a list of removed keys. *)
Lemma put_pairs_notin items m k : k ∉ (kv_key <$> items) -> put_pairs m items !! k = m !! k.
Proof.
  revert m. induction items as [|[k' v'] items IH]; intros m Hk; [done|].
  cbn in Hk. apply not_elem_of_cons in Hk as [? ?]. unfold put_pairs in *. cbn [foldl].
  rewrite IH by done. by apply lookup_insert_ne.
Qed.

Lemma put_pairs_in items m k v : NoDup (kv_key <$> items) -> KV k v ∈ items -> put_pairs m items !! k = Some v.
Proof.
  revert m. induction items as [|[k' v'] items IH]; intros m Hnd Hin; [by apply elem_of_nil in Hin|].
  cbn in Hnd. apply NoDup_cons in Hnd as [Hk' Hnd]. apply elem_of_cons in Hin as [[= <- <-]|Hin].
  - unfold put_pairs. cbn [foldl]. fold put_pairs. change (foldl put_pair) with put_pairs.
    rewrite put_pairs_notin by done. apply lookup_insert_eq.
  - by apply IH.
Qed.

Lemma lookup_remove_keys keys m k : remove_keys m keys !! k = if decide (k ∈ keys) then None else m !! k.
Proof.
  revert m. induction keys as [|k' keys IH]; intros m; [done|].
  unfold remove_keys in *. cbn [foldl]. rewrite IH.
  destruct (decide (k ∈ keys)).
  - by rewrite decide_True by (by apply elem_of_cons; right).
  - destruct (decide (k = k')) as [->|Hne].
    + rewrite lookup_delete_eq. by rewrite decide_True by apply list_elem_of_here.
    + rewrite lookup_delete_ne by done.
      rewrite decide_False; [done|]. by rewrite elem_of_cons; intros [?|?].
Qed.

Lemma NoDup_fmap_filter {A B} (f : A -> B) (P : A -> Prop) `{!forall x, Decision (P x)} l :
  NoDup (f <$> l) -> NoDup (f <$> filter P l).
Proof.
  induction l as [|x l IH]; [done|]. rewrite fmap_cons. intros [Hx Hl]%NoDup_cons. rewrite filter_cons.
  case_decide; [|auto]. rewrite fmap_cons. constructor; [|auto].
  intros (y & E & [_ Hy]%list_elem_of_filter)%list_elem_of_fmap. apply Hx. rewrite E. by apply list_elem_of_fmap_2.
Qed.

(** ** What is flushed *)
Section flush.
Context {S : Type}.
Implicit Types (c : KVQBinaryStoreCached S).

Lemma btree_iter_NoDup_keys {V} (m : gmap bytes V) : NoDup (btree_iter m).*1.
Proof.
  unfold btree_iter. rewrite (fmap_Permutation _ _ _ (merge_sort_Permutation _ _)).
  apply NoDup_fst_map_to_list.
Qed.

Lemma keys_to_set_Ok c :
  exists items, Cached.keys_to_set c = Ok items /\ NoDup (kv_key <$> items) /\
    forall k v, KV k v ∈ items <-> cache c !! k = Some (Bytes v).
Proof.
  exists ((fun x : bytes * CacheValueType => KV x.1 (match x.2 with Bytes b => b | Removed => [] end)) <$>
    filter (fun x => is_bytes x.2 = true) (btree_iter (cache c))).
  split_and!.
  - unfold Cached.keys_to_set. apply mapM_Ok. apply Forall2_fmap_r, Forall_Forall2_diag.
    apply Forall_forall. intros [k v] [Hv _]%list_elem_of_filter. by destruct v.
  - rewrite <- list_fmap_compose. unfold compose. cbn.
    apply (NoDup_fmap_filter fst), btree_iter_NoDup_keys.
  - intros k v. rewrite list_elem_of_fmap. split.
    + intros ([k' [b|]] & [= -> ->] & [Hb Hin]%list_elem_of_filter); [|done].
      by apply elem_of_btree_iter.
    + intros Hk. exists (k, Bytes v). split; [done|]. apply list_elem_of_filter.
      split; [done|]. by apply elem_of_btree_iter.
Qed.

Lemma elem_of_removed_keys c k : k ∈ Cached.get_removed_keys c <-> cache c !! k = Some Removed.
Proof.
  unfold Cached.get_removed_keys. rewrite list_elem_of_fmap. split.
  - intros ([k' [b|]] & -> & [Hb Hin]%list_elem_of_filter); [done|]. by apply elem_of_btree_iter.
  - intros Hk. exists (k, Removed). split; [done|]. apply list_elem_of_filter.
    split; [done|]. by apply elem_of_btree_iter.
Qed.

(** Applying the pairs and then the removals to the store below gives the overlay. *)
Lemma flush_overlay c items m :
  NoDup (kv_key <$> items) -> (forall k v, KV k v ∈ items <-> cache c !! k = Some (Bytes v)) ->
  remove_keys (put_pairs m items) (Cached.get_removed_keys c) = overlay (cache c) m.
Proof.
  intros Hnd Hin. apply map_eq. intros k. rewrite lookup_remove_keys, lookup_overlay.
  destruct (cache c !! k) as [[b|]|] eqn:E; cbn.
  - rewrite decide_False by (rewrite elem_of_removed_keys; congruence).
    apply put_pairs_in; [done|]. by apply Hin.
  - by rewrite decide_True by (by apply elem_of_removed_keys).
  - rewrite decide_False by (rewrite elem_of_removed_keys; congruence).
    apply put_pairs_notin. intros ([k' v] & -> & Hk)%list_elem_of_fmap. apply Hin in Hk.
    cbn in E. congruence.
Qed.
End flush.

(** ** The cache implements the overlay *)
Section cached_laws.
Context {S : Type} `{!KVQBinaryStoreReader S, !StoreView S, !ReaderLaws S}.
Implicit Types (c : KVQBinaryStoreCached S).

#[export] Instance cached_view : StoreView (KVQBinaryStoreCached S) := {|
  contents c := overlay (cache c) (contents (store c));
  available c := available (store c);
|}.

Lemma cached_get_exact c key : available c -> Cached.get_exact c key = spec_exact (contents c) key.
Proof.
  intros Ha. unfold Cached.get_exact, spec_exact. cbn. rewrite lookup_overlay.
  destruct (cache c !! key) as [[]|]; [done..|]. by rewrite get_exact_law.
Qed.

#[export] Instance cached_reader_laws : ReaderLaws (KVQBinaryStoreCached S).
Proof.
  constructor; intros c; intros; cbn.
  - unfold Cached.get_exact_if_exists. rewrite lookup_overlay.
    destruct (cache c !! key) as [[]|]; [done..|]. by rewrite get_exact_if_exists_law.
  - by apply cached_get_exact.
  - unfold Cached.get_many_exact. apply mapM_outcome_ext. intros k _. by apply cached_get_exact.
Qed.

Lemma cached_insert_pairs c items :
  store (foldl Cached.insert_pair c items) = store c /\
  contents (foldl Cached.insert_pair c items) = put_pairs (contents c) items.
Proof.
  revert c. induction items as [|[k v] items IH]; intros c; [done|].
  cbn [foldl]. destruct (IH (Cached.insert_pair c (KV k v))) as [-> ->].
  split; [done|]. unfold put_pairs. cbn [foldl]. f_equal. apply overlay_insert.
Qed.

Lemma cached_pairs_leaves c items :
  available c -> leaves (foldl Cached.insert_pair c items, @Ok () ()) (put_pairs (contents c) items) (fun _ => True).
Proof.
  intros Ha. destruct (cached_insert_pairs c items) as [Hs Hc].
  split_and!; [by cbn; rewrite Hs|done|]. by eexists.
Qed.

Lemma cached_delete c key :
  available c -> leaves (Cached.delete_one c key) (delete key (contents c)) (fun _ => True).
Proof.
  intros Ha. unfold Cached.delete_one.
  destruct (cache c !! key) as [v|] eqn:E; [|destruct (proper_delete_return _)].
  - split_and!; [exact Ha|cbn; apply overlay_remove|]. by eexists.
  - split_and!; [exact Ha|cbn; apply overlay_remove|]. cbn [snd].
    unfold Cached.get_exact_if_exists. cbn. rewrite lookup_insert_eq. by eexists.
  - split_and!; [exact Ha|cbn; apply overlay_remove|]. by eexists.
Qed.

#[export] Instance cached_writer_laws : WriterLaws (KVQBinaryStoreCached S).
Proof.
  constructor; intros c; intros; cbn.
  - split_and!; [done|cbn; apply overlay_insert|]. by eexists.
  - split_and!; [done|cbn; apply overlay_insert|]. by eexists.
  - by apply cached_pairs_leaves.
  - by apply cached_pairs_leaves.
  - unfold Cached.set_many_split_ref. rewrite decide_True by done.
    rewrite (foldl_index_zip (fun k v => Cached.insert_kv k (Bytes v))) by done.
    by apply (cached_pairs_leaves c (zip_with KV keys values)).
  - unfold Cached.set_many_split_ref. by rewrite decide_False.
  - by apply cached_delete.
  - refine (loop_many_leaves Cached.delete_one (fun m key => delete key m) c keys _ _); [|done].
    apply cached_delete.
Qed.
End cached_laws.

(** ** Sequences of writes *)
Inductive write_op :=
| OpSet (key value : bytes)
| OpSetMany (items : list BytesPair)
| OpDelete (key : bytes)
| OpDeleteMany (keys : list bytes).

Definition run_op {S} `{!KVQBinaryStoreWriter S} (s : S) (op : write_op) : S :=
  match op with
  | OpSet key value => (set s key value).1
  | OpSetMany items => (set_many_ref s items).1
  | OpDelete key => (delete_key s key).1
  | OpDeleteMany keys => (delete_many s keys).1
  end.
Definition apply_op (m : gmap bytes bytes) (op : write_op) : gmap bytes bytes :=
  match op with
  | OpSet key value => <[key := value]> m
  | OpSetMany items => put_pairs m items
  | OpDelete key => delete key m
  | OpDeleteMany keys => remove_keys m keys
  end.

Lemma run_ops_contents {S} `{WriterLaws S} ops (s : S) :
  available s -> available (foldl run_op s ops) /\ contents (foldl run_op s ops) = foldl apply_op (contents s) ops.
Proof.
  revert s. induction ops as [|op ops IH]; intros s Hs; [done|]. cbn [foldl].
  assert (available (run_op s op) /\ contents (run_op s op) = apply_op (contents s) op) as [Ha <-];
    [|by apply IH].
  destruct op as [k v|items|k|ks]; cbn.
  - by destruct (set_law s k v Hs) as (? & ? & _).
  - by destruct (set_many_ref_law s items Hs) as (? & ? & _).
  - by destruct (delete_law s k Hs) as (? & ? & _).
  - by destruct (delete_many_law s ks Hs) as (? & ? & _).
Qed.

Section cached_flush.
Context {S : Type} `{!KVQBinaryStoreReader S, !StoreView S, !ReaderLaws S}.
Context `{!KVQBinaryStoreWriterImmutable S, !@WriterLaws S writer_auto_immutable _}.
Implicit Types (c : KVQBinaryStoreCached S).

Lemma cached_run_store ops c : store (foldl run_op c ops) = store c.
Proof.
  revert c. induction ops as [|op ops IH]; intros c; [done|]. cbn [foldl]. rewrite IH.
  assert (forall c k, store (Cached.delete_one c k).1 = store c) as Hdel.
  { intros c' k. unfold Cached.delete_one. destruct (cache c' !! k); [done|].
    by destruct (proper_delete_return (Cached.insert_kv k Removed c')). }
  destruct op as [k v|items|k|ks]; cbn; [done|apply cached_insert_pairs|apply Hdel|].
  unfold Cached.delete_many. revert c. induction ks as [|k ks IHk]; intros c; [done|]. cbn [loop_many].
  pose proof (Hdel c k) as E. destruct (Cached.delete_one c k) as [c' [b|e|p|]]; cbn in *; [|done..].
  specialize (IHk c'). destruct (loop_many Cached.delete_one c' ks) as [c'' r]. cbn in *. congruence.
Qed.

Lemma flush_simple_leaves c :
  available c -> exists c', Cached.flush_simple c = (c', Ok ()) /\ cache c' = ∅ /\
    available (store c') /\ contents (store c') = contents c.
Proof.
  intros Ha. destruct (keys_to_set_Ok c) as (items & Hset & Hnd & Hin).
  unfold Cached.flush_simple. rewrite Hset. unfold Cached.on_store.
  destruct (@set_many_ref_law S writer_auto_immutable _ _ (store c) items Ha) as (Ha1 & Hc1 & [] & Hr1 & _).
  cbn in Ha1, Hc1, Hr1.
  destruct (imm_set_many_ref (store c) items) as [s1 r1]. cbn in Ha1, Hc1, Hr1. subst r1. cbn [store cache].
  match goal with |- context [imm_delete_many s1 ?ks] => set (keys := ks) end.
  destruct (@delete_many_law S writer_auto_immutable _ _ s1 keys Ha1) as (Ha2 & Hc2 & bs & Hr2 & _).
  cbn in Ha2, Hc2, Hr2.
  destruct (imm_delete_many s1 keys) as [s2 r2]. cbn in Ha2, Hc2, Hr2. subst r2.
  eexists. split_and!; [done..|]. cbn [store with_cache]. rewrite Hc2, Hc1.
  by apply (flush_overlay (Build_KVQBinaryStoreCached s1 (cache c) (proper_delete_return c))).
Qed.

(** C35: Whatever sequence of writes goes through the cache, the store below is
    untouched and every exact read sees the writes; [flush_simple] then
    succeeds, leaves the store below with exactly the contents the writes
    would have produced on it, and empties the cache.  It holds over any store
    that keeps the interface's laws. *)
Theorem cached_writes_flush_refine c ops :
  available c ->
  let c' := foldl run_op c ops in
  let result := foldl apply_op (contents c) ops in
  store c' = store c /\
  (forall key, get_exact_if_exists c' key = Ok (result !! key)) /\
  exists c'', Cached.flush_simple c' = (c'', Ok ()) /\ cache c'' = ∅ /\
    available (store c'') /\ contents (store c'') = result.
Proof.
  intros Ha. cbv zeta. destruct (run_ops_contents ops c Ha) as [Ha' <-].
  split_and!.
  - apply cached_run_store.
  - intros key. by apply get_exact_if_exists_law.
  - by apply flush_simple_leaves.
Qed.

(** [flush_changes] hands out the pairs and keys that, applied to the store
    below, produce what the cache held; the cache is empty afterwards, so it
    shows the old contents until they are applied. *)
Lemma flush_changes_overlay c :
  exists items removed, Cached.flush_changes c = (with_cache c ∅, Ok (items, removed)) /\
    remove_keys (put_pairs (contents (store c)) items) removed = contents c /\
    contents (with_cache c ∅) = contents (store c).
Proof.
  destruct (keys_to_set_Ok c) as (items & Hset & Hnd & Hin).
  exists items, (Cached.get_removed_keys c). unfold Cached.flush_changes. rewrite Hset.
  split_and!; [done|by apply flush_overlay|apply overlay_empty].
Qed.
End cached_flush.

(** ** [leq] queries of the cache *)
Lemma last_range_ext {V} (m1 m2 : gmap bytes V) lo hi :
  (forall k, in_range lo hi k -> m1 !! k = m2 !! k) ->
  last (btree_range m1 lo hi) = last (btree_range m2 lo hi).
Proof.
  intros H. destruct (last (btree_range m2 lo hi)) as [[k v]|] eqn:E.
  - apply last_range_Some in E as (Hk & Hr & Hmax). apply last_range_Some.
    split_and!; [by rewrite H|done|]. intros k' v' Hk' Hr'. apply (Hmax k' v'); [|done].
    by rewrite <- H.
  - pose proof (proj1 (last_range_None _ _ _) E) as Hn. apply last_range_None. intros k Hr.
    rewrite H by done. by apply Hn.
Qed.

Section cached_leq.
Context {S : Type} `{!KVQBinaryStoreReader S, !StoreView S, !LeqLaws S}.
Implicit Types (c : KVQBinaryStoreCached S).

(** No deletion is pending in the range of the query, and at most one write. *)
Definition one_cached_write c (lo hi : bytes) : Prop :=
  (forall k, in_range lo hi k -> cache c !! k <> Some Removed) /\
  (forall k1 k2, in_range lo hi k1 -> in_range lo hi k2 ->
    is_Some (cache c !! k1) -> is_Some (cache c !! k2) -> k1 = k2).

Lemma one_cached_range c lo hi :
  one_cached_write c lo hi ->
  btree_range (cache c) lo hi = [] /\ (forall k, in_range lo hi k -> cache c !! k = None) \/
  exists k b, btree_range (cache c) lo hi = [(k, Bytes b)] /\ in_range lo hi k /\ cache c !! k = Some (Bytes b).
Proof.
  intros [Hrem Hone].
  assert (forall k v, (k, v) ∈ btree_range (cache c) lo hi -> in_range lo hi k /\ cache c !! k = Some v) as Hel.
  { intros k v [? ?]%elem_of_btree_range. done. }
  pose proof (btree_range_NoDup (cache c) lo hi) as Hnd.
  destruct (btree_range (cache c) lo hi) as [|[k v] [|[k' v'] l]] eqn:E; [left|right|exfalso].
  - split; [done|]. apply last_range_None. by rewrite E.
  - destruct (Hel k v) as [Hr Hk]; [apply list_elem_of_here|].
    destruct v as [b|]; [|by destruct (Hrem k Hr)]. by exists k, b.
  - destruct (Hel k v) as [Hr Hk]; [apply list_elem_of_here|].
    destruct (Hel k' v') as [Hr' Hk']; [apply list_elem_of_further, list_elem_of_here|].
    assert (k = k') as <- by (apply Hone; by eauto). rewrite Hk in Hk'. injection Hk' as <-.
    apply NoDup_cons in Hnd as [Hn _]. apply Hn, list_elem_of_here.
Qed.

Lemma overlay_greatest c lo hi k b :
  one_cached_write c lo hi -> in_range lo hi k -> cache c !! k = Some (Bytes b) ->
  last (btree_range (contents c) lo hi) =
  match last (btree_range (contents (store c)) lo hi) with
  | Some (k', v) => Some (if decide (bytes_lt k k') then (k', v) else (k, b))
  | None => Some (k, b)
  end.
Proof.
  intros [Hrem Hone] Hr Hk.
  assert (contents c !! k = Some b) as Hck by (cbn; by rewrite lookup_overlay, Hk).
  assert (forall k', in_range lo hi k' -> k' <> k -> contents c !! k' = contents (store c) !! k') as Hother.
  { intros k' Hr' Hne. cbn. rewrite lookup_overlay. destruct (cache c !! k') eqn:E; [|done].
    destruct Hne. apply Hone; by eauto. }
  destruct (last (btree_range (contents (store c)) lo hi)) as [[k' v]|] eqn:E.
  - apply last_range_Some in E as (Hk' & Hr' & Hmax). case_decide as Hlt; apply last_range_Some.
    + assert (k' <> k) as Hne by (intros ->; by apply Hlt).
      split_and!; [by rewrite Hother|done|]. intros k2 v2 H2 Hr2.
      destruct (decide (k2 = k)) as [->|Hne2].
      * destruct (total bytes_le k k'); [done|by destruct Hlt].
      * eapply Hmax; [|done]. by rewrite <- Hother.
    + split_and!; [done..|]. intros k2 v2 H2 Hr2.
      destruct (decide (k2 = k)) as [->|Hne2]; [done|].
      transitivity k'; [|destruct (decide (bytes_le k' k)); [done|by destruct Hlt]].
      eapply Hmax; [|done]. by rewrite <- Hother.
  - pose proof (proj1 (last_range_None _ _ _) E) as Hn. apply last_range_Some.
    split_and!; [done..|]. intros k2 v2 H2 Hr2. destruct (decide (k2 = k)) as [->|Hne2]; [done|].
    rewrite Hother, Hn in H2 by done. done.
Qed.

(** When at most one key of the queried range has a pending write and none
    a pending deletion, the cache answers a [leq] query with the greatest key
    of the range over what it and the store below hold together. *)
Theorem cached_get_leq_kv_spec c key fuzzy_bytes :
  available c -> fuzzy_fits fuzzy_bytes ->
  one_cached_write c (fuzzy_base key fuzzy_bytes) key ->
  get_leq_kv c key fuzzy_bytes = spec_leq_kv (contents c) key fuzzy_bytes.
Proof.
  intros Ha Hfit Hone. change (get_leq_kv c key fuzzy_bytes) with (Cached.get_leq_kv c key fuzzy_bytes).
  unfold Cached.get_leq_kv. rewrite !get_leq_kv_law by done.
  unfold spec_leq_kv, fuzzy_too_long. destruct (length key <? fuzzy_bytes)%nat eqn:El; [done|].
  cbn -[contents]. bool_hyps.
  destruct (fuzzy_sum_spec key fuzzy_bytes El Hfit) as [_ Hz].
  destruct (N.eqb_spec (fuzzy_sum key fuzzy_bytes) 0) as [->%Hz|_].
  - rewrite !range_single. cbn. rewrite lookup_overlay. by destruct (cache c !! key) as [[]|].
  - destruct (one_cached_range _ _ _ Hone) as [[-> Hnone]|(k & b & -> & Hr & Hk)]; cbn -[contents].
    + f_equal. f_equal. apply last_range_ext. intros k Hr. cbn. by rewrite lookup_overlay, Hnone.
    + rewrite (overlay_greatest _ _ _ _ _ Hone Hr Hk).
      destruct (last (btree_range (contents (store c)) _ _)) as [[k' v]|]; [|done]. cbn. by case_decide.
Qed.

(** [get_leq] is the value of [get_leq_kv], whatever is cached. *)
Lemma cached_get_leq_value c key fuzzy_bytes :
  available c -> fuzzy_fits fuzzy_bytes ->
  Cached.get_leq c key fuzzy_bytes = option_map kv_value <$> Cached.get_leq_kv c key fuzzy_bytes.
Proof.
  intros Ha Hfit. unfold Cached.get_leq, Cached.get_leq_kv.
  rewrite !get_leq_kv_law, get_leq_law by done. unfold spec_leq.
  destruct (bail_when _ _); [cbn -[spec_leq_kv]|done..].
  destruct (_ =? 0)%N; [by destruct (cache c !! key) as [[]|]|].
  destruct (Cached.first_cached _) as [rok|]; [|done].
  destruct (spec_leq_kv _ _ _) as [[rnt|]|e|p|]; try done. cbn. by case_decide.
Qed.

(** A range query returns the entries of the overlay, the cached ones first. *)
Lemma cached_fuzzy_range c key fuzzy_bytes :
  available c -> fuzzy_bytes <= length key ->
  exists l, Cached.get_fuzzy_range_leq_kv c key fuzzy_bytes = Ok l /\
    l ≡ₚ pair_of <$> btree_range (contents c) (fuzzy_base key fuzzy_bytes) key.
Proof.
  intros Ha Hlen. unfold Cached.get_fuzzy_range_leq_kv. rewrite get_fuzzy_range_law by done.
  unfold spec_range, bail_when. rewrite (proj2 (Nat.ltb_ge _ _)) by done.
  eexists. split; [done|]. cbn -[contents].
  set (lo := fuzzy_base key fuzzy_bytes).
  assert (Inj (=) (=) pair_of) as Hinj by (intros [? ?] [? ?] [= -> ->]; done).
  apply NoDup_Permutation.
  - apply NoDup_app. split_and!.
    + apply (NoDup_fmap_1 kv_key). rewrite <- list_fmap_compose.
      apply (NoDup_fmap_filter fst), NoDup_fmap_filter, btree_iter_NoDup_keys.
    + intros x ([k v] & -> & [_ [Hk _]%elem_of_btree_range]%list_elem_of_filter)%list_elem_of_fmap.
      intros [Hn _]%list_elem_of_filter. cbn in Hn. congruence.
    + apply NoDup_filter, NoDup_fmap_2; [done|apply btree_range_NoDup].
  - apply NoDup_fmap_2; [done|apply btree_range_NoDup].
  - intros [k v]. rewrite elem_of_app, list_elem_of_filter, !list_elem_of_fmap. cbn [kv_key].
    split.
    + intros [([k' v'] & [= -> ->] & [Hb [Hk Hr]%elem_of_btree_range]%list_elem_of_filter)|[Hn ([k' v'] & [= -> ->] & [Hk Hr]%elem_of_btree_range)]].
      * destruct v' as [b|]; [|done]. exists (k', b). split; [done|]. apply elem_of_btree_range.
        split; [|done]. cbn. by rewrite lookup_overlay, Hk.
      * exists (k', v'). split; [done|]. apply elem_of_btree_range. split; [|done].
        cbn. by rewrite lookup_overlay, Hn.
    + intros ([k' v'] & [= -> ->] & [Hk Hr]%elem_of_btree_range). cbn in Hk. rewrite lookup_overlay in Hk.
      destruct (cache c !! k') as [[b|]|] eqn:E; [left|done|right].
      * injection Hk as ->. exists (k', Bytes v'). split; [done|].
        apply list_elem_of_filter. split; [done|]. by apply elem_of_btree_range.
      * split; [done|]. exists (k', v'). split; [done|]. by apply elem_of_btree_range.
Qed.
End cached_leq.

(** Beyond that condition the answer of a [leq] query can be wrong: the loop
    over the cached range keeps the first cached key, not the last, and a
    pending deletion does not hide the key in the store below. *)
Module Stale.
Definition below : KVQSimpleMemoryBackingStore := {| KvqStore.map := <[ [x00] := [x0a] ]> ∅ |}.
Definition two_writes : KVQBinaryStoreCached KVQSimpleMemoryBackingStore :=
  foldl run_op (Cached.new below) [OpSet [x01] [x0b]; OpSet [x02] [x0c]].
Definition one_deletion : KVQBinaryStoreCached KVQSimpleMemoryBackingStore :=
  foldl run_op (Cached.new below) [OpDelete [x00]].
End Stale.

Lemma leq_query_stale :
  (get_leq_kv Stale.two_writes [x05] 1 = Ok (Some (KV [x01] [x0b])) /\
   spec_leq_kv (contents Stale.two_writes) [x05] 1 = Ok (Some (KV [x02] [x0c]))) /\
  (get_leq_kv Stale.one_deletion [x05] 1 = Ok (Some (KV [x00] [x0a])) /\
   spec_leq_kv (contents Stale.one_deletion) [x05] 1 = Ok None /\
   get_exact_if_exists Stale.one_deletion [x00] = Ok None).
Proof. vm_compute. done. Qed.

(** [delete] of a key that only the store below holds reports [false], even
    when [proper_delete_return] asks it to look below. *)
Lemma cached_delete_below {S} `{!KVQBinaryStoreReader S} (c : KVQBinaryStoreCached S) key :
  cache c !! key = None -> (Cached.delete_one c key).2 = Ok false.
Proof.
  intros E. unfold Cached.delete_one. rewrite E.
  destruct (proper_delete_return _); [|done]. cbn. unfold Cached.get_exact_if_exists.
  cbn. by rewrite lookup_insert_eq.
Qed.

Module CacheWitness.
Definition base : KVQImmutableStoreWrapper KVQSimpleMemoryBackingStore :=
  Wrapper.new {| KvqStore.map := <[ [x01; x00] := [x0a] ]> (<[ [x01; x04] := [x0b] ]> ∅) |}.
Definition c0 : KVQBinaryStoreCached (KVQImmutableStoreWrapper KVQSimpleMemoryBackingStore) := Cached.new base.
Definition ops : list write_op :=
  [OpSetMany [KV [x01; x02] [x0c]; KV [x02; x00] [x0d]]; OpDelete [x01; x00]; OpDeleteMany [[x02; x00]]].

Lemma cached_writes_flush_refine_witness :
  available c0 /\
  exists c'', Cached.flush_simple (foldl run_op c0 ops) = (c'', Ok ()) /\ cache c'' = ∅ /\
    contents (store c'') = <[ [x01; x02] := [x0c] ]> (<[ [x01; x04] := [x0b] ]> ∅).
Proof.
  assert (available c0) as Ha by (cbn; done). split; [exact Ha|].
  destruct (cached_writes_flush_refine c0 ops Ha) as (_ & _ & c'' & Hf & He & _ & Hc).
  exists c''. split_and!; [exact Hf|exact He|]. rewrite Hc.
  apply (bool_decide_eq_true_1 _). vm_compute. reflexivity.
Defined.

Definition c1 : KVQBinaryStoreCached (KVQImmutableStoreWrapper KVQSimpleMemoryBackingStore) :=
  foldl run_op c0 [OpSet [x01; x02] [x0c]; OpDelete [x02; x02]].

Lemma c1_cache k : is_Some (cache c1 !! k) -> k = [x01; x02] \/ k = [x02; x02].
Proof.
  change (cache c1) with (<[ [x02; x02] := Removed ]> (<[ [x01; x02] := Bytes [x0c] ]> (∅ : gmap bytes CacheValueType))).
  intros [v [[<- _]|[_ [[<- _]|[_ Hk]]%lookup_insert_Some]]%lookup_insert_Some]; [by right|by left|].
  by rewrite lookup_empty in Hk.
Qed.

Lemma c1_one_cached_write : one_cached_write c1 (fuzzy_base [x01; x03] 1) [x01; x03].
Proof.
  split.
  - intros k [H1 H2] Hk. destruct (c1_cache k) as [->| ->]; [by eexists|vm_compute in Hk; discriminate|].
    vm_compute in H2. discriminate.
  - intros k1 k2 [_ H1] [_ H2] [->| ->]%c1_cache [->| ->]%c1_cache; try done; vm_compute in H1, H2; discriminate.
Qed.

Lemma cached_get_leq_kv_spec_witness :
  available c1 /\ fuzzy_fits 1 /\ one_cached_write c1 (fuzzy_base [x01; x03] 1) [x01; x03] /\
  get_leq_kv c1 [x01; x03] 1 = Ok (Some (KV [x01; x02] [x0c])).
Proof.
  assert (available c1) as Ha by (cbn; done).
  assert (fuzzy_fits 1) as Hf by (vm_compute; discriminate).
  split; [exact Ha|]. split; [exact Hf|]. split; [exact c1_one_cached_write|].
  rewrite (cached_get_leq_kv_spec c1 [x01; x03] 1 Ha Hf c1_one_cached_write).
  vm_compute. reflexivity.
Defined.
End CacheWitness.
