(* ===== verification/KvqAdapter.v ===== *)
(** * KVQ: the typed adapter

    [kvq/src/adapters/standard.rs]: a binary store seen through the
    serialisation of its key and value types.  A store written only through
    the adapter stays well typed, so reading it never fails to decode; and for
    big-endian [u64] keys a [leq] query is a query on numbers. *)
From S2P Require Import Prelude KvqBase KvqStore.

(** [o?] in a method that changes the store. *)
Definition with_ok {S A B} (s : S) (o : outcome A) (f : A -> S * outcome B) : S * outcome B :=
  match o with
  | Ok a => f a
  | Err e => (s, Err e)
  | Panic p => (s, Panic p)
  | OutOfFuel => (s, OutOfFuel)
  end.

Module KVQStandardAdapter.
Section adapter.
Context {S K V : Type} `{!KVQSerializable K, !KVQSerializable V}.

Definition pair_to_bytes (kv : KVQPair K V) : outcome BytesPair :=
  k ← to_bytes (kv_key kv); v ← to_bytes (kv_value kv); Ok (KV k v).
Definition pair_from_bytes (kv : BytesPair) : outcome (KVQPair K V) :=
  k ← from_bytes (kv_key kv); v ← from_bytes (kv_value kv); Ok (KV k v).

Section reader.
Context `{!KVQBinaryStoreReader S}.

Definition get_exact_if_exists (s : S) (key : K) : outcome (option V) :=
  k ← to_bytes key;
  r ← KvqStore.get_exact_if_exists s k;
  match r with
  | Some b => result ← from_bytes b; Ok (Some result)
  | None => Ok None
  end.
Definition get_exact (s : S) (key : K) : outcome V :=
  k ← to_bytes key;
  r ← KvqStore.get_exact s k;
  from_bytes r.

Definition get_leq_kv (s : S) (key : K) (fuzzy_bytes : nat) : outcome (option (KVQPair K V)) :=
  k ← to_bytes key;
  r ← KvqStore.get_leq_kv s k fuzzy_bytes;
  match r with
  | Some kv => p ← pair_from_bytes kv; Ok (Some p)
  | None => Ok None
  end.

Definition get_many_exact (s : S) (keys : list K) : outcome (list V) :=
  keys_bytes ← mapM to_bytes keys;
  values_bytes ← KvqStore.get_many_exact s keys_bytes;
  mapM from_bytes values_bytes.

Definition get_leq (s : S) (key : K) (fuzzy_bytes : nat) : outcome (option V) :=
  k ← to_bytes key;
  r ← KvqStore.get_leq s k fuzzy_bytes;
  match r with
  | Some v => x ← from_bytes v; Ok (Some x)
  | None => Ok None
  end.

Definition get_many_leq (s : S) (keys : list K) (fuzzy_bytes : nat) : outcome (list (option V)) :=
  keys_bytes ← mapM to_bytes keys;
  values_bytes ← KvqStore.get_many_leq s keys_bytes fuzzy_bytes;
  mapM (fun r : option bytes =>
    match r with
    | Some v => x ← from_bytes v; Ok (Some x)
    | None => Ok None
    end) values_bytes.

Definition get_many_leq_kv (s : S) (keys : list K) (fuzzy_bytes : nat) : outcome (list (option (KVQPair K V))) :=
  keys_bytes ← mapM to_bytes keys;
  kvs_bytes ← KvqStore.get_many_leq_kv s keys_bytes fuzzy_bytes;
  mapM (fun r : option BytesPair =>
    match r with
    | Some kv => p ← pair_from_bytes kv; Ok (Some p)
    | None => Ok None
    end) kvs_bytes.

Definition get_fuzzy_range_leq_kv (s : S) (key : K) (fuzzy_bytes : nat) : outcome (list (KVQPair K V)) :=
  k ← to_bytes key;
  kvs ← KvqStore.get_fuzzy_range_leq_kv s k fuzzy_bytes;
  mapM pair_from_bytes kvs.

(** The provided methods of [KVQStoreAdapterReader]. *)
Definition get_many_leq_u (s : S) (keys : list K) (fuzzy_bytes : nat) : outcome (list V) :=
  results ← get_many_leq s keys fuzzy_bytes; unwrap_kv_vec_result results.
Definition get_many_leq_kv_u (s : S) (keys : list K) (fuzzy_bytes : nat) : outcome (list (KVQPair K V)) :=
  results ← get_many_leq_kv s keys fuzzy_bytes; unwrap_kv_vec_result results.
End reader.

(** The shared argument of the two [set_many_split_ref]. *)
Definition split_to_bytes (keys : list K) (values : list V) : outcome (list (bytes * bytes)) :=
  mapM (fun kv => k ← to_bytes kv.1; v ← to_bytes kv.2; Ok (k, v)) (zip keys values).

Section writer.
Context `{!KVQBinaryStoreWriter S}.

Definition set_ref (s : S) (key : K) (value : V) : S * outcome () :=
  with_ok s (to_bytes key) (fun k => with_ok s (to_bytes value) (fun v => KvqStore.set s k v)).
Definition set (s : S) (key : K) (value : V) : S * outcome () :=
  with_ok s (to_bytes key) (fun k => with_ok s (to_bytes value) (fun v => KvqStore.set s k v)).

Definition set_many_ref (s : S) (items : list (KVQPair K V)) : S * outcome () :=
  with_ok s (mapM pair_to_bytes items) (set_many_vec s).
Definition set_many (s : S) (items : list (KVQPair K V)) : S * outcome () :=
  with_ok s (mapM pair_to_bytes items) (set_many_vec s).

Definition delete_one (s : S) (key : K) : S * outcome bool :=
  with_ok s (to_bytes key) (delete_key s).
Definition delete_many (s : S) (keys : list K) : S * outcome (list bool) :=
  loop_many (fun s k => with_ok s (to_bytes k) (delete_key s)) s keys.

Definition set_many_split_ref (s : S) (keys : list K) (values : list V) : S * outcome () :=
  if decide (length keys = length values) then
    with_ok s (split_to_bytes keys values) (fun kvs => KvqStore.set_many_split_ref s kvs.*1 kvs.*2)
  else (s, Err (Anyhow "Keys and values must have the same length")).
End writer.

Section immutable.
Context `{!KVQBinaryStoreWriterImmutable S}.

Definition imm_set_ref (s : S) (key : K) (value : V) : S * outcome () :=
  with_ok s (to_bytes key) (fun k => with_ok s (to_bytes value) (fun v => imm_set s k v)).
Definition imm_set (s : S) (key : K) (value : V) : S * outcome () :=
  with_ok s (to_bytes key) (fun k => with_ok s (to_bytes value) (fun v => KvqStore.imm_set s k v)).

Definition imm_set_many_ref (s : S) (items : list (KVQPair K V)) : S * outcome () :=
  with_ok s (mapM pair_to_bytes items) (imm_set_many_vec s).
Definition imm_set_many (s : S) (items : list (KVQPair K V)) : S * outcome () :=
  with_ok s (mapM pair_to_bytes items) (imm_set_many_vec s).

Definition imm_delete (s : S) (key : K) : S * outcome bool :=
  with_ok s (to_bytes key) (KvqStore.imm_delete s).
Definition imm_delete_many (s : S) (keys : list K) : S * outcome (list bool) :=
  loop_many (fun s k => with_ok s (to_bytes k) (KvqStore.imm_delete s)) s keys.

Definition imm_set_many_split_ref (s : S) (keys : list K) (values : list V) : S * outcome () :=
  if decide (length keys = length values) then
    with_ok s (split_to_bytes keys values) (fun kvs => KvqStore.imm_set_many_split_ref s kvs.*1 kvs.*2)
  else (s, Err (Anyhow "Keys and values must have the same length")).
End immutable.

(** [KVQStoreAdapterWithHelpers] of [traits.rs]. *)
Section helpers.
Context `{!KVQBinaryStoreWriter S}.

Definition set_many_ref_clone_batch (s : S) (items : list (KVQPair K V)) : S * outcome () :=
  set_many s (foldl (fun items_owned item => items_owned ++ [KV (kv_key item) (kv_value item)]) [] items).
Fixpoint set_many_ref_serial (s : S) (items : list (KVQPair K V)) : S * outcome () :=
  match items with
  | [] => (s, Ok ())
  | item :: items =>
      match set s (kv_key item) (kv_value item) with
      | (s, Ok _) => set_many_ref_serial s items
      | r => r
      end
  end.
End helpers.
End adapter.
End KVQStandardAdapter.

(** ** Well-typed stores *)
Section typed.
Context {S K V : Type} `{!KVQSerializable K, !KVQSerializable V, !SerializableLaws K, !SerializableLaws V}.
Context `{!KVQBinaryStoreReader S, !KVQBinaryStoreWriter S, !StoreView S, !ReaderLaws S, !LeqLaws S, !WriterLaws S}.
Implicit Types (s : S) (k : K) (v : V) (m : gmap bytes bytes).

(** [m] holds [v] at the key [k]. *)
Definition holds m k v : Prop :=
  exists kb vb, to_bytes k = Ok kb /\ to_bytes v = Ok vb /\ m !! kb = Some vb.

(** Every entry of [m] is the encoding of a key and a value. *)
Definition well_typed m : Prop :=
  forall kb vb, m !! kb = Some vb -> exists k v, valid k /\ valid v /\ to_bytes k = Ok kb /\ to_bytes v = Ok vb.

Definition valid_pair (kv : KVQPair K V) : Prop := valid (kv_key kv) /\ valid (kv_value kv).

Lemma to_bytes_valid `{SerializableLaws A} (a : A) : valid a -> exists bs, to_bytes a = Ok bs /\ from_bytes bs = Ok a.
Proof. apply from_to_bytes. Qed.

Lemma from_bytes_valid `{SerializableLaws A} (a : A) bs : valid a -> to_bytes a = Ok bs -> from_bytes bs = Ok a.
Proof. intros (bs' & E & ?)%from_to_bytes E'. congruence. Qed.

Lemma pair_to_bytes_valid kv :
  valid_pair kv -> exists p, KVQStandardAdapter.pair_to_bytes kv = Ok p /\
    to_bytes (kv_key kv) = Ok (kv_key p) /\ to_bytes (kv_value kv) = Ok (kv_value p).
Proof.
  intros [(kb & Hk & _)%from_to_bytes (vb & Hv & _)%from_to_bytes].
  exists (KV kb vb). unfold KVQStandardAdapter.pair_to_bytes. by rewrite Hk, Hv.
Qed.

Lemma pairs_to_bytes_valid items :
  Forall valid_pair items -> exists ps, mapM KVQStandardAdapter.pair_to_bytes items = Ok ps /\
    Forall2 (fun kv p => valid_pair kv /\ to_bytes (kv_key kv) = Ok (kv_key p) /\ to_bytes (kv_value kv) = Ok (kv_value p)) items ps.
Proof.
  induction 1 as [|kv items Hkv _ (ps & Hps & HF)]; [by exists []|].
  destruct (pair_to_bytes_valid kv Hkv) as (p & Hp & ? & ?).
  exists (p :: ps). cbn [mapM]. rewrite Hp. cbn [mbind outcome_bind]. rewrite Hps. split; [done|].
  by constructor.
Qed.

Lemma well_typed_insert m k v kb vb :
  well_typed m -> valid k -> valid v -> to_bytes k = Ok kb -> to_bytes v = Ok vb -> well_typed (<[kb := vb]> m).
Proof.
  intros Hm Hk Hv Ek Ev kb' vb' [[<- <-]|[_ ?]]%lookup_insert_Some; [|by apply Hm]. by exists k, v.
Qed.

Lemma well_typed_delete m kb : well_typed m -> well_typed (delete kb m).
Proof. intros Hm kb' vb' [_ ?]%lookup_delete_Some. by apply Hm. Qed.

Lemma well_typed_put_pairs items ps m :
  Forall2 (fun kv p => valid_pair kv /\ to_bytes (kv_key kv) = Ok (kv_key p) /\ to_bytes (kv_value kv) = Ok (kv_value p)) items ps ->
  well_typed m -> well_typed (put_pairs m ps).
Proof.
  intros HF. revert m. induction HF as [|kv p items ps ([? ?] & ? & ?) _ IH]; intros m Hm; [done|].
  unfold put_pairs. cbn [foldl]. apply IH. by eapply well_typed_insert.
Qed.

(** What the adapter's calls do to the binary store. *)
Inductive typed_op :=
| TSet k v
| TSetMany (items : list (KVQPair K V))
| TDelete k
| TDeleteMany (keys : list K).

Definition run_typed s (op : typed_op) : S * outcome () :=
  match op with
  | TSet k v => KVQStandardAdapter.set s k v
  | TSetMany items => KVQStandardAdapter.set_many s items
  | TDelete k => let (s, r) := KVQStandardAdapter.delete_one s k in (s, (fun _ => ()) <$> r)
  | TDeleteMany keys => let (s, r) := KVQStandardAdapter.delete_many s keys in (s, (fun _ => ()) <$> r)
  end.

Definition op_valid (op : typed_op) : Prop :=
  match op with
  | TSet k v => valid k /\ valid v
  | TSetMany items => Forall valid_pair items
  | TDelete k => valid k
  | TDeleteMany keys => Forall valid keys
  end.

Lemma adapter_delete_leaves s k :
  available s -> well_typed (contents s) -> valid k ->
  let r := KVQStandardAdapter.delete_one s k in
  available r.1 /\ well_typed (contents r.1) /\ exists b, r.2 = Ok b.
Proof.
  intros Ha Hm (kb & Hk & _)%from_to_bytes. unfold KVQStandardAdapter.delete_one. rewrite Hk. cbn.
  destruct (delete_law s kb Ha) as (? & -> & b & ? & _). split_and!; [done|by apply well_typed_delete|by exists b].
Qed.

Lemma adapter_delete_many_leaves s (keys : list K) :
  available s -> well_typed (contents s) -> Forall valid keys ->
  let r := KVQStandardAdapter.delete_many s keys in
  available r.1 /\ well_typed (contents r.1) /\ exists bs, r.2 = Ok bs.
Proof.
  intros Ha Hm HF. revert s Ha Hm. induction HF as [|k keys Hk _ IH]; intros s Ha Hm.
  - split_and!; [done..|]. by exists [].
  - unfold KVQStandardAdapter.delete_many in *. cbn [loop_many].
    destruct (adapter_delete_leaves s k Ha Hm Hk) as (Ha' & Hm' & b & Hb).
    unfold KVQStandardAdapter.delete_one in *.
    destruct (with_ok s (to_bytes k) (delete_key s)) as [s' r]. cbn in *. subst r.
    destruct (IH s' Ha' Hm') as (Ha'' & Hm'' & bs & Hbs).
    destruct (loop_many _ s' keys) as [s'' r]. cbn in *. subst r. split_and!; [done..|]. by eexists.
Qed.

Lemma run_typed_ok s op :
  available s -> well_typed (contents s) -> op_valid op ->
  let r := run_typed s op in r.2 = Ok () /\ available r.1 /\ well_typed (contents r.1).
Proof.
  intros Ha Hm Hop. destruct op as [k v|items|k|keys]; cbn [run_typed op_valid] in *.
  - destruct Hop as [Hk Hv]. pose proof Hk as (kb & Ek & _)%from_to_bytes.
    pose proof Hv as (vb & Ev & _)%from_to_bytes. unfold KVQStandardAdapter.set. rewrite Ek, Ev. cbn.
    destruct (set_law s kb vb Ha) as (? & -> & [] & ? & _).
    split_and!; [done..|]. by eapply well_typed_insert.
  - destruct (pairs_to_bytes_valid items Hop) as (ps & Hps & HF).
    unfold KVQStandardAdapter.set_many. rewrite Hps. cbn.
    destruct (set_many_vec_law s ps Ha) as (? & -> & [] & ? & _).
    split_and!; [done..|]. by eapply well_typed_put_pairs.
  - destruct (adapter_delete_leaves s k Ha Hm Hop) as (? & ? & b & Hb).
    destruct (KVQStandardAdapter.delete_one s k) as [s' r]. cbn in *. by subst r.
  - destruct (adapter_delete_many_leaves s keys Ha Hm Hop) as (? & ? & b & Hb).
    destruct (KVQStandardAdapter.delete_many s keys) as [s' r]. cbn in *. by subst r.
Qed.

Lemma adapter_get_exact_if_exists s k :
  available s -> well_typed (contents s) -> valid k ->
  exists r, KVQStandardAdapter.get_exact_if_exists s k = Ok r /\
    forall v, valid v -> (r = Some v <-> holds (contents s) k v).
Proof.
  intros Ha Hm Hk. pose proof Hk as (kb & Ek & _)%from_to_bytes.
  unfold KVQStandardAdapter.get_exact_if_exists, holds. rewrite Ek. cbn.
  rewrite get_exact_if_exists_law by done. cbn.
  destruct (contents s !! kb) as [vb|] eqn:E.
  - destruct (Hm kb vb E) as (k0 & v0 & _ & Hv0 & _ & Ev0).
    rewrite (from_bytes_valid v0 vb Hv0 Ev0). cbn. eexists. split; [done|]. intros v Hv. split.
    + intros [= <-]. by exists kb, vb.
    + intros (kb' & vb' & [= <-] & Ev & E'). f_equal. apply (to_bytes_inj v0 v vb); congruence.
  - eexists. split; [done|]. intros v Hv. split; [done|]. intros (kb' & vb' & [= <-] & _ & E'). congruence.
Qed.

Lemma adapter_get_leq_kv s k fuzzy_bytes kb :
  available s -> well_typed (contents s) -> to_bytes k = Ok kb ->
  match KVQStandardAdapter.get_leq_kv (K := K) (V := V) s k fuzzy_bytes with
  | Ok (Some (KV k' v')) => exists kb' vb', valid k' /\ valid v' /\
      to_bytes k' = Ok kb' /\ to_bytes v' = Ok vb' /\
      greatest (contents s) (fuzzy_base kb fuzzy_bytes) kb kb' vb'
  | Ok None => forall kb', in_range (fuzzy_base kb fuzzy_bytes) kb kb' -> contents s !! kb' = None
  | Err e => e = Anyhow fuzzy_too_long /\ length kb < fuzzy_bytes
  | _ => False
  end.
Proof.
  intros Ha Hm Ek. unfold KVQStandardAdapter.get_leq_kv. rewrite Ek. cbn.
  rewrite get_leq_kv_law by done. unfold spec_leq_kv.
  destruct (length kb <? fuzzy_bytes)%nat eqn:El; [by bool_hyps|]. cbn.
  destruct (last (btree_range _ _ kb)) as [[kb' vb']|] eqn:E; cbn.
  - apply last_range_Some in E. destruct (Hm kb' vb' (proj1 E)) as (k' & v' & Hk' & Hv' & Ek' & Ev').
    unfold KVQStandardAdapter.pair_from_bytes. cbn.
    rewrite (from_bytes_valid k' kb' Hk' Ek'). cbn. rewrite (from_bytes_valid v' vb' Hv' Ev'). cbn.
    by exists kb', vb'.
  - by apply last_range_None.
Qed.

(** C36: The typing invariant of a store behind the adapter.  Every write of
    encodable keys and values succeeds and keeps every entry of the store
    the encoding of a key and a value of the adapter's types; and on such a
    store every read, exact or [leq], of any key decodes. *)
Theorem adapter_well_typed s :
  available s -> well_typed (contents s) ->
  (forall op, op_valid op ->
    let r := run_typed s op in r.2 = Ok () /\ available r.1 /\ well_typed (contents r.1)) /\
  (forall k, valid k ->
    exists r, KVQStandardAdapter.get_exact_if_exists s k = Ok r /\
      forall v, valid v -> (r = Some v <-> holds (contents s) k v)) /\
  (forall k fuzzy_bytes, valid k ->
    match KVQStandardAdapter.get_leq_kv (K := K) (V := V) s k fuzzy_bytes with
    | Ok (Some (KV k' v')) => valid k' /\ valid v' /\ holds (contents s) k' v'
    | Ok None => True
    | Err e => e = Anyhow fuzzy_too_long /\ exists kb, to_bytes k = Ok kb /\ length kb < fuzzy_bytes
    | _ => False
    end).
Proof.
  intros Ha Hm. split_and!.
  - intros op. by apply run_typed_ok.
  - intros k. by apply adapter_get_exact_if_exists.
  - intros k fuzzy_bytes Hk. destruct (to_bytes_valid k Hk) as (kb & Ek & _).
    pose proof (adapter_get_leq_kv s k fuzzy_bytes kb Ha Hm Ek) as H.
    destruct (KVQStandardAdapter.get_leq_kv s k fuzzy_bytes) as [[[k' v']|]|e|p|]; [|done|naive_solver|done..].
    destruct H as (kb' & vb' & ? & ? & ? & ? & [? _]). split_and!; [done..|]. by exists kb', vb'.
Qed.
End typed.

(** ** [leq] queries on [u64] keys *)
Section u64_keys.
Context {S V : Type} `{!KVQSerializable V, !SerializableLaws V}.
Context `{!KVQBinaryStoreReader S, !StoreView S, !LeqLaws S}.

(** The numbers a query of [n] with [fuzzy_bytes] ranges over: the block of
    [256 ^ fuzzy_bytes] numbers [n] is in, up to [n]. *)
Definition in_block (n : N) (fuzzy_bytes : nat) (x : N) : Prop :=
  (n - n mod 256 ^ N.of_nat fuzzy_bytes <= x <= n)%N.

Lemma u64_in_range n fuzzy_bytes x :
  (n <= u64_max)%N -> (x <= u64_max)%N -> fuzzy_bytes <= 8 ->
  in_range (fuzzy_base (be_bytes 8 n) fuzzy_bytes) (be_bytes 8 n) (be_bytes 8 x) <-> in_block n fuzzy_bytes x.
Proof.
  intros Hn Hx Hf. unfold in_range, in_block.
  rewrite !bytes_le_be_value by (rewrite ?fuzzy_base_length, !be_bytes_length; done).
  rewrite fuzzy_base_value by (by rewrite be_bytes_length).
  rewrite !be_value_bytes by (unfold u64_max in *; cbn; lia). done.
Qed.

(** C37: On a well-typed store with [u64] keys, the [leq] query of [n] returns
    the entry with the greatest number of the aligned block of
    [256 ^ fuzzy_bytes] numbers that ends at [n], and nothing only when the
    store has no key there. *)
Theorem adapter_get_leq_numeric (s : S) (n : N) (fuzzy_bytes : nat) :
  available s -> well_typed (K := N) (V := V) (contents s) -> (n <= u64_max)%N -> fuzzy_bytes <= 8 ->
  match KVQStandardAdapter.get_leq_kv (K := N) (V := V) s n fuzzy_bytes with
  | Ok (Some (KV k v)) =>
      holds (contents s) k v /\ in_block n fuzzy_bytes k /\
      forall x v', (x <= u64_max)%N -> holds (contents s) x (v' : V) -> in_block n fuzzy_bytes x -> (x <= k)%N
  | Ok None => forall x v', (x <= u64_max)%N -> holds (contents s) x (v' : V) -> ~ in_block n fuzzy_bytes x
  | _ => False
  end.
Proof.
  intros Ha Hm Hn Hf.
  pose proof (adapter_get_leq_kv s n fuzzy_bytes (be_bytes 8 n) Ha Hm eq_refl) as H.
  destruct (KVQStandardAdapter.get_leq_kv s n fuzzy_bytes) as [[[k v]|]|e|p|]; [| | |done..].
  - destruct H as (kb & vb & Hk & Hv & [= <-] & Ev & Hb & Hr & Hmax).
    split; [by exists (be_bytes 8 k), vb|]. split; [by apply u64_in_range|].
    intros x v' Hx (xb & vb' & [= <-] & _ & Hxb) Hin.
    apply (u64_in_range n fuzzy_bytes x Hn Hx Hf), (Hmax _ _ Hxb) in Hin.
    rewrite bytes_le_be_value in Hin by (by rewrite !be_bytes_length).
    change (k <= u64_max)%N in Hk. by rewrite !be_value_bytes in Hin by (unfold u64_max in *; cbn; lia).
  - intros x v' Hx (xb & vb' & [= <-] & _ & Hxb) Hin.
    apply (u64_in_range n fuzzy_bytes x Hn Hx Hf), H in Hin. congruence.
  - destruct H as [_ Hlt]. rewrite be_bytes_length in Hlt. lia.
Qed.
End u64_keys.

Module AdapterWitness.
Definition s0 : KVQImmutableStoreWrapper KVQSimpleMemoryBackingStore := Wrapper.new SimpleStore.new.
Definition items : list (KVQPair N bytes) := [KV 300%N [x0a]; KV 258%N [x0b]; KV 7%N []].
Definition s1 : KVQImmutableStoreWrapper KVQSimpleMemoryBackingStore := (KVQStandardAdapter.set_many s0 items).1.

Lemma s0_typed : well_typed (K := N) (V := bytes) (contents s0).
Proof. intros kb vb H. cbn in H. by rewrite lookup_empty in H. Qed.

Lemma s1_typed : available s1 /\ well_typed (K := N) (V := bytes) (contents s1).
Proof.
  destruct (run_typed_ok (K := N) (V := bytes) s0 (TSetMany items)) as (_ & ? & ?); [done|apply s0_typed| |done].
  repeat constructor; done.
Qed.

Lemma adapter_well_typed_witness :
  available s0 /\ well_typed (K := N) (V := bytes) (contents s0) /\
  well_typed (K := N) (V := bytes) (contents s1) /\
  KVQStandardAdapter.get_exact_if_exists (V := bytes) s1 258%N = Ok (Some [x0b]).
Proof.
  assert (available s0) as Ha by done.
  destruct (adapter_well_typed (K := N) (V := bytes) s0 Ha s0_typed) as (Hw & _ & _).
  destruct (Hw (TSetMany items)) as (_ & _ & Hm); [repeat constructor; done|].
  split_and!; [exact Ha|exact s0_typed|exact Hm|]. vm_compute. reflexivity.
Defined.

Lemma adapter_get_leq_numeric_witness :
  available s1 /\ well_typed (K := N) (V := bytes) (contents s1) /\
  KVQStandardAdapter.get_leq_kv (V := bytes) s1 290%N 1 = Ok (Some (KV 258%N [x0b])) /\
  in_block 290 1 258.
Proof.
  destruct s1_typed as [Ha Hm]. split; [exact Ha|]. split; [exact Hm|].
  pose proof (adapter_get_leq_numeric (V := bytes) s1 290%N 1 Ha Hm) as H.
  assert (KVQStandardAdapter.get_leq_kv (V := bytes) s1 290%N 1 = Ok (Some (KV 258%N [x0b]))) as E
    by (vm_compute; reflexivity).
  rewrite E in H. split; [exact E|]. apply H; [vm_compute; discriminate|lia].
Defined.
End AdapterWitness.
