(* ===== verification/KvqAsync.v ===== *)
(** * KVQ: the asynchronous stores and their typed adapter

    The async traits of [kvq/src/traits.rs] and the async half of
    [kvq/src/adapters/standard.rs].  A store is a handle on a world that other
    tasks also change: each call may be preceded and followed by their steps.
    The async adapter is shown to be the synchronous one on a store without
    other tasks, and to keep a shared store well typed with them. *)
From S2P Require Import Prelude Effects KvqBase KvqStore KvqAdapter.

(** ** The async traits *)
Class KVQBinaryStoreReaderAsync (W S : Type) := {
  get_exact_if_exists_async : S -> bytes -> prog W (option bytes);
  get_exact_async : S -> bytes -> prog W bytes;
  get_many_exact_async : S -> list bytes -> prog W (list bytes);
  get_leq_async : S -> bytes -> nat -> prog W (option bytes);
  get_fuzzy_range_leq_kv_async : S -> bytes -> nat -> prog W (list BytesPair);
  get_leq_kv_async : S -> bytes -> nat -> prog W (option BytesPair);
  get_many_leq_async : S -> list bytes -> nat -> prog W (list (option bytes));
  get_many_leq_kv_async : S -> list bytes -> nat -> prog W (list (option BytesPair));
}.
Class KVQBinaryStoreWriterImmutableAsync (W S : Type) := {
  imm_set_async : S -> bytes -> bytes -> prog W ();
  imm_set_ref_async : S -> bytes -> bytes -> prog W ();
  imm_set_many_ref_async : S -> list BytesPair -> prog W ();
  imm_set_many_vec_async : S -> list BytesPair -> prog W ();
  imm_set_many_split_ref_async : S -> list bytes -> list bytes -> prog W ();
  imm_delete_async : S -> bytes -> prog W bool;
  imm_delete_many_async : S -> list bytes -> prog W (list bool);
}.

(** The provided methods of [KVQBinaryStoreReaderAsync]. *)
Module ReaderAsync.
Section provided.
Context {W S : Type} `{!KVQBinaryStoreReaderAsync W S}.

Definition get_leq_u (s : S) (key : bytes) (fuzzy_bytes : nat) : prog W bytes :=
  r ← get_leq_async s key fuzzy_bytes; lift (unwrap_kv_result r).
Definition get_leq_kv_u (s : S) (key : bytes) (fuzzy_bytes : nat) : prog W BytesPair :=
  r ← get_leq_kv_async s key fuzzy_bytes; lift (unwrap_kv_result r).
Definition get_many_leq_u (s : S) (keys : list bytes) (fuzzy_bytes : nat) : prog W (list bytes) :=
  r ← get_many_leq_async s keys fuzzy_bytes; lift (unwrap_kv_vec_result r).
Definition get_many_leq_kv_u (s : S) (keys : list bytes) (fuzzy_bytes : nat) : prog W (list BytesPair) :=
  r ← get_many_leq_kv_async s keys fuzzy_bytes; lift (unwrap_kv_vec_result r).
End provided.
End ReaderAsync.

(** ** The async adapter *)
Module AsyncAdapter.
Section adapter.
Context {W S K V : Type} `{!KVQSerializable K, !KVQSerializable V}.

Section reader.
Context `{!KVQBinaryStoreReaderAsync W S}.

Definition get_exact_if_exists (s : S) (key : K) : prog W (option V) :=
  k ← lift (to_bytes key);
  r ← get_exact_if_exists_async s k;
  match r with
  | Some b => result ← lift (from_bytes b); mret (Some result)
  | None => mret None
  end.
Definition get_exact (s : S) (key : K) : prog W V :=
  k ← lift (to_bytes key);
  r ← get_exact_async s k;
  lift (from_bytes r).

Definition get_leq_kv (s : S) (key : K) (fuzzy_bytes : nat) : prog W (option (KVQPair K V)) :=
  k ← lift (to_bytes key);
  r ← get_leq_kv_async s k fuzzy_bytes;
  match r with
  | Some kv => p ← lift (KVQStandardAdapter.pair_from_bytes kv); mret (Some p)
  | None => mret None
  end.

Definition get_many_exact (s : S) (keys : list K) : prog W (list V) :=
  keys_bytes ← lift (mapM to_bytes keys);
  values_bytes ← get_many_exact_async s keys_bytes;
  lift (mapM from_bytes values_bytes).

Definition get_leq (s : S) (key : K) (fuzzy_bytes : nat) : prog W (option V) :=
  k ← lift (to_bytes key);
  r ← get_leq_async s k fuzzy_bytes;
  match r with
  | Some v => x ← lift (from_bytes v); mret (Some x)
  | None => mret None
  end.

Definition get_many_leq (s : S) (keys : list K) (fuzzy_bytes : nat) : prog W (list (option V)) :=
  keys_bytes ← lift (mapM to_bytes keys);
  values_bytes ← get_many_leq_async s keys_bytes fuzzy_bytes;
  lift (mapM (fun r : option bytes =>
    match r with
    | Some v => x ← from_bytes v; Ok (Some x)
    | None => Ok None
    end) values_bytes).

Definition get_many_leq_kv (s : S) (keys : list K) (fuzzy_bytes : nat)
  : prog W (list (option (KVQPair K V))) :=
  keys_bytes ← lift (mapM to_bytes keys);
  kvs_bytes ← get_many_leq_kv_async s keys_bytes fuzzy_bytes;
  lift (mapM (fun r : option BytesPair =>
    match r with
    | Some kv => p ← KVQStandardAdapter.pair_from_bytes kv; Ok (Some p)
    | None => Ok None
    end) kvs_bytes).

Definition get_fuzzy_range_leq_kv (s : S) (key : K) (fuzzy_bytes : nat) : prog W (list (KVQPair K V)) :=
  k ← lift (to_bytes key);
  kvs ← get_fuzzy_range_leq_kv_async s k fuzzy_bytes;
  lift (mapM KVQStandardAdapter.pair_from_bytes kvs).

(** The provided methods of [KVQStoreAdapterReaderAsync]. *)
Definition get_many_leq_u (s : S) (keys : list K) (fuzzy_bytes : nat) : prog W (list V) :=
  results ← get_many_leq s keys fuzzy_bytes; lift (unwrap_kv_vec_result results).
Definition get_many_leq_kv_u (s : S) (keys : list K) (fuzzy_bytes : nat) : prog W (list (KVQPair K V)) :=
  results ← get_many_leq_kv s keys fuzzy_bytes; lift (unwrap_kv_vec_result results).
End reader.

Section writer.
Context `{!KVQBinaryStoreWriterImmutableAsync W S}.

Definition imm_set_ref (s : S) (key : K) (value : V) : prog W () :=
  k ← lift (to_bytes key); v ← lift (to_bytes value); imm_set_async s k v.

Definition imm_set_many_ref (s : S) (items : list (KVQPair K V)) : prog W () :=
  pairs ← lift (mapM KVQStandardAdapter.pair_to_bytes items); imm_set_many_vec_async s pairs.
Definition imm_set_many (s : S) (items : list (KVQPair K V)) : prog W () :=
  pairs ← lift (mapM KVQStandardAdapter.pair_to_bytes items); imm_set_many_vec_async s pairs.

Definition imm_delete (s : S) (key : K) : prog W bool :=
  k ← lift (to_bytes key); imm_delete_async s k.
Fixpoint imm_delete_many (s : S) (keys : list K) : prog W (list bool) :=
  match keys with
  | [] => mret []
  | k :: keys =>
      r ← imm_delete s k;
      results ← imm_delete_many s keys;
      mret (r :: results)
  end.

Definition imm_set_many_split_ref (s : S) (keys : list K) (values : list V) : prog W () :=
  if decide (length keys = length values) then
    kvs ← lift (KVQStandardAdapter.split_to_bytes keys values);
    imm_set_many_split_ref_async s kvs.*1 kvs.*2
  else lift (Err (Anyhow "Keys and values must have the same length")).

(** [KVQStoreAdapterWithHelpersImmutableAsync] of [traits.rs]. *)
Definition set_many_ref_clone_batch (s : S) (items : list (KVQPair K V)) : prog W () :=
  imm_set_many s (foldl (fun items_owned item => items_owned ++ [KV (kv_key item) (kv_value item)]) [] items) ;;
  mret ().
Definition set_many_ref_serial (s : S) (items : list (KVQPair K V)) : prog W () :=
  for_each items (fun item => imm_set_ref s (kv_key item) (kv_value item)).
End writer.
End adapter.
End AsyncAdapter.

(** ** On a store without other tasks

    A synchronous store as an async one: the store itself is the world, and each
    call runs at once. *)
Section sync.
Context {S : Type} `{!KVQBinaryStoreReader S, !KVQBinaryStoreWriterImmutable S}.

#[export] Instance sync_reader : KVQBinaryStoreReaderAsync S () := {|
  get_exact_if_exists_async _ k := query (fun s => KvqStore.get_exact_if_exists s k);
  get_exact_async _ k := query (fun s => KvqStore.get_exact s k);
  get_many_exact_async _ ks := query (fun s => KvqStore.get_many_exact s ks);
  get_leq_async _ k n := query (fun s => KvqStore.get_leq s k n);
  get_fuzzy_range_leq_kv_async _ k n := query (fun s => KvqStore.get_fuzzy_range_leq_kv s k n);
  get_leq_kv_async _ k n := query (fun s => KvqStore.get_leq_kv s k n);
  get_many_leq_async _ ks n := query (fun s => KvqStore.get_many_leq s ks n);
  get_many_leq_kv_async _ ks n := query (fun s => KvqStore.get_many_leq_kv s ks n);
|}.
#[export] Instance sync_writer : KVQBinaryStoreWriterImmutableAsync S () := {|
  imm_set_async _ k v := perform (fun s => imm_set s k v);
  imm_set_ref_async _ k v := perform (fun s => imm_set_ref s k v);
  imm_set_many_ref_async _ items := perform (fun s => imm_set_many_ref s items);
  imm_set_many_vec_async _ items := perform (fun s => imm_set_many_vec s items);
  imm_set_many_split_ref_async _ ks vs := perform (fun s => imm_set_many_split_ref s ks vs);
  imm_delete_async _ k := perform (fun s => imm_delete s k);
  imm_delete_many_async _ ks := perform (fun s => imm_delete_many s ks);
|}.

(** What a call leaves and returns. *)
Definition outcome_of {A} (p : prog S A) (s : S) : S * outcome A := (final p s, result p s).

Lemma outcome_of_lift {A B} (o : outcome A) (f : A -> prog S B) s :
  outcome_of (lift o ≫= f) s = with_ok s o (fun a => outcome_of (f a) s).
Proof. unfold outcome_of. rewrite result_bind, final_bind, result_lift, final_lift. by destruct o. Qed.
Lemma outcome_of_query {A B} (g : S -> outcome A) (f : A -> prog S B) s :
  outcome_of (query g ≫= f) s = with_ok s (g s) (fun a => outcome_of (f a) s).
Proof. exact (outcome_of_lift (g s) f s). Qed.
Lemma outcome_of_perform {A} (f : S -> S * outcome A) s : outcome_of (perform f) s = f s.
Proof. unfold outcome_of, final, result, perform. by destruct (f s). Qed.
Lemma outcome_of_bind {A B} (p : prog S A) (f : A -> prog S B) s :
  outcome_of (p ≫= f) s = with_ok (outcome_of p s).1 (outcome_of p s).2 (fun a => outcome_of (f a) (outcome_of p s).1).
Proof. unfold outcome_of. rewrite result_bind, final_bind. cbn. by destruct (result p s). Qed.
Lemma outcome_of_ret {A} (a : A) s : outcome_of (mret a) s = (s, Ok a).
Proof. done. Qed.
Lemma outcome_of_pure {A} (o : outcome A) s : outcome_of (lift o) s = (s, o).
Proof. done. Qed.
End sync.

(** Evaluates an async adapter call against its synchronous twin. *)
Ltac solve_twin :=
  repeat (rewrite ?outcome_of_lift, ?outcome_of_query, ?outcome_of_perform, ?outcome_of_ret, ?outcome_of_pure;
    first [ reflexivity
          | match goal with
            | |- context [with_ok _ (to_bytes ?k) _] => destruct (to_bytes k)
            | |- context [with_ok _ (mapM ?f ?l) _] => destruct (mapM f l)
            | |- context [with_ok _ ?o _] => destruct o
            | |- context [match ?o with Some _ => _ | None => _ end] => destruct o
            end; cbn [with_ok mbind outcome_bind] ]).

Section twins.
Context {S K V : Type} `{!KVQSerializable K, !KVQSerializable V}.
Context `{!KVQBinaryStoreReader S, !KVQBinaryStoreWriterImmutable S}.
Abbreviation twin p s o := (outcome_of p s = o) (only parsing).

Lemma delete_many_twin (s : S) (keys : list K) :
  twin (AsyncAdapter.imm_delete_many () keys) s (KVQStandardAdapter.imm_delete_many s keys).
Proof.
  unfold KVQStandardAdapter.imm_delete_many. revert s.
  induction keys as [|k keys IH]; intros s; [done|]. cbn [AsyncAdapter.imm_delete_many loop_many].
  rewrite outcome_of_bind. unfold AsyncAdapter.imm_delete at 1 2 3. rewrite outcome_of_lift.
  destruct (to_bytes k) as [kb| | |]; [|done..]. cbn [with_ok]. cbn [imm_delete_async sync_writer].
  rewrite outcome_of_perform. destruct (KvqStore.imm_delete s kb) as [s' [b| | |]]; [|done..].
  cbn [fst snd with_ok]. rewrite outcome_of_bind, IH. by destruct (loop_many _ s' keys) as [s'' [bs| | |]].
Qed.

(** C38: The async adapter is the synchronous one.  On a store no other task
    changes, every call of the async adapter returns what the synchronous call
    of the same name does and leaves the store in the same state, errors of the
    serialisation and of the store included. *)
Theorem async_adapter_agrees (s : S) (k : K) (v : V) (ks : list K) (vs : list V)
    (items : list (KVQPair K V)) (n : nat) :
  twin (AsyncAdapter.get_exact_if_exists (V := V) () k) s (s, KVQStandardAdapter.get_exact_if_exists s k) /\
  twin (AsyncAdapter.get_exact (V := V) () k) s (s, KVQStandardAdapter.get_exact s k) /\
  twin (AsyncAdapter.get_many_exact (V := V) () ks) s (s, KVQStandardAdapter.get_many_exact s ks) /\
  twin (AsyncAdapter.get_leq (V := V) () k n) s (s, KVQStandardAdapter.get_leq s k n) /\
  twin (AsyncAdapter.get_leq_kv (V := V) () k n) s (s, KVQStandardAdapter.get_leq_kv s k n) /\
  twin (AsyncAdapter.get_many_leq (V := V) () ks n) s (s, KVQStandardAdapter.get_many_leq s ks n) /\
  twin (AsyncAdapter.get_many_leq_kv (V := V) () ks n) s (s, KVQStandardAdapter.get_many_leq_kv s ks n) /\
  twin (AsyncAdapter.get_fuzzy_range_leq_kv (V := V) () k n) s
    (s, KVQStandardAdapter.get_fuzzy_range_leq_kv s k n) /\
  twin (AsyncAdapter.imm_set_ref () k v) s (KVQStandardAdapter.imm_set_ref s k v) /\
  twin (AsyncAdapter.imm_set_many_ref () items) s (KVQStandardAdapter.imm_set_many_ref s items) /\
  twin (AsyncAdapter.imm_set_many () items) s (KVQStandardAdapter.imm_set_many s items) /\
  twin (AsyncAdapter.imm_delete () k) s (KVQStandardAdapter.imm_delete s k) /\
  twin (AsyncAdapter.imm_delete_many () ks) s (KVQStandardAdapter.imm_delete_many s ks) /\
  twin (AsyncAdapter.imm_set_many_split_ref () ks vs) s (KVQStandardAdapter.imm_set_many_split_ref s ks vs).
Proof.
  split_and!;
    unfold AsyncAdapter.get_exact_if_exists, KVQStandardAdapter.get_exact_if_exists,
      AsyncAdapter.get_exact, KVQStandardAdapter.get_exact, AsyncAdapter.get_many_exact,
      KVQStandardAdapter.get_many_exact, AsyncAdapter.get_leq, KVQStandardAdapter.get_leq,
      AsyncAdapter.get_leq_kv, KVQStandardAdapter.get_leq_kv, AsyncAdapter.get_many_leq,
      KVQStandardAdapter.get_many_leq, AsyncAdapter.get_many_leq_kv, KVQStandardAdapter.get_many_leq_kv,
      AsyncAdapter.get_fuzzy_range_leq_kv, KVQStandardAdapter.get_fuzzy_range_leq_kv,
      AsyncAdapter.imm_set_ref, KVQStandardAdapter.imm_set_ref, AsyncAdapter.imm_set_many_ref,
      KVQStandardAdapter.imm_set_many_ref, AsyncAdapter.imm_set_many, KVQStandardAdapter.imm_set_many,
      AsyncAdapter.imm_delete, KVQStandardAdapter.imm_delete,
      AsyncAdapter.imm_set_many_split_ref, KVQStandardAdapter.imm_set_many_split_ref;
    cbn [sync_reader sync_writer get_exact_if_exists_async get_exact_async get_many_exact_async
      get_leq_async get_leq_kv_async get_many_leq_async get_many_leq_kv_async
      get_fuzzy_range_leq_kv_async imm_set_async imm_set_many_vec_async imm_delete_async
      imm_set_many_split_ref_async]; try case_decide; try apply delete_many_twin; solve_twin.
Qed.
End twins.

(** ** On a shared store

    Every task of the system keeps the invariant [I] of the contents, and a read
    returns entries the contents had at some moment of the call. *)
Definition held_value (I : gmap bytes bytes -> Prop) (k : bytes) (o : option bytes) : Prop :=
  forall v, o = Some v -> exists m, I m /\ m !! k = Some v.
Definition held_entry (I : gmap bytes bytes -> Prop) (o : option BytesPair) : Prop :=
  forall p, o = Some p -> exists m, I m /\ m !! kv_key p = Some (kv_value p).

Class SharedStore {W S : Type} `{!KVQBinaryStoreReaderAsync W S, !KVQBinaryStoreWriterImmutableAsync W S}
    (s : S) (contents : W -> gmap bytes bytes) (I : gmap bytes bytes -> Prop) : Prop := {
  exact_keeps k : triple (fun w => I (contents w)) (fun w => I (contents w)) (get_exact_if_exists_async s k)
    (fun r w => I (contents w) /\ forall o, r = Ok o -> held_value I k o);
  leq_kv_keeps k n : triple (fun w => I (contents w)) (fun w => I (contents w)) (get_leq_kv_async s k n)
    (fun r w => I (contents w) /\ forall o, r = Ok o -> held_entry I o);
  set_keeps k v : (forall m, I m -> I (<[k := v]> m)) ->
    triple (fun w => I (contents w)) (fun w => I (contents w)) (imm_set_async s k v) (fun _ w => I (contents w));
  set_many_keeps ps : (forall m, I m -> I (put_pairs m ps)) ->
    triple (fun w => I (contents w)) (fun w => I (contents w)) (imm_set_many_vec_async s ps) (fun _ w => I (contents w));
  delete_keeps k : (forall m, I m -> I (delete k m)) ->
    triple (fun w => I (contents w)) (fun w => I (contents w)) (imm_delete_async s k) (fun _ w => I (contents w));
}.

Section shared.
Context {W S K V : Type} `{!KVQSerializable K, !KVQSerializable V, !SerializableLaws K, !SerializableLaws V}.
Context `{!KVQBinaryStoreReaderAsync W S, !KVQBinaryStoreWriterImmutableAsync W S}.
Context (s : S) (contents : W -> gmap bytes bytes) `{!SharedStore s contents (well_typed (K := K) (V := V))}.

Abbreviation typed := (fun w : W => well_typed (K := K) (V := V) (contents w)).

(** What decoding an entry of a well-typed store gives. *)
Definition decoded (m : gmap bytes bytes) (p : KVQPair K V) : Prop :=
  valid (kv_key p) /\ valid (kv_value p) /\ holds m (kv_key p) (kv_value p).

Lemma typed_entry m kb vb :
  well_typed (K := K) (V := V) m -> m !! kb = Some vb ->
  exists p, KVQStandardAdapter.pair_from_bytes (KV kb vb) = Ok p /\ decoded m p /\ from_bytes vb = Ok (kv_value p).
Proof.
  intros Hm Hkb. destruct (Hm kb vb Hkb) as (k & v & Hk & Hv & Ek & Ev). exists (KV k v).
  unfold KVQStandardAdapter.pair_from_bytes. cbn.
  rewrite (from_bytes_valid k kb Hk Ek). cbn. rewrite (from_bytes_valid v vb Hv Ev).
  split; [done|]. split; [|done]. split_and!; [done..|]. by exists kb, vb.
Qed.

(** A failure of the store itself is the only failure of a call on valid arguments. *)
Definition store_failure {A B} (p : prog W A) (r : outcome B) : Prop :=
  exists w, fail_as (result p w) = Some r.

Lemma delete_keeps_typed (k : K) : valid k -> triple typed typed (AsyncAdapter.imm_delete s k) (fun _ => typed).
Proof.
  intros (kb & Ek & _)%from_to_bytes. eapply triple_arg; [exact Ek|]. apply delete_keeps.
  intros m. apply well_typed_delete.
Qed.

Lemma delete_many_keeps_typed (keys : list K) :
  Forall valid keys -> triple typed typed (AsyncAdapter.imm_delete_many s keys) (fun _ => typed).
Proof.
  induction 1 as [|k keys Hk _ IH]; cbn [AsyncAdapter.imm_delete_many]; [by apply triple_ret|].
  eapply triple_bind; [by apply delete_keeps_typed|intros r|done].
  eapply triple_bind; [exact IH|intros rs; by apply triple_ret|done].
Qed.

(** A read: what it returns, or the failure of the store. *)
Lemma triple_read {A B} (p : prog W A) (f : A -> prog W B) (found : A -> Prop) (Q : B -> Prop) :
  triple typed typed p (fun r w => typed w /\ forall a, r = Ok a -> found a) ->
  (forall a, found a -> exists b, f a = mret b /\ Q b) ->
  triple typed typed (p ≫= f) (fun r w => typed w /\ match r with Ok b => Q b | _ => store_failure p r end).
Proof.
  intros Hp Hf.
  eapply triple_bind with (R := fun r w => (typed w /\ forall a, r = Ok a -> found a) /\ exists x, result p x = r).
  - apply triple_result; [|exact Hp]. by eexists.
  - intros a. apply triple_at. intros w [[Hw Ha] _]. destruct (Hf a (Ha a eq_refl)) as (b & -> & Hb).
    apply triple_ret. by intros x ->.
  - intros r r' w [[Hw _] [x Hx]] E. split; [done|].
    assert (store_failure p r') as Hs by (exists x; by rewrite Hx).
    by destruct r; cbn in E; simplify_eq.
Qed.

Lemma typed_value (k : K) kb m vb :
  valid k -> to_bytes k = Ok kb -> well_typed (K := K) (V := V) m -> m !! kb = Some vb ->
  exists v : V, from_bytes vb = Ok v /\ decoded m (KV k v).
Proof.
  intros Hk Ek Hm Hkb. destruct (Hm kb vb Hkb) as (k' & v & Hk' & Hv & Ek' & Ev). exists v.
  assert (k' = k) as -> by (by apply (to_bytes_inj k' k kb)).
  split; [by apply from_bytes_valid|]. split_and!; [done..|]. by exists kb, vb.
Qed.

(** What a read may return: nothing, or the decoding of an entry some well-typed
    store holds, that is, a valid key and a value of the adapter's types. *)
Definition found_value (k : K) (r : option V) : Prop :=
  match r with None => True | Some v => exists m, well_typed (K := K) (V := V) m /\ decoded m (KV k v) end.
Definition found_entry (r : option (KVQPair K V)) : Prop :=
  match r with None => True | Some p => exists m, well_typed (K := K) (V := V) m /\ decoded m p end.

(** C39: A shared store stays well typed.  When every task that shares an async
    store only writes encodings of keys and values of the adapter's types,
    which calls of the adapter with valid arguments do, then at every point of
    a write or a delete every entry of the store is such an encoding, and a
    read that finds an entry decodes it: it returns a key and a value of the
    adapter's types, or fails as the store does. *)
Theorem async_adapter_well_typed (k : K) (n : nat) :
  valid k ->
  (forall v, valid v -> triple typed typed (AsyncAdapter.imm_set_ref s k v) (fun _ => typed)) /\
  (forall items : list (KVQPair K V), Forall valid_pair items ->
     triple typed typed (AsyncAdapter.imm_set_many s items) (fun _ => typed)) /\
  (forall keys : list K, Forall valid keys ->
     triple typed typed (AsyncAdapter.imm_delete_many s keys) (fun _ => typed)) /\
  exists kb, to_bytes k = Ok kb /\
    triple typed typed (AsyncAdapter.get_exact_if_exists (V := V) s k)
      (fun r w => typed w /\
         match r with Ok x => found_value k x | _ => store_failure (get_exact_if_exists_async s kb) r end) /\
    triple typed typed (AsyncAdapter.get_leq_kv (V := V) s k n)
      (fun r w => typed w /\
         match r with Ok x => found_entry x | _ => store_failure (get_leq_kv_async s kb n) r end).
Proof.
  intros Hk. pose proof Hk as (kb & Ek & _)%from_to_bytes. split_and!.
  - intros v Hv. pose proof Hv as (vb & Ev & _)%from_to_bytes.
    eapply triple_arg; [exact Ek|]. eapply triple_arg; [exact Ev|]. apply set_keeps.
    intros m Hm. by eapply well_typed_insert.
  - intros items Hi. destruct (pairs_to_bytes_valid items Hi) as (ps & Hps & HF).
    eapply triple_arg; [exact Hps|]. apply set_many_keeps. intros m Hm. exact (well_typed_put_pairs items ps m HF Hm).
  - exact delete_many_keeps_typed.
  - exists kb. split; [exact Ek|]. split; (eapply triple_arg; [exact Ek|]).
    + eapply triple_read; [exact (exact_keeps kb)|]. intros [vb|] Hvb; [|by eexists].
      destruct (Hvb vb eq_refl) as (m & Hm & Hkb).
      destruct (typed_value k kb m vb Hk Ek Hm Hkb) as (v & Ev & Hd).
      exists (Some v). rewrite Ev. split; [reflexivity|]. by exists m.
    + eapply triple_read; [exact (leq_kv_keeps kb n)|]. intros [[kb' vb]|] Hvb; [|by eexists].
      destruct (Hvb _ eq_refl) as (m & Hm & Hkb).
      destruct (typed_entry m kb' vb Hm Hkb) as (p & Ep & Hd & _).
      exists (Some p). rewrite Ep. split; [reflexivity|]. by exists m.
Qed.
End shared.

(** ** A store with a second task

    Before each call another task writes an entry of its own. *)
Module AsyncWitness.
Definition other (m : gmap bytes bytes) : gmap bytes bytes := <[be_bytes 8 7 := [x0c]]> m.

#[local] Instance shared_reader : KVQBinaryStoreReaderAsync (gmap bytes bytes) () := {|
  get_exact_if_exists_async _ k := perform (fun m => (other m, Ok (other m !! k)));
  get_exact_async _ k := perform (fun m => (other m, spec_exact (other m) k));
  get_many_exact_async _ ks := perform (fun m => (other m, mapM (spec_exact (other m)) ks));
  get_leq_async _ k n := perform (fun m => (other m, spec_leq (other m) k n));
  get_fuzzy_range_leq_kv_async _ k n := perform (fun m => (other m, spec_range (other m) k n));
  get_leq_kv_async _ k n := perform (fun m => (other m, spec_leq_kv (other m) k n));
  get_many_leq_async _ ks n := perform (fun m => (other m, mapM (fun k => spec_leq (other m) k n) ks));
  get_many_leq_kv_async _ ks n := perform (fun m => (other m, mapM (fun k => spec_leq_kv (other m) k n) ks));
|}.
#[local] Instance shared_writer : KVQBinaryStoreWriterImmutableAsync (gmap bytes bytes) () := {|
  imm_set_async _ k v := perform (fun m => (<[k := v]> (other m), Ok ()));
  imm_set_ref_async _ k v := perform (fun m => (<[k := v]> (other m), Ok ()));
  imm_set_many_ref_async _ items := perform (fun m => (put_pairs (other m) items, Ok ()));
  imm_set_many_vec_async _ items := perform (fun m => (put_pairs (other m) items, Ok ()));
  imm_set_many_split_ref_async _ ks vs := perform (fun m => (put_pairs (other m) (zip_with KV ks vs), Ok ()));
  imm_delete_async _ k := perform (fun m => (delete k (other m), Ok true));
  imm_delete_many_async _ ks := perform (fun m => (remove_keys (other m) ks, Ok ((fun _ => true) <$> ks)));
|}.

Abbreviation typed := (well_typed (K := N) (V := bytes)).

Lemma other_typed m : typed m -> typed (other m).
Proof. intros Hm. by apply (well_typed_insert m 7%N [x0c]). Qed.

#[local] Instance shared_store : SharedStore () id typed.
Proof.
  pose proof other_typed as Ho.
  constructor; intros; apply triple_perform; intros m Hm; cbn; repeat split; eauto.
  - intros o [= <-] v Hv. eauto.
  - intros o E [k' v'] ->. unfold spec_leq_kv in E. apply bind_Ok in E as ([] & _ & E). apply Ok_inj in E.
    destruct (last _) as [[kb vb]|] eqn:El; [|done]. injection E as <- <-.
    apply last_range_Some in El as (Hk & _). eauto.
Qed.

Lemma async_adapter_well_typed_witness :
  let p := (AsyncAdapter.imm_set_ref () 300%N [x0a] : prog (gmap bytes bytes) ()) in
  typed (final p ∅) /\
  result (AsyncAdapter.get_exact_if_exists () 300%N) (final p ∅) = Ok (Some [x0a]) /\
  found_value (V := bytes) 300%N (Some [x0a]).
Proof.
  intros p. assert (valid 300%N) as H300 by (vm_compute; discriminate).
  destruct (async_adapter_well_typed (K := N) (V := bytes) () id 300%N 0 H300) as (Hs & _ & _ & kb & _ & Hr & _).
  assert (typed ∅) as H0 by (intros kb' vb H; by rewrite lookup_empty in H).
  destruct (Hs [x0a] Logic.I ∅ H0) as [_ H1].
  assert (result (AsyncAdapter.get_exact_if_exists (V := bytes) () 300%N) (final p ∅) = Ok (Some [x0a])) as E
    by (vm_compute; reflexivity).
  split; [exact H1|]. split; [exact E|].
  exact (proj2 (proj2 (Hr (final p ∅) H1))).
Defined.
End AsyncWitness.
