(* ===== verification/KvqAdapterTraits.v ===== *)
(** * KVQ: the adapter traits

    The traits of typed adapters in [kvq/src/traits.rs], as classes, and
    [KVQStandardAdapter] as their implementation.  Their methods are associated
    functions that take the store.  What an adapter promises its clients is
    [AdapterLaws]; the helpers of [KVQStoreAdapterWithHelpers] are proved against
    it, and the standard adapter keeps it on every store that keeps its own laws. *)
From S2P Require Import Prelude Effects KvqBase KvqStore KvqAdapter KvqAsync.

(** ** The traits *)
Module AdapterReader.
Class KVQStoreAdapterReader (S K V : Type) := {
  get_exact_if_exists : S -> K -> outcome (option V);
  get_exact : S -> K -> outcome V;
  get_many_exact : S -> list K -> outcome (list V);
  get_fuzzy_range_leq_kv : S -> K -> nat -> outcome (list (KVQPair K V));
  get_leq : S -> K -> nat -> outcome (option V);
  get_leq_kv : S -> K -> nat -> outcome (option (KVQPair K V));
  get_many_leq : S -> list K -> nat -> outcome (list (option V));
  get_many_leq_kv : S -> list K -> nat -> outcome (list (option (KVQPair K V)));
}.
End AdapterReader.

Module Adapter.
Class KVQStoreAdapter (S K V : Type) := {
  set : S -> K -> V -> S * outcome ();
  set_ref : S -> K -> V -> S * outcome ();
  set_many_ref : S -> list (KVQPair K V) -> S * outcome ();
  set_many_split_ref : S -> list K -> list V -> S * outcome ();
  set_many : S -> list (KVQPair K V) -> S * outcome ();
  delete_entry : S -> K -> S * outcome bool;
  delete_many : S -> list K -> S * outcome (list bool);
}.
End Adapter.

Module AdapterImmutable.
Class KVQStoreAdapterImmutable (S K V : Type) := {
  imm_set : S -> K -> V -> S * outcome ();
  imm_set_ref : S -> K -> V -> S * outcome ();
  imm_set_many_ref : S -> list (KVQPair K V) -> S * outcome ();
  imm_set_many_split_ref : S -> list K -> list V -> S * outcome ();
  imm_set_many : S -> list (KVQPair K V) -> S * outcome ();
  imm_delete : S -> K -> S * outcome bool;
  imm_delete_many : S -> list K -> S * outcome (list bool);
}.
End AdapterImmutable.

Module AdapterReaderAsync.
Class KVQStoreAdapterReaderAsync (W S K V : Type) := {
  get_exact_if_exists : S -> K -> prog W (option V);
  get_exact : S -> K -> prog W V;
  get_many_exact : S -> list K -> prog W (list V);
  get_fuzzy_range_leq_kv : S -> K -> nat -> prog W (list (KVQPair K V));
  get_leq : S -> K -> nat -> prog W (option V);
  get_leq_kv : S -> K -> nat -> prog W (option (KVQPair K V));
  get_many_leq : S -> list K -> nat -> prog W (list (option V));
  get_many_leq_kv : S -> list K -> nat -> prog W (list (option (KVQPair K V)));
}.
End AdapterReaderAsync.

Module AdapterImmutableAsync.
Class KVQStoreAdapterImmutableAsync (W S K V : Type) := {
  imm_set_ref : S -> K -> V -> prog W ();
  imm_set_many_ref : S -> list (KVQPair K V) -> prog W ();
  imm_set_many_split_ref : S -> list K -> list V -> prog W ();
  imm_set_many : S -> list (KVQPair K V) -> prog W ();
  imm_delete : S -> K -> prog W bool;
  imm_delete_many : S -> list K -> prog W (list bool);
}.
End AdapterImmutableAsync.

(** The async writer with [&mut self], which nothing implements. *)
Module BinaryStoreWriterAsync.
Class KVQBinaryStoreWriterAsync (W S : Type) := {
  set : bytes -> bytes -> prog (W * S) ();
  set_ref : bytes -> bytes -> prog (W * S) ();
  set_many_ref : list BytesPair -> prog (W * S) ();
  set_many_vec : list BytesPair -> prog (W * S) ();
  set_many_split_ref : list bytes -> list bytes -> prog (W * S) ();
  delete_entry : bytes -> prog (W * S) bool;
  delete_many : list bytes -> prog (W * S) (list bool);
}.
End BinaryStoreWriterAsync.

(** The traits that combine a reader and a writer, with their blanket implementations. *)
Class KVQBinaryStore (S : Type) := {
  binary_reader : KVQBinaryStoreReader S;
  binary_writer : KVQBinaryStoreWriter S;
}.
#[export] Instance binary_store_all {S} `{!KVQBinaryStoreReader S, !KVQBinaryStoreWriter S} : KVQBinaryStore S :=
  {| binary_reader := _; binary_writer := _ |}.
Class KVQBinaryStoreImmutable (S : Type) := {
  binary_store : KVQBinaryStore S;
  binary_writer_immutable : KVQBinaryStoreWriterImmutable S;
}.
Class KVQBinaryStoreImmutableAsync (W S : Type) := {
  binary_reader_async : KVQBinaryStoreReaderAsync W S;
  binary_writer_async : KVQBinaryStoreWriterImmutableAsync W S;
}.
#[export] Instance binary_store_async_all {W S}
    `{!KVQBinaryStoreReaderAsync W S, !KVQBinaryStoreWriterImmutableAsync W S} : KVQBinaryStoreImmutableAsync W S :=
  {| binary_reader_async := _; binary_writer_async := _ |}.

(** ** [KVQStandardAdapter] implements them *)
Section standard.
Context {S K V : Type} `{!KVQSerializable K, !KVQSerializable V}.

#[export] Instance standard_reader `{!KVQBinaryStoreReader S} : AdapterReader.KVQStoreAdapterReader S K V := {|
  AdapterReader.get_exact_if_exists := KVQStandardAdapter.get_exact_if_exists;
  AdapterReader.get_exact := KVQStandardAdapter.get_exact;
  AdapterReader.get_many_exact := KVQStandardAdapter.get_many_exact;
  AdapterReader.get_fuzzy_range_leq_kv := KVQStandardAdapter.get_fuzzy_range_leq_kv;
  AdapterReader.get_leq := KVQStandardAdapter.get_leq;
  AdapterReader.get_leq_kv := KVQStandardAdapter.get_leq_kv;
  AdapterReader.get_many_leq := KVQStandardAdapter.get_many_leq;
  AdapterReader.get_many_leq_kv := KVQStandardAdapter.get_many_leq_kv;
|}.
#[export] Instance standard_adapter `{!KVQBinaryStoreWriter S} : Adapter.KVQStoreAdapter S K V := {|
  Adapter.set := KVQStandardAdapter.set;
  Adapter.set_ref := KVQStandardAdapter.set_ref;
  Adapter.set_many_ref := KVQStandardAdapter.set_many_ref;
  Adapter.set_many_split_ref := KVQStandardAdapter.set_many_split_ref;
  Adapter.set_many := KVQStandardAdapter.set_many;
  Adapter.delete_entry := KVQStandardAdapter.delete_one;
  Adapter.delete_many := KVQStandardAdapter.delete_many;
|}.
#[export] Instance standard_immutable `{!KVQBinaryStoreWriterImmutable S} :
    AdapterImmutable.KVQStoreAdapterImmutable S K V := {|
  AdapterImmutable.imm_set := KVQStandardAdapter.imm_set;
  AdapterImmutable.imm_set_ref := KVQStandardAdapter.imm_set_ref;
  AdapterImmutable.imm_set_many_ref := KVQStandardAdapter.imm_set_many_ref;
  AdapterImmutable.imm_set_many_split_ref := KVQStandardAdapter.imm_set_many_split_ref;
  AdapterImmutable.imm_set_many := KVQStandardAdapter.imm_set_many;
  AdapterImmutable.imm_delete := KVQStandardAdapter.imm_delete;
  AdapterImmutable.imm_delete_many := KVQStandardAdapter.imm_delete_many;
|}.
#[export] Instance standard_reader_async {W} `{!KVQBinaryStoreReaderAsync W S} :
    AdapterReaderAsync.KVQStoreAdapterReaderAsync W S K V := {|
  AdapterReaderAsync.get_exact_if_exists := AsyncAdapter.get_exact_if_exists;
  AdapterReaderAsync.get_exact := AsyncAdapter.get_exact;
  AdapterReaderAsync.get_many_exact := AsyncAdapter.get_many_exact;
  AdapterReaderAsync.get_fuzzy_range_leq_kv := AsyncAdapter.get_fuzzy_range_leq_kv;
  AdapterReaderAsync.get_leq := AsyncAdapter.get_leq;
  AdapterReaderAsync.get_leq_kv := AsyncAdapter.get_leq_kv;
  AdapterReaderAsync.get_many_leq := AsyncAdapter.get_many_leq;
  AdapterReaderAsync.get_many_leq_kv := AsyncAdapter.get_many_leq_kv;
|}.
#[export] Instance standard_immutable_async {W} `{!KVQBinaryStoreWriterImmutableAsync W S} :
    AdapterImmutableAsync.KVQStoreAdapterImmutableAsync W S K V := {|
  AdapterImmutableAsync.imm_set_ref := AsyncAdapter.imm_set_ref;
  AdapterImmutableAsync.imm_set_many_ref := AsyncAdapter.imm_set_many_ref;
  AdapterImmutableAsync.imm_set_many_split_ref := AsyncAdapter.imm_set_many_split_ref;
  AdapterImmutableAsync.imm_set_many := AsyncAdapter.imm_set_many;
  AdapterImmutableAsync.imm_delete := AsyncAdapter.imm_delete;
  AdapterImmutableAsync.imm_delete_many := AsyncAdapter.imm_delete_many;
|}.
End standard.

(** ** What an adapter promises *)
Section laws.
Context {K V : Type} `{!KVQSerializable K, !KVQSerializable V, !SerializableLaws K, !SerializableLaws V}.
Implicit Types (H : K -> V -> Prop).

(** Relations between keys and values that agree on encodable ones. *)
Definition same_entries : relation (K -> V -> Prop) := fun H H' =>
  forall k v, valid k -> valid v -> H k v <-> H' k v.
#[export] Instance same_entries_equivalence : Equivalence same_entries.
Proof.
  split.
  - by intros H k v.
  - intros H H' E k v Hk Hv. symmetry. by apply E.
  - intros H1 H2 H3 E1 E2 k v Hk Hv. etrans; [by apply E1|by apply E2].
Qed.

(** The entries after a write. *)
Definition put (kv : KVQPair K V) H : K -> V -> Prop := fun k v =>
  (k = kv_key kv /\ v = kv_value kv) \/ (k <> kv_key kv /\ H k v).
Definition put_all (items : list (KVQPair K V)) H : K -> V -> Prop := foldl (fun H kv => put kv H) H items.

#[export] Instance put_proper kv : Proper (same_entries ==> same_entries) (put kv).
Proof. intros H H' E k v Hk Hv. unfold put. by rewrite (E k v Hk Hv). Qed.
#[export] Instance put_all_proper items : Proper (same_entries ==> same_entries) (put_all items).
Proof. induction items as [|kv items IH]; intros H H' E; [done|]. cbn. apply IH. by rewrite E. Qed.
End laws.

Class AdapterLaws (S K V : Type) `{!KVQSerializable K, !KVQSerializable V, !SerializableLaws K, !SerializableLaws V}
    `{!AdapterReader.KVQStoreAdapterReader S K V, !Adapter.KVQStoreAdapter S K V} := {
  ready : S -> Prop;
  entries : S -> K -> V -> Prop;
  adapter_set (s : S) kv : ready s -> valid_pair kv ->
    exists s', Adapter.set s (kv_key kv) (kv_value kv) = (s', Ok ()) /\ ready s' /\
      same_entries (entries s') (put kv (entries s));
  adapter_set_many (s : S) items : ready s -> Forall valid_pair items ->
    exists s', Adapter.set_many s items = (s', Ok ()) /\ ready s' /\
      same_entries (entries s') (put_all items (entries s));
  adapter_get (s : S) k : ready s -> valid k ->
    exists r, AdapterReader.get_exact_if_exists s k = Ok r /\
      forall v, valid v -> (r = Some v <-> entries s k v);
}.

(** ** [KVQStoreAdapterWithHelpers], for any adapter *)
Module AdapterHelpers.
Section helpers.
Context {S K V : Type} `{!Adapter.KVQStoreAdapter S K V}.

Definition set_many_ref_clone_batch (s : S) (items : list (KVQPair K V)) : S * outcome () :=
  Adapter.set_many s (foldl (fun items_owned item => items_owned ++ [KV (kv_key item) (kv_value item)]) [] items).
Fixpoint set_many_ref_serial (s : S) (items : list (KVQPair K V)) : S * outcome () :=
  match items with
  | [] => (s, Ok ())
  | item :: items =>
      match Adapter.set s (kv_key item) (kv_value item) with
      | (s, Ok _) => set_many_ref_serial s items
      | r => r
      end
  end.

(** Cloning the items gives the items. *)
Lemma clone_items (items acc : list (KVQPair K V)) :
  foldl (fun items_owned item => items_owned ++ [KV (kv_key item) (kv_value item)]) acc items = acc ++ items.
Proof.
  revert acc. induction items as [|[k v] items IH]; intros acc; cbn; [by rewrite app_nil_r|].
  by rewrite IH, <- app_assoc.
Qed.
End helpers.
End AdapterHelpers.

(** The two ways to write many pairs agree: on encodable pairs both succeed,
    and a reader of either store finds, under every key, the last value written
    to it or the old one. *)
Theorem adapter_helpers_agree {S K V} `{AdapterLaws S K V} (s : S) (items : list (KVQPair K V)) :
  ready s -> Forall valid_pair items ->
  exists s1 s2,
    AdapterHelpers.set_many_ref_clone_batch s items = (s1, Ok ()) /\
    AdapterHelpers.set_many_ref_serial s items = (s2, Ok ()) /\
    ready s1 /\ ready s2 /\
    same_entries (entries s1) (put_all items (entries s)) /\ same_entries (entries s2) (entries s1).
Proof.
  intros Hs Hitems. unfold AdapterHelpers.set_many_ref_clone_batch. rewrite AdapterHelpers.clone_items.
  destruct (adapter_set_many s items Hs Hitems) as (s1 & E1 & Hs1 & He1).
  assert (exists s2, AdapterHelpers.set_many_ref_serial s items = (s2, Ok ()) /\ ready s2 /\
    same_entries (entries s2) (put_all items (entries s))) as (s2 & E2 & Hs2 & He2).
  { clear s1 E1 Hs1 He1. revert s Hs. induction Hitems as [|kv items Hkv _ IH]; intros s Hs; [by exists s|].
    destruct (adapter_set s kv Hs Hkv) as (s' & E & Hs' & He). destruct (IH s' Hs') as (s2 & E2 & Hs2 & He2).
    exists s2. cbn. rewrite E. split_and!; [done..|]. etrans; [exact He2|]. unfold put_all. cbn [foldl].
    change (foldl _ ?H items) with (put_all items H). by rewrite He. }
  exists s1, s2. split_and!; [done..|]. by rewrite He2, He1.
Qed.

(** ** The standard adapter keeps the promise *)
Section standard_laws.
Context {S K V : Type} `{!KVQSerializable K, !KVQSerializable V, !SerializableLaws K, !SerializableLaws V}.
Context `{!KVQBinaryStoreReader S, !KVQBinaryStoreWriter S, !StoreView S, !ReaderLaws S, !LeqLaws S, !WriterLaws S}.
Implicit Types (s : S) (k : K) (v : V) (m : gmap bytes bytes).

Lemma holds_insert m (kv : KVQPair K V) p :
  valid_pair kv -> to_bytes (kv_key kv) = Ok (kv_key p) -> to_bytes (kv_value kv) = Ok (kv_value p) ->
  same_entries (holds (<[kv_key p := kv_value p]> m)) (put kv (holds m)).
Proof.
  intros [Hk0 Hv0] Ek0 Ev0 k v Hk Hv. unfold holds, put. split.
  - intros (kb & vb & Ek & Ev & [[<- <-]|[Hne E]]%lookup_insert_Some).
    + left. split; by eapply to_bytes_inj.
    + right. split; [|by exists kb, vb]. intros ->. congruence.
  - intros [[-> ->]|[Hne (kb & vb & Ek & Ev & E)]].
    + exists (kv_key p), (kv_value p). by rewrite lookup_insert_eq.
    + exists kb, vb. split_and!; [done..|]. rewrite lookup_insert_ne; [done|].
      intros Eb. apply Hne. eapply to_bytes_inj; [exact Hk|exact Hk0|exact Ek|congruence].
Qed.

Lemma holds_put_pairs m (items : list (KVQPair K V)) ps :
  Forall2 (fun kv p => valid_pair kv /\ to_bytes (kv_key kv) = Ok (kv_key p) /\ to_bytes (kv_value kv) = Ok (kv_value p)) items ps ->
  same_entries (holds (put_pairs m ps)) (put_all items (holds m)).
Proof.
  intros HF. revert m. induction HF as [|kv p items ps (Hkv & Ek & Ev) _ IH]; intros m; [done|].
  unfold put_pairs, put_all in *. cbn [foldl]. etrans; [apply IH|].
  apply put_all_proper. by apply holds_insert.
Qed.

#[export] Program Instance standard_laws : AdapterLaws S K V := {|
  ready s := available s /\ well_typed (K := K) (V := V) (contents s);
  entries s := holds (contents s);
|}.
Next Obligation.
  intros s [k v] [Ha Hm] [Hk Hv]. cbn in *. destruct (to_bytes_valid k Hk) as (kb & Ek & _).
  destruct (to_bytes_valid v Hv) as (vb & Ev & _). unfold KVQStandardAdapter.set. rewrite Ek, Ev. cbn [with_ok].
  destruct (set_law s kb vb Ha) as (Ha' & Ec & [] & Er & _). destruct (KvqStore.set s kb vb) as [s' r]. cbn in *. subst r.
  exists s'. split; [done|]. rewrite Ec. split; [split; [done|by eapply well_typed_insert]|].
  by apply (holds_insert (contents s) (KV k v) (KV kb vb)).
Qed.
Next Obligation.
  intros s items [Ha Hm] Hitems. destruct (pairs_to_bytes_valid items Hitems) as (ps & Eps & HF). cbn.
  unfold KVQStandardAdapter.set_many. rewrite Eps. cbn [with_ok].
  destruct (set_many_vec_law s ps Ha) as (Ha' & Ec & [] & Er & _). destruct (set_many_vec s ps) as [s' r]. cbn in *. subst r.
  exists s'. split; [done|]. rewrite Ec. split; [split; [done|by eapply well_typed_put_pairs]|].
  by apply holds_put_pairs.
Qed.
Next Obligation. intros s k [Ha Hm] Hk. by apply adapter_get_exact_if_exists. Qed.
End standard_laws.

Module AdapterTraitsWitness.
Import AdapterWitness.

Lemma adapter_helpers_agree_witness :
  exists s1 s2,
    AdapterHelpers.set_many_ref_clone_batch s0 items = (s1, Ok ()) /\
    AdapterHelpers.set_many_ref_serial s0 items = (s2, Ok ()) /\
    same_entries (entries s2) (entries (K := N) (V := bytes) s1).
Proof.
  destruct (adapter_helpers_agree s0 items) as (s1 & s2 & E1 & E2 & _ & _ & _ & H).
  - split; [done|exact s0_typed].
  - repeat constructor; done.
  - exists s1, s2. split; [exact E1|]. split; [exact E2|exact H].
Defined.
End AdapterTraitsWitness.
