(* ===== verification/JobId.v ===== *)
(** * Proving-job identifiers and the proof store's job groups

    [qed_dsol_bridge_core/src/job/id.rs], [job/mode.rs] and the provided
    methods of [job/proof_store.rs].  The discriminants of the [repr(u8)] enums
    are written out as the conversions [to_u8] and [try_from]. *)
From S2P Require Import Prelude KvqBase KvqStore.

(** ** The enums *)
Inductive QJobTopic :=
| GenerateStandardProof
| GenerateGroth16Proof
| BlockUserSignatureProof
| NotifyOrchestratorComplete
| AggregateJobs.
#[export] Instance topic_eq_dec : EqDecision QJobTopic.
Proof. solve_decision. Defined.

Definition topic_to_u8 (x : QJobTopic) : N :=
  match x with
  | GenerateStandardProof => 0
  | GenerateGroth16Proof => 1
  | BlockUserSignatureProof => 2
  | NotifyOrchestratorComplete => 3
  | AggregateJobs => 4
  end.
Definition topic_try_from (value : N) : outcome QJobTopic :=
  match value with
  | 0%N => Ok GenerateStandardProof
  | 1%N => Ok GenerateGroth16Proof
  | 2%N => Ok BlockUserSignatureProof
  | 3%N => Ok NotifyOrchestratorComplete
  | 4%N => Ok AggregateJobs
  | _ => Err (Anyhow "Invalid QJobTopic value: {}")
  end.

Inductive ProvingJobDataType :=
| InputWitness
| BaseInputProof
| OutputProof
| Counter.
#[export] Instance data_type_eq_dec : EqDecision ProvingJobDataType.
Proof. solve_decision. Defined.

Definition data_type_to_u8 (x : ProvingJobDataType) : N :=
  match x with
  | InputWitness => 0
  | BaseInputProof => 1
  | OutputProof => 8
  | Counter => 16
  end.
Definition data_type_try_from (value : N) : outcome ProvingJobDataType :=
  match value with
  | 0%N => Ok InputWitness
  | 1%N => Ok BaseInputProof
  | 8%N => Ok OutputProof
  | 16%N => Ok Counter
  | _ => Err (Anyhow "Invalid ProvingJobDataType value: {}")
  end.

Inductive ProvingJobCircuitType :=
| AppendUserRegistrationTree
| AppendUserRegistrationTreeAggregate
| AddL1Deposit
| AddL1DepositAggregate
| ClaimL1Deposit
| ClaimL1DepositAggregate
| UserEndCap
| GUTATwoEndCap
| GUTATwoGUTA
| GUTALeftEndCapRightGUTA
| GUTALeftGUTARightEndCap
| GUTASingleEndCap
| GUTARegisterUsers
| GUTAVerifyToCap
| GUTAOnlyRegisterUsers
| GUTANoChange
| AddL1Withdrawal
| AddL1WithdrawalAggregate
| BatchDeployContracts
| BatchDeployContractsAggregate
| ProcessL1Withdrawal
| ProcessL1WithdrawalAggregate
| GenerateRollupStateTransitionProof
| GenerateSigHashIntrospectionProof
| GenerateFinalSigHashProof
| GenerateFinalSigHashProofGroth16
| WrapFinalSigHashProofBLS12381
| AggUserRegisterDeployContractsGUTA
| AggAddProcessL1WithdrawalAddL1Deposit
| DummyAppendUserRegistrationTreeAggregate
| DummyAddL1DepositAggregate
| DummyClaimL1DepositAggregate
| DummyGUTA
| DummyAddL1WithdrawalAggregate
| DummyProcessL1WithdrawalAggregate
| DummyBatchDeployContractsAggregate
| WrappedSignatureProof
| Secp256K1SignatureProof
| NotifyRealmComplete
| TypeA
| TypeB
| TypeC
| TypeD
| TypeE
| Unknown.
#[export] Instance circuit_type_eq_dec : EqDecision ProvingJobCircuitType.
Proof. solve_decision. Defined.

Definition circuit_type_to_u8 (x : ProvingJobCircuitType) : N :=
  match x with
  | AppendUserRegistrationTree => 0
  | AppendUserRegistrationTreeAggregate => 1
  | AddL1Deposit => 2
  | AddL1DepositAggregate => 3
  | ClaimL1Deposit => 4
  | ClaimL1DepositAggregate => 5
  | UserEndCap => 6
  | GUTATwoEndCap => 7
  | GUTATwoGUTA => 8
  | GUTALeftEndCapRightGUTA => 9
  | GUTALeftGUTARightEndCap => 10
  | GUTASingleEndCap => 11
  | GUTARegisterUsers => 12
  | GUTAVerifyToCap => 13
  | GUTAOnlyRegisterUsers => 14
  | GUTANoChange => 15
  | AddL1Withdrawal => 16
  | AddL1WithdrawalAggregate => 17
  | BatchDeployContracts => 18
  | BatchDeployContractsAggregate => 19
  | ProcessL1Withdrawal => 20
  | ProcessL1WithdrawalAggregate => 21
  | GenerateRollupStateTransitionProof => 32
  | GenerateSigHashIntrospectionProof => 33
  | GenerateFinalSigHashProof => 34
  | GenerateFinalSigHashProofGroth16 => 35
  | WrapFinalSigHashProofBLS12381 => 36
  | AggUserRegisterDeployContractsGUTA => 40
  | AggAddProcessL1WithdrawalAddL1Deposit => 41
  | DummyAppendUserRegistrationTreeAggregate => 48
  | DummyAddL1DepositAggregate => 49
  | DummyClaimL1DepositAggregate => 50
  | DummyGUTA => 51
  | DummyAddL1WithdrawalAggregate => 52
  | DummyProcessL1WithdrawalAggregate => 53
  | DummyBatchDeployContractsAggregate => 54
  | WrappedSignatureProof => 64
  | Secp256K1SignatureProof => 65
  | NotifyRealmComplete => 192
  | TypeA => 224
  | TypeB => 225
  | TypeC => 226
  | TypeD => 227
  | TypeE => 228
  | Unknown => 255
  end.
Definition circuit_type_try_from (value : N) : outcome ProvingJobCircuitType :=
  match value with
  | 0%N => Ok AppendUserRegistrationTree
  | 1%N => Ok AppendUserRegistrationTreeAggregate
  | 2%N => Ok AddL1Deposit
  | 3%N => Ok AddL1DepositAggregate
  | 4%N => Ok ClaimL1Deposit
  | 5%N => Ok ClaimL1DepositAggregate
  | 6%N => Ok UserEndCap
  | 7%N => Ok GUTATwoEndCap
  | 8%N => Ok GUTATwoGUTA
  | 9%N => Ok GUTALeftEndCapRightGUTA
  | 10%N => Ok GUTALeftGUTARightEndCap
  | 11%N => Ok GUTASingleEndCap
  | 12%N => Ok GUTARegisterUsers
  | 13%N => Ok GUTAVerifyToCap
  | 14%N => Ok GUTAOnlyRegisterUsers
  | 15%N => Ok GUTANoChange
  | 16%N => Ok AddL1Withdrawal
  | 17%N => Ok AddL1WithdrawalAggregate
  | 18%N => Ok BatchDeployContracts
  | 19%N => Ok BatchDeployContractsAggregate
  | 20%N => Ok ProcessL1Withdrawal
  | 21%N => Ok ProcessL1WithdrawalAggregate
  | 32%N => Ok GenerateRollupStateTransitionProof
  | 33%N => Ok GenerateSigHashIntrospectionProof
  | 34%N => Ok GenerateFinalSigHashProof
  | 35%N => Ok GenerateFinalSigHashProofGroth16
  | 36%N => Ok WrapFinalSigHashProofBLS12381
  | 40%N => Ok AggUserRegisterDeployContractsGUTA
  | 41%N => Ok AggAddProcessL1WithdrawalAddL1Deposit
  | 48%N => Ok DummyAppendUserRegistrationTreeAggregate
  | 49%N => Ok DummyAddL1DepositAggregate
  | 50%N => Ok DummyClaimL1DepositAggregate
  | 51%N => Ok DummyGUTA
  | 52%N => Ok DummyAddL1WithdrawalAggregate
  | 53%N => Ok DummyProcessL1WithdrawalAggregate
  | 54%N => Ok DummyBatchDeployContractsAggregate
  | 64%N => Ok WrappedSignatureProof
  | 65%N => Ok Secp256K1SignatureProof
  | 192%N => Ok NotifyRealmComplete
  | 224%N => Ok TypeA
  | 225%N => Ok TypeB
  | 226%N => Ok TypeC
  | 227%N => Ok TypeD
  | 228%N => Ok TypeE
  | 255%N => Ok Unknown
  | _ => Err (Anyhow "Invalid ProvingJobCircuitType value: {}")
  end.

Definition to_circuit_group_id (c : ProvingJobCircuitType) : N := circuit_type_to_u8 c + 0xCF00.

Definition get_agg_leaf_circuit_type_or_err (c : ProvingJobCircuitType) : outcome ProvingJobCircuitType :=
  match c with
  | AppendUserRegistrationTree | AppendUserRegistrationTreeAggregate =>
      Ok AppendUserRegistrationTree
  | AddL1Deposit | AddL1DepositAggregate =>
      Ok AddL1Deposit
  | ClaimL1Deposit | ClaimL1DepositAggregate =>
      Ok ClaimL1Deposit
  | AddL1Withdrawal | AddL1WithdrawalAggregate =>
      Ok AddL1Withdrawal
  | BatchDeployContracts | BatchDeployContractsAggregate =>
      Ok BatchDeployContracts
  | ProcessL1Withdrawal | ProcessL1WithdrawalAggregate =>
      Ok ProcessL1Withdrawal
  | _ => Err (Anyhow "circuit type {:?} does not have a leaf type")
  end.
Definition get_agg_circuit_type_or_err (c : ProvingJobCircuitType) : outcome ProvingJobCircuitType :=
  match c with
  | AppendUserRegistrationTree | AppendUserRegistrationTreeAggregate =>
      Ok AppendUserRegistrationTreeAggregate
  | AddL1Deposit | AddL1DepositAggregate =>
      Ok AddL1DepositAggregate
  | ClaimL1Deposit | ClaimL1DepositAggregate =>
      Ok ClaimL1DepositAggregate
  | AddL1Withdrawal | AddL1WithdrawalAggregate =>
      Ok AddL1WithdrawalAggregate
  | BatchDeployContracts | BatchDeployContractsAggregate =>
      Ok BatchDeployContractsAggregate
  | ProcessL1Withdrawal | ProcessL1WithdrawalAggregate =>
      Ok ProcessL1WithdrawalAggregate
  | _ => Err (Anyhow "circuit type {:?} does not have a aggregated circuit type")
  end.
Definition get_agg_dummy_circuit_type_or_err (c : ProvingJobCircuitType) : outcome ProvingJobCircuitType :=
  match c with
  | AppendUserRegistrationTree | AppendUserRegistrationTreeAggregate | DummyAppendUserRegistrationTreeAggregate =>
      Ok DummyAppendUserRegistrationTreeAggregate
  | AddL1Deposit | AddL1DepositAggregate | DummyAddL1DepositAggregate =>
      Ok DummyAddL1DepositAggregate
  | ClaimL1Deposit | ClaimL1DepositAggregate | DummyClaimL1DepositAggregate =>
      Ok DummyClaimL1DepositAggregate
  | AddL1Withdrawal | AddL1WithdrawalAggregate | DummyAddL1WithdrawalAggregate =>
      Ok DummyAddL1WithdrawalAggregate
  | BatchDeployContracts | BatchDeployContractsAggregate | DummyBatchDeployContractsAggregate =>
      Ok DummyBatchDeployContractsAggregate
  | ProcessL1Withdrawal | ProcessL1WithdrawalAggregate | DummyProcessL1WithdrawalAggregate =>
      Ok DummyProcessL1WithdrawalAggregate
  | _ => Err (Anyhow "circuit type {:?} does not have a aggregated dummy circuit type")
  end.

(** The [match] of [get_tree_parent_proof_input_id]. *)
Definition tree_parent_type (c : ProvingJobCircuitType) : ProvingJobCircuitType :=
  match c with
  | AppendUserRegistrationTree | AppendUserRegistrationTreeAggregate | DummyAppendUserRegistrationTreeAggregate =>
      AppendUserRegistrationTreeAggregate
  | BatchDeployContracts | BatchDeployContractsAggregate =>
      BatchDeployContractsAggregate
  | AddL1Deposit | AddL1DepositAggregate | DummyAddL1DepositAggregate =>
      AddL1DepositAggregate
  | ClaimL1Deposit | ClaimL1DepositAggregate | DummyClaimL1DepositAggregate =>
      ClaimL1DepositAggregate
  | AddL1Withdrawal | AddL1WithdrawalAggregate | DummyAddL1WithdrawalAggregate =>
      AddL1WithdrawalAggregate
  | ProcessL1Withdrawal | ProcessL1WithdrawalAggregate | DummyProcessL1WithdrawalAggregate =>
      ProcessL1WithdrawalAggregate
  | _ => c
  end.

Inductive QWorkerMode := All | NoGroth16 | OnlyGroth16.
#[export] Instance worker_mode_eq_dec : EqDecision QWorkerMode.
Proof. solve_decision. Defined.
Definition mode_to_u32 (m : QWorkerMode) : N :=
  match m with All => 0 | NoGroth16 => 1 | OnlyGroth16 => 2 end.
Definition mode_try_from (value : N) : outcome QWorkerMode :=
  match value with
  | 0%N => Ok All
  | 1%N => Ok NoGroth16
  | 2%N => Ok OnlyGroth16
  | _ => Err (Anyhow "Invalid QWorkerMode value: {}")
  end.
Definition is_groth16_enabled (m : QWorkerMode) : bool :=
  match m with All => true | NoGroth16 => false | OnlyGroth16 => true end.
Definition mode_to_string (m : QWorkerMode) : string :=
  match m with All => "all" | NoGroth16 => "no-groth16" | OnlyGroth16 => "only-groth16" end.

(** ** Identifiers *)
Record QProvingJobDataID := JobID {
  topic : QJobTopic;
  goal_id : N;
  circuit_type : ProvingJobCircuitType;
  group_id : N;
  sub_group_id : N;
  task_index : N;
  data_type : ProvingJobDataType;
  data_index : N;
}.
#[export] Instance job_data_id_eq_dec : EqDecision QProvingJobDataID.
Proof. solve_decision. Defined.

(** The widths of the fields. *)
Definition id_wf (id : QProvingJobDataID) : Prop :=
  (id.(goal_id) <= u64_max /\ id.(group_id) <= u32_max /\ id.(sub_group_id) <= u32_max /\
   id.(task_index) <= u32_max /\ id.(data_index) <= u8_max)%N.

(** [[u8; 24]::from(&id)]: a zeroed buffer filled at fixed offsets. *)
Definition to_fixed_bytes (value : QProvingJobDataID) : bytes :=
  let result := replicate 24 x00 in
  let result := <[0 := byte_of_N (topic_to_u8 value.(topic))]> result in
  let result := splice result 1 9 (le_bytes 8 value.(goal_id)) in
  let result := <[9 := byte_of_N (circuit_type_to_u8 value.(circuit_type))]> result in
  let result := splice result 10 14 (le_bytes 4 value.(group_id)) in
  let result := splice result 14 18 (le_bytes 4 value.(sub_group_id)) in
  let result := splice result 18 22 (le_bytes 4 value.(task_index)) in
  let result := <[22 := byte_of_N (data_type_to_u8 value.(data_type))]> result in
  let result := <[23 := byte_of_N value.(data_index)]> result in
  result.

(** [value[i]] as a number. *)
Definition byte_at (value : bytes) (i : nat) : N := Byte.to_N (nth i value x00).

(** [TryFrom<[u8; 24]>] *)
Definition try_from_fixed (value : bytes) : outcome QProvingJobDataID :=
  topic ← topic_try_from (byte_at value 0);
  let goal_id := le_value (slice value 1 9) in
  circuit_type ← circuit_type_try_from (byte_at value 9);
  let group_id := le_value (slice value 10 14) in
  let sub_group_id := le_value (slice value 14 18) in
  let task_index := le_value (slice value 18 22) in
  data_type ← data_type_try_from (byte_at value 22);
  let data_index := byte_at value 23 in
  Ok (JobID topic goal_id circuit_type group_id sub_group_id task_index data_type data_index).

Definition try_from_byte_vec (value : bytes) : outcome QProvingJobDataID :=
  bail_when (negb (length value =? 24)%nat) "invalid byte length for proving job data id";;
  try_from_fixed value.

(** [result[lo..hi].copy_from_slice(src)]: panics unless the lengths agree. *)
Definition copy_from_slice (result : bytes) (lo hi : nat) (src : bytes) : outcome bytes :=
  if decide (length src = hi - lo) then Ok (splice result lo hi src)
  else Panic "copy_from_slice: source slice length does not match destination slice length".

Definition with_ps_prefix (id : QProvingJobDataID) (prefix : bytes) : outcome bytes :=
  let result := replicate 28 x00 in
  result ← copy_from_slice result 0 3 prefix;
  let result := <[4 := byte_of_N (topic_to_u8 id.(topic))]> result in
  result ← copy_from_slice result 5 13 (le_bytes 8 id.(goal_id));
  let result := <[13 := byte_of_N (circuit_type_to_u8 id.(circuit_type))]> result in
  result ← copy_from_slice result 14 18 (le_bytes 4 id.(group_id));
  result ← copy_from_slice result 18 22 (le_bytes 4 id.(sub_group_id));
  result ← copy_from_slice result 22 26 (le_bytes 4 id.(task_index));
  let result := <[26 := byte_of_N (data_type_to_u8 id.(data_type))]> result in
  let result := <[27 := byte_of_N id.(data_index)]> result in
  Ok result.

(** The constructors. *)
Module NewJobID.
Definition new (topic : QJobTopic) (goal_id group_id sub_group_id task_index : N)
    (circuit_type : ProvingJobCircuitType) (data_type : ProvingJobDataType) (data_index : N) : QProvingJobDataID :=
  JobID topic goal_id circuit_type group_id sub_group_id task_index data_type data_index.
Definition new_notify_realm_complete_witness (checkpoint_id : N) (realm_id : N) : QProvingJobDataID :=
  JobID GenerateStandardProof checkpoint_id NotifyRealmComplete (to_circuit_group_id NotifyRealmComplete)
    realm_id 0 InputWitness 0.
Definition guta_two_end_cap_witness (checkpoint_id : N) (sub_group_id : N) (task_index : N) : QProvingJobDataID :=
  JobID GenerateStandardProof checkpoint_id GUTATwoEndCap (to_circuit_group_id GUTATwoEndCap) sub_group_id
    task_index InputWitness 0.
Definition guta_two_agg_witness (checkpoint_id : N) (sub_group_id : N) (task_index : N) : QProvingJobDataID :=
  JobID GenerateStandardProof checkpoint_id GUTATwoGUTA (to_circuit_group_id GUTATwoGUTA) sub_group_id
    task_index InputWitness 0.
Definition guta_left_end_cap_right_guta_witness (checkpoint_id : N) (sub_group_id : N) (task_index : N) : QProvingJobDataID :=
  JobID GenerateStandardProof checkpoint_id GUTALeftEndCapRightGUTA (to_circuit_group_id
    GUTALeftEndCapRightGUTA) sub_group_id task_index InputWitness 0.
Definition guta_left_guta_right_end_cap_witness (checkpoint_id : N) (sub_group_id : N) (task_index : N) : QProvingJobDataID :=
  JobID GenerateStandardProof checkpoint_id GUTALeftGUTARightEndCap (to_circuit_group_id
    GUTALeftGUTARightEndCap) sub_group_id task_index InputWitness 0.
Definition guta_single_end_cap_witness (checkpoint_id : N) (sub_group_id : N) (task_index : N) : QProvingJobDataID :=
  JobID GenerateStandardProof checkpoint_id GUTASingleEndCap (to_circuit_group_id GUTASingleEndCap)
    sub_group_id task_index InputWitness 0.
Definition core_op_witness (circuit_type : ProvingJobCircuitType) (checkpoint_id : N) (task_index : N) : QProvingJobDataID :=
  JobID GenerateStandardProof checkpoint_id circuit_type (to_circuit_group_id circuit_type) 0 task_index
    InputWitness 0.
Definition transfer_signature_proof (rpc_node_id : N) (block_id : N) (transfer_id : N) : QProvingJobDataID :=
  JobID BlockUserSignatureProof block_id WrappedSignatureProof 1 rpc_node_id transfer_id BaseInputProof 0.
Definition end_cap_proof (rpc_node_id : N) (checkpoint_id : N) (user_id : N) : QProvingJobDataID :=
  JobID BlockUserSignatureProof checkpoint_id UserEndCap 1 rpc_node_id user_id BaseInputProof 0.
Definition withdrawal_signature_proof (rpc_node_id : N) (block_id : N) (withdrawal_id : N) : QProvingJobDataID :=
  JobID BlockUserSignatureProof block_id WrappedSignatureProof 2 rpc_node_id withdrawal_id BaseInputProof 0.
Definition claim_deposit_l1_signature_proof (rpc_node_id : N) (block_id : N) (deposit_id : N) : QProvingJobDataID :=
  JobID BlockUserSignatureProof block_id Secp256K1SignatureProof 3 rpc_node_id deposit_id BaseInputProof 0.
Definition new_proof_job_id (goal_id : N) (circuit_type : ProvingJobCircuitType) (group_id : N) (sub_group_id : N) (task_index : N) : QProvingJobDataID :=
  JobID GenerateStandardProof goal_id circuit_type group_id sub_group_id task_index InputWitness 0.
Definition new_groth16_proof_job_id (goal_id : N) (circuit_type : ProvingJobCircuitType) (group_id : N) (sub_group_id : N) (task_index : N) : QProvingJobDataID :=
  JobID GenerateGroth16Proof goal_id circuit_type group_id sub_group_id task_index InputWitness 0.
Definition get_block_aggregate_jobs_group (block_id : N) (group_id : N) (task_index : N) : QProvingJobDataID :=
  JobID AggregateJobs block_id Unknown group_id 0 task_index InputWitness 0.
Definition notify_block_complete (block_id : N) : QProvingJobDataID :=
  JobID NotifyOrchestratorComplete block_id Unknown 0 0 0 InputWitness 0.
Definition block_agg_state_part_1_input_witness (block_id : N) : QProvingJobDataID :=
  JobID GenerateStandardProof block_id AggUserRegisterDeployContractsGUTA (to_circuit_group_id
    AggUserRegisterDeployContractsGUTA) 0 0 InputWitness 0.
Definition block_agg_state_part_2_input_witness (block_id : N) : QProvingJobDataID :=
  JobID GenerateStandardProof block_id AggAddProcessL1WithdrawalAddL1Deposit (to_circuit_group_id
    AggAddProcessL1WithdrawalAddL1Deposit) 0 0 InputWitness 0.
Definition block_state_transition_input_witness (block_id : N) : QProvingJobDataID :=
  JobID GenerateStandardProof block_id GenerateRollupStateTransitionProof (to_circuit_group_id
    GenerateRollupStateTransitionProof) 0 0 InputWitness 0.
Definition sighash_introspection_input_witness (block_id : N) (input_id : nat) : QProvingJobDataID :=
  JobID GenerateStandardProof block_id GenerateSigHashIntrospectionProof (to_circuit_group_id
    GenerateSigHashIntrospectionProof) 0 (as_u32 (N.of_nat input_id)) InputWitness 0.
Definition sighash_final_input_witness (block_id : N) (input_id : nat) : QProvingJobDataID :=
  JobID GenerateStandardProof block_id GenerateFinalSigHashProof (to_circuit_group_id
    GenerateFinalSigHashProof) (as_u32 (N.of_nat input_id)) (as_u32 (N.of_nat input_id)) InputWitness 0.
Definition wrap_sighash_final_bls3812_input_witness (block_id : N) (input_id : nat) : QProvingJobDataID :=
  JobID GenerateStandardProof block_id WrapFinalSigHashProofBLS12381 (to_circuit_group_id
    WrapFinalSigHashProofBLS12381) (as_u32 (N.of_nat input_id)) (as_u32 (N.of_nat input_id)) InputWitness 0.
End NewJobID.

(** The identifiers derived from one. *)
Definition get_input_proof_id (id : QProvingJobDataID) (data_index : N) : QProvingJobDataID :=
  JobID id.(topic) id.(goal_id) id.(circuit_type) id.(group_id) id.(sub_group_id) id.(task_index)
    BaseInputProof data_index.
Definition is_notify_orchestrator_complete (id : QProvingJobDataID) : bool :=
  bool_decide (id.(topic) = NotifyOrchestratorComplete).
(** [sub_group_id + 1] is an unchecked [u32] addition, [>> 1] a shift. *)
Definition get_tree_parent_proof_input_id (id : QProvingJobDataID) : QProvingJobDataID :=
  let parent_type := tree_parent_type id.(circuit_type) in
  JobID id.(topic) id.(goal_id) parent_type id.(group_id) (wrapping_add u32_max id.(sub_group_id) 1)
    (N.shiftr id.(task_index) 1) InputWitness 0.
Definition get_output_id (id : QProvingJobDataID) : QProvingJobDataID :=
  JobID id.(topic) id.(goal_id) id.(circuit_type) id.(group_id) id.(sub_group_id) id.(task_index) OutputProof 0.
Definition get_input_witness_id (id : QProvingJobDataID) : QProvingJobDataID :=
  JobID id.(topic) id.(goal_id) id.(circuit_type) id.(group_id) id.(sub_group_id) id.(task_index) InputWitness 0.
Definition get_sub_group_counter_id (id : QProvingJobDataID) : QProvingJobDataID :=
  JobID id.(topic) id.(goal_id) id.(circuit_type) id.(group_id) id.(sub_group_id) 0 Counter 0.
Definition get_sub_group_counter_goal_id (id : QProvingJobDataID) : QProvingJobDataID :=
  JobID id.(topic) id.(goal_id) id.(circuit_type) id.(group_id) id.(sub_group_id) 0 Counter 1.
Definition get_sub_group_counter_goal_next_jobs_id (id : QProvingJobDataID) : QProvingJobDataID :=
  JobID id.(topic) id.(goal_id) id.(circuit_type) id.(group_id) id.(sub_group_id) 0 Counter 2.
Definition with_task_index (id : QProvingJobDataID) (task_index : N) : QProvingJobDataID :=
  JobID id.(topic) id.(goal_id) id.(circuit_type) id.(group_id) id.(sub_group_id) task_index
    id.(data_type) id.(data_index).

(** [QWorkerModeFilter for QWorkerMode] *)
Definition can_process_job (mode : QWorkerMode) (job_id : QProvingJobDataID) : bool :=
  match mode with
  | All => true
  | NoGroth16 => negb (bool_decide (job_id.(circuit_type) = WrapFinalSigHashProofBLS12381))
  | OnlyGroth16 => bool_decide (job_id.(circuit_type) = WrapFinalSigHashProofBLS12381)
  end.

Class QWorkerModeFilter (M : Type) := { filter_can_process_job : M -> QProvingJobDataID -> bool }.
#[export] Instance worker_mode_filter : QWorkerModeFilter QWorkerMode := {| filter_can_process_job := can_process_job |}.

(** The [From] conversions are the same casts. *)
Definition u8_from_data_type (value : ProvingJobDataType) : N := data_type_to_u8 value.
Definition u8_from_circuit_type (value : ProvingJobCircuitType) : N := circuit_type_to_u8 value.
Definition u32_from_mode (value : QWorkerMode) : N := mode_to_u32 value.

(** How long a job took; its identifier is in bytes. *)
Record QWorkerJobBenchmark := JobBenchmark { bench_job_id : bytes; bench_duration : N }.

(** [KVQSerializable for QProvingJobDataID] *)
#[export] Instance job_id_serializable : KVQSerializable QProvingJobDataID :=
  {| to_bytes id := Ok (to_fixed_bytes id); from_bytes := try_from_byte_vec |}.

(** ** The codec *)
Lemma topic_roundtrip t : topic_try_from (topic_to_u8 t) = Ok t.
Proof. by destruct t. Qed.
Lemma data_type_roundtrip t : data_type_try_from (data_type_to_u8 t) = Ok t.
Proof. by destruct t. Qed.
Lemma circuit_type_roundtrip t : circuit_type_try_from (circuit_type_to_u8 t) = Ok t.
Proof. by destruct t. Qed.
Lemma mode_roundtrip m : mode_try_from (mode_to_u32 m) = Ok m.
Proof. by destruct m. Qed.
Lemma topic_u8 t : (topic_to_u8 t < 256)%N.
Proof. by destruct t. Qed.
Lemma data_type_u8 t : (data_type_to_u8 t < 256)%N.
Proof. by destruct t. Qed.
Lemma circuit_type_u8 t : (circuit_type_to_u8 t < 256)%N.
Proof. by destruct t. Qed.

(** A byte that converts is the discriminant of its variant. *)
Lemma topic_try_from_inv v t : topic_try_from v = Ok t -> topic_to_u8 t = v.
Proof. unfold topic_try_from. repeat case_match; intros E; simplify_eq; done. Qed.
Lemma data_type_try_from_inv v t : data_type_try_from v = Ok t -> data_type_to_u8 t = v.
Proof. unfold data_type_try_from. repeat case_match; intros E; simplify_eq; done. Qed.
Lemma circuit_type_try_from_inv v t : circuit_type_try_from v = Ok t -> circuit_type_to_u8 t = v.
Proof. unfold circuit_type_try_from. repeat case_match; intros E; simplify_eq; done. Qed.

Lemma topic_try_from_returns v : returns (topic_try_from v) = true.
Proof. unfold topic_try_from. by repeat case_match. Qed.
Lemma data_type_try_from_returns v : returns (data_type_try_from v) = true.
Proof. unfold data_type_try_from. by repeat case_match. Qed.
Lemma circuit_type_try_from_returns v : returns (circuit_type_try_from v) = true.
Proof. unfold circuit_type_try_from. by repeat case_match. Qed.
#[local] Hint Resolve topic_try_from_returns data_type_try_from_returns circuit_type_try_from_returns : returns.

(** The buffer as the concatenation of its fields. *)
Lemma to_fixed_bytes_layout id :
  to_fixed_bytes id =
    [byte_of_N (topic_to_u8 id.(topic))] ++ le_bytes 8 id.(goal_id) ++
    [byte_of_N (circuit_type_to_u8 id.(circuit_type))] ++ le_bytes 4 id.(group_id) ++
    le_bytes 4 id.(sub_group_id) ++ le_bytes 4 id.(task_index) ++
    [byte_of_N (data_type_to_u8 id.(data_type)); byte_of_N id.(data_index)].
Proof. reflexivity. Qed.

Lemma to_fixed_bytes_length id : length (to_fixed_bytes id) = 24.
Proof. by rewrite to_fixed_bytes_layout. Qed.

Lemma try_from_fixed_fields t g c gr sg ti d di :
  (g <= u64_max)%N -> (gr <= u32_max)%N -> (sg <= u32_max)%N -> (ti <= u32_max)%N -> (di <= u8_max)%N ->
  try_from_fixed (to_fixed_bytes (JobID t g c gr sg ti d di)) = Ok (JobID t g c gr sg ti d di).
Proof.
  intros Hg Hgr Hsg Hti Hdi. unfold try_from_fixed.
  set (bs := to_fixed_bytes _).
  change (byte_at bs 0) with (Byte.to_N (byte_of_N (topic_to_u8 t))).
  change (byte_at bs 9) with (Byte.to_N (byte_of_N (circuit_type_to_u8 c))).
  change (byte_at bs 22) with (Byte.to_N (byte_of_N (data_type_to_u8 d))).
  change (byte_at bs 23) with (Byte.to_N (byte_of_N di)).
  rewrite !byte_to_of_N, !N.mod_small
    by (apply topic_u8 || apply circuit_type_u8 || apply data_type_u8 || (unfold u8_max in *; lia)).
  assert (slice bs 1 9 = le_bytes 8 g) as -> by done.
  assert (slice bs 10 14 = le_bytes 4 gr) as -> by done.
  assert (slice bs 14 18 = le_bytes 4 sg) as -> by done.
  assert (slice bs 18 22 = le_bytes 4 ti) as -> by done.
  rewrite !le_value_bytes by (unfold u64_max, u32_max in *; cbn; lia).
  by rewrite topic_roundtrip, circuit_type_roundtrip, data_type_roundtrip.
Qed.

(** Every 24 bytes that decode are the encoding of what they decode to. *)
Lemma list_24 (bs : bytes) :
  length bs = 24 ->
  bs = [nth 0 bs x00] ++ slice bs 1 9 ++ [nth 9 bs x00] ++ slice bs 10 14 ++ slice bs 14 18 ++
    slice bs 18 22 ++ [nth 22 bs x00; nth 23 bs x00].
Proof. intros H. do 24 (destruct bs as [|? bs]; [done|]). by destruct bs. Qed.

Lemma to_fixed_of_try_from bs id :
  length bs = 24 -> try_from_fixed bs = Ok id -> to_fixed_bytes id = bs /\ id_wf id.
Proof.
  intros Hl. unfold try_from_fixed. intros H. inv_ok.
  repeat match goal with
  | H : topic_try_from _ = Ok _ |- _ => apply topic_try_from_inv in H
  | H : circuit_type_try_from _ = Ok _ |- _ => apply circuit_type_try_from_inv in H
  | H : data_type_try_from _ = Ok _ |- _ => apply data_type_try_from_inv in H
  end.
  split.
  - rewrite to_fixed_bytes_layout. cbn [topic goal_id circuit_type group_id sub_group_id task_index data_type data_index].
    rewrite Hok, Hok0, Hok1. unfold byte_at. rewrite !byte_of_to_N.
    assert (forall lo hi, hi <= 24 -> le_bytes (hi - lo) (le_value (slice bs lo hi)) = slice bs lo hi) as Hs.
    { intros lo hi ?. rewrite <- (slice_length bs lo hi) by lia. apply le_bytes_value. }
    change 8 with (9 - 1) at 1. rewrite (Hs 1 9) by lia.
    change (le_bytes 4 (le_value (slice bs 10 14))) with (le_bytes (14 - 10) (le_value (slice bs 10 14))).
    change (le_bytes 4 (le_value (slice bs 14 18))) with (le_bytes (18 - 14) (le_value (slice bs 14 18))).
    change (le_bytes 4 (le_value (slice bs 18 22))) with (le_bytes (22 - 18) (le_value (slice bs 18 22))).
    rewrite !Hs by lia. symmetry. by apply list_24.
  - pose proof (byte_to_N_lt (nth 23 bs x00)).
    assert (forall lo hi : nat, (hi <= 24)%nat -> le_value (slice bs lo hi) < 256 ^ N.of_nat (hi - lo)%nat)%N as Hb.
    { intros lo hi ?. rewrite <- (slice_length bs lo hi) by lia. apply le_value_bound. }
    pose proof (Hb 1 9 ltac:(lia)) as H1. pose proof (Hb 10 14 ltac:(lia)) as H2.
    pose proof (Hb 14 18 ltac:(lia)) as H3. pose proof (Hb 18 22 ltac:(lia)) as H4.
    change (256 ^ N.of_nat (9 - 1))%N with 18446744073709551616%N in H1.
    change (256 ^ N.of_nat (_ - _))%N with 4294967296%N in H2, H3, H4.
    unfold id_wf, byte_at, u64_max, u32_max, u8_max.
    cbn [topic goal_id circuit_type group_id sub_group_id task_index data_type data_index].
    split_and!; lia.
Qed.

Lemma from_to_fixed_bytes id : id_wf id -> try_from_byte_vec (to_fixed_bytes id) = Ok id.
Proof.
  intros Hwf. unfold try_from_byte_vec.
  rewrite to_fixed_bytes_length. cbn -[try_from_fixed to_fixed_bytes].
  destruct id as [t g c gr sg ti d di]. destruct Hwf as (? & ? & ? & ? & ?). by apply try_from_fixed_fields.
Qed.

(** C40: The 24-byte codec of job identifiers.  An identifier whose fields are in
    the range of their integer types is recovered from its 24 bytes; bytes that
    decode are the encoding of what they decode to, whose fields are in range;
    and decoding never panics, whatever the bytes. *)
Theorem job_id_codec :
  (forall id, id_wf id -> length (to_fixed_bytes id) = 24 /\ try_from_byte_vec (to_fixed_bytes id) = Ok id) /\
  (forall bs id, try_from_byte_vec bs = Ok id -> to_fixed_bytes id = bs /\ id_wf id) /\
  (forall bs, returns (try_from_byte_vec bs) = true).
Proof.
  split_and!.
  - intros id Hwf. split; [apply to_fixed_bytes_length|by apply from_to_fixed_bytes].
  - intros bs id H. unfold try_from_byte_vec in H. inv_ok. bool_hyps. by apply to_fixed_of_try_from.
  - intros bs. unfold try_from_byte_vec, try_from_fixed. solve_returns.
Qed.

#[export] Program Instance job_id_laws : SerializableLaws QProvingJobDataID := {| valid := id_wf |}.
Next Obligation.
  intros id Hwf. exists (to_fixed_bytes id). split; [done|]. by apply from_to_fixed_bytes.
Qed.

(** [with_ps_prefix] copies a four-byte prefix into three bytes: it always panics. *)
Lemma with_ps_prefix_panics id prefix :
  length prefix = 4 ->
  with_ps_prefix id prefix = Panic "copy_from_slice: source slice length does not match destination slice length".
Proof. intros H. unfold with_ps_prefix, copy_from_slice. rewrite decide_False; [done|]. by rewrite H. Qed.

(** ** Aggregation trees

    A task's parent sits one sub-group up at half its index, so the two tasks
    of a pair have one parent, and a task of a tree with [2 ^ k] tasks reaches
    the root in [k] steps. *)
Lemma tree_parent_pair (id id' : QProvingJobDataID) :
  id = with_task_index id' (id.(task_index)) ->
  (id.(task_index) / 2 = id'.(task_index) / 2)%N ->
  get_tree_parent_proof_input_id id = get_tree_parent_proof_input_id id'.
Proof.
  intros E Ht. rewrite E. destruct id'. unfold get_tree_parent_proof_input_id. cbn in *.
  f_equal. rewrite !N.shiftr_div_pow2. done.
Qed.

Lemma tree_parent_wf id : id_wf id -> id_wf (get_tree_parent_proof_input_id id).
Proof.
  intros (? & ? & ? & ? & ?). unfold id_wf. cbn. rewrite N.shiftr_div_pow2.
  split_and!; [done..| | |done].
  - unfold wrapping_add. pose proof (N.mod_lt (sub_group_id id + 1) (u32_max + 1)). unfold u32_max in *. lia.
  - change (2 ^ 1)%N with 2%N. unfold u32_max in *. pose proof (N.Div0.div_le_mono (task_index id) 4294967295 2). div_lia.
Qed.

Lemma tree_parent_iter id (k : nat) :
  (id.(sub_group_id) + N.of_nat k <= u32_max)%N ->
  let root := Nat.iter k get_tree_parent_proof_input_id id in
  sub_group_id root = (id.(sub_group_id) + N.of_nat k)%N /\
  task_index root = (id.(task_index) / 2 ^ N.of_nat k)%N /\
  topic root = id.(topic) /\ goal_id root = id.(goal_id) /\ group_id root = id.(group_id).
Proof.
  induction k as [|k IH]; intros Hk.
  - cbn. rewrite N.div_1_r, N.add_0_r. done.
  - destruct IH as (Hs & Ht & ? & ? & ?); [lia|]. rewrite Nat.iter_succ. cbn [topic goal_id group_id sub_group_id task_index get_tree_parent_proof_input_id].
    split_and!; [| |done..].
    + rewrite Hs. unfold wrapping_add. rewrite N.mod_small by lia. lia.
    + rewrite Ht, N.shiftr_div_pow2, N.Div0.div_div, Nat2N.inj_succ, N.pow_succ_r'.
      f_equal. change (2 ^ 1)%N with 2%N. lia.
Qed.

(** The aggregate of a leaf or aggregate circuit is its parent type. *)
Lemma agg_is_parent c a : get_agg_circuit_type_or_err c = Ok a -> tree_parent_type c = a /\ tree_parent_type a = a.
Proof. destruct c; intros [= <-]; done. Qed.

(** So is the parent of the dummy of each family, except that the dummy of
    [BatchDeployContracts] has no case and stays a dummy. *)
Lemma dummy_parent c a d :
  get_agg_circuit_type_or_err c = Ok a -> get_agg_dummy_circuit_type_or_err c = Ok d ->
  tree_parent_type d = if decide (d = DummyBatchDeployContractsAggregate) then d else a.
Proof. destruct c; intros [= <-] [= <-]; done. Qed.

Lemma leaf_of_agg c a : get_agg_circuit_type_or_err c = Ok a ->
  exists l, get_agg_leaf_circuit_type_or_err c = Ok l /\ get_agg_leaf_circuit_type_or_err a = Ok l.
Proof. destruct c; intros [= <-]; by eexists. Qed.

(** A job goes to exactly one of the two specialised modes. *)
Lemma can_process_partition job : can_process_job OnlyGroth16 job = negb (can_process_job NoGroth16 job).
Proof. cbn. by rewrite negb_involutive. Qed.
