(* ===== verification/ProofStore.v ===== *)
(** * The proof store's job groups

    The provided methods of [qed_dsol_bridge_core/src/job/proof_store.rs].  The
    store itself is a trait without an implementation in the repository: its
    required methods are the class [ProofStore], what the provided methods
    rely on are its laws.  [bincode] is a parameter. *)
From S2P Require Import Prelude KvqBase KvqStore KvqAdapter JobId.
From S2P Require Import Codec.

Class Bincode := {
  serialize : list QProvingJobDataID -> outcome bytes;
  deserialize : bytes -> outcome (list QProvingJobDataID);
}.
(** Serialised job lists are read back. *)
Class BincodeLaws `{!Bincode} : Prop := {
  serialize_ok l : exists b, serialize l = Ok b /\ deserialize b = Ok l;
}.

Class ProofStore (S : Type) := {
  get_bytes_by_id : S -> QProvingJobDataID -> outcome bytes;
  set_bytes_by_id : S -> QProvingJobDataID -> bytes -> S * outcome ();
}.

(** A write succeeds, is read back, and touches no other identifier. *)
Class ProofStoreLaws (S : Type) `{!ProofStore S} : Prop := {
  set_bytes_ok (s : S) id data : exists s', set_bytes_by_id s id data = (s', Ok ()) /\
    get_bytes_by_id s' id = Ok data /\
    forall id', id' <> id -> get_bytes_by_id s' id' = get_bytes_by_id s id';
}.

(** [f(self)?; k(self)] *)
Definition and_then {S A B} (r : S * outcome A) (k : S -> A -> S * outcome B) : S * outcome B :=
  with_ok r.1 r.2 (k r.1).

Section proof_store.
Context {S : Type} `{!ProofStore S, !Bincode}.

(** ** Reading a group *)
Definition get_goal_by_job_id (s : S) (id : QProvingJobDataID) : outcome N :=
  let counter_id := get_sub_group_counter_id id in
  let goal_id := get_sub_group_counter_goal_id counter_id in
  goal ← get_bytes_by_id s goal_id;
  if decide (length goal = 4) then Ok (le_value goal)
  else Panic "called `Result::unwrap()` on an `Err` value".

Definition get_next_jobs_by_job_id (s : S) (id : QProvingJobDataID) : outcome (list QProvingJobDataID) :=
  let counter_id := get_sub_group_counter_id id in
  let next_jobs_id := get_sub_group_counter_goal_next_jobs_id counter_id in
  next_jobs ← get_bytes_by_id s next_jobs_id;
  deserialize next_jobs.

(** ** Writing groups *)
(** [jobs[0]] *)
Definition first_job (jobs : list QProvingJobDataID) : outcome QProvingJobDataID :=
  expect (head jobs) "index out of bounds".

Definition write_next_jobs_core (s : S) (jobs next_jobs : list QProvingJobDataID) : S * outcome () :=
  with_ok s (first_job jobs) (fun job =>
  let counter_id := get_sub_group_counter_id job in
  let goal_id := get_sub_group_counter_goal_id counter_id in
  let next_jobs_id := get_sub_group_counter_goal_next_jobs_id counter_id in
  and_then (set_bytes_by_id s counter_id (le_bytes 4 0)) (fun s _ =>
  and_then (set_bytes_by_id s goal_id (le_bytes 4 (as_u32 (N.of_nat (length jobs))))) (fun s _ =>
  with_ok s (serialize next_jobs) (fun next =>
  and_then (set_bytes_by_id s next_jobs_id next) (fun s _ =>
  (s, Ok ())))))).

(** The [for i in 0..job_levels_count] loop, on the levels from [i] on: the
    jobs after level [i] are level [i + 1], or [next_jobs] after the last. *)
Fixpoint write_multidimensional_jobs_core (s : S) (jobs_levels : list (list QProvingJobDataID))
    (next_jobs : list QProvingJobDataID) : S * outcome () :=
  match jobs_levels with
  | [] => (s, Ok ())
  | jobs :: rest =>
      with_ok s (first_job jobs) (fun job =>
      let counter_id := get_sub_group_counter_id job in
      let goal_id := get_sub_group_counter_goal_id counter_id in
      let next_jobs_id := get_sub_group_counter_goal_next_jobs_id counter_id in
      and_then (set_bytes_by_id s counter_id (le_bytes 4 0)) (fun s _ =>
      and_then (set_bytes_by_id s goal_id (le_bytes 4 (as_u32 (N.of_nat (length jobs))))) (fun s _ =>
      with_ok s (serialize (match rest with [] => next_jobs | level :: _ => level end)) (fun next =>
      and_then (set_bytes_by_id s next_jobs_id next) (fun s _ =>
      write_multidimensional_jobs_core s rest next_jobs)))))
  end.

(** ** Groups

    The three identifiers of a group depend only on the group's key. *)
Definition group_key (id : QProvingJobDataID) := (topic id, goal_id id, circuit_type id, group_id id, sub_group_id id).
Definition group_ids (id : QProvingJobDataID) : list QProvingJobDataID :=
  [get_sub_group_counter_id id; get_sub_group_counter_goal_id id; get_sub_group_counter_goal_next_jobs_id id].

Lemma group_ids_key id id' : group_key id = group_key id' -> group_ids id = group_ids id'.
Proof.
  unfold group_key, group_ids, get_sub_group_counter_id, get_sub_group_counter_goal_id,
    get_sub_group_counter_goal_next_jobs_id. intros [= -> -> -> -> ->]. done.
Qed.

Lemma group_ids_disjoint id id' x : x ∈ group_ids id -> x ∈ group_ids id' -> group_key id = group_key id'.
Proof.
  assert (forall y, x ∈ group_ids y -> group_key x = group_key y) as Hkey.
  { intros y. unfold group_ids. rewrite !elem_of_cons, elem_of_nil. by intros [->|[->|[->|[]]]]. }
  intros <-%Hkey Hx%Hkey. done.
Qed.

(** What a store holds for the group of [id]: a zero counter, the number of
    jobs and the jobs that follow. *)
Definition group_written (s : S) (id : QProvingJobDataID) (jobs next : list QProvingJobDataID) : Prop :=
  get_bytes_by_id s (get_sub_group_counter_id id) = Ok (le_bytes 4 0) /\
  get_goal_by_job_id s id = Ok (as_u32 (N.of_nat (length jobs))) /\
  get_next_jobs_by_job_id s id = Ok next.

(** [s'] agrees with [s] outside the groups of [ids]. *)
Definition same_outside (s s' : S) (ids : list QProvingJobDataID) : Prop :=
  forall x, (forall id, id ∈ ids -> x ∉ group_ids id) -> get_bytes_by_id s' x = get_bytes_by_id s x.

Lemma group_written_key s id id' jobs next :
  group_key id = group_key id' -> group_written s id jobs next -> group_written s id' jobs next.
Proof.
  intros E. pose proof (group_ids_key _ _ E) as [= E1 E2 E3].
  unfold group_written, get_goal_by_job_id, get_next_jobs_by_job_id.
  assert (forall i, get_sub_group_counter_goal_id (get_sub_group_counter_id i) = get_sub_group_counter_goal_id i) as Hg by done.
  assert (forall i, get_sub_group_counter_goal_next_jobs_id (get_sub_group_counter_id i) = get_sub_group_counter_goal_next_jobs_id i) as Hn by done.
  rewrite !Hg, !Hn.
  cbv [get_sub_group_counter_id get_sub_group_counter_goal_id get_sub_group_counter_goal_next_jobs_id] in *.
  by injection E as -> -> -> -> ->.
Qed.

Lemma group_written_frame s s' id jobs next ids :
  group_written s id jobs next -> same_outside s s' ids ->
  (forall id', id' ∈ ids -> group_key id' <> group_key id) -> group_written s' id jobs next.
Proof.
  intros (Hc & Hg & Hn) Hs Hk.
  assert (forall x, x ∈ group_ids id -> get_bytes_by_id s' x = get_bytes_by_id s x) as Hsame.
  { intros x Hx. apply Hs. intros id' Hid' Hx'. destruct (Hk id' Hid'). by eapply group_ids_disjoint. }
  unfold group_written, get_goal_by_job_id, get_next_jobs_by_job_id in *.
  rewrite !Hsame by (unfold group_ids; rewrite !elem_of_cons; eauto). done.
Qed.

Context `{!ProofStoreLaws S, !BincodeLaws}.

(** One group: the body of [write_next_jobs_core] and of each round of the loop. *)
Lemma write_next_jobs_ok (s : S) job jobs next :
  exists s', write_next_jobs_core s (job :: jobs) next = (s', Ok ()) /\
    group_written s' job (job :: jobs) next /\ same_outside s s' [job].
Proof.
  unfold write_next_jobs_core. cbn [first_job head expect with_ok].
  set (c := get_sub_group_counter_id job).
  change (get_sub_group_counter_goal_id c) with (get_sub_group_counter_goal_id job).
  change (get_sub_group_counter_goal_next_jobs_id c) with (get_sub_group_counter_goal_next_jobs_id job).
  set (g := get_sub_group_counter_goal_id job). set (n := get_sub_group_counter_goal_next_jobs_id job).
  assert (g <> c /\ n <> c /\ n <> g) as (Hgc & Hnc & Hng) by (split_and!; intros [=]).
  destruct (set_bytes_ok s c (le_bytes 4 0)) as (s1 & -> & Hc1 & Ho1).
  unfold and_then. cbn [fst snd with_ok].
  destruct (set_bytes_ok s1 g (le_bytes 4 (as_u32 (N.of_nat (length (job :: jobs)))))) as (s2 & -> & Hg2 & Ho2).
  cbn [fst snd with_ok]. destruct (serialize_ok next) as (b & Hser & Hde). rewrite Hser. cbn [with_ok].
  destruct (set_bytes_ok s2 n b) as (s3 & -> & Hn3 & Ho3). cbn [fst snd with_ok].
  exists s3. split; [done|]. split.
  - unfold group_written, get_goal_by_job_id, get_next_jobs_by_job_id. fold c.
    change (get_sub_group_counter_goal_id c) with g.
    change (get_sub_group_counter_goal_next_jobs_id c) with n.
    rewrite (Ho3 c), (Ho2 c), Hc1 by done. rewrite (Ho3 g), Hg2 by done. rewrite Hn3.
    cbn [mbind outcome_bind]. rewrite decide_True by apply le_bytes_length. rewrite le_value_bytes; [done|].
    unfold as_u32, u32_max. cbn [N.of_nat]. change (256 ^ N.of_nat 4)%N with (4294967295 + 1)%N.
    apply N.mod_lt. lia.
  - intros x Hx. assert (x ∉ group_ids job) as Hn by (apply Hx, list_elem_of_here).
    unfold group_ids in Hn. fold c g n in Hn. rewrite !elem_of_cons in Hn.
    rewrite Ho3, Ho2, Ho1 by (intros ->; apply Hn; auto). done.
Qed.

(** The loop writes one group after the other. *)
Lemma write_multidimensional_step (s : S) job jobs rest next_jobs :
  write_multidimensional_jobs_core s ((job :: jobs) :: rest) next_jobs =
  and_then (write_next_jobs_core s (job :: jobs) (match rest with [] => next_jobs | level :: _ => level end))
    (fun s _ => write_multidimensional_jobs_core s rest next_jobs).
Proof.
  cbn [write_multidimensional_jobs_core]. unfold write_next_jobs_core, and_then. cbn [first_job head expect with_ok].
  set (c := get_sub_group_counter_id job).
  destruct (set_bytes_by_id s c _) as [s1 [[]|e|p|]]; cbn [fst snd with_ok]; [|done..].
  destruct (set_bytes_by_id s1 _ _) as [s2 [[]|e|p|]]; cbn [fst snd with_ok]; [|done..].
  destruct (serialize _) as [b|e|p|]; cbn [fst snd with_ok]; [|done..].
  by destruct (set_bytes_by_id s2 _ _) as [s3 [[]|e|p|]].
Qed.

Lemma write_levels_ok (s : S) levels next_jobs firsts :
  Forall2 (fun jobs first => head jobs = Some first) levels firsts ->
  NoDup (group_key <$> firsts) ->
  exists s', write_multidimensional_jobs_core s levels next_jobs = (s', Ok ()) /\
    same_outside s s' firsts /\
    forall i jobs first, levels !! i = Some jobs -> firsts !! i = Some first ->
      group_written s' first jobs (default next_jobs (levels !! (i + 1)%nat)).
Proof.
  intros HF. revert s. induction HF as [|jobs first levels firsts Hhd HF IH]; intros s Hnd.
  - exists s. split_and!; [done..|]. by intros i jobs first.
  - destruct jobs as [|job jobs]; [done|]. injection Hhd as ->.
    cbn in Hnd. apply NoDup_cons in Hnd as [Hnotin Hnd].
    set (next := match levels with [] => next_jobs | level :: _ => level end).
    destruct (write_next_jobs_ok s first jobs next) as (s1 & E1 & Hw1 & Hs1).
    destruct (IH s1 Hnd) as (s2 & E2 & Hs2 & Hall).
    exists s2. split; [|split].
    + rewrite write_multidimensional_step. fold next. rewrite E1. unfold and_then. cbn. done.
    + intros x Hx. rewrite Hs2 by (intros; apply Hx; by apply list_elem_of_further).
      apply Hs1. intros id ->%list_elem_of_singleton. apply Hx, list_elem_of_here.
    + intros [|i] js f Hi Hf; cbn in Hi, Hf.
      * injection Hi as <-. injection Hf as <-.
        replace (default next_jobs _) with next by (unfold next; by destruct levels).
        eapply group_written_frame; [done..|]. intros id' Hid' E. apply Hnotin. rewrite <- E.
        by apply list_elem_of_fmap_2.
      * by apply Hall.
Qed.

(** Writing the levels of a job tree succeeds when no level is empty and
    no two levels are of one group.  Any job of a level's group then reads the
    number of jobs of its level as its goal and the next level, or the final
    jobs after the last level, as its next jobs, with the level's counter at
    zero; nothing outside the levels' counters is touched. *)
Theorem write_multidimensional_jobs_spec (s : S) levels next_jobs firsts :
  Forall2 (fun jobs first => head jobs = Some first) levels firsts ->
  NoDup (group_key <$> firsts) ->
  exists s', write_multidimensional_jobs_core s levels next_jobs = (s', Ok ()) /\
    (forall i jobs first job, levels !! i = Some jobs -> firsts !! i = Some first ->
      group_key job = group_key first ->
      get_bytes_by_id s' (get_sub_group_counter_id job) = Ok (le_bytes 4 0) /\
      get_goal_by_job_id s' job = Ok (as_u32 (N.of_nat (length jobs))) /\
      get_next_jobs_by_job_id s' job = Ok (default next_jobs (levels !! (i + 1)%nat))) /\
    (forall id, data_type id <> Counter -> get_bytes_by_id s' id = get_bytes_by_id s id).
Proof.
  intros HF Hnd. destruct (write_levels_ok s levels next_jobs firsts HF Hnd) as (s' & E & Hs & Hall).
  exists s'. split_and!; [done| |].
  - intros i jobs first job Hi Hf Hk. eapply group_written_key; [by symmetry|by eapply Hall].
  - intros id Hid. apply Hs. intros f _ Hin. apply Hid. unfold group_ids in Hin.
    rewrite !elem_of_cons, elem_of_nil in Hin. by destruct Hin as [->|[->|[->|[]]]].
Qed.

(** An empty level panics: [jobs_levels[i][0]]. *)
Lemma write_empty_level_panics (s : S) rest next_jobs :
  write_multidimensional_jobs_core s ([] :: rest) next_jobs = (s, Panic "index out of bounds").
Proof. done. Qed.
End proof_store.

(** ** A store for the witness: a function, and job lists in the bytes of [Codec] *)
Module ProofStoreWitness.
Definition store : Type := QProvingJobDataID -> option bytes.
#[export] Instance store_ops : ProofStore store := {|
  get_bytes_by_id s id := ok_or (s id) (Anyhow "not found");
  set_bytes_by_id s id data := (fun x => if decide (x = id) then Some data else s x, Ok ());
|}.
#[export] Instance store_laws : ProofStoreLaws store.
Proof.
  constructor. intros s id data. eexists. split; [done|]. cbn. split; [by rewrite decide_True|].
  intros id' Hne. by rewrite decide_False.
Qed.

Definition id_tuple (id : QProvingJobDataID) : N * N * N * (N * N * N * N * N) :=
  (topic_to_u8 (topic id), circuit_type_to_u8 (circuit_type id), data_type_to_u8 (data_type id),
   (goal_id id, group_id id, sub_group_id id, task_index id, data_index id)).
Definition of_ok {A} (d : A) (o : outcome A) : A := match o with Ok a => a | _ => d end.
Definition tuple_id (t : N * N * N * (N * N * N * N * N)) : QProvingJobDataID :=
  let '(tp, ct, dt, (g, gr, sg, ti, di)) := t in
  JobID (of_ok AggregateJobs (topic_try_from tp)) g (of_ok Unknown (circuit_type_try_from ct)) gr sg ti
    (of_ok Counter (data_type_try_from dt)) di.
Lemma tuple_id_tuple id : tuple_id (id_tuple id) = id.
Proof.
  destruct id as [tp g ct gr sg ti dt di]. unfold id_tuple, tuple_id. cbn [topic goal_id circuit_type group_id sub_group_id task_index data_type data_index].
  by rewrite topic_roundtrip, circuit_type_roundtrip, data_type_roundtrip.
Qed.
#[export] Instance id_codec : Codec QProvingJobDataID := codec_via id_tuple tuple_id tuple_id_tuple.

#[export] Instance bincode : Bincode := {|
  serialize l := Ok (encode_bytes l);
  deserialize b := ok_or (decode_bytes b) (External "bincode");
|}.
#[export] Instance bincode_laws : BincodeLaws.
Proof. constructor. intros l. eexists. split; [done|]. cbn [deserialize bincode]. by rewrite decode_encode_bytes. Qed.

Definition leaf (i : N) : QProvingJobDataID := NewJobID.new_proof_job_id 7 AddL1Deposit 1 0 i.
Definition levels : list (list QProvingJobDataID) :=
  [[leaf 0; leaf 1; leaf 2]; [get_tree_parent_proof_input_id (leaf 0)]].
Definition firsts : list QProvingJobDataID := [leaf 0; get_tree_parent_proof_input_id (leaf 0)].

Lemma write_multidimensional_jobs_spec_witness :
  NoDup (group_key <$> firsts) /\
  exists s', write_multidimensional_jobs_core (fun _ => None : option bytes) levels [NewJobID.notify_block_complete 7] = (s', Ok ()) /\
    get_goal_by_job_id s' (leaf 2) = Ok 3%N /\
    get_next_jobs_by_job_id s' (leaf 1) = Ok [get_tree_parent_proof_input_id (leaf 0)].
Proof.
  assert (Forall2 (fun jobs first => head jobs = Some first) levels firsts) as HF by (repeat constructor).
  assert (NoDup (group_key <$> firsts)) as Hnd by (apply (bool_decide_unpack (NoDup (group_key <$> firsts))); vm_compute; exact I).
  split; [exact Hnd|].
  destruct (write_multidimensional_jobs_spec (fun _ => None : option bytes) levels
    [NewJobID.notify_block_complete 7] firsts HF Hnd) as (s' & E & H & _).
  exists s'. split; [exact E|].
  destruct (H 0 _ _ (leaf 2) eq_refl eq_refl eq_refl) as (_ & Hg & _).
  destruct (H 0 _ _ (leaf 1) eq_refl eq_refl eq_refl) as (_ & _ & Hn).
  split; [exact Hg|exact Hn].
Defined.
End ProofStoreWitness.
