(* ===== verification/ProofStoreAsync.v ===== *)
(** * The proof store's job groups, written asynchronously

    The async traits of [qed_dsol_bridge_core/src/job/traits.rs]: their provided
    methods over a store whose every call may fail, the dummy store, and the
    standard worker step.  Writing the levels of a job tree is a sequence of
    single writes, so a crash leaves a prefix of them. *)
From S2P Require Import Prelude Effects KvqBase KvqStore KvqAdapter JobId ProofStore.
From S2P Require Import Codec.

(** The required methods the provided ones call. *)
Class ProofStoreAsync (W : Type) := {
  get_bytes_by_id_async : QProvingJobDataID -> prog W bytes;
  set_bytes_by_id_async : QProvingJobDataID -> bytes -> prog W ();
}.

(** [bincode] at a type of objects. *)
Class BincodeAt (T : Type) := {
  serialize_at : T -> outcome bytes;
  deserialize_at : bytes -> outcome T;
}.

Module AsyncStore.
Section provided.
Context {W : Type} `{!ProofStoreAsync W, !Bincode}.

(** ** [QProofStoreReaderAsync] *)
Definition get_obj_by_id {T} `{!BincodeAt T} (id : QProvingJobDataID) : prog W T :=
  b ← get_bytes_by_id_async id;
  lift (deserialize_at b).

Definition get_goal_by_job_id (id : QProvingJobDataID) : prog W N :=
  let counter_id := get_sub_group_counter_id id in
  let goal_id := get_sub_group_counter_goal_id counter_id in
  goal ← get_bytes_by_id_async goal_id;
  lift (if decide (length goal = 4) then Ok (le_value goal)
        else Panic "called `Result::unwrap()` on an `Err` value").

Definition get_next_jobs_by_job_id (id : QProvingJobDataID) : prog W (list QProvingJobDataID) :=
  let counter_id := get_sub_group_counter_id id in
  let next_jobs_id := get_sub_group_counter_goal_next_jobs_id counter_id in
  next_jobs ← get_bytes_by_id_async next_jobs_id;
  lift (deserialize next_jobs).

(** ** [QProofStoreWriterAsyncImm] *)
Definition set_obj_by_id {T} `{!BincodeAt T} (id : QProvingJobDataID) (obj : T) : prog W () :=
  b ← lift (serialize_at obj);
  set_bytes_by_id_async id b ;;
  mret ().

Definition set_bytes_by_id_batch_core (kv_pairs : list (KVQPair QProvingJobDataID bytes)) : prog W () :=
  for_each kv_pairs (fun kv => set_bytes_by_id_async (kv_key kv) (kv_value kv)).

Definition write_next_jobs_core (jobs next_jobs : list QProvingJobDataID) : prog W () :=
  job ← lift (first_job jobs);
  let counter_id := get_sub_group_counter_id job in
  let goal_id := get_sub_group_counter_goal_id counter_id in
  let next_jobs_id := get_sub_group_counter_goal_next_jobs_id counter_id in
  set_bytes_by_id_async counter_id (le_bytes 4 0) ;;
  set_bytes_by_id_async goal_id (le_bytes 4 (as_u32 (N.of_nat (length jobs)))) ;;
  next ← lift (serialize next_jobs);
  set_bytes_by_id_async next_jobs_id next ;;
  mret ().

Fixpoint write_multidimensional_jobs_core (jobs_levels : list (list QProvingJobDataID))
    (next_jobs : list QProvingJobDataID) : prog W () :=
  match jobs_levels with
  | [] => mret ()
  | jobs :: rest =>
      job ← lift (first_job jobs);
      let counter_id := get_sub_group_counter_id job in
      let goal_id := get_sub_group_counter_goal_id counter_id in
      let next_jobs_id := get_sub_group_counter_goal_next_jobs_id counter_id in
      set_bytes_by_id_async counter_id (le_bytes 4 0) ;;
      set_bytes_by_id_async goal_id (le_bytes 4 (as_u32 (N.of_nat (length jobs)))) ;;
      next ← lift (serialize (match rest with [] => next_jobs | level :: _ => level end));
      set_bytes_by_id_async next_jobs_id next ;;
      write_multidimensional_jobs_core rest next_jobs
  end.

(** [QWorkerCircuitStandardWithDataSync::prove_q_worker_standard]: the circuit's
    own prover is a required method. *)
Definition prove_q_worker_standard {I Proof} `{!BincodeAt I}
    (prove_with_input : I -> QProvingJobDataID -> prog W Proof) (job_id : QProvingJobDataID) : prog W Proof :=
  witness_data ← get_bytes_by_id_async job_id;
  input ← lift (deserialize_at witness_data);
  prove_with_input input job_id.
End provided.
End AsyncStore.

(** ** [QDummyProofStore] *)
Module QDummyProofStore.
Definition not_implemented {A} : outcome A := Err (Anyhow "Not implemented").
#[export] Instance dummy : ProofStore () := {|
  get_bytes_by_id _ _ := Ok [];
  set_bytes_by_id s _ _ := (s, not_implemented);
|}.

(** The empty bytes it returns are no goal: reading a group of the dummy store
    panics, and every write is refused. *)
Lemma dummy_groups `{!Bincode} id jobs job next :
  is_panic (get_goal_by_job_id (S := ()) tt id) = true /\
  write_next_jobs_core (S := ()) tt (job :: jobs) next = (tt, not_implemented) /\
  write_multidimensional_jobs_core (S := ()) tt ((job :: jobs) :: []) next = (tt, not_implemented).
Proof. done. Qed.
End QDummyProofStore.

(** ** Crashes *)
Section crashes.
Context {W : Type} `{!ProofStoreAsync W, !Bincode, !BincodeLaws}.

(** A write either happens or does not, and touches one identifier. *)
Definition Entries : Type := QProvingJobDataID -> option bytes.
Definition upd (p : QProvingJobDataID * bytes) (l : Entries) : Entries :=
  fun id => if decide (id = p.1) then Some p.2 else l id.
Definition same (l l' : Entries) : Prop := forall id, l id = l' id.

Class AsyncStoreLaws (look : W -> Entries) : Prop := {
  set_writes l id data :
    triple (fun w => same (look w) l) (fun w => same (look w) l \/ same (look w) (upd (id, data) l))
      (set_bytes_by_id_async id data)
      (fun r w => match r with
                  | Ok _ => same (look w) (upd (id, data) l)
                  | _ => same (look w) l \/ same (look w) (upd (id, data) l)
                  end);
}.

(** The writes of a group and of the levels of a tree, in order. *)
Definition group_writes (jobs : list QProvingJobDataID) (next : list QProvingJobDataID)
  : list (QProvingJobDataID * bytes) :=
  match head jobs, serialize next with
  | Some job, Ok b =>
      [(get_sub_group_counter_id job, le_bytes 4 0);
       (get_sub_group_counter_goal_id job, le_bytes 4 (as_u32 (N.of_nat (length jobs))));
       (get_sub_group_counter_goal_next_jobs_id job, b)]
  | _, _ => []
  end.
Fixpoint level_writes (levels : list (list QProvingJobDataID)) (next_jobs : list QProvingJobDataID)
  : list (QProvingJobDataID * bytes) :=
  match levels with
  | [] => []
  | jobs :: rest =>
      group_writes jobs (match rest with [] => next_jobs | level :: _ => level end)
      ++ level_writes rest next_jobs
  end.

Definition after (ws : list (QProvingJobDataID * bytes)) (l : Entries) : Entries := foldl (fun l p => upd p l) l ws.
(** The store holds [l] after the first few of the writes. *)
Definition some_of (ws : list (QProvingJobDataID * bytes)) (l : Entries) (l' : Entries) : Prop :=
  exists n, n <= length ws /\ same l' (after (take n ws) l).

Lemma upd_same p l l' : same l l' -> same (upd p l) (upd p l').
Proof. intros E id. unfold upd. by case_decide. Qed.
Lemma same_trans l1 l2 l3 : same l1 l2 -> same l2 l3 -> same l1 l3.
Proof. intros E1 E2 id. by rewrite E1. Qed.
Lemma after_app ws ws' l : after (ws ++ ws') l = after ws' (after ws l).
Proof. unfold after. by rewrite foldl_app. Qed.

Lemma some_of_none ws l l' : same l' l -> some_of ws l l'.
Proof. exists 0. split; [lia|done]. Qed.
Lemma some_of_all ws l l' : same l' (after ws l) -> some_of ws l l'.
Proof. exists (length ws). by rewrite firstn_all. Qed.
Lemma some_of_cons p ws l l' : some_of ws (upd p l) l' -> some_of (p :: ws) l l'.
Proof. intros (n & Hn & E). exists (S n). cbn. split; [lia|done]. Qed.

(** A write in front of a program that does the rest. *)
Lemma triple_write {A} `{!AsyncStoreLaws look} l p (k : prog W A) ws :
  triple (fun w => same (look w) (upd p l)) (fun w => some_of ws (upd p l) (look w)) k
    (fun r w => some_of ws (upd p l) (look w) /\ (is_ok r = true -> same (look w) (after ws (upd p l)))) ->
  triple (fun w => same (look w) l) (fun w => some_of (p :: ws) l (look w))
    (set_bytes_by_id_async p.1 p.2 ;; k)
    (fun r w => some_of (p :: ws) l (look w) /\ (is_ok r = true -> same (look w) (after (p :: ws) l))).
Proof.
  destruct p as [id data]. intros Hk.
  assert (forall l', same l' l \/ same l' (upd (id, data) l) -> some_of ((id, data) :: ws) l l') as Hone.
  { intros l' [E|E]; [by apply some_of_none|]. by apply some_of_cons, some_of_none. }
  eapply triple_bind.
  - eapply triple_conseq; [apply (set_writes l id data)|done| |intros r w Hr; exact Hr]. intros w Hw. by apply Hone.
  - intros []. eapply triple_conseq; [exact Hk|done| |].
    + intros w Hw. by apply some_of_cons.
    + intros r w [Hs Hr]. split; [by apply some_of_cons|exact Hr].
  - intros r r' w Hw E. split; [|by destruct r; cbn in E; simplify_eq].
    apply Hone. destruct r; cbn in E; simplify_eq; exact Hw.
Qed.

(** Writing the levels of a job tree is a prefix at every crash.  For levels
    none of which is empty, at every point of the write, and when it fails,
    the store holds the first few of its writes and nothing else: level by
    level, for each level its zero counter, then its goal, then its next jobs.
    When it returns all of them are there. *)
Theorem write_levels_prefix `{!AsyncStoreLaws look} (levels : list (list QProvingJobDataID))
    (next_jobs : list QProvingJobDataID) (w : W) :
  Forall (fun jobs => jobs <> []) levels ->
  let p := AsyncStore.write_multidimensional_jobs_core levels next_jobs in
  (forall x, x ∈ crash_points p w -> some_of (level_writes levels next_jobs) (look w) (look x)) /\
  (is_ok (result p w) = true -> same (look (final p w)) (after (level_writes levels next_jobs) (look w))).
Proof.
  intros Hne p.
  assert (triple (fun x => same (look x) (look w)) (fun x => some_of (level_writes levels next_jobs) (look w) (look x)) p
    (fun r x => some_of (level_writes levels next_jobs) (look w) (look x) /\
       (is_ok r = true -> same (look x) (after (level_writes levels next_jobs) (look w))))) as Ht.
  { subst p. generalize (look w) as l. induction Hne as [|jobs rest Hj Hrest IH]; intros l.
    { apply triple_ret. intros x Hx. split; [by apply some_of_none|done]. }
    destruct jobs as [|job jobs]; [done|]. cbn [AsyncStore.write_multidimensional_jobs_core level_writes].
    unfold group_writes. cbn [head first_job expect].
    destruct (serialize_ok (match rest with [] => next_jobs | level :: _ => level end)) as (b & E & _).
    rewrite E. cbn [app]. apply triple_arg with (a := job); [done|]. cbv zeta.
    apply (triple_write _ (get_sub_group_counter_id job, le_bytes 4 0)).
    apply (triple_write _ (get_sub_group_counter_goal_id job, _)).
    apply triple_arg with (a := b); [done|].
    apply (triple_write _ (get_sub_group_counter_goal_next_jobs_id job, b)). apply IH. }
  split.
  - intros x Hx. apply (triple_crash _ _ _ _ w x Ht); [done| |exact Hx]. by apply some_of_none.
  - by apply (triple_use _ _ _ _ w Ht).
Qed.
End crashes.

Module AsyncStoreWitness.
Import ProofStoreWitness.
#[local] Instance store_async : ProofStoreAsync store := {|
  get_bytes_by_id_async id := query (fun s => ok_or (s id) (Anyhow "not found"));
  set_bytes_by_id_async id data := perform (fun s => (upd (id, data) s, Ok ()));
|}.
#[local] Instance store_async_laws : AsyncStoreLaws (W := store) id.
Proof.
  constructor. intros l i data. apply triple_perform. intros s Hs. cbn.
  split; [right|]; by apply upd_same.
Qed.

Definition last_jobs : list QProvingJobDataID := [NewJobID.notify_block_complete 7].
Abbreviation written := (AsyncStore.write_multidimensional_jobs_core levels last_jobs : prog store ()).

Lemma write_levels_prefix_witness :
  length (level_writes levels last_jobs) = 6 /\
  result written (fun _ => None) = Ok () /\
  same (final written (fun _ => None)) (after (level_writes levels last_jobs) (fun _ => None)) /\
  result (AsyncStore.get_goal_by_job_id (leaf 2)) (final written (fun _ => None)) = Ok 3%N.
Proof.
  assert (Forall (fun jobs : list QProvingJobDataID => jobs <> []) levels) as Hne by (repeat constructor; done).
  assert (result written (fun _ => None) = Ok ()) as E by (vm_compute; reflexivity).
  destruct (write_levels_prefix (look := id) levels last_jobs (fun _ => None) Hne) as (_ & Hf).
  split; [vm_compute; reflexivity|]. split; [exact E|].
  split; [|vm_compute; reflexivity]. apply Hf. exact (f_equal is_ok E).
Defined.
End AsyncStoreWitness.
