(* ===== verification/ProofStoreTraits.v ===== *)
(** * The proof-store traits

    The traits of [job/traits.rs]: readers and writers with [&mut self], writers
    with [&self], their asynchronous versions, and the dummy store.  The provided
    methods of the first are those of [job/proof_store.rs] ([ProofStore]), word
    for word; the tree keeps both files, the crate compiles neither.  Proofs and
    circuit data are of Plonky2: parameters.  The three kinds of writers write a
    job tree in the same way. *)
From S2P Require Import Prelude Effects KvqBase KvqStore KvqAdapter KvqAsync JobId ProofStore ProofStoreAsync.

(** ** Readers and writers *)
Module SyncStore.
Class QProofStoreReaderSync (S Proof : Type) := {
  get_proof_by_id : S -> QProvingJobDataID -> outcome Proof;
  get_bytes_by_id : S -> QProvingJobDataID -> outcome bytes;
}.
Class QProofStoreWriterSync (S Proof : Type) := {
  set_proof_by_id : S -> QProvingJobDataID -> Proof -> S * outcome ();
  set_bytes_by_id : S -> QProvingJobDataID -> bytes -> S * outcome ();
  inc_counter_by_id : S -> QProvingJobDataID -> S * outcome N;
  write_next_jobs : S -> list QProvingJobDataID -> list QProvingJobDataID -> S * outcome ();
  write_multidimensional_jobs : S -> list (list QProvingJobDataID) -> list QProvingJobDataID -> S * outcome ();
}.

(** What the provided methods call. *)
Definition calls {S Proof} `{!QProofStoreReaderSync S Proof, !QProofStoreWriterSync S Proof} : ProofStore S := {|
  ProofStore.get_bytes_by_id := get_bytes_by_id;
  ProofStore.set_bytes_by_id := set_bytes_by_id;
|}.

Section provided.
Context {S Proof : Type} `{!QProofStoreReaderSync S Proof, !QProofStoreWriterSync S Proof, !Bincode}.
#[local] Existing Instance calls.

Definition get_goal_by_job_id : S -> QProvingJobDataID -> outcome N := ProofStore.get_goal_by_job_id.
Definition get_next_jobs_by_job_id : S -> QProvingJobDataID -> outcome (list QProvingJobDataID) :=
  ProofStore.get_next_jobs_by_job_id.
Definition write_next_jobs_core : S -> list QProvingJobDataID -> list QProvingJobDataID -> S * outcome () :=
  ProofStore.write_next_jobs_core.
Definition write_multidimensional_jobs_core
  : S -> list (list QProvingJobDataID) -> list QProvingJobDataID -> S * outcome () :=
  ProofStore.write_multidimensional_jobs_core.
End provided.

(** [QProofStore]: both. *)
Class QProofStore (S Proof : Type) := {
  store_reader : QProofStoreReaderSync S Proof;
  store_writer : QProofStoreWriterSync S Proof;
}.
#[export] Instance proof_store_all {S Proof} `{!QProofStoreReaderSync S Proof, !QProofStoreWriterSync S Proof} :
  QProofStore S Proof := {| store_reader := _; store_writer := _ |}.

(** [QDummyProofStore] *)
Definition not_implemented {A} : outcome A := Err (Anyhow "Not implemented").
Definition dummy_reader {Proof} : QProofStoreReaderSync () Proof := {|
  get_proof_by_id _ _ := not_implemented;
  get_bytes_by_id _ _ := Ok [];
|}.
Definition dummy_writer {Proof} : QProofStoreWriterSync () Proof := {|
  set_proof_by_id s _ _ := (s, not_implemented);
  set_bytes_by_id s _ _ := (s, not_implemented);
  inc_counter_by_id s _ := (s, not_implemented);
  write_next_jobs s _ _ := (s, not_implemented);
  write_multidimensional_jobs s _ _ := (s, not_implemented);
|}.
End SyncStore.

(** ** Writers with [&self] *)
Module SyncStoreImm.
Class QProofStoreWriterSyncImm (W Proof : Type) := {
  set_proof_by_id_imm : QProvingJobDataID -> Proof -> prog W ();
  set_bytes_by_id_imm : QProvingJobDataID -> bytes -> prog W ();
  inc_counter_by_id_imm : QProvingJobDataID -> prog W N;
  write_next_jobs_imm : list QProvingJobDataID -> list QProvingJobDataID -> prog W ();
  write_multidimensional_jobs_imm : list (list QProvingJobDataID) -> list QProvingJobDataID -> prog W ();
}.

Section provided.
Context {W Proof : Type} `{!QProofStoreWriterSyncImm W Proof, !Bincode}.

Definition write_next_jobs_core_imm (jobs next_jobs : list QProvingJobDataID) : prog W () :=
  job ← lift (first_job jobs);
  let counter_id := get_sub_group_counter_id job in
  let goal_id := get_sub_group_counter_goal_id counter_id in
  let next_jobs_id := get_sub_group_counter_goal_next_jobs_id counter_id in
  set_bytes_by_id_imm counter_id (le_bytes 4 0) ;;
  set_bytes_by_id_imm goal_id (le_bytes 4 (as_u32 (N.of_nat (length jobs)))) ;;
  next ← lift (serialize next_jobs);
  set_bytes_by_id_imm next_jobs_id next ;;
  mret ().

Fixpoint write_multidimensional_jobs_core_imm (jobs_levels : list (list QProvingJobDataID))
    (next_jobs : list QProvingJobDataID) : prog W () :=
  match jobs_levels with
  | [] => mret ()
  | jobs :: rest =>
      job ← lift (first_job jobs);
      let counter_id := get_sub_group_counter_id job in
      let goal_id := get_sub_group_counter_goal_id counter_id in
      let next_jobs_id := get_sub_group_counter_goal_next_jobs_id counter_id in
      set_bytes_by_id_imm counter_id (le_bytes 4 0) ;;
      set_bytes_by_id_imm goal_id (le_bytes 4 (as_u32 (N.of_nat (length jobs)))) ;;
      next ← lift (serialize (match rest with [] => next_jobs | level :: _ => level end));
      set_bytes_by_id_imm next_jobs_id next ;;
      write_multidimensional_jobs_core_imm rest next_jobs
  end.
End provided.
End SyncStoreImm.

(** ** The asynchronous required methods *)
Module AsyncStoreTraits.
Class QProofStoreReaderAsync (W Proof : Type) := {
  get_proof_by_id : QProvingJobDataID -> prog W Proof;
  get_bytes_by_id : QProvingJobDataID -> prog W bytes;
  contains_id : QProvingJobDataID -> prog W bool;
}.
Class QProofStoreWriterAsyncImm (W Proof : Type) := {
  set_proof_by_id : QProvingJobDataID -> Proof -> prog W ();
  set_bytes_by_id : QProvingJobDataID -> bytes -> prog W ();
  set_bytes_by_id_batch : list (KVQPair QProvingJobDataID bytes) -> prog W ();
  inc_counter_by_id : QProvingJobDataID -> prog W N;
  write_next_jobs : list QProvingJobDataID -> list QProvingJobDataID -> prog W ();
  write_multidimensional_jobs : list (list QProvingJobDataID) -> list QProvingJobDataID -> prog W ();
}.
(** [QProofStoreAsyncImm]: both, and what the provided methods call. *)
Class QProofStoreAsyncImm (W Proof : Type) := {
  async_reader : QProofStoreReaderAsync W Proof;
  async_writer : QProofStoreWriterAsyncImm W Proof;
}.
#[export] Instance proof_store_async_all {W Proof}
    `{!QProofStoreReaderAsync W Proof, !QProofStoreWriterAsyncImm W Proof} : QProofStoreAsyncImm W Proof :=
  {| async_reader := _; async_writer := _ |}.
Definition calls {W Proof} `{!QProofStoreReaderAsync W Proof, !QProofStoreWriterAsyncImm W Proof} :
    ProofStoreAsync W :=
  {| get_bytes_by_id_async := get_bytes_by_id; set_bytes_by_id_async := set_bytes_by_id |}.
End AsyncStoreTraits.

(** ** One job tree, three writers *)
Section agreement.
Context {S Proof : Type} `{!ProofStore S, !SyncStoreImm.QProofStoreWriterSyncImm S Proof, !Bincode}.
(** A [&self] writer over a store with [&mut self] methods. *)
Hypothesis imm_calls : forall id data,
  SyncStoreImm.set_bytes_by_id_imm id data = perform (fun s : S => ProofStore.set_bytes_by_id s id data).

Lemma write_levels_imm (levels : list (list QProvingJobDataID)) next_jobs (s : S) :
  outcome_of (SyncStoreImm.write_multidimensional_jobs_core_imm levels next_jobs) s
  = write_multidimensional_jobs_core s levels next_jobs.
Proof.
  revert s. induction levels as [|jobs rest IH]; intros s; [done|].
  cbn [SyncStoreImm.write_multidimensional_jobs_core_imm write_multidimensional_jobs_core].
  rewrite outcome_of_lift. destruct (first_job jobs) as [job|e|p|]; cbn [with_ok]; [|done..]. cbv zeta.
  rewrite outcome_of_bind, imm_calls, outcome_of_perform. unfold and_then.
  destruct (ProofStore.set_bytes_by_id s _ _) as [s1 [[]|e|p|]]; cbn [fst snd with_ok]; [|done..].
  rewrite outcome_of_bind, imm_calls, outcome_of_perform.
  destruct (ProofStore.set_bytes_by_id s1 _ _) as [s2 [[]|e|p|]]; cbn [fst snd with_ok]; [|done..].
  rewrite outcome_of_lift. destruct (serialize _) as [b|e|p|]; cbn [with_ok]; [|done..].
  rewrite outcome_of_bind, imm_calls, outcome_of_perform.
  destruct (ProofStore.set_bytes_by_id s2 _ _) as [s3 [[]|e|p|]]; cbn [fst snd with_ok]; [|done..].
  apply IH.
Qed.

Lemma write_next_imm (jobs next_jobs : list QProvingJobDataID) (s : S) :
  outcome_of (SyncStoreImm.write_next_jobs_core_imm jobs next_jobs) s = write_next_jobs_core s jobs next_jobs.
Proof.
  unfold SyncStoreImm.write_next_jobs_core_imm, write_next_jobs_core.
  rewrite outcome_of_lift. destruct (first_job jobs) as [job|e|p|]; cbn [with_ok]; [|done..]. cbv zeta.
  rewrite outcome_of_bind, imm_calls, outcome_of_perform. unfold and_then.
  destruct (ProofStore.set_bytes_by_id s _ _) as [s1 [[]|e|p|]]; cbn [fst snd with_ok]; [|done..].
  rewrite outcome_of_bind, imm_calls, outcome_of_perform.
  destruct (ProofStore.set_bytes_by_id s1 _ _) as [s2 [[]|e|p|]]; cbn [fst snd with_ok]; [|done..].
  rewrite outcome_of_lift. destruct (serialize _) as [b|e|p|]; cbn [with_ok]; [|done..].
  rewrite outcome_of_bind, imm_calls, outcome_of_perform.
  by destruct (ProofStore.set_bytes_by_id s2 _ _) as [s3 [[]|e|p|]].
Qed.
End agreement.

(** The asynchronous writer over the same calls is the [&self] writer. *)
Lemma write_levels_async {W Proof} `{!ProofStoreAsync W, !SyncStoreImm.QProofStoreWriterSyncImm W Proof, !Bincode}
    (levels : list (list QProvingJobDataID)) next_jobs (w : W) :
  (forall id data, SyncStoreImm.set_bytes_by_id_imm id data = set_bytes_by_id_async (W := W) id data) ->
  AsyncStore.write_multidimensional_jobs_core levels next_jobs w
  = SyncStoreImm.write_multidimensional_jobs_core_imm levels next_jobs w.
Proof.
  intros E. revert w. induction levels as [|jobs rest IH]; intros w; [done|].
  cbn [SyncStoreImm.write_multidimensional_jobs_core_imm AsyncStore.write_multidimensional_jobs_core].
  apply prog_bind_ext. intros job _. rewrite !E. apply prog_bind_ext. intros [] _.
  apply prog_bind_ext. intros [] _. apply prog_bind_ext. intros next _. rewrite E.
  apply prog_bind_ext. intros [] _. apply IH.
Qed.
