(* ===== verification/TreePlanner.v ===== *)
(** * The binary tree planner

    [qed_dsol_bridge_core/src/utils/tree_planner.rs]: the plan that pairs the
    jobs of a level, carrying an odd one over, until one is left. *)
From stdpp Require Import pretty.
From S2P Require Import Prelude.

Record TreePosition := Pos { level : N; index : N }.
#[export] Instance tree_position_eq_dec : EqDecision TreePosition.
Proof. solve_decision. Defined.

(** [u64] arithmetic is unchecked. *)
Module TreePositionOps.
Definition new (level index : N) : TreePosition := Pos level index.
Definition is_leaf (p : TreePosition) : bool := (p.(level) =? 0)%N.
Definition wrapping_sub (max a b : N) : N := ((max + 1 + a - b) mod (max + 1))%N.
Definition get_left_child (p : TreePosition) : TreePosition :=
  new (wrapping_sub u64_max p.(level) 1) ((p.(index) * 2) mod (u64_max + 1))%N.
Definition get_right_child (p : TreePosition) : TreePosition :=
  new (wrapping_sub u64_max p.(level) 1)
    (wrapping_add u64_max ((p.(index) * 2) mod (u64_max + 1))%N 1).
Definition get_parent (p : TreePosition) : TreePosition :=
  new (wrapping_add u64_max p.(level) 1) (N.shiftr p.(index) 1).
(** [1 << level] shifts by [level] modulo 64. *)
Definition get_span (p : TreePosition) : N := N.shiftl 1 (p.(level) mod 64).
Definition is_null (p : TreePosition) : bool := (p.(level) =? 0xffff)%N.
Definition new_null : TreePosition := Pos 0xffff 0.
End TreePositionOps.

Record BinaryTreeJob := Job {
  position : TreePosition;
  left_job : TreePosition;
  right_job : TreePosition;
}.

Definition gen_leaves_binary_tree_planner (n : nat) : list BinaryTreeJob :=
  (fun i => Job (TreePositionOps.new 0 (N.of_nat i)) TreePositionOps.new_null TreePositionOps.new_null) <$> seq 0 n.

Record BinaryTreePlanner := Planner {
  levels : list (list BinaryTreeJob);
  num_leaves : nat;
}.

(** The [for] loop of a round: [current[i * 2]] and [current[i * 2 + 1]] are in bounds. *)
Definition next_level (level_index : N) (current : list BinaryTreeJob) : outcome (list BinaryTreeJob) :=
  mapM (fun i =>
    left ← expect (current !! (i * 2)%nat) "index out of bounds";
    right ← expect (current !! (i * 2 + 1)%nat) "index out of bounds";
    Ok (Job (TreePositionOps.new level_index (N.of_nat i)) (position left) (position right)))
  (seq 0 (length current / 2)).

(** The [while] loop, with fuel; it pushes a level per round. *)
Fixpoint plan_loop (fuel : nat) (level_index : N) (current : list BinaryTreeJob)
    (levels : list (list BinaryTreeJob)) : outcome (list (list BinaryTreeJob)) :=
  match fuel with
  | O => OutOfFuel
  | S fuel =>
      if (1 <? length current)%nat then
        next ← next_level level_index current;
        n_current ← (if (length current mod 2 =? 1)%nat then
            l ← expect (current !! (length current - 1)%nat) "index out of bounds";
            Ok (next ++ [l])
          else Ok next);
        plan_loop fuel (wrapping_add u64_max level_index 1) n_current (levels ++ [next])
      else Ok levels
  end.

Module BinaryTreePlannerOps.
(** Each round at least halves [current], rounding up: one round per leaf is
    enough fuel. *)
Definition new (num_leaves : nat) : outcome BinaryTreePlanner :=
  levels ← plan_loop (S num_leaves) 1 (gen_leaves_binary_tree_planner num_leaves) [];
  Ok (Planner levels num_leaves).
End BinaryTreePlannerOps.

(** [get_graphviz]: two edges per job, each [format!]ted and pushed. *)
Definition newline : string := String (Ascii.ascii_of_nat 10) EmptyString.
Definition quote : string := String (Ascii.ascii_of_nat 34) EmptyString.
Definition node_text (p : TreePosition) : string := quote +:+ pretty p.(level) +:+ ":" +:+ pretty p.(index) +:+ quote.
Definition edge_text (job child : TreePosition) : string :=
  node_text job +:+ " -> " +:+ node_text child +:+ ";" +:+ newline.
Definition get_graphviz (plan : BinaryTreePlanner) : string :=
  let output := "digraph G {" +:+ newline in
  let output := foldl (fun output level =>
      foldl (fun output job =>
          (output +:+ edge_text job.(position) job.(left_job)) +:+ edge_text job.(position) job.(right_job))
        output level) output plan.(levels) in
  output +:+ "}" +:+ newline.

(** ** The plan *)
Definition children (job : BinaryTreeJob) : list TreePosition := [left_job job; right_job job].

(** The jobs of a round, by recursion on the list two at a time. *)
Fixpoint pair_jobs (level_index : N) (i : nat) (current : list BinaryTreeJob) : list BinaryTreeJob :=
  match current with
  | l :: r :: current =>
      Job (Pos level_index (N.of_nat i)) (position l) (position r) :: pair_jobs level_index (S i) current
  | _ => []
  end.
Fixpoint odd_one (current : list BinaryTreeJob) : list BinaryTreeJob :=
  match current with
  | _ :: _ :: current => odd_one current
  | l => l
  end.

Lemma next_level_pairs li current : next_level li current = Ok (pair_jobs li 0 current).
Proof.
  unfold next_level. apply mapM_Ok.
  assert (forall (k : nat) (pre : list BinaryTreeJob), length pre = k * 2 ->
    Forall2 (fun i y => (left ← expect ((pre ++ current) !! (i * 2)%nat) "index out of bounds";
      right ← expect ((pre ++ current) !! (i * 2 + 1)%nat) "index out of bounds";
      Ok (Job (TreePositionOps.new li (N.of_nat i)) (position left) (position right))) = Ok y)
      (seq k (length current / 2)) (pair_jobs li k current)) as H; [|apply (H 0 []); done].
  induction current as [|x|l r current IH] using list_pair_ind; intros k pre Hk; [constructor..|].
  change (length (l :: r :: current)) with (1 * 2 + length current).
  rewrite (Nat.div_add_l 1 2 (length current)) by lia. cbn [seq pair_jobs Nat.add].
  constructor.
  - rewrite !lookup_app_r by lia. replace (k * 2 - length pre) with 0 by lia.
    by replace (k * 2 + 1 - length pre) with 1 by lia.
  - specialize (IH (S k) (pre ++ [l; r])). rewrite <- app_assoc in IH. apply IH.
    rewrite length_app. cbn. lia.
Qed.

Lemma odd_one_last (current : list BinaryTreeJob) :
  odd_one current = (if (length current mod 2 =? 1)%nat then
    match current !! (length current - 1)%nat with Some l => [l] | None => [] end else []) /\
  (length current mod 2 = 1 -> is_Some (current !! (length current - 1)%nat)).
Proof.
  induction current as [|x|l r current IH] using list_pair_ind; [done|by split|].
  destruct IH as [IH1 IH2]. change (length (l :: r :: current)) with (2 + length current).
  replace ((2 + length current) mod 2) with (length current mod 2)
    by (change (2 + length current) with (1 * 2 + length current); by rewrite Nat.add_comm, Nat.Div0.mod_add).
  replace (2 + length current - 1) with (S (length current)) by lia. cbn [odd_one].
  rewrite IH1.
  destruct current as [|y current]; [done|].
  replace (length (y :: current) - 1) with (length current) in * by (cbn; lia).
  by change ((l :: r :: y :: current) !! S (length (y :: current))) with ((y :: current) !! length current).
Qed.

Lemma pair_jobs_length li i current : length (pair_jobs li i current) + length (pair_jobs li i current) + length (odd_one current) = length current.
Proof.
  revert i. induction current as [|x|l r current IH] using list_pair_ind; intros i; [done..|].
  cbn [pair_jobs odd_one length]. specialize (IH (S i)). lia.
Qed.

Lemma odd_one_length (current : list BinaryTreeJob) : length (odd_one current) <= 1.
Proof. induction current as [|x|l r current IH] using list_pair_ind; cbn; lia. Qed.

Lemma pair_jobs_children li i current :
  (pair_jobs li i current ≫= children) ++ (position <$> odd_one current) = position <$> current.
Proof.
  revert i. induction current as [|x|l r current IH] using list_pair_ind; intros i; [done..|].
  cbn [pair_jobs odd_one]. rewrite bind_cons. cbn [children app]. by rewrite IH.
Qed.

(** The loop: every position of [current] and every job it adds is the child
    of exactly one added job, but for the one position left at the end. *)
Lemma plan_loop_covers fuel li current levels0 :
  1 <= length current <= fuel ->
  exists added root, plan_loop fuel li current levels0 = Ok (levels0 ++ added) /\
    (position <$> current) ++ (position <$> mjoin added) ≡ₚ root :: (mjoin added ≫= children) /\
    length (mjoin added) = length current - 1 /\
    Forall (fun lv => lv <> []) added.
Proof.
  revert li current levels0. induction fuel as [|fuel IH]; intros li current levels0 [Hlo Hhi]; [lia|].
  cbn [plan_loop]. destruct (1 <? length current)%nat eqn:E; bool_hyps.
  - rewrite next_level_pairs. cbn [mbind outcome_bind].
    set (next := pair_jobs li 0 current). set (odd := odd_one current).
    assert ((if (length current mod 2 =? 1)%nat
      then l ← expect (current !! (length current - 1)%nat) "index out of bounds"; Ok (next ++ [l])
      else Ok next) = Ok (next ++ odd)) as ->.
    { unfold odd. destruct (odd_one_last current) as [-> Hs].
      destruct (length current mod 2 =? 1)%nat eqn:Em; bool_hyps; [|by rewrite app_nil_r].
      by destruct (Hs Em) as [x ->]. }
    cbn [mbind outcome_bind].
    pose proof (pair_jobs_length li 0 current) as Hlen. pose proof (odd_one_length current) as Hodd.
    fold next in Hlen. fold odd in Hlen, Hodd.
    destruct (IH (wrapping_add u64_max li 1) (next ++ odd) (levels0 ++ [next])) as (added & root & -> & Hperm & Hcount & Hne).
    { rewrite length_app. lia. }
    exists (next :: added), root. split; [by rewrite <- app_assoc|].
    pose proof (pair_jobs_children li 0 current) as Hch. fold next odd in Hch.
    change (mjoin (next :: added)) with (next ++ mjoin added). rewrite bind_app, fmap_app.
    split; [|split].
    + rewrite <- Hch. rewrite fmap_app in Hperm.
      rewrite Permutation_middle. rewrite <- Hperm. rewrite <- !app_assoc.
      apply Permutation_app_head. rewrite !app_assoc. apply Permutation_app_tail, Permutation_app_comm.
    + rewrite length_app, Hcount, length_app. lia.
    + constructor; [|done]. intros Hn. rewrite Hn in Hlen. cbn in Hlen. lia.
  - destruct current as [|x [|]]; cbn in *; try lia.
    exists [], (position x). by rewrite app_nil_r.
Qed.

(** For every positive number of leaves the planner returns, with one job
    fewer than leaves and no empty level; every leaf and every job is the child
    of exactly one job, except the root. *)
Theorem planner_covers n :
  0 < n ->
  exists plan root, BinaryTreePlannerOps.new n = Ok plan /\ num_leaves plan = n /\
    (position <$> gen_leaves_binary_tree_planner n) ++ (position <$> mjoin (levels plan)) ≡ₚ
      root :: (mjoin (levels plan) ≫= children) /\
    length (mjoin (levels plan)) = n - 1 /\
    Forall (fun lv => lv <> []) (levels plan).
Proof.
  intros Hn. unfold BinaryTreePlannerOps.new.
  assert (length (gen_leaves_binary_tree_planner n) = n) as Hl.
  { unfold gen_leaves_binary_tree_planner. by rewrite length_fmap, length_seq. }
  destruct (plan_loop_covers (S n) 1 (gen_leaves_binary_tree_planner n) []) as (added & root & -> & Hp & Hc & Hne);
    [lia|].
  exists (Planner added n), root. cbn. rewrite Hl in Hc. done.
Qed.

(** The graph lists the edges of the plan, from every job to each of its children. *)
Definition edges (plan : BinaryTreePlanner) : list (TreePosition * TreePosition) :=
  mjoin plan.(levels) ≫= fun job => (fun child => (job.(position), child)) <$> children job.
Fixpoint text_of (lines : list string) : string :=
  match lines with [] => "" | line :: lines => line +:+ text_of lines end.

Lemma text_of_app l k : text_of (l ++ k) = text_of l +:+ text_of k.
Proof. induction l as [|x l IH]; [done|]. cbn. by rewrite IH, string_app_assoc. Qed.

Lemma push_edges (level : list BinaryTreeJob) output rest :
  foldl (fun output job =>
    (output +:+ edge_text job.(position) job.(left_job)) +:+ edge_text job.(position) job.(right_job)) output level +:+ rest
  = output +:+ text_of (level ≫= fun job => edge_text job.(position) <$> children job) +:+ rest.
Proof.
  revert output. induction level as [|job level IH]; intros output; [done|]. cbn [foldl].
  rewrite IH, bind_cons, text_of_app, !string_app_assoc. cbn [text_of children fmap list_fmap].
  by rewrite !string_app_assoc.
Qed.

Lemma graphviz_edges plan :
  get_graphviz plan =
    "digraph G {" +:+ newline +:+ text_of ((fun e => edge_text e.1 e.2) <$> edges plan) +:+ "}" +:+ newline.
Proof.
  unfold get_graphviz, edges. rewrite <- (string_app_assoc "digraph G {" newline).
  generalize ("digraph G {" +:+ newline) as output.
  induction (levels plan) as [|lv lvs IH]; intros output; [done|]. cbn [foldl].
  rewrite IH, push_edges. cbn [mjoin list_join]. rewrite bind_app, fmap_app, text_of_app, string_app_assoc.
  do 3 f_equal. clear. induction lv as [|job lv IH]; [done|]. by rewrite !bind_cons, fmap_app, IH.
Qed.

(** Without leaves there is nothing to plan. *)
Lemma planner_empty : BinaryTreePlannerOps.new 0 = Ok (Planner [] 0).
Proof. done. Qed.

Lemma planner_covers_witness :
  0 < 5 /\
  exists plan, BinaryTreePlannerOps.new 5 = Ok plan /\ length (mjoin (levels plan)) = 4.
Proof.
  assert (0 < 5) as H by lia. split; [exact H|].
  destruct (planner_covers 5 H) as (plan & root & E & _ & _ & Hc & _).
  exists plan. split; [exact E|exact Hc].
Defined.
