(* ===== verification/CoreUtils.v ===== *)
(** * Codecs and helpers of [qed_dsol_bridge_core]

    [data/varuint.rs], [utils/binary_helpers.rs], [utils/math.rs], the queue
    metadata of [job/drain_queue.rs] and [job/history_queue.rs], and the
    fixed-width hashes of [data/base_types]. *)
From S2P Require Import Prelude KvqBase.

(** ** [varuint.rs] *)
Definition varuint_size (value : N) : nat :=
  if (value <? 0xfd)%N then 1
  else if (value <=? 0xffff)%N then 3
  else if (value <=? 0xffffffff)%N then 5
  else 9.

Definition encode_varuint (value : N) : bytes :=
  if (value <? 0xfd)%N then [byte_of_N value]
  else if (value <=? 0xffff)%N then xfd :: le_bytes 2 value
  else if (value <=? 0xffffffff)%N then xfe :: le_bytes 4 value
  else xff :: le_bytes 8 value.

Definition VaruintDecodingError : error := Anyhow "tried to decode malformed bytes into varuint".

(** [u64::from_le_bytes] of [data[1..1 + k]] and zeros. *)
Definition decode_varuint (data : bytes) : outcome N :=
  match data with
  | [] => Err VaruintDecodingError
  | first_byte :: _ =>
      let first := Byte.to_N first_byte in
      if (first <? 0xfd)%N then Ok first
      else if (first =? 0xfd)%N then
        if (length data <? 3)%nat then Err VaruintDecodingError
        else Ok (le_value (slice data 1 3 ++ replicate 6 x00))
      else if (first =? 0xfe)%N then
        if (length data <? 5)%nat then Err VaruintDecodingError
        else Ok (le_value (slice data 1 5 ++ replicate 4 x00))
      else
        if (length data <? 9)%nat then Err VaruintDecodingError
        else Ok (le_value (slice data 1 9))
  end.

Lemma le_value_zeros bs n : le_value (bs ++ replicate n x00) = le_value bs.
Proof.
  induction bs as [|b bs IH]; cbn [app le_value]; [|by rewrite IH].
  induction n as [|n IH]; [done|]. cbn [replicate le_value]. by rewrite IH.
Qed.

Lemma decode_varuint_prefix (b : byte) w value rest :
  slice (b :: le_bytes w value ++ rest) 1 (1 + w) = le_bytes w value.
Proof. apply (slice_app_mid [b]); [done|]. by rewrite le_bytes_length. Qed.

Lemma decode_varuint_long (b : byte) w value rest :
  (length (b :: le_bytes w value ++ rest) <? 1 + w)%nat = false.
Proof. apply Nat.ltb_ge. rewrite length_cons, length_app, le_bytes_length. lia. Qed.

(** A value is encoded in [varuint_size] bytes and decoded back, whatever
    follows it. *)
Theorem varuint_roundtrip value rest :
  (value <= u64_max)%N ->
  length (encode_varuint value) = varuint_size value /\
  decode_varuint (encode_varuint value ++ rest) = Ok value.
Proof.
  intros Hv. unfold encode_varuint, varuint_size.
  destruct (value <? 0xfd)%N eqn:E1; bool_hyps; [|destruct (value <=? 0xffff)%N eqn:E2; bool_hyps;
    [|destruct (value <=? 0xffffffff)%N eqn:E3; bool_hyps]];
    (split; [by rewrite ?length_cons, ?le_bytes_length|]); cbn [app].
  - unfold decode_varuint. rewrite byte_to_of_N, N.mod_small by lia.
    by rewrite (proj2 (N.ltb_lt value 0xfd)).
  - change (decode_varuint (xfd :: le_bytes 2 value ++ rest)) with
      (if (length (xfd :: le_bytes 2 value ++ rest) <? 1 + 2)%nat then Err VaruintDecodingError
       else Ok (le_value (slice (xfd :: le_bytes 2 value ++ rest) 1 (1 + 2) ++ replicate 6 x00))).
    rewrite decode_varuint_long, decode_varuint_prefix, le_value_zeros, le_value_bytes by (cbn; lia). done.
  - change (decode_varuint (xfe :: le_bytes 4 value ++ rest)) with
      (if (length (xfe :: le_bytes 4 value ++ rest) <? 1 + 4)%nat then Err VaruintDecodingError
       else Ok (le_value (slice (xfe :: le_bytes 4 value ++ rest) 1 (1 + 4) ++ replicate 4 x00))).
    rewrite decode_varuint_long, decode_varuint_prefix, le_value_zeros, le_value_bytes by (cbn; lia). done.
  - change (decode_varuint (xff :: le_bytes 8 value ++ rest)) with
      (if (length (xff :: le_bytes 8 value ++ rest) <? 1 + 8)%nat then Err VaruintDecodingError
       else Ok (le_value (slice (xff :: le_bytes 8 value ++ rest) 1 (1 + 8)))).
    rewrite decode_varuint_long, decode_varuint_prefix, le_value_bytes by (unfold u64_max in *; cbn; lia). done.
Qed.

(** What decodes is a [u64]; no input makes the decoder panic. *)
Lemma decode_varuint_returns data : returns (decode_varuint data) = true.
Proof. unfold decode_varuint. destruct data as [|b data]; [done|]. repeat case_match; done. Qed.

Lemma decode_varuint_bound data v : decode_varuint data = Ok v -> (v <= u64_max)%N.
Proof.
  assert (forall bs : bytes, (length bs <= 8)%nat -> (le_value bs <= u64_max)%N) as Hb.
  { intros bs Hl. pose proof (le_value_bound bs) as H.
    assert (256 ^ N.of_nat (length bs) <= 256 ^ 8)%N by (apply N.pow_le_mono_r; lia).
    change (256 ^ 8)%N with 18446744073709551616%N in *. unfold u64_max. lia. }
  unfold decode_varuint. destruct data as [|b data]; [done|].
  pose proof (byte_to_N_lt b).
  repeat case_match; intros E; simplify_eq; bool_hyps; rewrite ?le_value_zeros;
    solve [apply Hb; rewrite ?length_app, slice_length by (cbn [length] in *; lia); cbn; lia | unfold u64_max; lia].
Qed.

(** ** [binary_helpers.rs] *)

(** [chunks_exact(4)]: the remainder is dropped. *)
Fixpoint chunks_exact4 (bs : bytes) : list bytes :=
  match bs with
  | a :: b :: c :: d :: bs => [a; b; c; d] :: chunks_exact4 bs
  | _ => []
  end.
Definition bytes_to_u32_vec_le (bs : bytes) : list N := le_value <$> chunks_exact4 bs.
Definition bytes_to_u32_vec_be (bs : bytes) : list N := be_value <$> chunks_exact4 bs.
Definition u32_vec_to_bytes_be (u32s : list N) : bytes := u32s ≫= be_bytes 4.

(** [array[index]] *)
Definition at_index (array : bytes) (i : nat) : outcome N :=
  Byte.to_N <$> expect (array !! i) "index out of bounds".

Definition read_u32_be_at (array : bytes) (index : nat) : outcome N :=
  a ← at_index array index;
  b ← at_index array (index + 1);
  c ← at_index array (index + 2);
  d ← at_index array (index + 3);
  Ok (N.shiftl a 24 + N.shiftl b 16 + N.shiftl c 8 + d)%N.

Definition read_u32_le_at (array : bytes) (index : nat) : outcome N :=
  d ← at_index array (index + 3);
  c ← at_index array (index + 2);
  b ← at_index array (index + 1);
  a ← at_index array index;
  Ok (N.shiftl d 24 + N.shiftl c 16 + N.shiftl b 8 + a)%N.

(** [result |= (bytes[offset + i] as u64) << (i * 8)] for [i] in [0..n]. *)
Fixpoint read_le_loop (bs : bytes) (offset : nat) (idx : list nat) (result : N) : outcome N :=
  match idx with
  | [] => Ok result
  | i :: idx =>
      b ← at_index bs (offset + i);
      read_le_loop bs offset idx (N.lor result (N.shiftl b (N.of_nat (i * 8))))
  end.
Definition read_u48_from_bytes_le (bs : bytes) (offset : nat) : outcome N := read_le_loop bs offset (seq 0 6) 0.
Definition read_u56_from_bytes_le (bs : bytes) (offset : nat) : outcome N := read_le_loop bs offset (seq 0 7) 0.

Lemma chunks_exact4_u32 (u32s : list N) : chunks_exact4 (u32s ≫= be_bytes 4) = be_bytes 4 <$> u32s.
Proof.
  induction u32s as [|u u32s IH]; [done|]. rewrite bind_cons. cbn [fmap list_fmap]. rewrite <- IH.
  pose proof (be_bytes_length 4 u) as Hl. destruct (be_bytes 4 u) as [|a [|b [|c [|d [|]]]]]; done.
Qed.

(** The big-endian conversions are inverse, up to the dropped remainder. *)
Lemma u32_vec_roundtrip (u32s : list N) :
  Forall (fun u => u <= u32_max)%N u32s -> bytes_to_u32_vec_be (u32_vec_to_bytes_be u32s) = u32s.
Proof.
  intros Hu. unfold bytes_to_u32_vec_be, u32_vec_to_bytes_be. rewrite chunks_exact4_u32.
  induction Hu as [|u u32s Hu _ IH]; [done|]. rewrite !fmap_cons. f_equal; [|exact IH].
  apply be_value_bytes. unfold u32_max in *. cbn. lia.
Qed.

(** The indexed reads are the endian decoders of a slice. *)
Lemma read_u32_le_at_spec array i :
  i + 4 <= length array -> read_u32_le_at array i = Ok (le_value (slice array i (i + 4))).
Proof.
  intros Hl. unfold read_u32_le_at, at_index, slice. replace (i + 4 - i) with 4 by lia.
  rewrite <- (lookup_drop array i 3), <- (lookup_drop array i 2), <- (lookup_drop array i 1).
  replace (array !! i) with (drop i array !! 0) by (rewrite lookup_drop; f_equal; lia).
  assert (4 <= length (drop i array)) as Hd by (rewrite length_drop; lia).
  destruct (drop i array) as [|a [|b [|c [|d l]]]]; cbn in Hd; try lia.
  cbn -[N.mul N.add]. f_equal. rewrite !N.shiftl_mul_pow2, take_0.
  cbn [le_value]. change (2 ^ 24)%N with 16777216%N. change (2 ^ 16)%N with 65536%N. change (2 ^ 8)%N with 256%N. lia.
Qed.

Lemma read_le_loop_spec bs offset n :
  offset + n <= length bs ->
  read_le_loop bs offset (seq 0 n) 0 = Ok (le_value (slice bs offset (offset + n))).
Proof.
  assert (forall k m result, (offset + k + m <= length bs)%nat -> (result < 2 ^ N.of_nat (k * 8))%N ->
    read_le_loop bs offset (seq k m) result =
    Ok (result + 2 ^ N.of_nat (k * 8) * le_value (slice bs (offset + k)%nat (offset + k + m)%nat))%N) as H.
  { intros k m. revert k. induction m as [|m IH]; intros k result Hl Hr.
    - cbn. unfold slice. rewrite Nat.add_0_r, Nat.sub_diag, take_0. cbn. f_equal. lia.
    - cbn [seq read_le_loop]. unfold at_index.
      destruct (lookup_lt_is_Some_2 bs (offset + k)) as [b Hb]; [lia|]. rewrite Hb. cbn [expect fmap outcome_fmap mbind outcome_bind].
      pose proof (byte_to_N_lt b) as Hlt.
      assert (N.lor result (N.shiftl (Byte.to_N b) (N.of_nat (k * 8))) =
        result + Byte.to_N b * 2 ^ N.of_nat (k * 8))%N as ->.
      { rewrite <- N.shiftl_mul_pow2. symmetry.
        enough (N.land result (N.shiftl (Byte.to_N b) (N.of_nat (k * 8))) = 0)%N as Hz
          by (rewrite N.add_nocarry_lxor by done; by apply N.lxor_lor).
        apply N.bits_inj_0. intros j. rewrite N.land_spec.
        destruct (N.lt_ge_cases j (N.of_nat (k * 8))) as [?|?].
        - by rewrite N.shiftl_spec_low, andb_false_r.
        - rewrite (N.testbit_eqb result), N.div_small; [done|].
          eapply N.lt_le_trans; [exact Hr|]. by apply N.pow_le_mono_r. }
      rewrite IH; [|lia|].
      + f_equal. replace (S k * 8) with (8 + k * 8) by lia. rewrite Nat2N.inj_add, N.pow_add_r.
        unfold slice. replace (offset + k + S m - (offset + k)) with (S m) by lia.
        replace (offset + S k + m - (offset + S k)) with m by lia.
        erewrite (drop_S bs b (offset + k)) by done. cbn [take le_value].
        replace (S (offset + k)) with (offset + S k) by lia.
        change (2 ^ N.of_nat 8)%N with 256%N. lia.
      + replace (S k * 8) with (8 + k * 8) by lia. rewrite Nat2N.inj_add, N.pow_add_r.
        change (2 ^ N.of_nat 8)%N with 256%N. nia. }
  intros Hl. rewrite H by (cbn; lia). cbn [Nat.mul N.of_nat]. rewrite Nat.add_0_r. f_equal. lia.
Qed.

(** ** [math.rs] *)
Definition ceil_div_usize (a b : nat) : nat := (a + b - 1) / b.

Lemma ceil_div_spec a b : 0 < b -> a <= ceil_div_usize a b * b < a + b.
Proof.
  intros Hb. unfold ceil_div_usize.
  pose proof (Nat.div_mod (a + b - 1) b ltac:(lia)). pose proof (Nat.mod_upper_bound (a + b - 1) b ltac:(lia)). nia.
Qed.

(** ** Queue metadata

    [DrainQueueMetadata] and [HistoryQueueMetadata] are the same record with
    the same codec; the modules below give each its error messages. *)
Record QueueMetadata := Metadata { channel_id : N; checkpoint_id : N; item_id : N }.
Record WithQueueMetadata (T : Type) := WithMetadata { payload : T; metadata : QueueMetadata }.
Arguments WithMetadata {_} _ _.
Arguments payload {_} _.
Arguments metadata {_} _.

Definition metadata_wf (m : QueueMetadata) : Prop :=
  (m.(channel_id) <= u64_max /\ m.(checkpoint_id) <= u64_max /\ m.(item_id) <= u64_max)%N.

Definition metadata_bytes (m : QueueMetadata) : bytes :=
  be_bytes 8 m.(channel_id) ++ be_bytes 8 m.(checkpoint_id) ++ be_bytes 8 m.(item_id).
Definition metadata_of (bs : bytes) : QueueMetadata :=
  let channel_id := be_value (slice bs 0 8) in
  let checkpoint_id := be_value (slice bs 8 16) in
  let item_id := be_value (slice bs 16 24) in
  Metadata channel_id checkpoint_id item_id.

Definition metadata_from_bytes (expected_24 : string) (bs : bytes) : outcome QueueMetadata :=
  bail_when (negb (length bs =? 24)%nat) expected_24;;
  Ok (metadata_of bs).

Section with_metadata.
Context {T : Type} `{!KVQSerializable T}.
Definition with_metadata_to_bytes (x : WithQueueMetadata T) : outcome bytes :=
  payload_bytes ← to_bytes (payload x);
  Ok (metadata_bytes (metadata x) ++ payload_bytes).
Definition with_metadata_from_bytes (need_24 : string) (bs : bytes) : outcome (WithQueueMetadata T) :=
  bail_when (length bs <? 24)%nat need_24;;
  payload ← from_bytes (drop 24 bs);
  Ok (WithMetadata payload (metadata_of bs)).
End with_metadata.

Module DrainQueue.
Definition to_bytes (m : QueueMetadata) : outcome bytes := Ok (metadata_bytes m).
Definition from_bytes : bytes -> outcome QueueMetadata :=
  metadata_from_bytes "expected 24 bytes when deserializing DrainQueueMetadata, got {}".
Definition new_params {T} (channel_id checkpoint_id item_id : N) (payload : T) : WithQueueMetadata T :=
  WithMetadata payload (Metadata channel_id checkpoint_id item_id).
Definition with_to_bytes {T} `{!KVQSerializable T} : WithQueueMetadata T -> outcome bytes := with_metadata_to_bytes.
Definition with_from_bytes {T} `{!KVQSerializable T} : bytes -> outcome (WithQueueMetadata T) :=
  with_metadata_from_bytes "not enough bytes for deserializing WithDrainQueueMetadata<T>, need at least 24, got {}".
End DrainQueue.

Module HistoryQueue.
Definition to_bytes (m : QueueMetadata) : outcome bytes := Ok (metadata_bytes m).
Definition from_bytes : bytes -> outcome QueueMetadata :=
  metadata_from_bytes "expected 24 bytes when deserializing HistoryQueueMetadata, got {}".
Definition new_params {T} (channel_id checkpoint_id item_id : N) (payload : T) : WithQueueMetadata T :=
  WithMetadata payload (Metadata channel_id checkpoint_id item_id).
Definition with_to_bytes {T} `{!KVQSerializable T} : WithQueueMetadata T -> outcome bytes := with_metadata_to_bytes.
Definition with_from_bytes {T} `{!KVQSerializable T} : bytes -> outcome (WithQueueMetadata T) :=
  with_metadata_from_bytes "not enough bytes for deserializing WithHistoryQueueMetadata<T>, need at least 24, got {}".
End HistoryQueue.

Lemma metadata_bytes_length m : length (metadata_bytes m) = 24.
Proof. unfold metadata_bytes. by rewrite !length_app, !be_bytes_length. Qed.

Lemma metadata_of_bytes m rest : metadata_wf m -> metadata_of (metadata_bytes m ++ rest) = m.
Proof.
  intros (Hc & Hk & Hi). destruct m as [c k i]. unfold metadata_of, metadata_bytes. cbn [channel_id checkpoint_id item_id] in *.
  rewrite <- !app_assoc.
  rewrite (slice_app_l (be_bytes 8 c) _ 8) by apply be_bytes_length.
  rewrite (slice_app_mid (be_bytes 8 c) (be_bytes 8 k) _ 8 16) by (by rewrite ?be_bytes_length).
  rewrite (app_assoc (be_bytes 8 c)).
  rewrite (slice_app_mid (be_bytes 8 c ++ be_bytes 8 k) (be_bytes 8 i) _ 16 24)
    by (by rewrite ?length_app, ?be_bytes_length).
  unfold u64_max in *. by rewrite !be_value_bytes by (cbn; lia).
Qed.

(** The metadata, alone or in front of a payload, is read back. *)
Lemma metadata_roundtrip m e : metadata_wf m -> metadata_from_bytes e (metadata_bytes m) = Ok m.
Proof.
  intros Hm. unfold metadata_from_bytes. rewrite metadata_bytes_length.
  cbn [Nat.eqb negb bail_when mbind outcome_bind]. f_equal.
  rewrite <- (app_nil_r (metadata_bytes m)). by apply metadata_of_bytes.
Qed.

Lemma with_metadata_roundtrip {T} `{SerializableLaws T} (x : WithQueueMetadata T) e :
  metadata_wf (metadata x) -> valid (payload x) ->
  exists bs, with_metadata_to_bytes x = Ok bs /\ with_metadata_from_bytes e bs = Ok x.
Proof.
  intros Hm (pb & Hto & Hfrom)%from_to_bytes. destruct x as [p m]. cbn [payload metadata] in *.
  exists (metadata_bytes m ++ pb). unfold with_metadata_to_bytes, with_metadata_from_bytes.
  cbn [payload metadata]. rewrite Hto. split; [done|].
  rewrite (proj2 (Nat.ltb_ge _ 24)) by (rewrite length_app, metadata_bytes_length; lia).
  cbn [bail_when mbind outcome_bind].
  rewrite drop_app_length' by (by rewrite metadata_bytes_length). rewrite Hfrom. cbn [mbind outcome_bind].
  by rewrite metadata_of_bytes.
Qed.

(** ** Fixed-width hashes: [Hash256], [Hash192] and [Hash160] *)
Definition hash_to_bytes (h : bytes) : outcome bytes := Ok h.
Definition hash_from_bytes (w : nat) (expected : string) (bs : bytes) : outcome bytes :=
  bail_when (negb (length bs =? w)%nat) expected;; Ok bs.
Definition hash256_from_bytes : bytes -> outcome bytes :=
  hash_from_bytes 32 "expected 32 bytes for deserializing Hash256, got {} bytes".
Definition hash192_from_bytes : bytes -> outcome bytes :=
  hash_from_bytes 24 "expected 24 bytes for deserializing Hash192, got {} bytes".
Definition hash160_from_bytes : bytes -> outcome bytes :=
  hash_from_bytes 20 "expected 20 bytes for deserializing Hash160, got {} bytes".
Definition hash_is_zero (h : bytes) : bool := forallb (fun x => (Byte.to_N x =? 0)%N) h.
Definition hash_reversed (h : bytes) : bytes := (fun i => nth (31 - i) h x00) <$> seq 0 32.
Definition hash_xor (a b : bytes) : bytes :=
  (fun i => byte_of_N (N.lxor (Byte.to_N (nth i a x00)) (Byte.to_N (nth i b x00)))) <$> seq 0 32.
Definition to_le_u64_x4 (h : bytes) : list N :=
  [le_value (slice h 0 8); le_value (slice h 8 16); le_value (slice h 16 24); le_value (slice h 24 32)].

Lemma hash_roundtrip w e h bs : hash_from_bytes w e bs = Ok h <-> bs = h /\ length h = w.
Proof.
  unfold hash_from_bytes. destruct (length bs =? w)%nat eqn:E; bool_hyps; cbn; split; intros H; simplify_eq.
  - done.
  - f_equal. by destruct H.
  - destruct H as [-> ?]. done.
Qed.

Lemma hash_reversed_involutive h : length h = 32 -> hash_reversed (hash_reversed h) = h.
Proof. intros H. unfold hash_reversed. do 32 (destruct h as [|? h]; [done|]). by destruct h. Qed.

(** [a ^ h ^ h = a] *)
Lemma byte_xor_self (x y : byte) :
  byte_of_N (N.lxor (Byte.to_N (byte_of_N (N.lxor (Byte.to_N x) (Byte.to_N y)))) (Byte.to_N y)) = x.
Proof.
  rewrite byte_to_of_N, N.mod_small.
  - by rewrite N.lxor_assoc, N.lxor_nilpotent, N.lxor_0_r, byte_of_to_N.
  - pose proof (byte_to_N_lt x). pose proof (byte_to_N_lt y).
    destruct (decide (N.lxor (Byte.to_N x) (Byte.to_N y) = 0)%N) as [->|Hne]; [lia|].
    apply (N.log2_lt_pow2 _ 8); [lia|].
    eapply N.le_lt_trans; [apply N.log2_lxor|].
    apply N.max_lub_lt; (destruct (decide (Byte.to_N x = 0)%N) as [Ex|], (decide (Byte.to_N y = 0)%N) as [Ey|];
      rewrite ?Ex, ?Ey; try (cbn; lia); apply N.log2_lt_pow2; change (2 ^ 8)%N with 256%N; lia).
Qed.

Lemma nth_seq_id (a : bytes) : length a = 32 -> (fun i => nth i a x00) <$> seq 0 32 = a.
Proof. intros H. do 32 (destruct a as [|? a]; [done|]). by destruct a. Qed.

Lemma hash_xor_self h a : length a = 32 -> hash_xor (hash_xor a h) h = a.
Proof.
  intros Ha. rewrite <- (nth_seq_id a Ha) at 2. unfold hash_xor. apply list_fmap_ext.
  intros j i [-> Hj]%lookup_seq. cbn [Nat.add].
  assert (((fun i => byte_of_N (N.lxor (Byte.to_N (nth i a x00)) (Byte.to_N (nth i h x00)))) <$> seq 0 32) !! j =
    Some (byte_of_N (N.lxor (Byte.to_N (nth j a x00)) (Byte.to_N (nth j h x00))))) as E
    by (by rewrite list_lookup_fmap, lookup_seq_lt).
  rewrite (nth_lookup_Some _ _ x00 _ E). apply byte_xor_self.
Qed.

(** ** Scrypt proofs ([data/scrypt_proof.rs])

    The input is an 80-byte block header; the output is the header, the scrypt
    hash and a 260-byte Groth16 proof, stored one after the other. *)
Record DogeBlockScryptProofInput := mkScryptInput { input_block_header : bytes }.
Record DogeBlockScryptProofOutput := mkScryptOutput {
  output_block_header : bytes;
  scrypt_hash : bytes;
  groth16_proof : bytes;
}.

Definition scrypt_input_to_bytes (p : DogeBlockScryptProofInput) : outcome bytes :=
  Ok p.(input_block_header).
Definition scrypt_input_from_bytes (bs : bytes) : outcome DogeBlockScryptProofInput :=
  bail_when (negb (length bs =? 80)%nat)
    "expected 80 bytes for deserializing DogeBlockScryptProofInput, got {} bytes" ;;
  Ok (mkScryptInput bs).

Definition scrypt_output_to_bytes (p : DogeBlockScryptProofOutput) : outcome bytes :=
  Ok (p.(output_block_header) ++ p.(scrypt_hash) ++ p.(groth16_proof)).
Definition scrypt_output_from_bytes (bs : bytes) : outcome DogeBlockScryptProofOutput :=
  bail_when (negb (length bs =? 80 + 32 + 260)%nat)
    "expected 372 bytes for deserializing DogeBlockScryptProofOutput, got {} bytes" ;;
  Ok (mkScryptOutput (slice bs 0 80) (slice bs 80 112) (slice bs 112 372)).

Module ScryptInput.
Definition new (block_header : bytes) : DogeBlockScryptProofInput := mkScryptInput block_header.
Definition to_fixed_bytes (p : DogeBlockScryptProofInput) : bytes := p.(input_block_header).
End ScryptInput.

(** [QBTCHash256Hasher] of the light client. *)
Class BytesHasher := { hash_bytes : bytes -> bytes }.
Definition get_block_hash `{!BytesHasher} (p : DogeBlockScryptProofOutput) : bytes := hash_bytes p.(output_block_header).

#[export] Instance scrypt_input_serializable : KVQSerializable DogeBlockScryptProofInput :=
  {| to_bytes := scrypt_input_to_bytes; from_bytes := scrypt_input_from_bytes |}.
#[export] Instance scrypt_output_serializable : KVQSerializable DogeBlockScryptProofOutput :=
  {| to_bytes := scrypt_output_to_bytes; from_bytes := scrypt_output_from_bytes |}.

#[export] Program Instance scrypt_input_laws : SerializableLaws DogeBlockScryptProofInput :=
  {| valid p := length p.(input_block_header) = 80 |}.
Next Obligation.
  intros [h] Hh. eexists. split; [done|]. cbn in *. unfold scrypt_input_from_bytes.
  by rewrite (proj2 (Nat.eqb_eq _ _) Hh).
Qed.

#[export] Program Instance scrypt_output_laws : SerializableLaws DogeBlockScryptProofOutput :=
  {| valid p := length p.(output_block_header) = 80 /\ length p.(scrypt_hash) = 32 /\
                length p.(groth16_proof) = 260 |}.
Next Obligation.
  intros [h s g] (Hh & Hs & Hg). cbn in *. eexists. split; [done|].
  cbn [output_block_header scrypt_hash groth16_proof].
  unfold scrypt_output_from_bytes. rewrite !length_app, Hh, Hs, Hg.
  cbn [Nat.eqb Nat.add negb bail_when mbind outcome_bind].
  rewrite (slice_app_l h (s ++ g) 80 Hh), (slice_app_mid h s g 80 112) by lia.
  rewrite <- (app_nil_r g) at 1. rewrite app_assoc, (slice_app_mid (h ++ s) g [] 112 372); [done|..];
    rewrite ?length_app; lia.
Qed.

(** What is accepted has the widths of its parts, and is what would be stored. *)
Lemma scrypt_output_from_bytes_Ok bs p :
  scrypt_output_from_bytes bs = Ok p -> valid p /\ scrypt_output_to_bytes p = Ok bs.
Proof.
  unfold scrypt_output_from_bytes. intros E. inv_ok.
  apply negb_false_iff, Nat.eqb_eq in Hok. cbn [valid scrypt_output_laws].
  cbn [output_block_header scrypt_hash groth16_proof]. rewrite !slice_length by lia.
  split; [lia|]. unfold scrypt_output_to_bytes, slice. cbn [output_block_header scrypt_hash groth16_proof].
  f_equal. rewrite drop_0, (take_ge (drop 112 bs)) by (rewrite length_drop; lia).
  replace (drop 112 bs) with (drop 32 (drop 80 bs)) by (by rewrite drop_drop). by rewrite !take_drop.
Qed.
