(* ===== verification/QueueTraits.v ===== *)
(** * The checkpoint queues

    The traits of [job/drain_queue.rs] and [job/history_queue.rs]: items that
    carry their queue metadata, and the emitters and consumers of the two
    queues.  A method with [&self] is a computation of the world the queue lives
    in; one with [&mut self] also has the queue itself as state.  The traits that
    only combine an emitter and a consumer are records of both, implemented for
    whatever has the two, as the blanket implementations do. *)
From S2P Require Import Prelude Effects KvqBase KvqStore CoreUtils.

(** ** [config/network_constants.rs]: the channels of the queues *)
Module NetworkConstants.
Local Open Scope N_scope.
Definition BLOCK_API_REGISTER_USER_CHANNEL_ID : N := 0xCC524547555352.
Definition COORD_API_DEPLOY_CONTRACT_CHANNEL_ID : N := 0xCC444550434F4E.
Definition COORD_API_GUTA_FROM_REALMS_CHANNEL_ID : N := 0xCC475554414652.
Definition REALM_API_GUTA_FROM_USER_CHANNEL_ID : N := 0x22475554414652.
Definition REALM_API_UPDATE_CONTRACT_STATE_TREE_CHANNEL_ID : N := 0x22435354555044.
Definition QED_CHECKPOINT_SYNC_INFO_COMPACT_DRAIN_QUEUE_CHANNEL : N := 0x901337123.
Definition CST_USER_UPDATE_CHANNEL_ID : N := 0x101337.

(** The parameters of the light client's state and trackers. *)
Definition QDOGE_BRIDGE_REQUIRED_CONFIRMATIONS : nat := 1.
Definition QDOGE_BRIDGE_BLOCK_HASH_CACHE_SIZE : nat := 32.
Definition QDOGE_BRIDGE_BLOCK_TREE_HEIGHT : nat := 32.

Definition channels : list N :=
  [BLOCK_API_REGISTER_USER_CHANNEL_ID; COORD_API_DEPLOY_CONTRACT_CHANNEL_ID;
   COORD_API_GUTA_FROM_REALMS_CHANNEL_ID; REALM_API_GUTA_FROM_USER_CHANNEL_ID;
   REALM_API_UPDATE_CONTRACT_STATE_TREE_CHANNEL_ID; QED_CHECKPOINT_SYNC_INFO_COMPACT_DRAIN_QUEUE_CHANNEL;
   CST_USER_UPDATE_CHANNEL_ID].

(** No two queues share a channel, and every channel fits its eight bytes of a tag. *)
Lemma channels_distinct : NoDup channels /\ Forall (fun c => metadata_wf (Metadata c 0 0)) channels.
Proof.
  split; [by apply (bool_decide_unpack _); vm_compute|].
  apply (bool_decide_unpack _). by vm_compute.
Qed.
End NetworkConstants.

(** ** The drain queue *)
Module DrainQueueTraits.

Class DrainQueueMetadataTagged (T : Type) := { get_dq_metadata : T -> QueueMetadata }.

(** An item of the queue: serialisable and tagged. *)
Class DQSerializable (T : Type) := {
  dq_serializable : KVQSerializable T;
  dq_tagged : DrainQueueMetadataTagged T;
}.
#[export] Instance dq_serializable_all {T} `{!KVQSerializable T, !DrainQueueMetadataTagged T} : DQSerializable T :=
  {| dq_serializable := _; dq_tagged := _ |}.

(** [WithDrainQueueMetadata<T>] is one, for a serialisable [T]. *)
Definition new {T} (payload : T) (metadata : QueueMetadata) : WithQueueMetadata T := WithMetadata payload metadata.
#[export] Instance with_metadata_tagged {T} : DrainQueueMetadataTagged (WithQueueMetadata T) :=
  {| get_dq_metadata x := metadata x |}.
#[export] Instance with_metadata_serializable {T} `{!KVQSerializable T} : KVQSerializable (WithQueueMetadata T) :=
  {| to_bytes := DrainQueue.with_to_bytes; from_bytes := DrainQueue.with_from_bytes |}.

Class CheckpointDrainQueueEmitterAsyncImm (W Q : Type) := {
  cdq_push_imm : forall {T} `{!DQSerializable T}, Q -> T -> prog W ();
}.
Class CheckpointDrainQueueConsumerAsyncImm (W Q : Type) := {
  cdq_drain_imm : forall {T} `{!DQSerializable T}, Q -> N -> N -> prog W (list T);
}.
Class CheckpointDrainQueueAsyncImm (W Q : Type) := {
  async_imm_emitter : CheckpointDrainQueueEmitterAsyncImm W Q;
  async_imm_consumer : CheckpointDrainQueueConsumerAsyncImm W Q;
}.
#[export] Instance drain_queue_async_imm {W Q}
    `{!CheckpointDrainQueueEmitterAsyncImm W Q, !CheckpointDrainQueueConsumerAsyncImm W Q} :
    CheckpointDrainQueueAsyncImm W Q := {| async_imm_emitter := _; async_imm_consumer := _ |}.

Class CheckpointDrainQueueEmitterAsyncMut (W Q : Type) := {
  cdq_push_mut : forall {T} `{!DQSerializable T}, T -> prog (W * Q) ();
}.
Class CheckpointDrainQueueConsumerAsyncMut (W Q : Type) := {
  cdq_drain_mut : forall {T} `{!DQSerializable T}, N -> N -> prog (W * Q) (list T);
}.
Class CheckpointDrainQueueAsyncMut (W Q : Type) := {
  async_mut_emitter : CheckpointDrainQueueEmitterAsyncMut W Q;
  async_mut_consumer : CheckpointDrainQueueConsumerAsyncMut W Q;
}.
#[export] Instance drain_queue_async_mut {W Q}
    `{!CheckpointDrainQueueEmitterAsyncMut W Q, !CheckpointDrainQueueConsumerAsyncMut W Q} :
    CheckpointDrainQueueAsyncMut W Q := {| async_mut_emitter := _; async_mut_consumer := _ |}.

Class CheckpointDrainQueueEmitterSyncImm (W Q : Type) := {
  cdq_push_imm_sync : forall {T} `{!DQSerializable T}, Q -> T -> prog W ();
}.
Class CheckpointDrainQueueConsumerSyncImm (W Q : Type) := {
  cdq_drain_imm_sync : forall {T} `{!DQSerializable T}, Q -> N -> N -> prog W (list T);
}.
Class CheckpointDrainQueueSyncImm (W Q : Type) := {
  sync_imm_emitter : CheckpointDrainQueueEmitterSyncImm W Q;
  sync_imm_consumer : CheckpointDrainQueueConsumerSyncImm W Q;
}.
#[export] Instance drain_queue_sync_imm {W Q}
    `{!CheckpointDrainQueueEmitterSyncImm W Q, !CheckpointDrainQueueConsumerSyncImm W Q} :
    CheckpointDrainQueueSyncImm W Q := {| sync_imm_emitter := _; sync_imm_consumer := _ |}.

Class CheckpointDrainQueueEmitterSyncMut (W Q : Type) := {
  cdq_push_mut_sync : forall {T} `{!DQSerializable T}, T -> prog (W * Q) ();
}.
Class CheckpointDrainQueueConsumerSyncMut (W Q : Type) := {
  cdq_drain_mut_sync : forall {T} `{!DQSerializable T}, N -> N -> prog (W * Q) (list T);
}.
Class CheckpointDrainQueueSyncMut (W Q : Type) := {
  sync_mut_emitter : CheckpointDrainQueueEmitterSyncMut W Q;
  sync_mut_consumer : CheckpointDrainQueueConsumerSyncMut W Q;
}.
#[export] Instance drain_queue_sync_mut {W Q}
    `{!CheckpointDrainQueueEmitterSyncMut W Q, !CheckpointDrainQueueConsumerSyncMut W Q} :
    CheckpointDrainQueueSyncMut W Q := {| sync_mut_emitter := _; sync_mut_consumer := _ |}.

(** An item decoded from what another was encoded to has its tag. *)
Lemma decoded_tag {T} `{SerializableLaws T} (x : WithQueueMetadata T) :
  metadata_wf (metadata x) -> valid (payload x) ->
  exists bs y, to_bytes x = Ok bs /\ from_bytes bs = Ok y /\ get_dq_metadata y = get_dq_metadata x.
Proof.
  intros Hm Hp. destruct (with_metadata_roundtrip x
    "not enough bytes for deserializing WithDrainQueueMetadata<T>, need at least 24, got {}" Hm Hp) as (bs & E1 & E2).
  by exists bs, x.
Qed.
End DrainQueueTraits.

(** ** The history queue *)
Module HistoryQueueTraits.

Class HistoryQueueMetadataTagged (T : Type) := { get_hq_metadata : T -> QueueMetadata }.

Class HQSerializable (T : Type) := {
  hq_serializable : KVQSerializable T;
  hq_tagged : HistoryQueueMetadataTagged T;
}.
#[export] Instance hq_serializable_all {T} `{!KVQSerializable T, !HistoryQueueMetadataTagged T} : HQSerializable T :=
  {| hq_serializable := _; hq_tagged := _ |}.

Definition new {T} (payload : T) (metadata : QueueMetadata) : WithQueueMetadata T := WithMetadata payload metadata.
#[export] Instance with_metadata_tagged {T} : HistoryQueueMetadataTagged (WithQueueMetadata T) :=
  {| get_hq_metadata x := metadata x |}.
#[export] Instance with_metadata_serializable {T} `{!KVQSerializable T} : KVQSerializable (WithQueueMetadata T) :=
  {| to_bytes := HistoryQueue.with_to_bytes; from_bytes := HistoryQueue.with_from_bytes |}.

Class CheckpointHistoryQueueEmitterAsyncImm (W Q : Type) := {
  chq_push_imm : forall {T} `{!HQSerializable T}, Q -> T -> prog W ();
}.
Class CheckpointHistoryQueueConsumerAsyncImm (W Q : Type) := {
  chq_listen_from_imm : forall {T} `{!HQSerializable T}, Q -> N -> N -> prog W (list T);
  wait_for_next_item_imm : forall {T} `{!HQSerializable T}, Q -> N -> N -> prog W T;
}.
Class CheckpointHistoryQueueAsyncImm (W Q : Type) := {
  async_imm_emitter : CheckpointHistoryQueueEmitterAsyncImm W Q;
  async_imm_consumer : CheckpointHistoryQueueConsumerAsyncImm W Q;
}.
#[export] Instance history_queue_async_imm {W Q}
    `{!CheckpointHistoryQueueEmitterAsyncImm W Q, !CheckpointHistoryQueueConsumerAsyncImm W Q} :
    CheckpointHistoryQueueAsyncImm W Q := {| async_imm_emitter := _; async_imm_consumer := _ |}.

Class CheckpointHistoryQueueEmitterAsyncMut (W Q : Type) := {
  chq_push_mut : forall {T} `{!HQSerializable T}, T -> prog (W * Q) ();
}.
(** Its first method has the name of the immutable consumer's. *)
Module ConsumerAsyncMut.
Class CheckpointHistoryQueueConsumerAsyncMut (W Q : Type) := {
  chq_listen_from_imm : forall {T} `{!HQSerializable T}, N -> N -> prog (W * Q) (list T);
  wait_for_next_item_mut : forall {T} `{!HQSerializable T}, N -> N -> prog (W * Q) T;
}.
End ConsumerAsyncMut.
Class CheckpointHistoryQueueAsyncMut (W Q : Type) := {
  async_mut_emitter : CheckpointHistoryQueueEmitterAsyncMut W Q;
  async_mut_consumer : ConsumerAsyncMut.CheckpointHistoryQueueConsumerAsyncMut W Q;
}.
#[export] Instance history_queue_async_mut {W Q}
    `{!CheckpointHistoryQueueEmitterAsyncMut W Q, !ConsumerAsyncMut.CheckpointHistoryQueueConsumerAsyncMut W Q} :
    CheckpointHistoryQueueAsyncMut W Q := {| async_mut_emitter := _; async_mut_consumer := _ |}.

Class CheckpointHistoryQueueEmitterSyncImm (W Q : Type) := {
  chq_push_imm_sync : forall {T} `{!HQSerializable T}, Q -> T -> prog W ();
}.
Class CheckpointHistoryQueueConsumerSyncImm (W Q : Type) := {
  chq_drain_imm_sync : forall {T} `{!HQSerializable T}, Q -> N -> prog W (list T);
}.
Class CheckpointHistoryQueueSyncImm (W Q : Type) := {
  sync_imm_emitter : CheckpointHistoryQueueEmitterSyncImm W Q;
  sync_imm_consumer : CheckpointHistoryQueueConsumerSyncImm W Q;
}.
#[export] Instance history_queue_sync_imm {W Q}
    `{!CheckpointHistoryQueueEmitterSyncImm W Q, !CheckpointHistoryQueueConsumerSyncImm W Q} :
    CheckpointHistoryQueueSyncImm W Q := {| sync_imm_emitter := _; sync_imm_consumer := _ |}.

Class CheckpointHistoryQueueEmitterSyncMut (W Q : Type) := {
  chq_push_mut_sync : forall {T} `{!HQSerializable T}, T -> prog (W * Q) ();
}.
Class CheckpointHistoryQueueConsumerSyncMut (W Q : Type) := {
  chq_drain_mut_sync : forall {T} `{!HQSerializable T}, N -> prog (W * Q) (list T);
}.
Class CheckpointHistoryQueueSyncMut (W Q : Type) := {
  sync_mut_emitter : CheckpointHistoryQueueEmitterSyncMut W Q;
  sync_mut_consumer : CheckpointHistoryQueueConsumerSyncMut W Q;
}.
#[export] Instance history_queue_sync_mut {W Q}
    `{!CheckpointHistoryQueueEmitterSyncMut W Q, !CheckpointHistoryQueueConsumerSyncMut W Q} :
    CheckpointHistoryQueueSyncMut W Q := {| sync_mut_emitter := _; sync_mut_consumer := _ |}.

Lemma decoded_history_tag {T} `{SerializableLaws T} (x : WithQueueMetadata T) :
  metadata_wf (metadata x) -> valid (payload x) ->
  exists bs y, to_bytes x = Ok bs /\ from_bytes bs = Ok y /\ get_hq_metadata y = get_hq_metadata x.
Proof.
  intros Hm Hp. destruct (with_metadata_roundtrip x
    "not enough bytes for deserializing WithHistoryQueueMetadata<T>, need at least 24, got {}" Hm Hp) as (bs & E1 & E2).
  by exists bs, x.
Qed.
End HistoryQueueTraits.
