(* ===== verification/Text.v ===== *)
(** * Fixed-width byte strings and their text

    The wrappers of [qed_dsol_bridge_core/src/data]: the hexadecimal forms of
    [hex_helpers.rs], [u8bytes.rs] and [base_types], the compressed public key
    of [secp256k1.rs] with its two serde visitors, the block state of
    [state.rs], the text of a job identifier ([job/id.rs]), and the shared
    handle of [job/history_queue.rs].  A serde
    format is an interface: what it shows of a value to the code that reads it. *)
From S2P Require Import Prelude External Instances KvqBase KvqStore KvqArc JobId CoreUtils.

(** ** What a serde format shows of a value *)
Inductive Shown :=
| ShownBytes (v : bytes)
| ShownSeq (next_elements : list (outcome byte))
| ShownOther.

Class SerdeFormat (F : Type) := {
  serialize_str : string -> F;
  deserialize_string : F -> outcome string;
  serialize_bytes : bytes -> F;
  deserialize_bytes : F -> Shown;
}.

(** Text comes back as it was; bytes come back as bytes (binary formats) or as
    a sequence of numbers (JSON). *)
Class SerdeFormatLaws (F : Type) `{!SerdeFormat F} := {
  string_comes_back s : deserialize_string (serialize_str s) = Ok s;
  bytes_come_back v : deserialize_bytes (serialize_bytes v) = ShownBytes v \/
                      deserialize_bytes (serialize_bytes v) = ShownSeq (Ok <$> v);
}.

(** [let mut array = [0u8; N]; array.copy_from_slice(&bytes)] *)
Definition array_from_slice (N : nat) (src : bytes) : outcome bytes :=
  copy_from_slice (replicate N x00) 0 N src.

Lemma array_from_slice_spec N src :
  array_from_slice N src = if decide (length src = N) then Ok src
    else Panic "copy_from_slice: source slice length does not match destination slice length".
Proof.
  unfold array_from_slice, copy_from_slice. rewrite Nat.sub_0_r.
  destruct (decide (length src = N)) as [<-|]; [|done].
  unfold splice. by rewrite drop_replicate, Nat.sub_diag, app_nil_r.
Qed.

(** ** [hex_helpers.rs] *)
Section hex_array.
Context {F : Type} `{!SerdeFormat F, !Hex}.

Definition hex_array_serialize (b : bytes) : F := serialize_str (hex_encode b).
Definition hex_array_deserialize (N : nat) (deserializer : F) : outcome bytes :=
  s ← deserialize_string deserializer;
  b ← hex_decode_ok s;
  bail_when (negb (length b =? N)%nat) "Expected {N} bytes, got {}" ;;
  array_from_slice N b.

Definition hex_array_32_deserialize : F -> outcome bytes := hex_array_deserialize 32.
Definition hex_array_80_deserialize : F -> outcome bytes := hex_array_deserialize 80.
End hex_array.

(** ** [CompressedPublicKey] *)
Module PublicKey.
Definition invalid_length : error := External "serde".

(** [ByteArrayVisitor::visit_bytes] *)
Definition visit_bytes (v : bytes) : outcome bytes :=
  if (length v =? 33)%nat then array_from_slice 33 v else Err invalid_length.

(** [ByteArrayVisitor::visit_seq]: one element for each place of the array. *)
Fixpoint fill (places : nat) (seq : list (outcome byte)) : outcome bytes :=
  match places with
  | O => Ok []
  | S places =>
      match seq with
      | [] => Err invalid_length
      | next :: seq => place ← next; arr ← fill places seq; Ok (place :: arr)
      end
  end.
Definition visit_seq : list (outcome byte) -> outcome bytes := fill 33.

Definition serialize {F} `{!SerdeFormat F} (key : bytes) : F := serialize_bytes key.
Definition deserialize {F} `{!SerdeFormat F} (deserializer : F) : outcome bytes :=
  match deserialize_bytes deserializer with
  | ShownBytes v => visit_bytes v
  | ShownSeq seq => visit_seq seq
  | ShownOther => Err (External "serde")
  end.

Definition new_from_slice (slice : bytes) : outcome bytes := array_from_slice 33 slice.
End PublicKey.

(** ** The text of hashes and byte vectors *)
Section texts.
Context `{!Hex}.

(** [Hash256::from_hex_string], and of the other widths: the length is asserted. *)
Definition from_hex_string (N : nat) (s : string) : outcome bytes :=
  b ← hex_decode_ok s;
  _ ← (if (length b =? N)%nat then Ok () else Panic "assertion `left == right` failed");
  array_from_slice N b.
Definition hash256_from_hex_string : string -> outcome bytes := from_hex_string 32.
Definition hash192_from_hex_string : string -> outcome bytes := from_hex_string 24.
Definition hash160_from_hex_string : string -> outcome bytes := from_hex_string 20.

Definition to_hex_string (h : bytes) : string := hex_encode h.
Definition to_reversed_hex_string (h : bytes) : string := hex_encode (rev h).

(** [U8Bytes] *)
Definition u8bytes_from_hex_string (s : string) : outcome bytes := hex_decode_ok s.
Definition u8bytes_to_str (b : bytes) : string := hex_encode b.

(** The job identifier's text: [QProvingJobDataIDSerializedWrapped] reads it. *)
Definition job_id_to_hex_string (self : QProvingJobDataID) : string := hex_encode (to_fixed_bytes self).
Definition wrapped_from_hex_string (s : string) : outcome bytes := from_hex_string 24 s.
End texts.

(** ** [IBCBlockState], over the borsh codec of the chain state *)
Class Borsh (T : Type) := { borsh_vec : T -> option bytes; borsh_from : bytes -> option T }.

Record IBCBlockState (T : Type) := mkBlockState { chain_state : T }.
Arguments mkBlockState {_} _.
Arguments chain_state {_} _.

#[export] Instance block_state_serializable {T} `{!Borsh T} : KVQSerializable (IBCBlockState T) := {|
  to_bytes s := ok_or (borsh_vec s.(chain_state)) (External "borsh");
  from_bytes b :=
    match borsh_from b with
    | Some x => Ok (mkBlockState x)
    | None => Err (Anyhow "{:?}")
    end;
|}.

(** ** [QEDArcImmutableHistoryQueueWrapper]: the handle of [KvqArc], around a queue *)
Module HistoryWrapper.
Section wrapper.
Context {P : Type}.
Definition new : gmap nat (RwLock P) -> P -> KVQArcImmutableStoreWrapper P := ArcWrapper.new.
Definition dup : KVQArcImmutableStoreWrapper P -> KVQArcImmutableStoreWrapper P * KVQArcImmutableStoreWrapper P :=
  ArcWrapper.dup.
Definition write : KVQArcImmutableStoreWrapper P -> outcome P := ArcWrapper.write.
Definition read : KVQArcImmutableStoreWrapper P -> outcome P := ArcWrapper.read.
End wrapper.
End HistoryWrapper.

(** ** What the readers accept *)
Section theory.
Context {F : Type} `{!SerdeFormat F, !Hex}.

(** The reader of a fixed-width hex field never panics, and accepts the hex
    texts of exactly [N] bytes. *)
Theorem hex_array_accepts N (f : F) b :
  returns (deserialize_string f) = true ->
  returns (hex_array_deserialize N f) = true /\
  (hex_array_deserialize N f = Ok b <->
   exists s, deserialize_string f = Ok s /\ hex_decode s = Some b /\ length b = N).
Proof.
  unfold hex_array_deserialize, hex_decode_ok. destruct (deserialize_string f) as [s| | |]; intros Hf; try done.
  - cbn [mbind outcome_bind]. destruct (hex_decode s) as [c|] eqn:E; cbn [ok_or mbind outcome_bind].
    + destruct (length c =? N)%nat eqn:El; bool_hyps; cbn [negb bail_when mbind outcome_bind].
      * rewrite array_from_slice_spec, decide_True by done. split; [done|]. split.
        -- intros [= <-]. by exists s.
        -- intros (s' & [= <-] & E' & _). congruence.
      * split; [done|]. split; [done|]. intros (s' & [= <-] & E' & El'). congruence.
    + split; [done|]. split; [done|]. intros (s' & [= <-] & E' & _). congruence.
  - split; [done|]. split; [done|]. intros (s' & ? & _). done.
Qed.

Theorem hex_array_roundtrip `{!SerdeFormatLaws F, !HexLaws} N b :
  length b = N -> hex_array_deserialize N (hex_array_serialize b : F) = Ok b.
Proof.
  intros Hb. apply hex_array_accepts; unfold hex_array_serialize; rewrite string_comes_back; [done|].
  exists (hex_encode b). by rewrite hex_decode_encode.
Qed.

(** [visit_seq] reads as many elements as the array has places, and leaves the
    rest of the sequence to the format. *)
Lemma fill_Ok places arr rest :
  length arr = places -> PublicKey.fill places ((Ok <$> arr) ++ rest) = Ok arr.
Proof.
  revert arr. induction places as [|places IH]; intros [|x arr] [=]; [done|].
  cbn [PublicKey.fill fmap list_fmap app mbind outcome_bind]. by rewrite IH.
Qed.

Lemma fill_inv places seq arr :
  PublicKey.fill places seq = Ok arr -> exists rest, seq = (Ok <$> arr) ++ rest /\ length arr = places.
Proof.
  revert seq arr. induction places as [|places IH]; intros seq arr E; cbn [PublicKey.fill] in E.
  - apply Ok_inj in E as <-. by exists seq.
  - destruct seq as [|next seq]; [done|]. inv_ok. destruct (IH _ _ ltac:(eassumption)) as (rest & -> & <-).
    by exists rest.
Qed.

(** A public key survives any format, and what is accepted is 33 bytes: all of
    them where the format shows bytes, the first 33 where it shows a sequence. *)
Theorem public_key_codec `{!SerdeFormatLaws F} (key : bytes) :
  (length key = 33 -> PublicKey.deserialize (PublicKey.serialize key : F) = Ok key) /\
  (forall v, PublicKey.visit_bytes v = Ok key <-> v = key /\ length v = 33) /\
  (forall seq, PublicKey.visit_seq seq = Ok key <-> exists rest, seq = (Ok <$> key) ++ rest /\ length key = 33) /\
  (forall v, returns (PublicKey.visit_bytes v) = true).
Proof.
  assert (forall v, PublicKey.visit_bytes v = if (length v =? 33)%nat then Ok v else Err PublicKey.invalid_length) as Hv.
  { intros v. unfold PublicKey.visit_bytes. rewrite array_from_slice_spec.
    destruct (length v =? 33)%nat eqn:E; bool_hyps; [by rewrite decide_True|done]. }
  split_and!.
  - intros Hk. unfold PublicKey.deserialize, PublicKey.serialize. destruct (bytes_come_back key) as [-> | ->].
    + by rewrite Hv, Hk.
    + rewrite <- (app_nil_r (Ok <$> key)). by apply fill_Ok.
  - intros v. rewrite Hv. destruct (length v =? 33)%nat eqn:E; bool_hyps; split; intros Hk; try done.
    + by apply Ok_inj in Hk as <-.
    + by destruct Hk as [-> _].
    + by destruct Hk as [_ ?].
  - intros seq. split.
    + intros (rest & -> & Hk)%fill_inv. by exists rest.
    + intros (rest & -> & Hk). by apply fill_Ok.
  - intros v. rewrite Hv. by destruct (length v =? 33)%nat.
Qed.

(** [from_hex_string] decodes the texts of exactly [N] bytes, reports a text
    that is not hexadecimal, and panics on hexadecimal text of any other
    length, although it has an error to return. *)
Theorem from_hex_string_outcome N s :
  from_hex_string N s =
  match hex_decode s with
  | None => Err (External "hex")
  | Some b => if (length b =? N)%nat then Ok b else Panic "assertion `left == right` failed"
  end.
Proof.
  unfold from_hex_string, hex_decode_ok. destruct (hex_decode s) as [b|]; [|done].
  cbn [ok_or mbind outcome_bind]. destruct (length b =? N)%nat eqn:E; [|done].
  cbn [mbind outcome_bind]. rewrite array_from_slice_spec, decide_True; [done|by apply Nat.eqb_eq].
Qed.

(** The text of a hash is read back, and the reversed text is the reversed hash. *)
Theorem hash_text_roundtrip `{!HexLaws} h :
  length h = 32 ->
  hash256_from_hex_string (to_hex_string h) = Ok h /\
  hash256_from_hex_string (to_reversed_hex_string h) = Ok (hash_reversed h).
Proof.
  intros Hh. unfold hash256_from_hex_string, to_hex_string, to_reversed_hex_string.
  rewrite !from_hex_string_outcome, !hex_decode_encode, length_rev, Hh. cbn [Nat.eqb]. split; [done|]. f_equal.
  unfold hash_reversed. do 32 (destruct h as [|? h]; [done|]). by destruct h.
Qed.

(** The text of a job identifier is read back as the identifier. *)
Theorem job_id_text_roundtrip `{!HexLaws} id :
  id_wf id -> wrapped_from_hex_string (job_id_to_hex_string id) ≫= try_from_byte_vec = Ok id.
Proof.
  intros Hid. unfold wrapped_from_hex_string, job_id_to_hex_string.
  rewrite from_hex_string_outcome, hex_decode_encode, to_fixed_bytes_length. cbn [Nat.eqb mbind outcome_bind].
  by apply from_to_fixed_bytes.
Qed.
End theory.

(** A block state whose chain state borsh can encode is read back. *)
Section block_state.
Context {T : Type} `{!Borsh T}.
Context (borsh_comes_back : forall (x : T) b, borsh_vec x = Some b -> borsh_from b = Some x).

#[local] Instance block_state_laws : SerializableLaws (IBCBlockState T).
Proof.
  refine {| valid s := is_Some (borsh_vec s.(chain_state)) |}.
  intros [x] [b Hb]. exists b. cbn in *. rewrite Hb. split; [done|]. by rewrite (borsh_comes_back _ _ Hb).
Defined.
End block_state.
