(* ===== verification/WorkerTraits.v ===== *)
(** * Workers, scrypt proofs and block states

    The interfaces of [job/worker_queue.rs], [job/g16_scrypt_traits.rs],
    [data/state.rs] and the circuit provers of [job/traits.rs], with the data they
    pass and the dummy scrypt store.  A method with [&self] is a computation of
    the world; one with [&mut self] also has the object as state.  [serde]'s
    serialisability, Plonky2's proofs and circuit data and the light client's
    headers are parameters. *)
From S2P Require Import Prelude External Effects KvqBase KvqStore Chain JobId CoreUtils Text.

(** ** Worker events

    Methods of different traits share names: a module per trait. *)
Module WorkerEvents.
Module ReceiverAsync.
Class WorkerEventReceiverAsync (W Q : Type) := {
  wait_for_next_job_mut : prog (W * Q) QProvingJobDataID;
  enqueue_jobs_mut : list QProvingJobDataID -> prog (W * Q) ();
  notify_core_goal_completed_mut : QProvingJobDataID -> prog (W * Q) ();
  record_job_bench_mut : QProvingJobDataID -> N -> prog (W * Q) ();
}.
End ReceiverAsync.
Module ReceiverAsyncImm.
Class WorkerEventReceiverAsyncImm (W Q : Type) := {
  wait_for_next_job_imm : Q -> prog W QProvingJobDataID;
  enqueue_jobs_imm : Q -> list QProvingJobDataID -> prog W ();
  notify_core_goal_completed_imm : Q -> QProvingJobDataID -> prog W ();
}.
End ReceiverAsyncImm.
Module TransmitterAsync.
Class WorkerEventTransmitterAsync (W Q : Type) := {
  enqueue_jobs_mut : list QProvingJobDataID -> prog (W * Q) ();
  wait_for_block_proving_jobs_mut : N -> prog (W * Q) bool;
}.
End TransmitterAsync.
Module TransmitterAsyncImm.
Class WorkerEventTransmitterAsyncImm (W Q : Type) := {
  enqueue_jobs_imm : Q -> list QProvingJobDataID -> prog W ();
  wait_for_block_proving_jobs_imm : Q -> N -> prog W bool;
}.
End TransmitterAsyncImm.
Module ReceiverSync.
Class WorkerEventReceiverSync (W Q : Type) := {
  wait_for_next_job_mut : prog (W * Q) QProvingJobDataID;
  enqueue_jobs_mut : list QProvingJobDataID -> prog (W * Q) ();
  notify_core_goal_completed_mut : QProvingJobDataID -> prog (W * Q) ();
  record_job_bench_mut : QProvingJobDataID -> N -> prog (W * Q) ();
}.
End ReceiverSync.
Module TransmitterSync.
Class WorkerEventTransmitterSync (W Q : Type) := {
  enqueue_jobs_mut : list QProvingJobDataID -> prog (W * Q) ();
  wait_for_block_proving_jobs_mut : N -> prog (W * Q) bool;
}.
End TransmitterSync.
Module ReceiverSyncImm.
Class WorkerEventReceiverSyncImm (W Q : Type) := {
  wait_for_next_job_imm : Q -> prog W QProvingJobDataID;
  enqueue_jobs_imm : Q -> list QProvingJobDataID -> prog W ();
  notify_core_goal_completed_imm : Q -> QProvingJobDataID -> prog W ();
  record_job_bench_imm : Q -> QProvingJobDataID -> N -> prog W ();
}.
End ReceiverSyncImm.
Module TransmitterSyncImm.
Class WorkerEventTransmitterSyncImm (W Q : Type) := {
  enqueue_jobs_imm : Q -> list QProvingJobDataID -> prog W ();
  wait_for_block_proving_jobs_imm : Q -> N -> prog W bool;
}.
End TransmitterSyncImm.

(** A dispatcher sends any serialisable value; a listener is one, too. *)
Class ProvingDispatcher (Serialize : Type -> Prop) (W Q : Type) := {
  dispatch : forall V, Serialize V -> string -> V -> prog (W * Q) ();
}.
Class ProvingWorkerListener (Serialize : Type -> Prop) (W Q : Type) := {
  listener_dispatcher : ProvingDispatcher Serialize W Q;
  subscribe : string -> prog (W * Q) ();
  receive_one : string -> option N -> prog (W * Q) (option (string * bytes));
  pop_one : string -> prog (W * Q) (option bytes);
  receive_all : string -> option N -> prog (W * Q) (list (string * bytes));
  pop_all : string -> prog (W * Q) (list bytes);
  delete_message : string -> string -> prog (W * Q) bool;
  is_empty : prog (W * Q) bool;
}.
End WorkerEvents.

(** ** Scrypt proofs *)
Module ScryptTraits.
Section headers.
Context `{!LightClient}.
Record BlockHeaderQueueItemBlockHeader := mkBlockHeaderItem {
  block_number : N;
  block_header : QDogeBlockHeader;
}.
Record BlockHeaderQueueItemRevertFork := mkRevertForkItem {
  last_good_block_number : N;
  headers : list QDogeBlockHeader;
}.
Inductive BlockHeaderQueueItem :=
| BlockHeader (item : BlockHeaderQueueItemBlockHeader)
| RevertFork (item : BlockHeaderQueueItemRevertFork).
End headers.

Abbreviation Proof := DogeBlockScryptProofOutput.
Abbreviation Input := DogeBlockScryptProofInput.

Class QScryptProofStoreReaderSync (W S : Type) := {
  get_scrypt_proof_by_scrypt_hash : S -> bytes -> prog W Proof;
  get_scrypt_proof_by_block_header : S -> bytes -> prog W Proof;
  get_scrypt_proof_by_block_hash : S -> bytes -> prog W Proof;
  contains_scrypt_proof_for_block_hash : S -> bytes -> prog W bool;
}.
Class QScryptProofStoreWriterSync (W S : Type) := {
  injest_scrypt_proof_result_mut : Proof -> prog (W * S) ();
}.
Class QScryptProofStoreWriterSyncImm (W S : Type) := {
  injest_scrypt_proof_result_imm : S -> Proof -> prog W ();
}.
Class QScryptProofStore (W S : Type) := {
  scrypt_reader : QScryptProofStoreReaderSync W S;
  scrypt_writer : QScryptProofStoreWriterSync W S;
}.
#[export] Instance scrypt_store_all {W S} `{!QScryptProofStoreReaderSync W S, !QScryptProofStoreWriterSync W S} :
  QScryptProofStore W S := {| scrypt_reader := _; scrypt_writer := _ |}.

Module AsyncReader.
Class QScryptProofStoreReaderAsync (W S : Type) := {
  get_scrypt_proof_by_scrypt_hash : S -> bytes -> prog W Proof;
  get_scrypt_proof_by_block_header : S -> bytes -> prog W Proof;
  get_scrypt_proof_by_block_hash : S -> bytes -> prog W Proof;
  contains_scrypt_proof_for_block_hash : S -> bytes -> prog W bool;
}.
End AsyncReader.
Module AsyncWriter.
Class QScryptProofStoreWriterAsyncImm (W S : Type) := {
  injest_scrypt_proof_result_imm : S -> Proof -> prog W ();
}.
End AsyncWriter.
Class QScryptProofStoreAsyncImm (W S : Type) := {
  async_scrypt_reader : AsyncReader.QScryptProofStoreReaderAsync W S;
  async_scrypt_writer : AsyncWriter.QScryptProofStoreWriterAsyncImm W S;
}.
#[export] Instance scrypt_store_async_all {W S}
    `{!AsyncReader.QScryptProofStoreReaderAsync W S, !AsyncWriter.QScryptProofStoreWriterAsyncImm W S} : QScryptProofStoreAsyncImm W S :=
  {| async_scrypt_reader := _; async_scrypt_writer := _ |}.

(** [QDummyProofStore], whose methods are [todo!()]. *)
Record QDummyProofStore := DummyProofStore {}.
Definition new : QDummyProofStore := DummyProofStore.
Definition todo {W A} : prog W A := lift (Panic "not yet implemented").
#[export] Instance dummy_reader {W} : QScryptProofStoreReaderSync W QDummyProofStore := {|
  get_scrypt_proof_by_scrypt_hash _ _ := todo;
  get_scrypt_proof_by_block_header _ _ := todo;
  get_scrypt_proof_by_block_hash _ _ := todo;
  contains_scrypt_proof_for_block_hash _ _ := todo;
|}.
#[export] Instance dummy_writer {W} : QScryptProofStoreWriterSync W QDummyProofStore := {|
  injest_scrypt_proof_result_mut _ := todo;
|}.

Class QScryptGenericProverSyncImm (W P : Type) := { scrypt_worker_prove_sync_imm : P -> Input -> prog W Proof }.
Class QScryptGenericProverSyncMut (W P : Type) := { scrypt_worker_prove_sync_mut : Input -> prog (W * P) Proof }.
Class QScryptGenericProverAsyncImm (W P : Type) := { scrypt_worker_prove_async_imm : P -> Input -> prog W Proof }.
Class QScryptGenericProverAsyncMut (W P : Type) := { scrypt_worker_prove_async_mut : Input -> prog (W * P) Proof }.

Module ScryptReceiver.
Class ScryptProverWorkerEventReceiverAsyncImm (W Q : Type) := {
  wait_for_next_job_imm : Q -> prog W Input;
  enqueue_jobs_imm_scrypt : Q -> list Input -> prog W ();
  notify_block_hash_completed : Q -> Proof -> prog W ();
}.
End ScryptReceiver.
Module ScryptTransmitter.
Class ScryptProverWorkerEventTransmitterAsyncImm (W Q : Type) := {
  enqueue_jobs_imm_scrypt : Q -> list Input -> prog W ();
  wait_for_block_hash_proof : Q -> bytes -> prog W Proof;
}.
End ScryptTransmitter.
Module BlockReceiver.
Class BlockProcessorWorkerEventReceiverAsyncImm `{!LightClient} (W Q : Type) := {
  wait_for_next_block_header : Q -> prog W BlockHeaderQueueItem;
  enqueue_block_headers_imm : Q -> list BlockHeaderQueueItem -> prog W ();
}.
End BlockReceiver.
Module BlockTransmitter.
Class BlockProcessorWorkerEventTransmitterAsyncImm `{!LightClient} (W Q : Type) := {
  enqueue_block_headers_imm : Q -> list BlockHeaderQueueItem -> prog W ();
}.
End BlockTransmitter.

(** Any use of the dummy store panics: a proof asked for or ingested. *)
Lemma dummy_panics {W} (w : W) (hash : bytes) (proof : Proof) :
  is_panic (result (get_scrypt_proof_by_scrypt_hash new hash) w) = true /\
  is_panic (result (get_scrypt_proof_by_block_header new hash) w) = true /\
  is_panic (result (get_scrypt_proof_by_block_hash new hash) w) = true /\
  is_panic (result (contains_scrypt_proof_for_block_hash new hash) w) = true /\
  is_panic (result (injest_scrypt_proof_result_mut proof) (w, new)) = true.
Proof. done. Qed.
End ScryptTraits.

(** ** Block states, [T] being the chain state *)
Module BlockStateTraits.
Section traits.
Context {T : Type}.
Abbreviation State := (IBCBlockState T).

Class IBCBlockStateStoreReaderSync (W S : Type) := {
  get_state_for_block_sync : S -> N -> prog W State;
  get_latest_state_sync : S -> prog W State;
  get_latest_state_sync_if_exists : S -> prog W State;
}.
Class IBCBlockStateStoreReaderAsync (W S : Type) := {
  get_state_for_block : S -> N -> prog W State;
  get_latest_state : S -> prog W State;
  get_latest_state_if_exists : S -> prog W (option State);
}.
Class IBCBlockStateStoreWriterSyncImm (W S : Type) := { injest_ibc_block_state_sync_imm : S -> State -> prog W () }.
Class IBCBlockStateStoreWriterSyncMut (W S : Type) := { injest_ibc_block_state_sync_mut : State -> prog (W * S) () }.
Class IBCBlockStateStoreWriterAsyncImm (W S : Type) := { injest_ibc_block_state_imm : S -> State -> prog W () }.
Class IBCBlockStateStoreWriterAsyncMut (W S : Type) := { injest_ibc_block_state_mut : State -> prog (W * S) () }.

Class IBCBlockStateStoreAsyncImm (W S : Type) := {
  async_imm_reader : IBCBlockStateStoreReaderAsync W S; async_imm_writer : IBCBlockStateStoreWriterAsyncImm W S }.
Class IBCBlockStateStoreAsyncMut (W S : Type) := {
  async_mut_reader : IBCBlockStateStoreReaderAsync W S; async_mut_writer : IBCBlockStateStoreWriterAsyncMut W S }.
Class IBCBlockStateStoreSyncImm (W S : Type) := {
  sync_imm_reader : IBCBlockStateStoreReaderSync W S; sync_imm_writer : IBCBlockStateStoreWriterSyncImm W S }.
Class IBCBlockStateStoreSyncMut (W S : Type) := {
  sync_mut_reader : IBCBlockStateStoreReaderSync W S; sync_mut_writer : IBCBlockStateStoreWriterSyncMut W S }.

#[export] Instance block_states_async_imm {W S}
    `{!IBCBlockStateStoreReaderAsync W S, !IBCBlockStateStoreWriterAsyncImm W S} : IBCBlockStateStoreAsyncImm W S :=
  {| async_imm_reader := _; async_imm_writer := _ |}.
#[export] Instance block_states_async_mut {W S}
    `{!IBCBlockStateStoreReaderAsync W S, !IBCBlockStateStoreWriterAsyncMut W S} : IBCBlockStateStoreAsyncMut W S :=
  {| async_mut_reader := _; async_mut_writer := _ |}.
#[export] Instance block_states_sync_imm {W S}
    `{!IBCBlockStateStoreReaderSync W S, !IBCBlockStateStoreWriterSyncImm W S} : IBCBlockStateStoreSyncImm W S :=
  {| sync_imm_reader := _; sync_imm_writer := _ |}.
#[export] Instance block_states_sync_mut {W S}
    `{!IBCBlockStateStoreReaderSync W S, !IBCBlockStateStoreWriterSyncMut W S} : IBCBlockStateStoreSyncMut W S :=
  {| sync_mut_reader := _; sync_mut_writer := _ |}.

Class IBCBlockSubmitterAsync (W S : Type) := {
  submit_block_result : S -> N -> State -> bytes -> DogeBlockScryptProofOutput -> prog W ();
}.
End traits.
End BlockStateTraits.

(** ** Circuit provers

    [Store] is the proof store they read, [Common], [Verifier] and [Hash] the
    data of a circuit, [Proof] a proof. *)
Module CircuitProvers.
Class QWorkerVerifyHelper (V Common Verifier Hash : Type) := {
  get_verifier_triplet_for_circuit_type : V -> ProvingJobCircuitType -> Common * Verifier * Hash;
}.
Class QWorkerGenericProverAsyncMut (W P Store Proof Common Verifier Hash : Type) := {
  async_prover_verify_helper : QWorkerVerifyHelper P Common Verifier Hash;
  async_worker_prove_mut : Store -> QProvingJobDataID -> prog (W * P) Proof;
}.
Class QWorkerGenericProverMut (W P Store Proof Common Verifier Hash : Type) := {
  prover_verify_helper : QWorkerVerifyHelper P Common Verifier Hash;
  worker_prove_mut : Store -> QProvingJobDataID -> prog (W * P) Proof;
}.
Class QWorkerCircuitSimpleWithDataSync (W C V Store Proof : Type) := {
  prove_q_worker_simple : C -> V -> Store -> QProvingJobDataID -> prog W Proof;
}.
Class QWorkerCircuitStandardWithDataSync (W C V Store I Proof : Type) := {
  prove_q_worker_standard_with_input : C -> I -> V -> Store -> QProvingJobDataID -> prog W Proof;
}.
Class QWorkerCircuitAggWithDataSync (W C V Store Proof : Type) := {
  prove_q_worker_agg : C -> V -> Store -> QProvingJobDataID -> prog W Proof;
}.
Class QWorkerCircuitCustomWithDataSync (W C V Store Proof : Type) := {
  prove_q_worker_custom : C -> V -> Store -> QProvingJobDataID -> prog W Proof;
}.
Class QWorkerCircuitCompressWithDataSync (W C Store : Type) := {
  prove_q_worker_compress : C -> Store -> QProvingJobDataID -> prog W string;
}.
Class QWorkerCircuitMutCustomWithDataSync (W C Store Proof : Type) := {
  prove_q_worker_mut_custom : Store -> QProvingJobDataID -> prog (W * C) Proof;
}.
End CircuitProvers.
