(* ===== verification/Timers.v ===== *)
(** * Timers

    [utils/debug_timer.rs] and [utils/trace_timer.rs]: timers that print the time
    since the last lap.  The console is an interface; [f64] arithmetic is the
    standard library's executable IEEE 754. *)
From Stdlib Require Import Floats.SpecFloat.
From S2P Require Import Prelude Effects NetworkRetry Files Commit KvqStore.

(** [println!] *)
Class Console (W : Type) := { println : string -> prog W () }.

Definition ESC : string := String (Ascii.ascii_of_nat 27) EmptyString.
Definition TIME_LONG : string := ESC +:+ "[48;5;124m".
Definition TIME_MEDIUM : string := ESC +:+ "[48;5;24m".
Definition TIME_FAST : string := ESC +:+ "[38;5;230m" +:+ ESC +:+ "[48;5;34m".
Definition get_time_color (elapsed_ms : N) : string :=
  if (2000 <? elapsed_ms)%N then TIME_LONG
  else if (500 <? elapsed_ms)%N then TIME_MEDIUM
  else TIME_FAST.

(** [duration.as_millis() as u64], of nanoseconds. *)
Definition millis (nanos : N) : N := ((nanos / 1000000) mod (u64_max + 1))%N.

(** ** [f64] *)
(** [n as f64]: rounded to 53 bits. *)
Definition f64_of_u64 (n : N) : spec_float := binary_normalize 53 1024 (Z.of_N n) 0 false.
(** [x.floor() as u64]: a cast saturates, and [NaN] is 0. *)
Definition f64_floor_as_u64 (x : spec_float) : N :=
  match x with
  | S754_zero _ | S754_nan => 0
  | S754_infinity negative => if negative then 0 else u64_max
  | S754_finite true _ _ => 0
  | S754_finite false m e => N.min u64_max (Z.to_N (Z.shiftl (Zpos m) e))
  end%N.
(** [((elapsed_ms as f64) / (batch_size as f64)).floor() as u64] *)
Definition per_item (elapsed_ms batch_size : N) : N :=
  f64_floor_as_u64 (SFdiv 53 1024 (f64_of_u64 elapsed_ms) (f64_of_u64 batch_size)).

(** An empty batch divides by zero: the result is 0 or the largest [u64]. *)
Lemma per_item_examples :
  per_item 1000 3 = 333%N /\ per_item 0 0 = 0%N /\ per_item 5 0 = u64_max /\ per_item 2 5 = 0%N.
Proof. by vm_compute. Qed.

(** ** [DebugTimer] *)
Record DebugTimer := mkDebugTimer { start_time : N; name : string }.

Module DebugTimerOps.
Section ops.
Context {W : Type} `{!Clock W, !Console W}.

Definition new (name : string) : prog W DebugTimer :=
  start ← query (fun w => Ok (now w)); mret (mkDebugTimer start name).

(** [self.start_time.elapsed()] in milliseconds; a clock that went back gives 0. *)
Definition elapsed_ms : prog (W * DebugTimer) N :=
  query (fun n => Ok (millis (now n.1 - n.2.(start_time)))).
(** [self.start_time = Instant::now()] *)
Definition restart : prog (W * DebugTimer) () :=
  perform (fun n => ((n.1, mkDebugTimer (now n.1) n.2.(name)), Ok ())).

Definition debug_line (name event_name : string) (ms : N) : string :=
  ESC +:+ "[96m" +:+ name +:+ ESC +:+ "[0m - " +:+ ESC +:+ "[94m" +:+ event_name +:+ ESC +:+ "[0m: "
  +:+ get_time_color ms +:+ " " +:+ decimal ms +:+ "ms " +:+ ESC +:+ "[0m".

Definition lap (event_name : string) : prog (W * DebugTimer) N :=
  elapsed_ms ← elapsed_ms;
  self ← get_self;
  call (println (debug_line self.(name) event_name elapsed_ms)) ;;
  restart ;;
  mret elapsed_ms.

(** The same as [lap], with an owned event name. *)
Definition event (event_name : string) : prog (W * DebugTimer) N :=
  elapsed_ms ← elapsed_ms;
  self ← get_self;
  call (println (debug_line self.(name) event_name elapsed_ms)) ;;
  restart ;;
  mret elapsed_ms.

Definition batch_line (name event_name batch_item_type : string) (batch_size ms : N) : string :=
  ESC +:+ "[96m" +:+ name +:+ ESC +:+ "[0m - " +:+ ESC +:+ "[94m" +:+ event_name +:+ " (" +:+ decimal batch_size
  +:+ "x - " +:+ batch_item_type +:+ ")" +:+ ESC +:+ "[0m: "
  +:+ get_time_color ms +:+ " " +:+ decimal ms +:+ "ms " +:+ ESC +:+ "[0m".
Definition per_line (name event_name batch_item_type : string) (ms : N) : string :=
  ESC +:+ "[96m" +:+ name +:+ ESC +:+ "[0m - " +:+ ESC +:+ "[94m(" +:+ event_name +:+ ") Per " +:+ batch_item_type
  +:+ ESC +:+ "[0m: " +:+ get_time_color ms +:+ " " +:+ decimal ms +:+ "ms " +:+ ESC +:+ "[0m".

Definition batch_average (event_name batch_item_type : string) (batch_size : N) : prog (W * DebugTimer) (N * N) :=
  elapsed_ms ← elapsed_ms;
  self ← get_self;
  call (println (batch_line self.(name) event_name batch_item_type batch_size elapsed_ms)) ;;
  let per_time := per_item elapsed_ms batch_size in
  call (println (per_line self.(name) event_name batch_item_type per_time)) ;;
  restart ;;
  mret (elapsed_ms, per_time).
End ops.
End DebugTimerOps.

(** ** [ImmDebugTimer]: a timer behind a lock *)
Module ImmDebugTimer.
Section ops.
Context {W : Type} `{!Clock W, !Console W}.
Abbreviation Cell := (RwLock DebugTimer).

Definition new (name : string) : prog W Cell :=
  timer ← DebugTimerOps.new name; mret {| inner := timer; readers := 0; writing := false; poisoned := false |}.

(** [self.inner.write().unwrap().f(..)]: it waits for the lock, so nobody holds
    it when [f] runs; a panic in [f] poisons it, and a poisoned lock panics. *)
Definition put_back (l : Cell) (timer : DebugTimer) (panicked : bool) : Cell :=
  {| inner := timer; readers := l.(readers); writing := l.(writing); poisoned := panicked |}.
Definition with_write {A} (f : prog (W * DebugTimer) A) : prog (W * Cell) A := fun n =>
  if n.2.(poisoned) then lift (Panic "called `Result::unwrap()` on an `Err` value: PoisonError") n
  else
    let '(t, n', r) := f (n.1, n.2.(inner)) in
    ((fun x => (x.1, put_back n.2 x.2 false)) <$> t, (n'.1, put_back n.2 n'.2 (is_panic r)), r).

Definition lap (event_name : string) : prog (W * Cell) N := with_write (DebugTimerOps.lap event_name).
Definition event (event_name : string) : prog (W * Cell) N := with_write (DebugTimerOps.event event_name).
Definition batch_average (event_name batch_item_type : string) (batch_size : N) : prog (W * Cell) (N * N) :=
  with_write (DebugTimerOps.batch_average event_name batch_item_type batch_size).
End ops.
End ImmDebugTimer.

(** ** [TraceTimer]: the same timer, in other colours *)
Record TraceTimer := mkTraceTimer { trace_start_time : N; trace_name : string }.

Module TraceTimerOps.
Section ops.
Context {W : Type} `{!Clock W, !Console W}.

Definition new (name : string) : prog W TraceTimer :=
  start ← query (fun w => Ok (now w)); mret (mkTraceTimer start name).
Definition elapsed_ms : prog (W * TraceTimer) N :=
  query (fun n => Ok (millis (now n.1 - n.2.(trace_start_time)))).
Definition restart : prog (W * TraceTimer) () :=
  perform (fun n => ((n.1, mkTraceTimer (now n.1) n.2.(trace_name)), Ok ())).

Definition trace_line (name event_name : string) (ms : N) : string :=
  ESC +:+ "[1m" +:+ ESC +:+ "[38;5;227m" +:+ ESC +:+ "[48;5;93m" +:+ name +:+ ESC +:+ "[0m - "
  +:+ ESC +:+ "[94m" +:+ event_name +:+ ESC +:+ "[0m: "
  +:+ get_time_color ms +:+ " " +:+ decimal ms +:+ "ms " +:+ ESC +:+ "[0m".

Definition lap (event_name : string) : prog (W * TraceTimer) N :=
  elapsed_ms ← elapsed_ms;
  self ← get_self;
  call (println (trace_line self.(trace_name) event_name elapsed_ms)) ;;
  restart ;;
  mret elapsed_ms.
Definition event (event_name : string) : prog (W * TraceTimer) N :=
  elapsed_ms ← elapsed_ms;
  self ← get_self;
  call (println (trace_line self.(trace_name) event_name elapsed_ms)) ;;
  restart ;;
  mret elapsed_ms.
End ops.
End TraceTimerOps.

(** ** What laps add up to *)

(** Printing takes time, or none, and succeeds. *)
Class ConsoleLaws (W : Type) `{!Clock W, !Console W} : Prop := {
  println_ok (w : W) line : result (println line) w = Ok () /\ (now w <= now (final (println line) w))%N;
}.

Section laps.
Context {W : Type} `{!Clock W, !Console W, !ConsoleLaws W}.

(** The time passes between laps, too: [gaps] is what the program does before
    each of them. *)
Fixpoint laps (gaps : list (W -> W)) (event_name : string) : prog (W * DebugTimer) (list N) :=
  match gaps with
  | [] => mret []
  | gap :: gaps =>
      perform (fun n => ((gap n.1, n.2), Ok ())) ;;
      ms ← DebugTimerOps.lap event_name;
      rest ← laps gaps event_name;
      mret (ms :: rest)
  end.

Lemma lap_result (n : W * DebugTimer) event_name :
  result (DebugTimerOps.lap event_name) n = Ok (millis (now n.1 - n.2.(start_time))) /\
  (now n.1 <= (final (DebugTimerOps.lap event_name) n).2.(start_time)
   <= now (final (DebugTimerOps.lap event_name) n).1)%N /\
  (final (DebugTimerOps.lap event_name) n).2.(name) = n.2.(name).
Proof.
  set (line := DebugTimerOps.debug_line n.2.(name) event_name (millis (now n.1 - n.2.(start_time)))).
  destruct (println_ok n.1 line) as [Er Hle]. unfold result, final in *.
  unfold DebugTimerOps.lap, DebugTimerOps.elapsed_ms, DebugTimerOps.restart, get_self, call.
  cbv [mbind prog_bind query perform mret prog_ret]. cbn [fst snd]. fold line.
  destruct (println line n.1) as [[t w'] r]. cbn [fst snd] in *. subst r. cbn [fst snd start_time name].
  split_and!; [done|exact Hle|lia|done].
Qed.

(** The milliseconds of the laps add up to no more than the time since the
    start: what an event's line reports is not counted twice. *)
Theorem laps_within (gaps : list (W -> W)) event_name (n : W * DebugTimer) :
  (forall gap, gap ∈ gaps -> forall w, (now w <= now (gap w))%N) ->
  (n.2.(start_time) <= now n.1)%N ->
  exists ms, result (laps gaps event_name) n = Ok ms /\ length ms = length gaps /\
    (foldr N.add 0 ms * 1000000 + n.2.(start_time) <= now (final (laps gaps event_name) n).1)%N.
Proof.
  revert n. induction gaps as [|gap gaps IH]; intros n Hgaps Hs.
  { exists []. cbn. split_and!; [done..|lia]. }
  cbn [laps]. rewrite result_bind, final_bind.
  set (n1 := (gap n.1, n.2)).
  change (result (perform _) n) with (Ok () : outcome ()). change (final (perform _) n) with n1.
  cbn iota. rewrite result_bind, final_bind. destruct (lap_result n1 event_name) as (El & [Hlo Hhi] & _).
  rewrite El. set (n2 := final (DebugTimerOps.lap event_name) n1) in *.
  destruct (IH n2) as (ms & Em & Hlen & Hsum); [intros g Hg; apply Hgaps; by apply list_elem_of_further|done|].
  exists (millis (now n1.1 - n1.2.(start_time)) :: ms). rewrite result_bind, final_bind, Em. split_and!; [done| |].
  { cbn. by rewrite Hlen. }
  change (final (mret _) _) with (final (laps gaps event_name) n2). cbn [foldr].
  assert (now n.1 <= now (gap n.1))%N as Hgap by (apply Hgaps; apply list_elem_of_here).
  assert (millis (now n1.1 - n1.2.(start_time)) * 1000000 <= now n1.1 - n1.2.(start_time))%N as Hm.
  { unfold millis. pose proof (N.Div0.mod_le ((now n1.1 - n1.2.(start_time)) / 1000000) (u64_max + 1)).
    pose proof (N.Div0.mul_div_le (now n1.1 - n1.2.(start_time)) 1000000). lia. }
  cbn [n1 fst snd] in *. lia.
Qed.
End laps.
